(** * vCard codec (Pamblam/vcard): a shallow embedding of the generator
      ([VCard], src/vcard.js) and of the parser ([VCardParser],
      src/parser.js), with the properties of the specification proved or
      refuted on it.

    JavaScript strings are sequences of UTF-16 code units; they are modelled
    as lists of code units ([N]).  Setters run in a state-and-exception monad
    over the contact, so that what a throwing setter leaves behind is part of
    the model. *)

From Stdlib Require Import List NArith ZArith Lia Bool Ascii String.
From stdpp Require Import gmap.
Import ListNotations.
Local Open Scope N_scope.
Local Open Scope list_scope.

(* ===================================================================== *)
(** * JavaScript strings and the built-ins the code calls                  *)
(* ===================================================================== *)

Module JS.

(** A string is its sequence of UTF-16 code units. *)
Definition jstring := list N.

(** An ASCII literal of the source. *)
Definition js (s : string) : jstring :=
  map N_of_ascii (list_ascii_of_string s).

Definition NL : N := 10.        (* "\n" *)
Definition SP : N := 32.        (* " "  *)
Definition BSL : N := 92.       (* "\\" *)
Definition DQUOTE : N := 34.    (* the double quote *)

(** [a === b] on strings. *)
Fixpoint jstr_eqb (a b : jstring) : bool :=
  match a, b with
  | [], [] => true
  | x :: a', y :: b' => (x =? y) && jstr_eqb a' b'
  | _, _ => false
  end.

(** [arr.includes(x)] on an array of strings. *)
Definition includes (arr : list jstring) (x : jstring) : bool :=
  existsb (jstr_eqb x) arr.

(** Truthiness of a string: non-empty. *)
Definition truthy (s : jstring) : bool :=
  match s with [] => false | _ => true end.

(** [arr.join(sep)]. *)
Fixpoint join (sep : jstring) (arr : list jstring) : jstring :=
  match arr with
  | [] => []
  | [x] => x
  | x :: rest => x ++ sep ++ join sep rest
  end.

(** Surrogates: [[...str]] iterates code points, a high surrogate followed
    by a low one being one element. *)
Definition is_high (c : N) : bool := (55296 <=? c) && (c <=? 56319).
Definition is_low (c : N) : bool := (56320 <=? c) && (c <=? 57343).

Fixpoint spread (s : jstring) : list jstring :=
  match s with
  | [] => []
  | c :: rest =>
      match rest with
      | d :: rest' =>
          if is_high c && is_low d then [c; d] :: spread rest'
          else [c] :: spread rest
      | [] => [[c]]
      end
  end.

(** [new Blob([s]).size]: the length of the UTF-8 encoding of [s] (a lone
    surrogate is encoded as U+FFFD, three bytes). *)
Definition unit_bytes (c : N) : N :=
  if c <? 128 then 1 else if c <? 2048 then 2 else 3.

Fixpoint blob_size (s : jstring) : N :=
  match s with
  | [] => 0
  | c :: rest =>
      match rest with
      | d :: rest' =>
          if is_high c && is_low d then 4 + blob_size rest'
          else unit_bytes c + blob_size rest
      | [] => unit_bytes c
      end
  end.

(** [s.replace(/ab/g, rep)] for a pattern of two literal code units. *)
Fixpoint replace2 (a b : N) (rep : jstring) (s : jstring) : jstring :=
  match s with
  | [] => []
  | c :: rest =>
      match rest with
      | d :: rest' =>
          if (c =? a) && (d =? b) then rep ++ replace2 a b rep rest'
          else c :: replace2 a b rep rest
      | [] => [c]
      end
  end.

(** [s.replace(/a/g, rep)] for a pattern of one literal code unit. *)
Fixpoint replace1 (a : N) (rep : jstring) (s : jstring) : jstring :=
  match s with
  | [] => []
  | c :: rest =>
      if c =? a then rep ++ replace1 a rep rest else c :: replace1 a rep rest
  end.

(** [s.split(sep)] for a separator of one code unit: every occurrence
    splits, empty pieces are kept. *)
Fixpoint split_on (sep : N) (s : jstring) : list jstring :=
  match s with
  | [] => [[]]
  | c :: rest =>
      if c =? sep then [] :: split_on sep rest
      else match split_on sep rest with
           | [] => [[c]]
           | p :: ps => (c :: p) :: ps
           end
  end.

(** The code units [\s] matches and [trim] removes (WhiteSpace and
    LineTerminator of ECMAScript). *)
Definition is_ws (c : N) : bool :=
  ((9 <=? c) && (c <=? 13)) || (c =? 32) || (c =? 160) || (c =? 5760)
  || ((8192 <=? c) && (c <=? 8202)) || (c =? 8232) || (c =? 8233)
  || (c =? 8239) || (c =? 8287) || (c =? 12288) || (c =? 65279).

(** What [.] does not match. *)
Definition is_line_terminator (c : N) : bool :=
  (c =? 10) || (c =? 13) || (c =? 8232) || (c =? 8233).

Definition is_digit (c : N) : bool := (48 <=? c) && (c <=? 57).

(** [s.replace(/\s+/g, ' ')]: [in_run] tells that the previous code unit
    was white space, already replaced. *)
Fixpoint replace_ws_runs (in_run : bool) (s : jstring) : jstring :=
  match s with
  | [] => []
  | c :: rest =>
      if is_ws c then
        if in_run then replace_ws_runs true rest
        else SP :: replace_ws_runs true rest
      else c :: replace_ws_runs false rest
  end.

Fixpoint trim_start (s : jstring) : jstring :=
  match s with
  | [] => []
  | c :: rest => if is_ws c then trim_start rest else s
  end.

(** [s.trim()]. *)
Definition trim (s : jstring) : jstring :=
  rev (trim_start (rev (trim_start s))).

(** ** [toLowerCase] and [toUpperCase]

    The two methods map the code points of the string by the case mappings
    of the Unicode Character Database that do not depend on the locale
    (UnicodeData and SpecialCasing, here of Unicode 14.0): a code point may
    be mapped to several, and a capital sigma is lower-cased according to
    what stands around it. *)

(** On the Basic Latin letters. *)
Definition lower_unit (c : N) : N :=
  if (65 <=? c) && (c <=? 90) then c + 32 else c.
Definition upper_unit (c : N) : N :=
  if (97 <=? c) && (c <=? 122) then c - 32 else c.

(** The code points of a string: a high surrogate followed by a low one is
    one code point, any other code unit is a code point by itself. *)
Fixpoint code_points (s : jstring) : list N :=
  match s with
  | [] => []
  | c :: rest =>
      match rest with
      | d :: rest' =>
          if is_high c && is_low d
          then 65536 + (c - 55296) * 1024 + (d - 56320) :: code_points rest'
          else c :: code_points rest
      | [] => [c]
      end
  end.

(** The code units of a code point. *)
Definition code_units (c : N) : jstring :=
  if c <? 65536 then [c]
  else [55296 + (c - 65536) / 1024; 56320 + (c - 65536) mod 1024].

(** A row [(first, last, step, image)] of a case table: the code points
    [first], [first + step], ... up to [last] are mapped to [image],
    [image + step], ... *)
Definition case_row : Type := N * N * N * N.

Definition row_has (c : N) (r : case_row) : bool :=
  let '(first, last, step, _) := r in
  (first <=? c) && (c <=? last) && ((c - first) mod step =? 0).

Definition row_image (c : N) (r : case_row) : N :=
  let '(first, _, _, image) := r in image + (c - first).

Definition simple_case (rows : list case_row) (c : N) : N :=
  match find (row_has c) rows with
  | Some r => row_image c r
  | None => c
  end.

Definition in_ranges (ranges : list (N * N)) (c : N) : bool :=
  existsb (fun '(first, last) => (first <=? c) && (c <=? last)) ranges.

(** The code points above ASCII that [toLowerCase] maps to one other code
    point, but for the capital sigma. *)
Definition lower_rows : list case_row :=
  [
   (192, 214, 1, 224); (216, 222, 1, 248); (256, 302, 2, 257);
   (306, 310, 2, 307); (313, 327, 2, 314); (330, 374, 2, 331);
   (376, 376, 1, 255); (377, 381, 2, 378); (385, 385, 1, 595);
   (386, 388, 2, 387); (390, 390, 1, 596); (391, 391, 1, 392);
   (393, 394, 1, 598); (395, 395, 1, 396); (398, 398, 1, 477);
   (399, 399, 1, 601); (400, 400, 1, 603); (401, 401, 1, 402);
   (403, 403, 1, 608); (404, 404, 1, 611); (406, 406, 1, 617);
   (407, 407, 1, 616); (408, 408, 1, 409); (412, 412, 1, 623);
   (413, 413, 1, 626); (415, 415, 1, 629); (416, 420, 2, 417);
   (422, 422, 1, 640); (423, 423, 1, 424); (425, 425, 1, 643);
   (428, 428, 1, 429); (430, 430, 1, 648); (431, 431, 1, 432);
   (433, 434, 1, 650); (435, 437, 2, 436); (439, 439, 1, 658);
   (440, 440, 1, 441); (444, 444, 1, 445); (452, 452, 1, 454);
   (453, 453, 1, 454); (455, 455, 1, 457); (456, 456, 1, 457);
   (458, 458, 1, 460); (459, 475, 2, 460); (478, 494, 2, 479);
   (497, 497, 1, 499); (498, 500, 2, 499); (502, 502, 1, 405);
   (503, 503, 1, 447); (504, 542, 2, 505); (544, 544, 1, 414);
   (546, 562, 2, 547); (570, 570, 1, 11365); (571, 571, 1, 572);
   (573, 573, 1, 410); (574, 574, 1, 11366); (577, 577, 1, 578);
   (579, 579, 1, 384); (580, 580, 1, 649); (581, 581, 1, 652);
   (582, 590, 2, 583); (880, 882, 2, 881); (886, 886, 1, 887);
   (895, 895, 1, 1011); (902, 902, 1, 940); (904, 906, 1, 941);
   (908, 908, 1, 972); (910, 911, 1, 973); (913, 929, 1, 945);
   (932, 939, 1, 964); (975, 975, 1, 983); (984, 1006, 2, 985);
   (1012, 1012, 1, 952); (1015, 1015, 1, 1016); (1017, 1017, 1, 1010);
   (1018, 1018, 1, 1019); (1021, 1023, 1, 891); (1024, 1039, 1, 1104);
   (1040, 1071, 1, 1072); (1120, 1152, 2, 1121); (1162, 1214, 2, 1163);
   (1216, 1216, 1, 1231); (1217, 1229, 2, 1218); (1232, 1326, 2, 1233);
   (1329, 1366, 1, 1377); (4256, 4293, 1, 11520); (4295, 4295, 1, 11559);
   (4301, 4301, 1, 11565); (5024, 5103, 1, 43888); (5104, 5109, 1, 5112);
   (7312, 7354, 1, 4304); (7357, 7359, 1, 4349); (7680, 7828, 2, 7681);
   (7838, 7838, 1, 223); (7840, 7934, 2, 7841); (7944, 7951, 1, 7936);
   (7960, 7965, 1, 7952); (7976, 7983, 1, 7968); (7992, 7999, 1, 7984);
   (8008, 8013, 1, 8000); (8025, 8031, 2, 8017); (8040, 8047, 1, 8032);
   (8072, 8079, 1, 8064); (8088, 8095, 1, 8080); (8104, 8111, 1, 8096);
   (8120, 8121, 1, 8112); (8122, 8123, 1, 8048); (8124, 8124, 1, 8115);
   (8136, 8139, 1, 8050); (8140, 8140, 1, 8131); (8152, 8153, 1, 8144);
   (8154, 8155, 1, 8054); (8168, 8169, 1, 8160); (8170, 8171, 1, 8058);
   (8172, 8172, 1, 8165); (8184, 8185, 1, 8056); (8186, 8187, 1, 8060);
   (8188, 8188, 1, 8179); (8486, 8486, 1, 969); (8490, 8490, 1, 107);
   (8491, 8491, 1, 229); (8498, 8498, 1, 8526); (8544, 8559, 1, 8560);
   (8579, 8579, 1, 8580); (9398, 9423, 1, 9424); (11264, 11311, 1, 11312);
   (11360, 11360, 1, 11361); (11362, 11362, 1, 619); (11363, 11363, 1, 7549);
   (11364, 11364, 1, 637); (11367, 11371, 2, 11368); (11373, 11373, 1, 593);
   (11374, 11374, 1, 625); (11375, 11375, 1, 592); (11376, 11376, 1, 594);
   (11378, 11378, 1, 11379); (11381, 11381, 1, 11382);
   (11390, 11391, 1, 575); (11392, 11490, 2, 11393);
   (11499, 11501, 2, 11500); (11506, 11506, 1, 11507);
   (42560, 42604, 2, 42561); (42624, 42650, 2, 42625);
   (42786, 42798, 2, 42787); (42802, 42862, 2, 42803);
   (42873, 42875, 2, 42874); (42877, 42877, 1, 7545);
   (42878, 42886, 2, 42879); (42891, 42891, 1, 42892);
   (42893, 42893, 1, 613); (42896, 42898, 2, 42897);
   (42902, 42920, 2, 42903); (42922, 42922, 1, 614); (42923, 42923, 1, 604);
   (42924, 42924, 1, 609); (42925, 42925, 1, 620); (42926, 42926, 1, 618);
   (42928, 42928, 1, 670); (42929, 42929, 1, 647); (42930, 42930, 1, 669);
   (42931, 42931, 1, 43859); (42932, 42946, 2, 42933);
   (42948, 42948, 1, 42900); (42949, 42949, 1, 642); (42950, 42950, 1, 7566);
   (42951, 42953, 2, 42952); (42960, 42960, 1, 42961);
   (42966, 42968, 2, 42967); (42997, 42997, 1, 42998);
   (65313, 65338, 1, 65345); (66560, 66599, 1, 66600);
   (66736, 66771, 1, 66776); (66928, 66938, 1, 66967);
   (66940, 66954, 1, 66979); (66956, 66962, 1, 66995);
   (66964, 66965, 1, 67003); (68736, 68786, 1, 68800);
   (71840, 71871, 1, 71872); (93760, 93791, 1, 93792);
   (125184, 125217, 1, 125218)
  ].

(** The code points above ASCII that [toUpperCase] maps to one other code
    point. *)
Definition upper_rows : list case_row :=
  [
   (181, 181, 1, 924); (224, 246, 1, 192); (248, 254, 1, 216);
   (255, 255, 1, 376); (257, 303, 2, 256); (305, 305, 1, 73);
   (307, 311, 2, 306); (314, 328, 2, 313); (331, 375, 2, 330);
   (378, 382, 2, 377); (383, 383, 1, 83); (384, 384, 1, 579);
   (387, 389, 2, 386); (392, 392, 1, 391); (396, 396, 1, 395);
   (402, 402, 1, 401); (405, 405, 1, 502); (409, 409, 1, 408);
   (410, 410, 1, 573); (414, 414, 1, 544); (417, 421, 2, 416);
   (424, 424, 1, 423); (429, 429, 1, 428); (432, 432, 1, 431);
   (436, 438, 2, 435); (441, 441, 1, 440); (445, 445, 1, 444);
   (447, 447, 1, 503); (453, 453, 1, 452); (454, 454, 1, 452);
   (456, 456, 1, 455); (457, 457, 1, 455); (459, 459, 1, 458);
   (460, 460, 1, 458); (462, 476, 2, 461); (477, 477, 1, 398);
   (479, 495, 2, 478); (498, 498, 1, 497); (499, 499, 1, 497);
   (501, 501, 1, 500); (505, 543, 2, 504); (547, 563, 2, 546);
   (572, 572, 1, 571); (575, 576, 1, 11390); (578, 578, 1, 577);
   (583, 591, 2, 582); (592, 592, 1, 11375); (593, 593, 1, 11373);
   (594, 594, 1, 11376); (595, 595, 1, 385); (596, 596, 1, 390);
   (598, 599, 1, 393); (601, 601, 1, 399); (603, 603, 1, 400);
   (604, 604, 1, 42923); (608, 608, 1, 403); (609, 609, 1, 42924);
   (611, 611, 1, 404); (613, 613, 1, 42893); (614, 614, 1, 42922);
   (616, 616, 1, 407); (617, 617, 1, 406); (618, 618, 1, 42926);
   (619, 619, 1, 11362); (620, 620, 1, 42925); (623, 623, 1, 412);
   (625, 625, 1, 11374); (626, 626, 1, 413); (629, 629, 1, 415);
   (637, 637, 1, 11364); (640, 640, 1, 422); (642, 642, 1, 42949);
   (643, 643, 1, 425); (647, 647, 1, 42929); (648, 648, 1, 430);
   (649, 649, 1, 580); (650, 651, 1, 433); (652, 652, 1, 581);
   (658, 658, 1, 439); (669, 669, 1, 42930); (670, 670, 1, 42928);
   (837, 837, 1, 921); (881, 883, 2, 880); (887, 887, 1, 886);
   (891, 893, 1, 1021); (940, 940, 1, 902); (941, 943, 1, 904);
   (945, 961, 1, 913); (962, 962, 1, 931); (963, 971, 1, 931);
   (972, 972, 1, 908); (973, 974, 1, 910); (976, 976, 1, 914);
   (977, 977, 1, 920); (981, 981, 1, 934); (982, 982, 1, 928);
   (983, 983, 1, 975); (985, 1007, 2, 984); (1008, 1008, 1, 922);
   (1009, 1009, 1, 929); (1010, 1010, 1, 1017); (1011, 1011, 1, 895);
   (1013, 1013, 1, 917); (1016, 1016, 1, 1015); (1019, 1019, 1, 1018);
   (1072, 1103, 1, 1040); (1104, 1119, 1, 1024); (1121, 1153, 2, 1120);
   (1163, 1215, 2, 1162); (1218, 1230, 2, 1217); (1231, 1231, 1, 1216);
   (1233, 1327, 2, 1232); (1377, 1414, 1, 1329); (4304, 4346, 1, 7312);
   (4349, 4351, 1, 7357); (5112, 5117, 1, 5104); (7296, 7296, 1, 1042);
   (7297, 7297, 1, 1044); (7298, 7298, 1, 1054); (7299, 7300, 1, 1057);
   (7301, 7301, 1, 1058); (7302, 7302, 1, 1066); (7303, 7303, 1, 1122);
   (7304, 7304, 1, 42570); (7545, 7545, 1, 42877); (7549, 7549, 1, 11363);
   (7566, 7566, 1, 42950); (7681, 7829, 2, 7680); (7835, 7835, 1, 7776);
   (7841, 7935, 2, 7840); (7936, 7943, 1, 7944); (7952, 7957, 1, 7960);
   (7968, 7975, 1, 7976); (7984, 7991, 1, 7992); (8000, 8005, 1, 8008);
   (8017, 8023, 2, 8025); (8032, 8039, 1, 8040); (8048, 8049, 1, 8122);
   (8050, 8053, 1, 8136); (8054, 8055, 1, 8154); (8056, 8057, 1, 8184);
   (8058, 8059, 1, 8170); (8060, 8061, 1, 8186); (8112, 8113, 1, 8120);
   (8126, 8126, 1, 921); (8144, 8145, 1, 8152); (8160, 8161, 1, 8168);
   (8165, 8165, 1, 8172); (8526, 8526, 1, 8498); (8560, 8575, 1, 8544);
   (8580, 8580, 1, 8579); (9424, 9449, 1, 9398); (11312, 11359, 1, 11264);
   (11361, 11361, 1, 11360); (11365, 11365, 1, 570); (11366, 11366, 1, 574);
   (11368, 11372, 2, 11367); (11379, 11379, 1, 11378);
   (11382, 11382, 1, 11381); (11393, 11491, 2, 11392);
   (11500, 11502, 2, 11499); (11507, 11507, 1, 11506);
   (11520, 11557, 1, 4256); (11559, 11559, 1, 4295); (11565, 11565, 1, 4301);
   (42561, 42605, 2, 42560); (42625, 42651, 2, 42624);
   (42787, 42799, 2, 42786); (42803, 42863, 2, 42802);
   (42874, 42876, 2, 42873); (42879, 42887, 2, 42878);
   (42892, 42892, 1, 42891); (42897, 42899, 2, 42896);
   (42900, 42900, 1, 42948); (42903, 42921, 2, 42902);
   (42933, 42947, 2, 42932); (42952, 42954, 2, 42951);
   (42961, 42961, 1, 42960); (42967, 42969, 2, 42966);
   (42998, 42998, 1, 42997); (43859, 43859, 1, 42931);
   (43888, 43967, 1, 5024); (65345, 65370, 1, 65313);
   (66600, 66639, 1, 66560); (66776, 66811, 1, 66736);
   (66967, 66977, 1, 66928); (66979, 66993, 1, 66940);
   (66995, 67001, 1, 66956); (67003, 67004, 1, 66964);
   (68800, 68850, 1, 68736); (71872, 71903, 1, 71840);
   (93792, 93823, 1, 93760); (125218, 125251, 1, 125184)
  ].

(** The code points that [toUpperCase] maps to several (SpecialCasing). *)
Definition upper_special : list (N * list N) :=
  [
   (223, [83; 83]); (329, [700; 78]); (496, [74; 780]);
   (912, [921; 776; 769]); (944, [933; 776; 769]); (1415, [1333; 1362]);
   (7830, [72; 817]); (7831, [84; 776]); (7832, [87; 778]);
   (7833, [89; 778]); (7834, [65; 702]); (8016, [933; 787]);
   (8018, [933; 787; 768]); (8020, [933; 787; 769]); (8022, [933; 787; 834]);
   (8064, [7944; 921]); (8065, [7945; 921]); (8066, [7946; 921]);
   (8067, [7947; 921]); (8068, [7948; 921]); (8069, [7949; 921]);
   (8070, [7950; 921]); (8071, [7951; 921]); (8072, [7944; 921]);
   (8073, [7945; 921]); (8074, [7946; 921]); (8075, [7947; 921]);
   (8076, [7948; 921]); (8077, [7949; 921]); (8078, [7950; 921]);
   (8079, [7951; 921]); (8080, [7976; 921]); (8081, [7977; 921]);
   (8082, [7978; 921]); (8083, [7979; 921]); (8084, [7980; 921]);
   (8085, [7981; 921]); (8086, [7982; 921]); (8087, [7983; 921]);
   (8088, [7976; 921]); (8089, [7977; 921]); (8090, [7978; 921]);
   (8091, [7979; 921]); (8092, [7980; 921]); (8093, [7981; 921]);
   (8094, [7982; 921]); (8095, [7983; 921]); (8096, [8040; 921]);
   (8097, [8041; 921]); (8098, [8042; 921]); (8099, [8043; 921]);
   (8100, [8044; 921]); (8101, [8045; 921]); (8102, [8046; 921]);
   (8103, [8047; 921]); (8104, [8040; 921]); (8105, [8041; 921]);
   (8106, [8042; 921]); (8107, [8043; 921]); (8108, [8044; 921]);
   (8109, [8045; 921]); (8110, [8046; 921]); (8111, [8047; 921]);
   (8114, [8122; 921]); (8115, [913; 921]); (8116, [902; 921]);
   (8118, [913; 834]); (8119, [913; 834; 921]); (8124, [913; 921]);
   (8130, [8138; 921]); (8131, [919; 921]); (8132, [905; 921]);
   (8134, [919; 834]); (8135, [919; 834; 921]); (8140, [919; 921]);
   (8146, [921; 776; 768]); (8147, [921; 776; 769]); (8150, [921; 834]);
   (8151, [921; 776; 834]); (8162, [933; 776; 768]); (8163, [933; 776; 769]);
   (8164, [929; 787]); (8166, [933; 834]); (8167, [933; 776; 834]);
   (8178, [8186; 921]); (8179, [937; 921]); (8180, [911; 921]);
   (8182, [937; 834]); (8183, [937; 834; 921]); (8188, [937; 921]);
   (64256, [70; 70]); (64257, [70; 73]); (64258, [70; 76]);
   (64259, [70; 70; 73]); (64260, [70; 70; 76]); (64261, [83; 84]);
   (64262, [83; 84]); (64275, [1348; 1350]); (64276, [1348; 1333]);
   (64277, [1348; 1339]); (64278, [1358; 1350]); (64279, [1348; 1341])
  ].

(** The case-ignorable code points, which the test of a final sigma skips. *)
Definition case_ignorable_ranges : list (N * N) :=
  [
   (39, 39); (46, 46); (58, 58); (94, 94); (96, 96); (168, 168); (173, 173);
   (175, 175); (180, 180); (183, 184); (688, 879); (884, 885); (890, 890);
   (900, 901); (903, 903); (1155, 1161); (1369, 1369); (1375, 1375);
   (1425, 1469); (1471, 1471); (1473, 1474); (1476, 1477); (1479, 1479);
   (1524, 1524); (1536, 1541); (1552, 1562); (1564, 1564); (1600, 1600);
   (1611, 1631); (1648, 1648); (1750, 1757); (1759, 1768); (1770, 1773);
   (1807, 1807); (1809, 1809); (1840, 1866); (1958, 1968); (2027, 2037);
   (2042, 2042); (2045, 2045); (2070, 2093); (2137, 2139); (2184, 2184);
   (2192, 2193); (2200, 2207); (2249, 2306); (2362, 2362); (2364, 2364);
   (2369, 2376); (2381, 2381); (2385, 2391); (2402, 2403); (2417, 2417);
   (2433, 2433); (2492, 2492); (2497, 2500); (2509, 2509); (2530, 2531);
   (2558, 2558); (2561, 2562); (2620, 2620); (2625, 2626); (2631, 2632);
   (2635, 2637); (2641, 2641); (2672, 2673); (2677, 2677); (2689, 2690);
   (2748, 2748); (2753, 2757); (2759, 2760); (2765, 2765); (2786, 2787);
   (2810, 2815); (2817, 2817); (2876, 2876); (2879, 2879); (2881, 2884);
   (2893, 2893); (2901, 2902); (2914, 2915); (2946, 2946); (3008, 3008);
   (3021, 3021); (3072, 3072); (3076, 3076); (3132, 3132); (3134, 3136);
   (3142, 3144); (3146, 3149); (3157, 3158); (3170, 3171); (3201, 3201);
   (3260, 3260); (3263, 3263); (3270, 3270); (3276, 3277); (3298, 3299);
   (3328, 3329); (3387, 3388); (3393, 3396); (3405, 3405); (3426, 3427);
   (3457, 3457); (3530, 3530); (3538, 3540); (3542, 3542); (3633, 3633);
   (3636, 3642); (3654, 3662); (3761, 3761); (3764, 3772); (3782, 3782);
   (3784, 3789); (3864, 3865); (3893, 3893); (3895, 3895); (3897, 3897);
   (3953, 3966); (3968, 3972); (3974, 3975); (3981, 3991); (3993, 4028);
   (4038, 4038); (4141, 4144); (4146, 4151); (4153, 4154); (4157, 4158);
   (4184, 4185); (4190, 4192); (4209, 4212); (4226, 4226); (4229, 4230);
   (4237, 4237); (4253, 4253); (4348, 4348); (4957, 4959); (5906, 5908);
   (5938, 5939); (5970, 5971); (6002, 6003); (6068, 6069); (6071, 6077);
   (6086, 6086); (6089, 6099); (6103, 6103); (6109, 6109); (6155, 6159);
   (6211, 6211); (6277, 6278); (6313, 6313); (6432, 6434); (6439, 6440);
   (6450, 6450); (6457, 6459); (6679, 6680); (6683, 6683); (6742, 6742);
   (6744, 6750); (6752, 6752); (6754, 6754); (6757, 6764); (6771, 6780);
   (6783, 6783); (6823, 6823); (6832, 6862); (6912, 6915); (6964, 6964);
   (6966, 6970); (6972, 6972); (6978, 6978); (7019, 7027); (7040, 7041);
   (7074, 7077); (7080, 7081); (7083, 7085); (7142, 7142); (7144, 7145);
   (7149, 7149); (7151, 7153); (7212, 7219); (7222, 7223); (7288, 7293);
   (7376, 7378); (7380, 7392); (7394, 7400); (7405, 7405); (7412, 7412);
   (7416, 7417); (7468, 7530); (7544, 7544); (7579, 7679); (8125, 8125);
   (8127, 8129); (8141, 8143); (8157, 8159); (8173, 8175); (8189, 8190);
   (8203, 8207); (8216, 8217); (8228, 8228); (8231, 8231); (8234, 8238);
   (8288, 8292); (8294, 8303); (8305, 8305); (8319, 8319); (8336, 8348);
   (8400, 8432); (11388, 11389); (11503, 11505); (11631, 11631);
   (11647, 11647); (11744, 11775); (11823, 11823); (12293, 12293);
   (12330, 12333); (12337, 12341); (12347, 12347); (12441, 12446);
   (12540, 12542); (40981, 40981); (42232, 42237); (42508, 42508);
   (42607, 42610); (42612, 42621); (42623, 42623); (42652, 42655);
   (42736, 42737); (42752, 42785); (42864, 42864); (42888, 42890);
   (42994, 42996); (43000, 43001); (43010, 43010); (43014, 43014);
   (43019, 43019); (43045, 43046); (43052, 43052); (43204, 43205);
   (43232, 43249); (43263, 43263); (43302, 43309); (43335, 43345);
   (43392, 43394); (43443, 43443); (43446, 43449); (43452, 43453);
   (43471, 43471); (43493, 43494); (43561, 43566); (43569, 43570);
   (43573, 43574); (43587, 43587); (43596, 43596); (43632, 43632);
   (43644, 43644); (43696, 43696); (43698, 43700); (43703, 43704);
   (43710, 43711); (43713, 43713); (43741, 43741); (43756, 43757);
   (43763, 43764); (43766, 43766); (43867, 43871); (43881, 43883);
   (44005, 44005); (44008, 44008); (44013, 44013); (64286, 64286);
   (64434, 64450); (65024, 65039); (65043, 65043); (65056, 65071);
   (65106, 65106); (65109, 65109); (65279, 65279); (65287, 65287);
   (65294, 65294); (65306, 65306); (65342, 65342); (65344, 65344);
   (65392, 65392); (65438, 65439); (65507, 65507); (65529, 65531);
   (66045, 66045); (66272, 66272); (66422, 66426); (67456, 67461);
   (67463, 67504); (67506, 67514); (68097, 68099); (68101, 68102);
   (68108, 68111); (68152, 68154); (68159, 68159); (68325, 68326);
   (68900, 68903); (69291, 69292); (69446, 69456); (69506, 69509);
   (69633, 69633); (69688, 69702); (69744, 69744); (69747, 69748);
   (69759, 69761); (69811, 69814); (69817, 69818); (69821, 69821);
   (69826, 69826); (69837, 69837); (69888, 69890); (69927, 69931);
   (69933, 69940); (70003, 70003); (70016, 70017); (70070, 70078);
   (70089, 70092); (70095, 70095); (70191, 70193); (70196, 70196);
   (70198, 70199); (70206, 70206); (70367, 70367); (70371, 70378);
   (70400, 70401); (70459, 70460); (70464, 70464); (70502, 70508);
   (70512, 70516); (70712, 70719); (70722, 70724); (70726, 70726);
   (70750, 70750); (70835, 70840); (70842, 70842); (70847, 70848);
   (70850, 70851); (71090, 71093); (71100, 71101); (71103, 71104);
   (71132, 71133); (71219, 71226); (71229, 71229); (71231, 71232);
   (71339, 71339); (71341, 71341); (71344, 71349); (71351, 71351);
   (71453, 71455); (71458, 71461); (71463, 71467); (71727, 71735);
   (71737, 71738); (71995, 71996); (71998, 71998); (72003, 72003);
   (72148, 72151); (72154, 72155); (72160, 72160); (72193, 72202);
   (72243, 72248); (72251, 72254); (72263, 72263); (72273, 72278);
   (72281, 72283); (72330, 72342); (72344, 72345); (72752, 72758);
   (72760, 72765); (72767, 72767); (72850, 72871); (72874, 72880);
   (72882, 72883); (72885, 72886); (73009, 73014); (73018, 73018);
   (73020, 73021); (73023, 73029); (73031, 73031); (73104, 73105);
   (73109, 73109); (73111, 73111); (73459, 73460); (78896, 78904);
   (92912, 92916); (92976, 92982); (92992, 92995); (94031, 94031);
   (94095, 94111); (94176, 94177); (94179, 94180); (110576, 110579);
   (110581, 110587); (110589, 110590); (113821, 113822); (113824, 113827);
   (118528, 118573); (118576, 118598); (119143, 119145); (119155, 119170);
   (119173, 119179); (119210, 119213); (119362, 119364); (121344, 121398);
   (121403, 121452); (121461, 121461); (121476, 121476); (121499, 121503);
   (121505, 121519); (122880, 122886); (122888, 122904); (122907, 122913);
   (122915, 122916); (122918, 122922); (123184, 123197); (123566, 123566);
   (123628, 123631); (125136, 125142); (125252, 125259); (127995, 127999);
   (917505, 917505); (917536, 917631); (917760, 917999)
  ].

(** The cased letters among the code points that are not case-ignorable. *)
Definition cased_ranges : list (N * N) :=
  [
   (65, 90); (97, 122); (170, 170); (181, 181); (186, 186); (192, 214);
   (216, 246); (248, 442); (444, 447); (452, 659); (661, 687); (880, 883);
   (886, 887); (891, 893); (895, 895); (902, 902); (904, 906); (908, 908);
   (910, 929); (931, 1013); (1015, 1153); (1162, 1327); (1329, 1366);
   (1376, 1416); (4256, 4293); (4295, 4295); (4301, 4301); (4304, 4346);
   (4349, 4351); (5024, 5109); (5112, 5117); (7296, 7304); (7312, 7354);
   (7357, 7359); (7424, 7467); (7531, 7543); (7545, 7578); (7680, 7957);
   (7960, 7965); (7968, 8005); (8008, 8013); (8016, 8023); (8025, 8025);
   (8027, 8027); (8029, 8029); (8031, 8061); (8064, 8116); (8118, 8124);
   (8126, 8126); (8130, 8132); (8134, 8140); (8144, 8147); (8150, 8155);
   (8160, 8172); (8178, 8180); (8182, 8188); (8450, 8450); (8455, 8455);
   (8458, 8467); (8469, 8469); (8473, 8477); (8484, 8484); (8486, 8486);
   (8488, 8488); (8490, 8493); (8495, 8500); (8505, 8505); (8508, 8511);
   (8517, 8521); (8526, 8526); (8544, 8575); (8579, 8580); (9398, 9449);
   (11264, 11387); (11390, 11492); (11499, 11502); (11506, 11507);
   (11520, 11557); (11559, 11559); (11565, 11565); (42560, 42605);
   (42624, 42651); (42786, 42863); (42865, 42887); (42891, 42894);
   (42896, 42954); (42960, 42961); (42963, 42963); (42965, 42969);
   (42997, 42998); (43002, 43002); (43824, 43866); (43872, 43880);
   (43888, 43967); (64256, 64262); (64275, 64279); (65313, 65338);
   (65345, 65370); (66560, 66639); (66736, 66771); (66776, 66811);
   (66928, 66938); (66940, 66954); (66956, 66962); (66964, 66965);
   (66967, 66977); (66979, 66993); (66995, 67001); (67003, 67004);
   (68736, 68786); (68800, 68850); (71840, 71903); (93760, 93823);
   (119808, 119892); (119894, 119964); (119966, 119967); (119970, 119970);
   (119973, 119974); (119977, 119980); (119982, 119993); (119995, 119995);
   (119997, 120003); (120005, 120069); (120071, 120074); (120077, 120084);
   (120086, 120092); (120094, 120121); (120123, 120126); (120128, 120132);
   (120134, 120134); (120138, 120144); (120146, 120485); (120488, 120512);
   (120514, 120538); (120540, 120570); (120572, 120596); (120598, 120628);
   (120630, 120654); (120656, 120686); (120688, 120712); (120714, 120744);
   (120746, 120770); (120772, 120779); (122624, 122633); (122635, 122654);
   (125184, 125251); (127280, 127305); (127312, 127337); (127344, 127369)
  ].

Definition case_ignorable (c : N) : bool := in_ranges case_ignorable_ranges c.
Definition cased (c : N) : bool := in_ranges cased_ranges c.

(** What a code point other than the capital sigma is lower-cased to; the
    capital I with dot above (U+0130) gives two code points. *)
Definition lower_point (c : N) : list N :=
  if c <? 128 then [lower_unit c]
  else if c =? 304 then [105; 775]
  else [simple_case lower_rows c].

Definition upper_point (c : N) : list N :=
  if c <? 128 then [upper_unit c]
  else match find (fun r => fst r =? c) upper_special with
       | Some r => snd r
       | None => [simple_case upper_rows c]
       end.

(** The nearest code point that is not case-ignorable is a cased letter. *)
Fixpoint cased_next (cps : list N) : bool :=
  match cps with
  | [] => false
  | c :: rest => if case_ignorable c then cased_next rest else cased c
  end.

(** A capital sigma (U+03A3) is a final one, lower-cased to U+03C2 and not
    to U+03C3, when a cased letter stands before it and none after it,
    case-ignorable code points apart.  [before] holds the code points
    already seen, the nearest first. *)
Fixpoint lower_points (before cps : list N) : list N :=
  match cps with
  | [] => []
  | c :: rest =>
      (if c =? 931 then
         if cased_next before && negb (cased_next rest) then [962] else [963]
       else lower_point c)
      ++ lower_points (c :: before) rest
  end.

(** [s.toLowerCase()] and [s.toUpperCase()]. *)
Definition toLowerCase (s : jstring) : jstring :=
  flat_map code_units (lower_points [] (code_points s)).
Definition toUpperCase (s : jstring) : jstring :=
  flat_map code_units (flat_map upper_point (code_points s)).

(** [s.replace(/[^\d]/g, '')] (and [/[^\d]*/g]): the digits of [s]. *)
Definition digits_of (s : jstring) : jstring := List.filter is_digit s.

(** [s.split(/C+/)] for a class [C] of code units: the pieces between the
    maximal runs of [C]; [in_sep] tells that the previous code unit was
    in [C]. *)
Fixpoint split_runs (sep : N -> bool) (in_sep : bool) (s : jstring)
  : list jstring :=
  match s with
  | [] => [[]]
  | c :: rest =>
      if sep c then
        if in_sep then split_runs sep true rest
        else [] :: split_runs sep true rest
      else match split_runs sep false rest with
           | p :: ps => (c :: p) :: ps
           | [] => [[c]]
           end
  end.

(** [s.match(/(\\.|[^D])+/g)] for a delimiter [D]: the maximal non-empty
    pieces between unescaped delimiters, a backslash taking the next code
    unit with it unless that is a line terminator.  The empty list is
    JavaScript's [null].  [esc] tells that the current unit is the one a
    backslash took, [cur] is the piece matched so far. *)
Fixpoint segments (delim : N) (esc : bool) (cur : jstring) (s : jstring)
  : list jstring :=
  match s with
  | [] => if truthy cur then [cur] else []
  | c :: rest =>
      if esc then segments delim false (cur ++ [c]) rest
      else if (c =? BSL)
              && match rest with
                 | d :: _ => negb (is_line_terminator d)
                 | [] => false
                 end
      then segments delim true (cur ++ [c]) rest
      else if c =? delim then
        if truthy cur then cur :: segments delim false [] rest
        else segments delim false [] rest
      else segments delim false (cur ++ [c]) rest
  end.

Definition match_segments (delim : N) (s : jstring) : list jstring :=
  segments delim false [] s.

(** Decimal numerals. *)
Fixpoint uint_to_js (d : Decimal.uint) : jstring :=
  match d with
  | Decimal.Nil => []
  | Decimal.D0 d => 48 :: uint_to_js d
  | Decimal.D1 d => 49 :: uint_to_js d
  | Decimal.D2 d => 50 :: uint_to_js d
  | Decimal.D3 d => 51 :: uint_to_js d
  | Decimal.D4 d => 52 :: uint_to_js d
  | Decimal.D5 d => 53 :: uint_to_js d
  | Decimal.D6 d => 54 :: uint_to_js d
  | Decimal.D7 d => 55 :: uint_to_js d
  | Decimal.D8 d => 56 :: uint_to_js d
  | Decimal.D9 d => 57 :: uint_to_js d
  end.

(** [String(n)] for an integer. *)
Definition N_to_js (n : N) : jstring := uint_to_js (N.to_uint n).
Definition Z_to_js (z : Z) : jstring :=
  match z with
  | Zneg p => 45 :: N_to_js (Npos p)
  | _ => N_to_js (Z.to_N z)
  end.

(** [+s] for a string of digits. *)
Definition digits_to_N (s : jstring) : N :=
  fold_left (fun acc c => 10 * acc + (c - 48)) s 0.

(** [parseInt(s)] where [s] starts with a digit (the code calls it on
    "3.0" and "4.0" only). *)
Fixpoint leading_digits (s : jstring) : jstring :=
  match s with
  | c :: rest => if is_digit c then c :: leading_digits rest else []
  | [] => []
  end.
Definition parseInt (s : jstring) : Z := Z.of_N (digits_to_N (leading_digits s)).

(** [n.toString().padStart(w, '0')]. *)
Definition pad0 (w : nat) (n : N) : jstring :=
  let d := N_to_js n in repeat 48 (w - length d) ++ d.

(** ** Regular expressions tested against a whole string *)

Inductive regex :=
| RVoid
| REps
| RSym (p : N -> bool)
| RCat (r1 r2 : regex)
| RAlt (r1 r2 : regex)
| RStar (r : regex).

Fixpoint nullable (r : regex) : bool :=
  match r with
  | RVoid => false
  | REps => true
  | RSym _ => false
  | RCat r1 r2 => nullable r1 && nullable r2
  | RAlt r1 r2 => nullable r1 || nullable r2
  | RStar _ => true
  end.

Fixpoint deriv (c : N) (r : regex) : regex :=
  match r with
  | RVoid => RVoid
  | REps => RVoid
  | RSym p => if p c then REps else RVoid
  | RCat r1 r2 =>
      if nullable r1 then RAlt (RCat (deriv c r1) r2) (deriv c r2)
      else RCat (deriv c r1) r2
  | RAlt r1 r2 => RAlt (deriv c r1) (deriv c r2)
  | RStar r1 => RCat (deriv c r1) (RStar r1)
  end.

(** [/^r$/.test(s)]. *)
Definition regex_test (r : regex) (s : jstring) : bool :=
  nullable (fold_left (fun r c => deriv c r) s r).

Definition RLit (c : N) : regex := RSym (N.eqb c).
Definition RPlus (r : regex) : regex := RCat r (RStar r).
Definition ROpt (r : regex) : regex := RAlt REps r.
Fixpoint RSeq (rs : list regex) : regex :=
  match rs with
  | [] => REps
  | r :: rest => RCat r (RSeq rest)
  end.

(** ** Dates: the time value in milliseconds since the epoch, or NaN *)

Record Date := MkDate { time_value : option Z }.

Definition ms_per_day : Z := 86400000.

(** Day number (days since 1970-01-01) of a civil date, and back, in the
    proleptic Gregorian calendar ([month] is 1..12). *)
Definition days_from_civil (y m d : Z) : Z :=
  let y := (if m <=? 2 then y - 1 else y)%Z in
  let era := (y / 400)%Z in
  let yoe := (y - era * 400)%Z in
  let mp := (if 2 <? m then m - 3 else m + 9)%Z in
  let doy := ((153 * mp + 2) / 5 + d - 1)%Z in
  let doe := (yoe * 365 + yoe / 4 - yoe / 100 + doy)%Z in
  (era * 146097 + doe - 719468)%Z.

Definition civil_from_days (z : Z) : Z * Z * Z :=
  let z := (z + 719468)%Z in
  let era := (z / 146097)%Z in
  let doe := (z - era * 146097)%Z in
  let yoe := ((doe - doe / 1460 + doe / 36524 - doe / 146096) / 365)%Z in
  let y := (yoe + era * 400)%Z in
  let doy := (doe - (365 * yoe + yoe / 4 - yoe / 100))%Z in
  let mp := ((5 * doy + 2) / 153)%Z in
  let d := (doy - (153 * mp + 2) / 5 + 1)%Z in
  let m := (if mp <? 10 then mp + 3 else mp - 9)%Z in
  ((if m <=? 2 then y + 1 else y)%Z, m, d).

(** [Date.UTC(year, month, day, hours, minutes, seconds)] wrapped in
    [new Date(...)]: years 0..99 mean 1900..1999, [month] is 0-based and may
    overflow, and a time value beyond 8.64e15 ms is NaN. *)
Definition Date_UTC (year month day hours minutes seconds : Z) : Date :=
  let yr := (if (0 <=? year) && (year <=? 99) then 1900 + year else year)%Z in
  let ym := (yr + month / 12)%Z in
  let mn := (month mod 12)%Z in
  let dayno := (days_from_civil ym (mn + 1) 1 + day - 1)%Z in
  let t := (dayno * ms_per_day
            + hours * 3600000 + minutes * 60000 + seconds * 1000)%Z in
  if (Z.abs t <=? 8640000000000000)%Z then MkDate (Some t) else MkDate None.

(** [date.toISOString()]; [None] is the RangeError on an invalid date. *)
Definition toISOString (date : Date) : option jstring :=
  match time_value date with
  | None => None
  | Some t =>
      let '(y, m, d) := civil_from_days (t / ms_per_day)%Z in
      let r := (t mod ms_per_day)%Z in
      let year :=
        if ((0 <=? y) && (y <=? 9999))%Z then pad0 4 (Z.to_N y)
        else (if (y <? 0)%Z then js "-" else js "+") ++ pad0 6 (Z.abs_N y) in
      Some (year ++ js "-" ++ pad0 2 (Z.to_N m) ++ js "-" ++ pad0 2 (Z.to_N d)
            ++ js "T" ++ pad0 2 (Z.to_N (r / 3600000))
            ++ js ":" ++ pad0 2 (Z.to_N ((r / 60000) mod 60))
            ++ js ":" ++ pad0 2 (Z.to_N ((r / 1000) mod 60))
            ++ js "." ++ pad0 3 (Z.to_N (r mod 1000)) ++ js "Z")
  end.

End JS.
Import JS.

(* ===================================================================== *)
(** * The generator: class VCard                                          *)
(* ===================================================================== *)

Module VCard.

(** ** The contact *)

Record Address := MkAddress {
  adr_street : jstring; adr_city : jstring; adr_state : jstring;
  adr_zip : jstring; adr_country : jstring; adr_label : jstring
}.

Record Tel := MkTel {
  tel_phone : jstring; tel_ext : jstring; tel_type : list jstring;
  tel_pref : bool
}.

Record Email := MkEmail { em_email : jstring; em_pref : bool }.

(** [imurl] is [undefined] when the parser found no colon in the value. *)
Record Impp := MkImpp {
  im_imurl : option jstring; im_protocol : jstring; im_pref : bool
}.

(** The fields of [this]; [null] is [None]. *)
Record VCard := MkVCard {
  specVersion : Z;
  kind : option jstring;
  name : list jstring;
  nickname : list jstring;
  photo : list jstring;
  bday : option Date;
  anniversary : option Date;
  gender : option jstring;
  gender_ident : option jstring;
  address : list Address;
  tel : list Tel;
  email : list Email;
  impp : list Impp;
  title : list jstring;
  role : list jstring;
  logo : list jstring;
  org : list (list jstring);
  note : list jstring;
  url : list jstring
}.

(** [new VCard()]. *)
Definition new_VCard : VCard :=
  MkVCard 4 None [] [] [] None None None None [] [] [] [] [] [] [] [] [] [].

(** [this.field = x]. *)
Definition set_specVersion (x : Z) (v : VCard) : VCard :=
  MkVCard x (kind v) (name v) (nickname v) (photo v) (bday v) (anniversary
    v) (gender v) (gender_ident v) (address v) (tel v) (email v) (impp v)
    (title v) (role v) (logo v) (org v) (note v) (url v).
Definition set_kind (x : option jstring) (v : VCard) : VCard :=
  MkVCard (specVersion v) x (name v) (nickname v) (photo v) (bday v)
    (anniversary v) (gender v) (gender_ident v) (address v) (tel v) (email
    v) (impp v) (title v) (role v) (logo v) (org v) (note v) (url v).
Definition set_name (x : list jstring) (v : VCard) : VCard :=
  MkVCard (specVersion v) (kind v) x (nickname v) (photo v) (bday v)
    (anniversary v) (gender v) (gender_ident v) (address v) (tel v) (email
    v) (impp v) (title v) (role v) (logo v) (org v) (note v) (url v).
Definition set_nickname (x : list jstring) (v : VCard) : VCard :=
  MkVCard (specVersion v) (kind v) (name v) x (photo v) (bday v)
    (anniversary v) (gender v) (gender_ident v) (address v) (tel v) (email
    v) (impp v) (title v) (role v) (logo v) (org v) (note v) (url v).
Definition set_photo (x : list jstring) (v : VCard) : VCard :=
  MkVCard (specVersion v) (kind v) (name v) (nickname v) x (bday v)
    (anniversary v) (gender v) (gender_ident v) (address v) (tel v) (email
    v) (impp v) (title v) (role v) (logo v) (org v) (note v) (url v).
Definition set_bday (x : option Date) (v : VCard) : VCard :=
  MkVCard (specVersion v) (kind v) (name v) (nickname v) (photo v) x
    (anniversary v) (gender v) (gender_ident v) (address v) (tel v) (email
    v) (impp v) (title v) (role v) (logo v) (org v) (note v) (url v).
Definition set_anniversary (x : option Date) (v : VCard) : VCard :=
  MkVCard (specVersion v) (kind v) (name v) (nickname v) (photo v) (bday v)
    x (gender v) (gender_ident v) (address v) (tel v) (email v) (impp v)
    (title v) (role v) (logo v) (org v) (note v) (url v).
Definition set_gender (x : option jstring) (v : VCard) : VCard :=
  MkVCard (specVersion v) (kind v) (name v) (nickname v) (photo v) (bday v)
    (anniversary v) x (gender_ident v) (address v) (tel v) (email v) (impp
    v) (title v) (role v) (logo v) (org v) (note v) (url v).
Definition set_gender_ident (x : option jstring) (v : VCard) : VCard :=
  MkVCard (specVersion v) (kind v) (name v) (nickname v) (photo v) (bday v)
    (anniversary v) (gender v) x (address v) (tel v) (email v) (impp v)
    (title v) (role v) (logo v) (org v) (note v) (url v).
Definition set_address (x : list Address) (v : VCard) : VCard :=
  MkVCard (specVersion v) (kind v) (name v) (nickname v) (photo v) (bday v)
    (anniversary v) (gender v) (gender_ident v) x (tel v) (email v) (impp v)
    (title v) (role v) (logo v) (org v) (note v) (url v).
Definition set_tel (x : list Tel) (v : VCard) : VCard :=
  MkVCard (specVersion v) (kind v) (name v) (nickname v) (photo v) (bday v)
    (anniversary v) (gender v) (gender_ident v) (address v) x (email v)
    (impp v) (title v) (role v) (logo v) (org v) (note v) (url v).
Definition set_email (x : list Email) (v : VCard) : VCard :=
  MkVCard (specVersion v) (kind v) (name v) (nickname v) (photo v) (bday v)
    (anniversary v) (gender v) (gender_ident v) (address v) (tel v) x (impp
    v) (title v) (role v) (logo v) (org v) (note v) (url v).
Definition set_impp (x : list Impp) (v : VCard) : VCard :=
  MkVCard (specVersion v) (kind v) (name v) (nickname v) (photo v) (bday v)
    (anniversary v) (gender v) (gender_ident v) (address v) (tel v) (email
    v) x (title v) (role v) (logo v) (org v) (note v) (url v).
Definition set_title (x : list jstring) (v : VCard) : VCard :=
  MkVCard (specVersion v) (kind v) (name v) (nickname v) (photo v) (bday v)
    (anniversary v) (gender v) (gender_ident v) (address v) (tel v) (email
    v) (impp v) x (role v) (logo v) (org v) (note v) (url v).
Definition set_role (x : list jstring) (v : VCard) : VCard :=
  MkVCard (specVersion v) (kind v) (name v) (nickname v) (photo v) (bday v)
    (anniversary v) (gender v) (gender_ident v) (address v) (tel v) (email
    v) (impp v) (title v) x (logo v) (org v) (note v) (url v).
Definition set_logo (x : list jstring) (v : VCard) : VCard :=
  MkVCard (specVersion v) (kind v) (name v) (nickname v) (photo v) (bday v)
    (anniversary v) (gender v) (gender_ident v) (address v) (tel v) (email
    v) (impp v) (title v) (role v) x (org v) (note v) (url v).
Definition set_org (x : list (list jstring)) (v : VCard) : VCard :=
  MkVCard (specVersion v) (kind v) (name v) (nickname v) (photo v) (bday v)
    (anniversary v) (gender v) (gender_ident v) (address v) (tel v) (email
    v) (impp v) (title v) (role v) (logo v) x (note v) (url v).
Definition set_note (x : list jstring) (v : VCard) : VCard :=
  MkVCard (specVersion v) (kind v) (name v) (nickname v) (photo v) (bday v)
    (anniversary v) (gender v) (gender_ident v) (address v) (tel v) (email
    v) (impp v) (title v) (role v) (logo v) (org v) x (url v).
Definition set_url (x : list jstring) (v : VCard) : VCard :=
  MkVCard (specVersion v) (kind v) (name v) (nickname v) (photo v) (bday v)
    (anniversary v) (gender v) (gender_ident v) (address v) (tel v) (email
    v) (impp v) (title v) (role v) (logo v) (org v) (note v) x.

(** ** Methods run on [this] and may throw *)

Inductive outcome (A : Type) : Type :=
| Return (a : A)
| Throw (e : jstring).
Arguments Return {A} a.
Arguments Throw {A} e.

(** A method: from the contact before the call to how the call ends and the
    contact it leaves. *)
Definition M (A : Type) : Type := VCard -> outcome A * VCard.

Definition ret {A} (a : A) : M A := fun v => (Return a, v).
Definition throw {A} (e : jstring) : M A := fun v => (Throw e, v).
Definition bind {A B} (m : M A) (k : A -> M B) : M B :=
  fun v => match m v with
           | (Return a, v') => k a v'
           | (Throw e, v') => (Throw e, v')
           end.
Definition this : M VCard := fun v => (Return v, v).
Definition assign (f : VCard -> VCard) : M unit := fun v => (Return tt, f v).

Notation "x <- m ;; k" := (bind m (fun x => k))
  (at level 100, m at next level, right associativity).
Notation "m ;;; k" := (bind m (fun _ => k))
  (at level 100, right associativity).

(** [for (x of xs) body(x)]. *)
Fixpoint for_each {A} (body : A -> M unit) (xs : list A) : M unit :=
  match xs with
  | [] => ret tt
  | x :: rest => body x ;;; for_each body rest
  end.

(** An argument that may be left out ([undefined]) and its default. *)
Definition default_arg {A} (d : A) (o : option A) : A :=
  match o with Some x => x | None => d end.

(** Truthiness of a string or [null]/[undefined]. *)
Definition truthy_opt (o : option jstring) : bool :=
  match o with Some s => truthy s | None => false end.

(** A value inside a template literal. *)
Definition tmpl (o : option jstring) : jstring :=
  match o with Some s => s | None => js "undefined" end.

(** ** Constants *)

Definition IM_PROTOCOL_SIP := js "sip".
Definition IM_PROTOCOL_XMP := js "xmpp".
Definition IM_PROTOCOL_IRC := js "irc".
Definition IM_PROTOCOL_YMS := js "ymsgr".
Definition IM_PROTOCOL_MSN := js "msn".
Definition IM_PROTOCOL_AIM := js "aim".
Definition IM_PROTOCOL_IM := js "im".

Definition TEL_TYPE_TXT := js "text".
Definition TEL_TYPE_VCE := js "voice".
Definition TEL_TYPE_FAX := js "fax".
Definition TEL_TYPE_CEL := js "cell".
Definition TEL_TYPE_VID := js "video".
Definition TEL_TYPE_PAG := js "pager".
Definition TEL_TYPE_TPH := js "textphone".

Definition KIND_IND := js "individual".
Definition KIND_GRP := js "group".
Definition KIND_ORG := js "org".
Definition KIND_LOC := js "location".

Definition GENDER_MAL := js "M".
Definition GENDER_FEM := js "F".
Definition GENDER_OTH := js "O".
Definition GENDER_NON := js "N".
Definition GENDER_UNK := js "U".

(** ** The two regular expressions of the constructor *)

(** The class of the local part: anything but the angle, round and square
    brackets, backslash, dot, comma, semicolon, colon, at sign, double
    quote and white space. *)
Definition email_atom (c : N) : bool :=
  negb (existsb (N.eqb c) [60; 62; 40; 41; 91; 93; 92; 46; 44; 59; 58; 64; DQUOTE]
        || is_ws c).
Definition any_char (c : N) : bool := negb (is_line_terminator c).
Definition is_alpha (c : N) : bool :=
  ((97 <=? c) && (c <=? 122)) || ((65 <=? c) && (c <=? 90)).
(** [[a-zA-Z\-0-9]] *)
Definition domain_char (c : N) : bool := is_alpha c || (c =? 45) || is_digit c.
(** [[0-9]{1,3}] *)
Definition octet : regex :=
  RCat (RSym is_digit) (ROpt (RCat (RSym is_digit) (ROpt (RSym is_digit)))).

Definition emailRegex : regex :=
  RSeq [ RAlt (RCat (RPlus (RSym email_atom))
                    (RStar (RCat (RLit 46) (RPlus (RSym email_atom)))))
              (RSeq [RSym any_char; RLit DQUOTE; RPlus (RSym any_char);
                     RLit DQUOTE]);
         RLit 64;
         RAlt (RSeq [RLit 91; octet; RLit 46; octet; RLit 46; octet; RLit 46;
                     octet; RLit 93])
              (RCat (RPlus (RCat (RPlus (RSym domain_char)) (RLit 46)))
                    (RSeq [RSym is_alpha; RSym is_alpha;
                           RStar (RSym is_alpha)])) ].

Fixpoint strip_prefix (p s : jstring) : option jstring :=
  match p, s with
  | [], _ => Some s
  | x :: p', y :: s' => if x =? y then strip_prefix p' s' else None
  | _ :: _, [] => None
  end.

(** The longest prefix without [d], and what follows it. *)
Fixpoint span_until (d : N) (s : jstring) : jstring * jstring :=
  match s with
  | [] => ([], [])
  | c :: rest =>
      if c =? d then ([], s)
      else let '(a, b) := span_until d rest in (c :: a, b)
  end.

(** [s.match(this.dataUriRegex)]: the two groups, or [None] for [null].
    After the literal data:image/ the first group is what precedes the
    first semicolon, the literal ;base64, follows, and the second group
    must reach the end of the string without meeting a line terminator. *)
Definition dataUriRegex_match (s : jstring) : option (jstring * jstring) :=
  match strip_prefix (js "data:image/") s with
  | None => None
  | Some rest =>
      let '(type, rest') := span_until 59 rest in
      match strip_prefix (js ";base64,") rest' with
      | None => None
      | Some data =>
          if forallb any_char data then Some (type, data) else None
      end
  end.

Definition dataUriRegex_test (s : jstring) : bool :=
  match dataUriRegex_match s with Some _ => true | None => false end.

(** State of the folding loop of [formatTextValue]. *)
Record fold_state := FoldState {
  lines : list jstring;
  curr_line : list jstring;
  curr_line_bytes : N
}.

Definition max_line_bytes : N := 75.

(** Lines 63-67: the five escapes, tested one after the other. *)
Definition escape_char (char : jstring) : jstring :=
  let char := if jstr_eqb char (js ",") then js "\," else char in
  let char := if jstr_eqb char (js ";") then js "\;" else char in
  let char := if jstr_eqb char (js ":") then js "\:" else char in
  let char := if jstr_eqb char (js "\") then js "\\" else char in
  let char := if jstr_eqb char [NL] then js "\n" else char in
  char.

(** Lines 69-89: a [%XXX%] token stands for the unescaped literal; [chars]
    is [chars.slice(i)], the result is the new [char] and by how much [i] is
    advanced. *)
Definition token_char (chars : list jstring) (char : jstring) : jstring * nat :=
  if jstr_eqb char (js "%") then
    let token := concat (firstn 5 chars) in
    if jstr_eqb token (js "%COM%") then (js ",", 4%nat)
    else if jstr_eqb token (js "%SEM%") then (js ";", 4%nat)
    else if jstr_eqb token (js "%COL%") then (js ":", 4%nat)
    else if jstr_eqb token (js "%BAC%") then (js "\", 4%nat)
    else (char, 0%nat)
  else (char, 0%nat).

(** Lines 91-99: append [char] to the current physical line, or start a
    continuation line when it does not fit. *)
Definition push_char (char : jstring) (st : fold_state) : fold_state :=
  let char_bytes := blob_size char in
  if max_line_bytes <? curr_line_bytes st + char_bytes then
    {| lines := lines st ++ [concat (curr_line st)];
       curr_line := [js " "; char];
       curr_line_bytes := 1 + char_bytes |}
  else
    {| lines := lines st;
       curr_line := curr_line st ++ [char];
       curr_line_bytes := curr_line_bytes st + char_bytes |}.

(** The [for] loop of lines 61-100 from index [i]: [chars] is
    [chars.slice(i)], [skip] counts the elements a token made [i] jump
    over. *)
Fixpoint format_loop (skip : nat) (chars : list jstring) (st : fold_state)
  : fold_state :=
  match chars with
  | [] => st
  | c :: rest =>
      match skip with
      | S k => format_loop k rest st
      | O =>
          let '(char, adv) := token_char chars (escape_char c) in
          format_loop adv rest (push_char char st)
      end
  end.

Definition formatTextValue (str : jstring) : jstring :=
  let st := format_loop 0 (spread str)
              {| lines := []; curr_line := []; curr_line_bytes := 0 |} in
  join [NL] (lines st ++ [concat (curr_line st)]).

(** The escaped logical line: what the same loop appends, [char] after
    [char], when nothing is folded (lines 61-89 without lines 91-99). *)
Fixpoint escape_units (skip : nat) (chars : list jstring) : list jstring :=
  match chars with
  | [] => []
  | c :: rest =>
      match skip with
      | S k => escape_units k rest
      | O =>
          let '(char, adv) := token_char chars (escape_char c) in
          char :: escape_units adv rest
      end
  end.

Definition escape_text (str : jstring) : jstring :=
  concat (escape_units 0 (spread str)).

(** ** Setters *)

Definition formatDate (specVersion : Z) (date : Date) : outcome jstring :=
  match toISOString date with
  | None => Throw (js "RangeError: Invalid time value")
  | Some iso =>
      let p := split_runs (fun c => negb (is_digit c)) false iso in
      let part i := nth i p (js "undefined") in
      let '(y, m, d) := (part 0%nat, part 1%nat, part 2%nat) in
      let '(h, min, sec) := (part 3%nat, part 4%nat, part 5%nat) in
      if (specVersion =? 4)%Z then
        Return (y ++ m ++ d ++ js "T" ++ h ++ min ++ sec ++ js "Z")
      else
        Return (y ++ js "-" ++ m ++ js "-" ++ d ++ js "T"
                ++ h ++ js ":" ++ min ++ js ":" ++ sec ++ js "Z")
  end.

Definition setVersion (version : Z) : M unit :=
  if negb (version =? 3)%Z && negb (version =? 4)%Z then
    throw (js "Unsupported version: " ++ Z_to_js version)
  else assign (set_specVersion version).

Definition setNickname (nickname_ : jstring) : M unit :=
  assign (fun v => set_nickname (nickname v ++ [nickname_]) v).

Definition setName (name_ : jstring) : M unit :=
  assign (fun v => set_name (name v ++ [trim (replace_ws_runs false name_)]) v).

Definition setKind (kind_ : jstring) : M unit :=
  let kind_ := toLowerCase (trim kind_) in
  let allowed_values := [KIND_IND; KIND_GRP; KIND_ORG; KIND_LOC] in
  if negb (includes allowed_values kind_) then throw (js "Invalid Kind value.")
  else assign (set_kind (Some kind_)).

Definition setPhoto (dataURI : jstring) : M unit :=
  if negb (dataUriRegex_test dataURI) then throw (js "Invalid Image Data URI")
  else assign (fun v => set_photo (photo v ++ [dataURI]) v).

(** An argument that should be a [Date]. *)
Inductive date_arg :=
| IsDate (d : Date)
| NotDate (s : jstring).

Definition setBday (bday_ : date_arg) : M unit :=
  match bday_ with
  | NotDate _ => throw (js "Invalid Birthday date")
  | IsDate d => assign (set_bday (Some d))
  end.

Definition setAnniversary (anniversary_ : date_arg) : M unit :=
  match anniversary_ with
  | NotDate _ => throw (js "Invalid Anniversary date")
  | IsDate d => assign (set_anniversary (Some d))
  end.

Definition setGender (gender_ : jstring) (ident : option jstring) : M unit :=
  let ident :=
    if truthy_opt ident then option_map (fun i => toLowerCase (trim i)) ident
    else ident in
  let allowed_values :=
    [GENDER_MAL; GENDER_FEM; GENDER_OTH; GENDER_NON; GENDER_UNK] in
  if negb (includes allowed_values gender_) then
    throw (js "Invalid Gender value.")
  else
    assign (set_gender (Some gender_)) ;;;
    assign (set_gender_ident ident).

Definition setAddress (street city state zip country label : option jstring)
  : M unit :=
  let a := MkAddress (default_arg [] street) (default_arg [] city)
             (default_arg [] state) (default_arg [] zip)
             (default_arg [] country) (default_arg [] label) in
  assign (fun v => set_address (address v ++ [a]) v).

(** The [type] argument of [setPhone]: one string or an array. *)
Inductive type_arg :=
| TypeString (s : jstring)
| TypeArray (a : list jstring).

Definition clear_tel_pref (t : Tel) : Tel :=
  MkTel (tel_phone t) (tel_ext t) (tel_type t) false.
Definition clear_email_pref (e : Email) : Email := MkEmail (em_email e) false.
Definition clear_impp_pref (i : Impp) : Impp :=
  MkImpp (im_imurl i) (im_protocol i) false.

Definition setPhone (phone : jstring) (ext : option jstring)
    (type : option type_arg) (pref : bool) : M unit :=
  let ext := default_arg [] ext in
  let type := match default_arg (TypeArray []) type with
              | TypeString s => [s]
              | TypeArray a => a
              end in
  let allowed_type_values :=
    [TEL_TYPE_TXT; TEL_TYPE_VCE; TEL_TYPE_FAX; TEL_TYPE_CEL; TEL_TYPE_VID;
     TEL_TYPE_PAG; TEL_TYPE_TPH] in
  for_each (fun t => if negb (includes allowed_type_values t)
                     then throw (js "Invalid Type value.") else ret tt) type ;;;
  (if pref then assign (fun v => set_tel (map clear_tel_pref (tel v)) v)
   else ret tt) ;;;
  assign (fun v => set_tel (tel v ++ [MkTel phone ext type pref]) v).

Definition setEmail (email_ : jstring) (pref : bool) : M unit :=
  if negb (regex_test emailRegex (toLowerCase email_)) then
    throw (js "Invalid Email value.")
  else
    (if pref then assign (fun v => set_email (map clear_email_pref (email v)) v)
     else ret tt) ;;;
    assign (fun v => set_email (email v ++ [MkEmail email_ pref]) v).

Definition setIM (imurl : option jstring) (protocol : jstring) (pref : bool)
  : M unit :=
  let allowed_protocols :=
    [IM_PROTOCOL_SIP; IM_PROTOCOL_XMP; IM_PROTOCOL_IRC; IM_PROTOCOL_YMS;
     IM_PROTOCOL_MSN; IM_PROTOCOL_AIM; IM_PROTOCOL_IM] in
  if negb (includes allowed_protocols protocol) then
    throw (js "Invalid Protocol value.")
  else
    (if pref then assign (fun v => set_impp (map clear_impp_pref (impp v)) v)
     else ret tt) ;;;
    assign (fun v => set_impp (impp v ++ [MkImpp imurl protocol pref]) v).

Definition setTitle (title_ : jstring) : M unit :=
  assign (fun v => set_title (title v ++ [title_]) v).

Definition setRole (role_ : jstring) : M unit :=
  assign (fun v => set_role (role v ++ [role_]) v).

Definition setLogo (dataURI : jstring) : M unit :=
  if negb (dataUriRegex_test dataURI) then throw (js "Invalid Image Data URI")
  else assign (fun v => set_logo (logo v ++ [dataURI]) v).

Definition setOrg (org1 org2 org3 : option jstring) : M unit :=
  let push o (org_ : list jstring) :=
    if truthy_opt o then org_ ++ [tmpl o] else org_ in
  let org_ := push org3 (push org2 (push org1 [])) in
  assign (fun v => set_org (org v ++ [org_]) v).

Definition setNote (note_ : jstring) : M unit :=
  assign (fun v => set_note (note v ++ [note_]) v).

Definition setURL (url_ : jstring) : M unit :=
  assign (fun v => set_url (url v ++ [url_]) v).

(** ** render() *)

Definition obind {A B} (o : outcome A) (k : A -> outcome B) : outcome B :=
  match o with
  | Return a => k a
  | Throw e => Throw e
  end.

(** The results of [f] on the elements of [xs], up to the first throw. *)
Fixpoint map_outcome {A B} (f : A -> outcome B) (xs : list A)
  : outcome (list B) :=
  match xs with
  | [] => Return []
  | x :: rest =>
      obind (f x) (fun y =>
      obind (map_outcome f rest) (fun ys => Return (y :: ys)))
  end.

(** The chain of four replacements that protects a data URI: the
    structural characters become tokens. *)
Definition tokenize_uri (s : jstring) : jstring :=
  replace1 BSL (js "%BAC%")
    (replace1 44 (js "%COM%")
      (replace1 59 (js "%SEM%")
        (replace1 58 (js "%COL%") s))).

(** Lines 340-349: [i] is the index of the first name of [names]. *)
Fixpoint render_names (i : nat) (names : list jstring) : list jstring :=
  match names with
  | [] => []
  | n :: rest =>
      [formatTextValue (js "FN%COL%" ++ n)]
      ++ (if (i =? 0)%nat then
            let name_parts := split_on SP n in
            let name_ := List.last name_parts [] in
            let last_name := join (js " ") (removelast name_parts) in
            let name_ := if truthy last_name
                         then name_ ++ js "%SEM%" ++ last_name else name_ in
            [formatTextValue (js "N%COL%" ++ name_)]
          else [])
      ++ render_names (S i) rest
  end.

(** Lines 351-356. *)
Definition render_nicknames (nicknames : list jstring) : list jstring :=
  flat_map (fun n => if negb (truthy (trim n)) then []
                     else [js "NICKNAME:" ++ formatTextValue n]) nicknames.

(** Lines 358-368 and 518-528, for the property [prop] (PHOTO or LOGO). *)
Definition render_image (specVersion : Z) (prop : jstring) (uri : jstring)
  : outcome jstring :=
  if (specVersion =? 4)%Z then
    Return (formatTextValue (prop ++ js "%COL%" ++ tokenize_uri uri))
  else
    match dataUriRegex_match uri with
    | None => Throw (js "TypeError: null is not iterable")
    | Some (type, data) =>
        Return (formatTextValue
                  (prop ++ js "%SEM%ENCODING=b%SEM%TYPE=" ++ toUpperCase type
                   ++ js "%COL%" ++ tokenize_uri data))
    end.

(** Lines 370-378, for the property [prop] (BDAY or ANNIVERSARY). *)
Definition render_date (specVersion : Z) (prop : jstring) (d : option Date)
  : outcome (list jstring) :=
  match d with
  | None => Return []
  | Some date =>
      obind (formatDate specVersion date) (fun f => Return [prop ++ js ":" ++ f])
  end.

(** Lines 380-386. *)
Definition render_gender (v : VCard) : list jstring :=
  if truthy_opt (gender v) then
    let gender_ := tmpl (gender v) in
    let gender_ := if truthy_opt (gender_ident v)
                   then gender_ ++ js "%SEM%" ++ tmpl (gender_ident v)
                   else gender_ in
    [formatTextValue (js "GENDER%COL%" ++ gender_)]
  else [].

(** Lines 388-433; [group] is the counter of the [getGroup] closure. *)
Fixpoint render_addresses (specVersion : Z) (group : N) (adrs : list Address)
  : list jstring :=
  match adrs with
  | [] => []
  | a :: rest =>
      let '(group_, group') :=
        if (specVersion =? 3)%Z
        then (js "item" ++ N_to_js (group + 1) ++ js ".", group + 1)
        else ([], group) in
      let adr := group_ ++ js "ADR" in
      let adr := if (specVersion =? 4)%Z && truthy (adr_label a)
                 then adr ++ js "%SEM%LABEL=" ++ adr_label a else adr in
      let adr := adr ++ js "%COL%%SEM%%SEM%" in
      let adr := if truthy (adr_street a) then adr ++ adr_street a else adr in
      let adr := adr ++ js "%SEM%" in
      let adr := if truthy (adr_city a) then adr ++ adr_city a else adr in
      let adr := adr ++ js "%SEM%" in
      let adr := if truthy (adr_state a) then adr ++ adr_state a else adr in
      let adr := adr ++ js "%SEM%" in
      let adr := if truthy (adr_zip a) then adr ++ adr_zip a else adr in
      let adr := adr ++ js "%SEM%" in
      let adr := if truthy (adr_country a) then adr ++ adr_country a else adr in
      [formatTextValue adr]
      ++ (if (specVersion =? 3)%Z
          then [formatTextValue (group_ ++ js "X-ABLabel%COL%" ++ adr_label a)]
          else [])
      ++ render_addresses specVersion group' rest
  end.

(** [phone_type_map[t]]; [None] is [undefined]. *)
Definition phone_type_map (t : jstring) : option jstring :=
  if jstr_eqb t (js "text") then Some (js "cell")
  else if jstr_eqb t (js "voice") then Some (js "voice")
  else if jstr_eqb t (js "fax") then Some (js "fax")
  else if jstr_eqb t (js "cell") then Some (js "cell")
  else if jstr_eqb t (js "video") then Some (js "video")
  else if jstr_eqb t (js "pager") then Some (js "pager")
  else if jstr_eqb t (js "textphone") then Some []
  else None.

(** The three groups of [/^(\d{0,3})(\d{0,3})(\d{0,4})/] on the first ten
    digits of the phone number. *)
Definition ph_parts (phone : jstring) : jstring * jstring * jstring :=
  let d := firstn 10 (digits_of phone) in
  (firstn 3 d, firstn 3 (skipn 3 d), firstn 4 (skipn 6 d)).

(** Lines 445-479, one entry. *)
Definition render_tel (specVersion : Z) (t : Tel) : jstring :=
  let tel_ := js "TEL" in
  let tel_ := if (specVersion =? 4)%Z then
                let tel_ := tel_ ++ js "%SEM%VALUE=uri" in
                if tel_pref t then tel_ ++ js "%SEM%PREF=1" else tel_
              else tel_ in
  let tel_ :=
    if negb (length (tel_type t) =? 0)%nat then
      let type := tel_type t in
      let type :=
        if (specVersion =? 3)%Z then
          let type := List.filter truthy
                        (map (fun t => default_arg [] (phone_type_map t)) type) in
          if tel_pref t then type ++ [js "pref"] else type
        else type in
      tel_ ++ js "%SEM%TYPE=" ++ join (js "%COM%") type
    else tel_ in
  let '(p1, p2, p3) := ph_parts (tel_phone t) in
  let number := js "+1-" ++ p1 ++ js "-" ++ p2 ++ js "-" ++ p3 in
  let tel_ := if (specVersion =? 4)%Z
              then tel_ ++ js "%COL%tel%COL%" ++ number
              else tel_ ++ js "%COL%" ++ number in
  let tel_ := if (specVersion =? 4)%Z && truthy (tel_ext t)
              then tel_ ++ js "%SEM%ext=" ++ tel_ext t else tel_ in
  formatTextValue tel_.

(** Lines 481-497, one entry. *)
Definition render_email (specVersion : Z) (e : Email) : jstring :=
  let em := js "EMAIL" in
  let em := if (specVersion =? 4)%Z then
              if em_pref e then em ++ js "%SEM%PREF=1" else em
            else
              let em := em ++ js "%SEM%TYPE=internet" in
              if em_pref e then em ++ js "%COM%pref" else em in
  formatTextValue (em ++ js "%COL%" ++ em_email e).

(** Lines 499-508, one entry. *)
Definition render_impp (i : Impp) : jstring :=
  let impp_ := js "IMPP" in
  let impp_ := if im_pref i then impp_ ++ js "%SEM%PREF=1" else impp_ in
  formatTextValue
    (impp_ ++ js "%COL%" ++ im_protocol i ++ js "%COL%" ++ tmpl (im_imurl i)).

(** The array [parts] at line 542, or the error thrown on the way. *)
Definition render_parts (v : VCard) : outcome (list jstring) :=
  let ver := specVersion v in
  if (ver =? 4)%Z && negb (truthy_opt (kind v)) then
    Throw (js "Missing Kind property (Required in Version 4)")
  else if (length (name v) =? 0)%nat then
    Throw (js "Missing Name property.")
  else
    let head :=
      [js "BEGIN:VCARD"; js "VERSION:" ++ Z_to_js ver ++ js ".0"]
      ++ (if (ver =? 4)%Z then [js "KIND:" ++ tmpl (kind v)] else [])
      ++ render_names 0 (name v)
      ++ render_nicknames (nickname v) in
    obind (map_outcome (render_image ver (js "PHOTO")) (photo v)) (fun photos =>
    obind (render_date ver (js "BDAY") (bday v)) (fun bday_ =>
    obind (if (ver =? 4)%Z
           then render_date ver (js "ANNIVERSARY") (anniversary v)
           else Return []) (fun anniversary_ =>
    let middle :=
      (if (ver =? 4)%Z then render_gender v else [])
      ++ render_addresses ver 0 (address v)
      ++ map (render_tel ver) (tel v)
      ++ map (render_email ver) (email v)
      ++ (if (ver =? 4)%Z then map render_impp (impp v) else [])
      ++ map (fun t => formatTextValue (js "TITLE%COL%" ++ t)) (title v)
      ++ map (fun r => formatTextValue (js "ROLE%COL%" ++ r)) (role v) in
    obind (map_outcome (render_image ver (js "LOGO")) (logo v)) (fun logos =>
    Return
      (head ++ photos ++ bday_ ++ anniversary_ ++ middle ++ logos
       ++ map (fun o => formatTextValue (js "ORG%COL%" ++ join (js "%SEM%") o))
              (org v)
       ++ map (fun n => formatTextValue (js "NOTE%COL%" ++ n)) (note v)
       ++ map (fun u => js "URL:" ++ u) (url v)
       ++ [js "END:VCARD"]))))).

Definition render (v : VCard) : outcome jstring :=
  obind (render_parts v) (fun parts => Return (join [NL] parts)).

End VCard.

(* ===================================================================== *)
(** * The parser: class VCardParser                                       *)
(* ===================================================================== *)

Module VCardParser.
Import VCard.

(** A parameter [{property, values}] and a token [{key, props, values}]. *)
Record Param := MkParam { property : jstring; pvalues : list jstring }.
Record Token := MkToken {
  key : jstring; props : list Param; values : list jstring
}.

(** Lines 10-14 of parser.js: five global replacements, in this order. *)
Definition unesc (str : jstring) : jstring :=
  replace2 BSL 110 [NL]
    (replace2 BSL BSL [BSL]
      (replace2 BSL 58 (js ":")
        (replace2 BSL 59 (js ";")
          (replace2 BSL 44 (js ",") str)))).

Definition TypeError : jstring := js "TypeError".

(** Lines 23-29: one parameter. *)
Definition tokenize_prop (prop : jstring) : outcome Param :=
  match match_segments 61 prop with
  | property_ :: values_ :: _ =>
      match match_segments 44 values_ with
      | [] => Throw TypeError
      | vs => Return (MkParam (unesc property_) (map unesc vs))
      end
  | _ => Throw TypeError
  end.

(** Lines 16-32: one logical line. *)
Definition tokenize_line (line : jstring) : outcome Token :=
  match match_segments 58 line with
  | [] => Throw TypeError
  | key_props :: values_ =>
      let values_ := map unesc (match_segments 59 (join (js ":") values_)) in
      match match_segments 59 key_props with
      | [] => Throw TypeError
      | key_ :: props_ =>
          let key_ := unesc key_ in
          obind (map_outcome tokenize_prop props_) (fun props_ =>
          Return (MkToken key_ props_ values_))
      end
  end.

(** [s.indexOf(".") > -1]. *)
Definition has_dot (s : jstring) : bool := existsb (N.eqb 46) s.

Definition set_key (k : jstring) (t : Token) : Token :=
  MkToken k (props t) (values t).
Definition push_prop (p : Param) (t : Token) : Token :=
  MkToken (key t) (props t ++ [p]) (values t).

(** The object [label_map] is modelled by the finite map of its own
    properties.  It differs from a map under two names.  [__proto__] is an
    accessor of [Object.prototype]: [label_map["__proto__"] = i] calls its
    setter, which ignores a number, so no own property is made. *)
Definition store_label (label : jstring) (i : nat)
    (label_map : gmap jstring nat) : gmap jstring nat :=
  if jstr_eqb label (js "__proto__") then label_map
  else <[label := i]> label_map.

(** Lines 36-50, the body of the loop at index [i]: [label_map] and the
    array [tokens] are updated in place.  [label_map.hasOwnProperty] is the
    method of [Object.prototype] until a line of the group [hasOwnProperty]
    has stored an index under that name: from then on the call is a call of
    a number, a TypeError. *)
Definition combine_step (st : outcome (gmap jstring nat * list Token))
    (i : nat) : outcome (gmap jstring nat * list Token) :=
  obind st (fun '(label_map, tokens) =>
  match tokens !! i with
  | None => Return (label_map, tokens)
  | Some t =>
      if has_dot (key t) then
        let parts := split_on 46 (key t) in
        let label := nth 0 parts [] in
        let key_ := nth 1 parts [] in
        match label_map !! js "hasOwnProperty" with
        | Some _ => Throw TypeError
        | None =>
            match label_map !! label with
            | None =>
                Return (store_label label i label_map,
                        <[i := set_key key_ t]> tokens)
            | Some j =>
                let key_ := if jstr_eqb key_ (js "X-ABLabel") then js "LABEL"
                            else key_ in
                Return (label_map,
                        alter (push_prop (MkParam key_ (values t))) j tokens)
            end
        end
      else Return (label_map, tokens)
  end).

(** Lines 34-52: combine groups into single tokens. *)
Definition combine_groups (tokens : list Token) : outcome (list Token) :=
  obind (fold_left combine_step (seq 0 (length tokens)) (Return (∅, tokens)))
    (fun '(_, tokens) =>
       Return (List.filter (fun t => negb (has_dot (key t))) tokens)).

Definition tokenizeVcardString (str : jstring) : outcome (list Token) :=
  obind (map_outcome tokenize_line
           (split_runs (N.eqb NL) false (replace2 NL SP [] str)))
        combine_groups.

(** [token.props.filter(p => p.property.toUpperCase() === name)]. *)
Definition props_named (name_ : jstring) (t : Token) : list Param :=
  List.filter (fun p => jstr_eqb (toUpperCase (property p)) name_) (props t).

Definition parseFNToken (t : Token) : M unit :=
  setName (default_arg [] (values t !! 0%nat)).

Definition parseNicknameToken (t : Token) : M unit :=
  for_each setNickname (values t).

Definition parseImageToken (set : jstring -> M unit) (t : Token) : M unit :=
  v <- this ;;
  if (specVersion v =? 3)%Z then
    match props_named (js "TYPE") t with
    | [] => throw (js "Invalid vCard (Missing encoding)")
    | type_prop :: _ =>
        match pvalues type_prop with
        | [] => throw (js "Invalid vCard (Missing encoding)")
        | ty :: _ =>
            set (js "data:image/" ++ toLowerCase ty ++ js ";base64,"
                 ++ tmpl (values t !! 0%nat))
        end
    end
  else set (join (js ";") (values t)).

Definition parsePhotoToken : Token -> M unit := parseImageToken setPhoto.
Definition parseLogoToken : Token -> M unit := parseImageToken setLogo.

(** The date of a BDAY or ANNIVERSARY value: its first fourteen digits. *)
Definition parse_date (value : jstring) : option Date :=
  let d := digits_of value in
  if (length d <? 14)%nat then None
  else
    let num (a b : nat) := Z.of_N (digits_to_N (firstn b (skipn a d))) in
    Some (Date_UTC (num 0 4)%nat (num 4%nat 2%nat - 1)%Z (num 6 2)%nat (num 8 2)%nat
            (num 10 2)%nat (num 12 2)%nat).

Definition parseBDayToken (t : Token) : M unit :=
  match parse_date (tmpl (values t !! 0%nat)) with
  | None => throw TypeError
  | Some d => setBday (IsDate d)
  end.

Definition parseAnniversaryToken (t : Token) : M unit :=
  match parse_date (tmpl (values t !! 0%nat)) with
  | None => throw TypeError
  | Some d => setAnniversary (IsDate d)
  end.

Definition parseGenderToken (t : Token) : M unit :=
  setGender (tmpl (values t !! 0%nat)) (values t !! 1%nat).

Definition parseAddressToken (t : Token) : M unit :=
  let label_prop := props_named (js "LABEL") t in
  let label := match label_prop with
               | [] => Some []
               | p :: _ => pvalues p !! 0%nat
               end in
  let args := map Some (values t) ++ [label] in
  let arg (i : nat) := default_arg None (args !! i) in
  setAddress (arg 0%nat) (arg 1%nat) (arg 2%nat) (arg 3%nat) (arg 4%nat)
    (arg 5%nat).

Definition parsePhoneToken (t : Token) : M unit :=
  let phone := digits_of (tmpl (values t !! 0%nat)) in
  let phone := if (length phone =? 11)%nat
                  && jstr_eqb (firstn 1 phone) (js "1")
               then skipn 1 phone else phone in
  v <- this ;;
  if (specVersion v =? 3)%Z then
    let vs := match props_named (js "TYPE") t with
              | [] => []
              | type_prop :: _ => pvalues type_prop
              end in
    let pref := existsb (jstr_eqb (js "pref")) vs in
    let type := List.filter (fun x => negb (jstr_eqb x (js "pref"))) vs in
    setPhone phone (Some []) (Some (TypeArray type)) pref
  else
    let type := match props_named (js "TYPE") t with
                | [] => []
                | type_prop :: _ => pvalues type_prop
                end in
    let pref := negb (length (props_named (js "PREF") t) =? 0)%nat in
    let ext := match values t !! 1%nat with
               | Some e => digits_of e
               | None => []
               end in
    setPhone phone (Some ext) (Some (TypeArray type)) pref.

Definition parseEmailToken (t : Token) : M unit :=
  let email_ := tmpl (values t !! 0%nat) in
  v <- this ;;
  let pref :=
    if (specVersion v =? 3)%Z then
      match props_named (js "TYPE") t with
      | [] => false
      | type_prop :: _ => existsb (jstr_eqb (js "pref")) (pvalues type_prop)
      end
    else negb (length (props_named (js "PREF") t) =? 0)%nat in
  setEmail email_ pref.

Definition parseIMToken (t : Token) : M unit :=
  let pref := negb (length (props_named (js "PREF") t) =? 0)%nat in
  let parts := split_on 58 (tmpl (values t !! 0%nat)) in
  setIM (parts !! 1%nat) (nth 0 parts []) pref.

Definition parseTitleToken (t : Token) : M unit :=
  setTitle (tmpl (values t !! 0%nat)).

Definition parseRoleToken (t : Token) : M unit :=
  setRole (tmpl (values t !! 0%nat)).

Definition parseOrgToken (t : Token) : M unit :=
  setOrg (values t !! 0%nat) (values t !! 1%nat) (values t !! 2%nat).

Definition parseNoteToken (t : Token) : M unit := for_each setNote (values t).

Definition parseURLToken (t : Token) : M unit := for_each setURL (values t).

Definition parseKindToken (t : Token) : M unit :=
  setKind (tmpl (values t !! 0%nat)).

Definition parseVersionToken (t : Token) : M unit :=
  let v0 := tmpl (values t !! 0%nat) in
  if negb (includes [js "3.0"; js "4.0"] v0) then
    throw (js "Invalid or incompatible vCard version.")
  else setVersion (parseInt v0).

Definition parseToken (t : Token) : M unit :=
  if negb (truthy (key t)) || (length (values t) =? 0)%nat then
    throw (js "Invalid vCard (Invalid token)")
  else
    let k := toUpperCase (key t) in
    if jstr_eqb k (js "VERSION") then parseVersionToken t
    else if jstr_eqb k (js "N") then ret tt
    else if jstr_eqb k (js "FN") then parseFNToken t
    else if jstr_eqb k (js "KIND") then parseKindToken t
    else if jstr_eqb k (js "NICKNAME") then parseNicknameToken t
    else if jstr_eqb k (js "PHOTO") then parsePhotoToken t
    else if jstr_eqb k (js "BDAY") then parseBDayToken t
    else if jstr_eqb k (js "ANNIVERSARY") then parseAnniversaryToken t
    else if jstr_eqb k (js "GENDER") then parseGenderToken t
    else if jstr_eqb k (js "ADR") then parseAddressToken t
    else if jstr_eqb k (js "TEL") then parsePhoneToken t
    else if jstr_eqb k (js "EMAIL") then parseEmailToken t
    else if jstr_eqb k (js "IMPP") then parseIMToken t
    else if jstr_eqb k (js "TITLE") then parseTitleToken t
    else if jstr_eqb k (js "ROLE") then parseRoleToken t
    else if jstr_eqb k (js "LOGO") then parseLogoToken t
    else if jstr_eqb k (js "ORG") then parseOrgToken t
    else if jstr_eqb k (js "NOTE") then parseNoteToken t
    else if jstr_eqb k (js "URL") then parseURLToken t
    else ret tt.

(** The test of lines 260 and 266: the token is not [word]:VCARD. *)
Definition not_bracket (word : jstring) (t : Token) : bool :=
  negb (jstr_eqb (toUpperCase (key t)) word)
  || negb (truthy_opt (values t !! 0%nat))
  || negb (jstr_eqb (toUpperCase (tmpl (values t !! 0%nat))) (js "VCARD")).

(** Lines 255-279, on [this.text = text] and [this.vcard]. *)
Definition parse (text : jstring) : M unit :=
  match tokenizeVcardString text with
  | Throw e => throw e
  | Return tokens =>
      match tokens with
      | [] => throw TypeError
      | begin :: tokens =>
          if not_bracket (js "BEGIN") begin then throw (js "Invalid vCard")
          else
            match rev tokens with
            | [] => throw TypeError
            | end_ :: rtokens =>
                let tokens := rev rtokens in
                if not_bracket (js "END") end_ then throw (js "Invalid vCard")
                else
                  match tokens with
                  | [] => throw TypeError
                  | t0 :: _ =>
                      if negb (jstr_eqb (toUpperCase (key t0)) (js "VERSION"))
                      then throw (js "Version missing or out of place.")
                      else for_each parseToken tokens
                  end
            end
      end
  end.

(** [new VCardParser(text, new VCard())]: how the constructor ends and the
    contact it leaves. *)
Definition decode (text : jstring) : outcome unit * VCard :=
  parse text new_VCard.

End VCardParser.

(* ===================================================================== *)
(** * Vocabulary of the statements and of the proofs                     *)
(* ===================================================================== *)

Import VCard.
Import VCardParser.

(** ** Folding *)

(** An element of [[...str]]: one code unit or a surrogate pair. *)
Definition char_shape (u : jstring) : Prop :=
  (exists c, u = [c]) \/
  (exists c d, u = [c; d] /\ is_high c && is_low d = true).

(** What the loop pushes: at most four bytes and no raw newline. *)
Definition unit_ok (u : jstring) : Prop :=
  blob_size u <= 4 /\ ~ In NL u.

(** The physical lines a state stands for, and the logical line they
    unfold to. *)
Definition text_lines (st : fold_state) : list jstring :=
  lines st ++ [concat (curr_line st)].

Definition unfolded (ls : list jstring) : jstring :=
  match ls with
  | [] => []
  | l0 :: rest => l0 ++ concat (map (skipn 1) rest)
  end.

Record fold_inv (st : fold_state) : Prop := {
  inv_lines : Forall (fun l => blob_size l <= 75) (lines st);
  inv_curr : blob_size (concat (curr_line st)) <= curr_line_bytes st;
  inv_bytes : curr_line_bytes st <= 75;
  inv_nonl : Forall (fun l => ~ In NL l) (text_lines st);
  inv_cont : Forall (fun l => exists l', l = SP :: l') (tl (text_lines st))
}.

(** ** White-space normalisation of names *)

(** The words of a string: its maximal runs of code units that are not
    white space. *)
Definition words (s : jstring) : list jstring :=
  List.filter truthy (split_runs is_ws false s).

(** No two adjacent code units of [s] are both white space. *)
Definition no_adjacent_ws (s : jstring) : Prop :=
  forall l1 a b l2, s = l1 ++ a :: b :: l2 ->
                    is_ws a = true -> is_ws b = true -> False.

(** [s] does not begin with white space. *)
Definition starts_clean (s : jstring) : Prop :=
  match s with
  | c :: _ => is_ws c = false
  | [] => True
  end.

(** The first piece of a split and the non-empty ones among the others:
    what the words and the piece a next code unit joins depend on. *)
Definition pieces_norm (l : list jstring) : jstring * list jstring :=
  (hd [] l, List.filter truthy (tl l)).

(** ** Validation in the setters *)

(** The gender codes, as the constants spell them. *)
Definition gender_codes : list jstring :=
  [js "M"; js "F"; js "O"; js "N"; js "U"].

(** ** The preferred entry *)

(** The arguments of one [setPhone] call and of one [setEmail] call. *)
Record phone_call := PhoneCall {
  pc_phone : jstring; pc_ext : option jstring; pc_type : option type_arg;
  pc_pref : bool
}.

Record email_call := EmailCall { ec_email : jstring; ec_pref : bool }.

Definition call_setPhone (c : phone_call) : M unit :=
  setPhone (pc_phone c) (pc_ext c) (pc_type c) (pc_pref c).

Definition call_setEmail (c : email_call) : M unit :=
  setEmail (ec_email c) (ec_pref c).

(** The entry a successful call pushes. *)
Definition phone_entry (c : phone_call) : Tel :=
  MkTel (pc_phone c) (default_arg [] (pc_ext c))
    (match default_arg (TypeArray []) (pc_type c) with
     | TypeString s => [s]
     | TypeArray a => a
     end) (pc_pref c).

Definition email_entry (c : email_call) : Email :=
  MkEmail (ec_email c) (ec_pref c).

(** A sequence of entries with one preferred entry, [e]: the ones before
    it and the [n] ones after it are not preferred. *)
Definition sole_pref {A} (pref : A -> bool) (e : A) (n : nat) (l : list A)
  : Prop :=
  pref e = true
  /\ exists l1 l2, l = l1 ++ e :: l2
                   /\ Forall (fun x => pref x = false) l1
                   /\ Forall (fun x => pref x = false) l2
                   /\ length l2 = n.

(** The last call of [calls] that passes [pref = true] is [c], followed by
    [after]. *)
Definition last_pref_call {C} (pref : C -> bool) (calls : list C) (c : C)
    (after : list C) : Prop :=
  pref c = true
  /\ Forall (fun x => pref x = false) after
  /\ exists before, calls = before ++ c :: after.

(** ** Contacts built through the setters *)

(** One call of a setter, with its arguments. *)
Inductive setter_call :=
| SetVersion (version : Z)
| SetNickname (nickname_ : jstring)
| SetName (name_ : jstring)
| SetKind (kind_ : jstring)
| SetPhoto (dataURI : jstring)
| SetBday (bday_ : date_arg)
| SetAnniversary (anniversary_ : date_arg)
| SetGender (gender_ : jstring) (ident : option jstring)
| SetAddress (street city state zip country label : option jstring)
| SetPhone (phone : jstring) (ext : option jstring) (type : option type_arg)
           (pref : bool)
| SetEmail (email_ : jstring) (pref : bool)
| SetIM (imurl : option jstring) (protocol : jstring) (pref : bool)
| SetTitle (title_ : jstring)
| SetRole (role_ : jstring)
| SetLogo (dataURI : jstring)
| SetOrg (org1 org2 org3 : option jstring)
| SetNote (note_ : jstring)
| SetURL (url_ : jstring).

Definition call (c : setter_call) : M unit :=
  match c with
  | SetVersion version => setVersion version
  | SetNickname n => setNickname n
  | SetName n => setName n
  | SetKind k => setKind k
  | SetPhoto u => setPhoto u
  | SetBday d => setBday d
  | SetAnniversary d => setAnniversary d
  | SetGender g i => setGender g i
  | SetAddress a b c d e f => setAddress a b c d e f
  | SetPhone p e t pref => setPhone p e t pref
  | SetEmail e pref => setEmail e pref
  | SetIM u p pref => setIM u p pref
  | SetTitle t => setTitle t
  | SetRole r => setRole r
  | SetLogo u => setLogo u
  | SetOrg a b c => setOrg a b c
  | SetNote n => setNote n
  | SetURL u => setURL u
  end.

(** The contacts that setter calls make of [new VCard()]; a call that
    throws leaves the contact it was made on. *)
Inductive built : VCard.VCard -> Prop :=
| built_new : built new_VCard
| built_call (c : setter_call) (v : VCard.VCard) :
    built v -> built (snd (call c v)).

(** A name as [setName] stores it. *)
Definition normalized (s : jstring) : Prop :=
  no_adjacent_ws s /\ Forall (fun c => is_ws c = true -> c = SP) s
  /\ starts_clean s /\ starts_clean (rev s).

(** At most one entry of a list is marked. *)
Definition at_most_one {A} (pref : A -> bool) (l : list A) : Prop :=
  (length (List.filter pref l) <= 1)%nat.

(** ** Mandatory fields *)

Definition missing_kind : jstring :=
  js "Missing Kind property (Required in Version 4)".

Definition missing_name : jstring := js "Missing Name property.".

(** What else can end [render]: an invalid date or, outside version 4, a
    photo or logo that is no data URI. *)
Definition renderable_date (d : option Date) : Prop :=
  match d with
  | Some date => time_value date <> None
  | None => True
  end.

Definition renderable_images (ver : Z) (uris : list jstring) : Prop :=
  ver = 4%Z \/ Forall (fun u => dataUriRegex_test u = true) uris.

(** ** Version gating *)

(** The contact with its version set, as [setVersion] leaves it. *)
Definition at_version (ver : Z) (v : VCard.VCard) : VCard.VCard :=
  set_specVersion ver v.

(** The contact without the three fields of version 4. *)
Definition without_v4_fields (v : VCard.VCard) : VCard.VCard :=
  set_impp [] (set_gender_ident None (set_gender None (set_anniversary None v))).

(** [line] is a line of the property [prop]: the name, then a colon or a
    semicolon. *)
Definition line_of (prop : jstring) (line : jstring) : bool :=
  match strip_prefix prop line with
  | Some (c :: _) => (c =? 58) || (c =? 59)
  | _ => false
  end.

Definition v4_only_line (line : jstring) : bool :=
  line_of (js "ANNIVERSARY") line || line_of (js "GENDER") line
  || line_of (js "IMPP") line.

(** The first code unit of a line, when it is one of [cs]. *)
Definition begins_with (cs : list N) (line : jstring) : Prop :=
  exists c t, line = c :: t /\ In c cs.

(** The code units that stand for themselves in [formatTextValue]. *)
Definition plain (c : N) : bool :=
  (c <? 128)
  && negb (existsb (N.eqb c) [44; 59; 58; 92; 10; 37]).

(** [s] begins with the code unit [c]. *)
Definition headed (c : N) (s : jstring) : Prop := exists t, s = c :: t.

(** The first code units of the lines [render] emits under version 3. *)
Definition line_initials : list N :=
  [66; 86; 70; 78; 80; 105; 84; 69; 82; 76; 79; 85].

(** A contact with the three fields of version 4. *)
Definition gating_example : VCard.VCard :=
  snd (for_each (fun m => m)
         [setKind KIND_IND; setName (js "Bob"); setGender GENDER_MAL None;
          setAnniversary (IsDate (Date_UTC 1996 7 28 4 0 0));
          setIM (Some (js "rob@out.com")) IM_PROTOCOL_SIP true]
         new_VCard).

Definition parts_of (o : outcome (list jstring)) : list jstring :=
  match o with
  | Return parts => parts
  | Throw _ => []
  end.

(** The physical lines of a text, and the first of them. *)
Definition physical_lines (text : jstring) : list jstring :=
  split_on NL text.

Definition first_line (part : jstring) : jstring :=
  hd [] (physical_lines part).

(** The physical lines of [part] after the first begin with a space. *)
Definition continued (part : jstring) : Prop :=
  Forall (headed SP) (tl (physical_lines part)).

(** No URL of the contact holds a newline: [render] emits a URL as it is,
    so a newline in it would end the URL line. *)
Definition urls_on_one_line (v : VCard.VCard) : Prop :=
  Forall (fun u => ~ In NL u) (url v).

Definition text_of (o : outcome jstring) : jstring :=
  match o with
  | Return text => text
  | Throw _ => []
  end.

(** The physical lines of [part] stand together, in their order, among
    those of [text]. *)
Definition emitted (part text : jstring) : Prop :=
  exists before after,
    physical_lines text = before ++ physical_lines part ++ after.

(** A contact with a gender and with a URL that holds a newline. *)
Definition url_gender_contact : VCard.VCard :=
  snd (for_each (fun m => m)
         [setVersion 3; setName (js "Bob"); setGender GENDER_FEM None;
          setURL (js "x" ++ [NL] ++ js "GENDER:M")]
         new_VCard).

(** ** Grouped lines *)

(** A key with a group prefix: its group label and its bare key, the two
    first pieces between dots. *)
Definition group_of (k : jstring) : option (jstring * jstring) :=
  if has_dot k then
    let parts := split_on 46 k in Some (nth 0 parts [], nth 1 parts [])
  else None.

(** The name a line takes as a parameter of its group's first line. *)
Definition folded_name (bare : jstring) : jstring :=
  if jstr_eqb bare (js "X-ABLabel") then js "LABEL" else bare.

(** Following the specification: the parameters that the lines of [later]
    in the group [label] become, in their order. *)
Definition attached (label : jstring) (later : list Token) : list Param :=
  flat_map (fun t => match group_of (key t) with
                     | Some (l, bare) =>
                         if jstr_eqb l label
                         then [MkParam (folded_name bare) (values t)]
                         else []
                     | None => []
                     end) later.

(** Following the specification: a line without a group prefix is kept; the
    first line of a group is kept under its bare key, with the later lines
    of the group attached as parameters; the later lines of a group are
    removed.  [seen] holds the labels of the groups already met. *)
Fixpoint merge_groups_spec (seen : list jstring) (tokens : list Token)
  : list Token :=
  match tokens with
  | [] => []
  | t :: later =>
      match group_of (key t) with
      | None => t :: merge_groups_spec seen later
      | Some (label, bare) =>
          if includes seen label then merge_groups_spec seen later
          else MkToken bare (props t ++ attached label later) (values t)
               :: merge_groups_spec (label :: seen) later
      end
  end.

(** What the loop makes of the lines [rest] that it has not reached yet,
    [i] being the index of the first of them and [label_map] the groups
    already met. *)
Fixpoint processed (label_map : gmap jstring nat) (i : nat)
    (rest : list Token) : list Token :=
  match rest with
  | [] => []
  | t :: rest' =>
      match group_of (key t) with
      | None => t :: processed label_map (S i) rest'
      | Some (l, bare) =>
          match label_map !! l with
          | Some _ => t :: processed label_map (S i) rest'
          | None =>
              MkToken bare (props t ++ attached l rest') (values t)
              :: processed (<[l := i]> label_map) (S i) rest'
          end
      end
  end.

(** What the loop makes of the lines [done] that it has passed: the lines
    of [rest] in their groups are pushed on them. *)
Fixpoint attach (label_map : gmap jstring nat) (rest : list Token)
    (done : list Token) : list Token :=
  match rest with
  | [] => done
  | t :: rest' =>
      match group_of (key t) with
      | Some (l, bare) =>
          match label_map !! l with
          | Some j =>
              attach label_map rest'
                (alter (push_prop (MkParam (folded_name bare) (values t))) j
                   done)
          | None => attach label_map rest' done
          end
      | None => attach label_map rest' done
      end
  end.

Definition bounded (label_map : gmap jstring nat) (n : nat) : Prop :=
  forall l j, label_map !! l = Some j -> (j < n)%nat.

(** A group label under which the object [label_map] behaves as a map, and
    lines of which every group label is such a label. *)
Definition ordinary_label (l : jstring) : Prop :=
  l <> js "__proto__" /\ l <> js "hasOwnProperty".

Definition ordinary_groups (tokens : list Token) : Prop :=
  Forall (fun t => forall l bare, group_of (key t) = Some (l, bare) ->
                                  ordinary_label l) tokens.

(** ** Escaping and unescaping *)

(** [s] holds no backslash immediately followed by the letter n. *)
Definition no_backslash_n (s : jstring) : Prop :=
  forall l1 l2, s <> l1 ++ 92 :: 110 :: l2.

(** An element of [[...str]] after the first [k] replacements of [unesc]
    have been applied to its escaped form. *)
Definition enc (k : nat) (u : jstring) : jstring :=
  match u with
  | [c] =>
      if c =? 44 then (if (1 <=? k)%nat then [44] else [92; 44])
      else if c =? 59 then (if (2 <=? k)%nat then [59] else [92; 59])
      else if c =? 58 then (if (3 <=? k)%nat then [58] else [92; 58])
      else if c =? 92 then (if (4 <=? k)%nat then [92] else [92; 92])
      else if c =? 10 then (if (5 <=? k)%nat then [10] else [92; 110])
      else u
  | _ => u
  end.

(** The head of a string is not [b]. *)
Definition head_not (b : N) (t : jstring) : Prop :=
  match t with
  | d :: _ => d <> b
  | [] => True
  end.

(** No backslash element is followed by an element that begins with n. *)
Fixpoint no_bsl_n_units (us : list jstring) : Prop :=
  match us with
  | [] => True
  | u :: rest =>
      (u = [92] -> head_not 110 (concat rest)) /\ no_bsl_n_units rest
  end.

(** The escaping alone, without tokens and folding: lines 63-67 on every
    element of [[...str]]. *)
Definition escape (s : jstring) : jstring :=
  concat (map escape_char (spread s)).

(** ** Round trip *)

(** The contact of the failing round trip: a note that holds a backslash
    followed by the letter n. *)
Definition note_contact (ver : Z) : VCard.VCard :=
  snd (for_each (fun m => m)
         [setVersion ver; setKind KIND_IND; setName (js "Bob");
          setNote (js "C:\new")]
         new_VCard).

(** ** Lines that are not folded *)

(** A contact with a URL of 87 bytes, which [render] emits as it is. *)
Definition url_contact : VCard.VCard :=
  snd (for_each (fun m => m)
         [setVersion 3; setName (js "Bob");
          setURL (js "http://" ++ repeat 97 80)]
         new_VCard).

(** A contact with a nickname of 75 bytes. *)
Definition nickname_contact : VCard.VCard :=
  snd (for_each (fun m => m)
         [setVersion 3; setName (js "Bob"); setNickname (repeat 97 75)]
         new_VCard).

(** ** Contacts built through the setters, continued *)

(** The values the setters accept. *)
Definition kinds : list jstring := [KIND_IND; KIND_GRP; KIND_ORG; KIND_LOC].

Definition tel_types : list jstring :=
  [TEL_TYPE_TXT; TEL_TYPE_VCE; TEL_TYPE_FAX; TEL_TYPE_CEL; TEL_TYPE_VID;
   TEL_TYPE_PAG; TEL_TYPE_TPH].

Definition im_protocols : list jstring :=
  [IM_PROTOCOL_SIP; IM_PROTOCOL_XMP; IM_PROTOCOL_IRC; IM_PROTOCOL_YMS;
   IM_PROTOCOL_MSN; IM_PROTOCOL_AIM; IM_PROTOCOL_IM].

(** Every validated field holds a value its setter accepts. *)
Record validated (v : VCard.VCard) : Prop := {
  val_version : specVersion v = 3%Z \/ specVersion v = 4%Z;
  val_kind : forall k, kind v = Some k -> In k kinds;
  val_gender : forall g, gender v = Some g -> In g gender_codes;
  val_ident : gender v = None -> gender_ident v = None;
  val_tel : Forall (fun t => Forall (fun x => In x tel_types) (tel_type t))
              (tel v);
  val_impp : Forall (fun i => In (im_protocol i) im_protocols) (impp v);
  val_email : Forall (fun e => regex_test emailRegex (toLowerCase (em_email e))
                               = true) (email v);
  val_photo : Forall (fun u => dataUriRegex_test u = true) (photo v);
  val_logo : Forall (fun u => dataUriRegex_test u = true) (logo v)
}.

(** A method keeps the contact among those built through the setters,
    however it ends. *)
Definition preserves_built {A} (m : M A) : Prop :=
  forall v, built v -> built (snd (m v)).

(** A contact with one field of every validated kind. *)
Definition validated_example : VCard.VCard :=
  snd (for_each call
         [SetVersion 3; SetKind (js " Group "); SetName (js "Bob");
          SetGender (js "F") (Some (js "Female"));
          SetPhone (js "8136160999") None (Some (TypeString (js "cell"))) true;
          SetEmail (js "Rob@Example.com") true;
          SetIM (Some (js "rob@example.com")) (js "xmpp") true;
          SetIM (Some (js "bob@example.com")) (js "sip") true;
          SetPhoto (js "data:image/png;base64,AAAA");
          SetKind (js "animal")]
         new_VCard).

(** ** Folding, continued *)

(** The bytes the loop counts for a sequence of elements: the sum of their
    sizes. *)
Definition line_bytes (us : list jstring) : N :=
  fold_right (fun u n => blob_size u + n) 0 us.

(** [t] begins with a low surrogate. *)
Definition starts_low (t : jstring) : bool :=
  match t with
  | d :: _ => is_low d
  | [] => false
  end.

(** No element ends with a high surrogate that the next code unit would
    complete. *)
Fixpoint seamless (us : list jstring) : Prop :=
  match us with
  | [] => True
  | u :: rest =>
      is_high (List.last u 0) && starts_low (concat rest) = false
      /\ seamless rest
  end.

(** ** Regular expressions *)

(** The strings a regular expression matches. *)
Inductive matches : regex -> jstring -> Prop :=
| MEps : matches REps []
| MSym (p : N -> bool) (c : N) : p c = true -> matches (RSym p) [c]
| MCat (r1 r2 : regex) (s1 s2 : jstring) :
    matches r1 s1 -> matches r2 s2 -> matches (RCat r1 r2) (s1 ++ s2)
| MAltL (r1 r2 : regex) (s : jstring) : matches r1 s -> matches (RAlt r1 r2) s
| MAltR (r1 r2 : regex) (s : jstring) : matches r2 s -> matches (RAlt r1 r2) s
| MStarNil (r : regex) : matches (RStar r) []
| MStarApp (r : regex) (s1 s2 : jstring) :
    matches r s1 -> matches (RStar r) s2 -> matches (RStar r) (s1 ++ s2).

(** ** Reading a rendered text *)

(** The logical line of a part: the part unfolded. *)
Definition logical (part : jstring) : jstring := replace2 NL SP [] part.

(** The part is read as the call [m]: it is one line of the text, the
    tokenizer makes a token without group of it, and [parseToken] does with
    that token what [m] does. *)
Definition reads (part : jstring) (m : M unit) : Prop :=
  head_not SP part
  /\ logical part <> [] /\ ~ In NL (logical part)
  /\ exists tok,
       tokenize_line (logical part) = Return tok
       /\ has_dot (key tok) = false
       /\ forall v, parseToken tok v = m v.

(** A value that comes back from its line: not empty, without percent sign
    and without backslash followed by the letter n. *)
Definition safe (s : jstring) : Prop :=
  s <> [] /\ ~ In 37 s /\ no_backslash_n s.

(** A contact of names, nicknames, titles, roles and notes. *)
Definition text_contact (ver : Z) (k : option jstring)
    (names nicknames titles roles notes : list jstring) : VCard.VCard :=
  MkVCard ver k names nicknames [] None None None None [] [] [] [] titles
    roles [] [] notes [].

(** A name that comes back: a safe value that [setName] leaves as it is. *)
Definition safe_name (n : jstring) : Prop := safe n /\ normalized n.

(** A nickname that comes back: a safe value that [render] does not skip. *)
Definition safe_nickname (n : jstring) : Prop :=
  safe n /\ truthy (trim n) = true.

(** The version and the kind of a contact that comes back: under version 3
    the kind is not rendered, under version 4 it is required. *)
Definition version_kind (ver : Z) (k : option jstring) : Prop :=
  (ver = 3%Z /\ k = None)
  \/ (ver = 4%Z /\ exists kind_, k = Some kind_ /\ In kind_ kinds).

(** A contact of text fields with a value of every kind of difficulty. *)
Definition text_example : VCard.VCard :=
  text_contact 4 (Some (js "individual"))
    [js "Pamela Mishaw"; js "P. Mishaw, PhD"] [js "Pam"]
    [js "Owner; Founder"] [js "C:\Users"] [js "line one" ++ [NL] ++ js "line two"; [8364; 49]].

(** [s] holds no backslash immediately followed by the letter n, as a
    test. *)
Fixpoint bsl_n_free (s : jstring) : bool :=
  match s with
  | [] => true
  | c :: rest =>
      match rest with
      | d :: _ => negb ((c =? 92) && (d =? 110)) && bsl_n_free rest
      | [] => true
      end
  end.

(** The test of a safe value. *)
Definition safe_test (s : jstring) : bool :=
  truthy s && forallb (fun c => negb (c =? 37)) s && bsl_n_free s.

(** ** Dates *)

(** The year of the era, the month and the day of a day of the era (the
    part of [civil_from_days] that does not depend on the era), and the day
    of the era of a date (the same part of [days_from_civil]). *)
Definition civil_of_doe (doe : Z) : Z * Z * Z :=
  let yoe := ((doe - doe / 1460 + doe / 36524 - doe / 146096) / 365)%Z in
  let doy := (doe - (365 * yoe + yoe / 4 - yoe / 100))%Z in
  let mp := ((5 * doy + 2) / 153)%Z in
  let d := (doy - (153 * mp + 2) / 5 + 1)%Z in
  let m := (if mp <? 10 then mp + 3 else mp - 9)%Z in
  (yoe, m, d).

Definition doe_of_civil (yoe m d : Z) : Z :=
  let mp := (if 2 <? m then m - 3 else m + 9)%Z in
  let doy := ((153 * mp + 2) / 5 + d - 1)%Z in
  (yoe * 365 + yoe / 4 - yoe / 100 + doy)%Z.

(** A day of the era gives a date of the calendar, from which it comes
    back. *)
Definition era_day_ok (doe : Z) : bool :=
  let '(yoe, m, d) := civil_of_doe doe in
  ((0 <=? yoe) && (yoe <=? 399) && (1 <=? m) && (m <=? 12) && (1 <=? d)
   && (d <=? 31) && (doe_of_civil yoe m d =? doe))%Z.

(** A number below [10 ^ w] is padded to [w] digits, which give it back. *)
Definition padded_ok (w : nat) (n : N) : bool :=
  (length (pad0 w n) =? w)%nat && forallb is_digit (pad0 w n)
  && (digits_to_N (pad0 w n) =? n).

(** The year of a date, in universal time. *)
Definition utc_year (t : Z) : Z :=
  let '(y, _, _) := civil_from_days (t / ms_per_day)%Z in y.

(** [f] holds of the numbers below [n], tested one after the other. *)
Definition all_below (f : N -> bool) (n : N) : bool :=
  fst (N.iter n (fun '(b, i) => (b && f i, N.succ i)) (true, 0)).

(** ** Telephone numbers *)

(** The number of a TEL line (lines 469-470 of [render]). *)
Definition ph_number (phone : jstring) : jstring :=
  let '(p1, p2, p3) := ph_parts phone in
  js "+1-" ++ p1 ++ js "-" ++ p2 ++ js "-" ++ p3.

(** The number that comes back from a TEL line: the first ten digits, after
    the country code 1 when they are fewer than ten. *)
Definition ph_back (phone : jstring) : jstring :=
  let d := firstn 10 (digits_of phone) in
  if (length d =? 10)%nat then d else 49 :: d.

(** The types of a version 3 TEL line (line 459 of [render]). *)
Definition ph_types3 (type : list jstring) : list jstring :=
  List.filter truthy (map (fun t => default_arg [] (phone_type_map t)) type).

(** ** Addresses *)

(** A value of which every part comes back: without percent sign and
    without backslash followed by the letter n; it may be empty. *)
Definition clean (s : jstring) : Prop := ~ In 37 s /\ no_backslash_n s.

(** A text that holds no unescaped delimiter [d]: the matcher takes it
    whole into the piece it is at. *)
Definition inert (d : N) (p : jstring) : Prop :=
  forall cur t, segments d false cur (p ++ t) = segments d false (cur ++ p) t.

(** The components of an address that [render] writes, in their order. *)
Definition adr_components (a : Address) : list jstring :=
  [adr_street a; adr_city a; adr_state a; adr_zip a; adr_country a].

(** [this.vcard.setAddress(...args)]. *)
Definition apply_setAddress (args : list (option jstring)) : M unit :=
  let arg (i : nat) := default_arg None (args !! i) in
  setAddress (arg 0%nat) (arg 1%nat) (arg 2%nat) (arg 3%nat) (arg 4%nat)
    (arg 5%nat).

(** ** Images *)

(** The data URI of an image of the given type and data. *)
Definition image_uri (type data : jstring) : jstring :=
  js "data:image/" ++ type ++ js ";base64," ++ data.

(** A type and data that come back from a PHOTO or LOGO line: the type is
    a word of plain code units without equals sign and without capital
    letter, the data are plain code units that the dot of a regular
    expression matches. *)
Definition image_type (type : jstring) : Prop :=
  type <> []
  /\ Forall (fun c => plain c = true /\ c <> 61 /\ lower_unit c = c) type.

Definition image_data (data : jstring) : Prop :=
  data <> [] /\ Forall (fun c => plain c = true /\ any_char c = true) data.

(** ** The tokenizer of the generator *)

(** Lines 555-569 of the generator: one logical line in the tokenizer that
    the class [VCard] carries.  It is the parser's but for line 556, where
    the values are matched without the fallback [|| []]: on a line without
    value [match] returns [null], and [null.map] throws a TypeError. *)
Definition legacy_tokenize_line (line : jstring) : outcome Token :=
  match match_segments 58 line with
  | [] => Throw TypeError
  | key_props :: values_ =>
      match match_segments 59 (join (js ":") values_) with
      | [] => Throw TypeError
      | vs =>
          let values_ := map unesc vs in
          match match_segments 59 key_props with
          | [] => Throw TypeError
          | key_ :: props_ =>
              let key_ := unesc key_ in
              obind (map_outcome tokenize_prop props_) (fun props_ =>
              Return (MkToken key_ props_ values_))
          end
      end
  end.

(** Lines 547-590 of the generator; the loop that combines the groups is
    the parser's, word for word. *)
Definition legacy_tokenizeVcardString (str : jstring) : outcome (list Token) :=
  obind (map_outcome legacy_tokenize_line
           (split_runs (N.eqb NL) false (replace2 NL SP [] str)))
        combine_groups.

(** ** Contacts that come back *)

(** The part is read, in a contact of version [ver], as the call [m]. *)
Definition reads_at (ver : Z) (part : jstring) (m : M unit) : Prop :=
  head_not SP part
  /\ logical part <> [] /\ ~ In NL (logical part)
  /\ exists tok,
       tokenize_line (logical part) = Return tok
       /\ has_dot (key tok) = false
       /\ forall v, specVersion v = ver -> parseToken tok v = m v.

(** The call leaves the version as it is. *)
Definition keeps_version (m : M unit) : Prop :=
  forall v, specVersion (snd (m v)) = specVersion v.

(** The entries that come back from the text of a contact of version 4. *)
Definition image_back (u : jstring) : Prop :=
  exists type data,
    u = image_uri type data /\ image_type type /\ image_data data.

Definition date_back (d : option Date) : Prop :=
  match d with
  | None => True
  | Some date =>
      match time_value date with
      | Some t => (100 <= utc_year t <= 9999)%Z /\ (t mod 1000 = 0)%Z
      | None => False
      end
  end.

Definition gender_back (g i : option jstring) : Prop :=
  match g with
  | None => i = None
  | Some code =>
      In code gender_codes
      /\ match i with
         | None => True
         | Some s => safe s /\ toLowerCase (trim s) = s
         end
  end.

Definition address_back (a : Address) : Prop :=
  Forall safe (adr_components a) /\ clean (adr_label a)
  /\ ~ In 61 (adr_label a).

Definition tel_back (t : Tel) : Prop :=
  length (tel_phone t) = 10%nat
  /\ Forall (fun c => is_digit c = true) (tel_phone t)
  /\ Forall (fun c => is_digit c = true) (tel_ext t)
  /\ Forall (fun ty => In ty tel_types) (tel_type t).

Definition email_back (e : Email) : Prop :=
  safe (em_email e)
  /\ regex_test emailRegex (toLowerCase (em_email e)) = true.

Definition impp_back (i : Impp) : Prop :=
  In (im_protocol i) im_protocols
  /\ exists u, im_imurl i = Some u /\ safe u /\ ~ In 58 u.

Definition org_back (o : list jstring) : Prop :=
  o <> [] /\ (length o <= 3)%nat /\ Forall safe o.

Definition url_back (u : jstring) : Prop :=
  ~ In 92 u /\ ~ In 59 u /\ ~ In NL u
  /\ Forall (fun p => p <> []) (split_on 58 u).

(** A contact of version 4 of which every entry comes back. *)
Record comes_back (c : VCard.VCard) : Prop := {
  cb_version : specVersion c = 4%Z;
  cb_kind : exists k, kind c = Some k /\ In k kinds;
  cb_name : name c <> [] /\ Forall safe_name (name c);
  cb_nickname : Forall safe_nickname (nickname c);
  cb_photo : Forall image_back (photo c);
  cb_bday : date_back (bday c);
  cb_anniversary : date_back (anniversary c);
  cb_gender : gender_back (gender c) (gender_ident c);
  cb_address : Forall address_back (address c);
  cb_tel : Forall tel_back (tel c) /\ at_most_one tel_pref (tel c);
  cb_email : Forall email_back (email c) /\ at_most_one em_pref (email c);
  cb_impp : Forall impp_back (impp c) /\ at_most_one im_pref (impp c);
  cb_title : Forall safe (title c);
  cb_role : Forall safe (role c);
  cb_logo : Forall image_back (logo c);
  cb_org : Forall org_back (org c);
  cb_note : Forall safe (note c);
  cb_url : Forall url_back (url c)
}.
(** The calls that the parser makes on the text of the contact [c], in the
    order of the lines that [render] writes. *)
Definition replay (c : VCard.VCard) : list (M unit) :=
  (match kind c with
   | Some k => [assign (set_kind (Some k))]
   | None => []
   end)
  ++ (match name c with
      | n0 :: ns => setName n0 :: ret tt :: map setName ns
      | [] => []
      end)
  ++ map setNickname (nickname c)
  ++ map setPhoto (photo c)
  ++ (match bday c with
      | Some d => [setBday (IsDate d)]
      | None => []
      end)
  ++ (match anniversary c with
      | Some d => [setAnniversary (IsDate d)]
      | None => []
      end)
  ++ (match gender c with
      | Some g => [setGender g (gender_ident c)]
      | None => []
      end)
  ++ map (fun a => assign (fun v => set_address (address v ++ [a]) v))
       (address c)
  ++ map (fun t => setPhone (tel_phone t) (Some (tel_ext t))
                     (Some (TypeArray (tel_type t))) (tel_pref t)) (tel c)
  ++ map (fun e => setEmail (em_email e) (em_pref e)) (email c)
  ++ map (fun i => setIM (im_imurl i) (im_protocol i) (im_pref i)) (impp c)
  ++ map setTitle (title c)
  ++ map setRole (role c)
  ++ map setLogo (logo c)
  ++ map (fun o => assign (fun v => set_org (org v ++ [o]) v)) (org c)
  ++ map setNote (note c)
  ++ map (fun u => assign (fun v => set_url (url v ++ [u]) v)) (url c).

(** A contact of version 4 with an entry in every field. *)
Definition contact_example : VCard.VCard :=
  MkVCard 4 (Some (js "individual"))
    [js "Pamela Mishaw"; js "P. Mishaw, PhD"] [js "Pam"]
    [image_uri (js "png") (js "iVBORw0KGgo=")]
    (Some (MkDate (Some 838526400000%Z))) (Some (MkDate (Some 1403222400000%Z)))
    (Some (js "F")) (Some (js "she; her"))
    [MkAddress (js "1 Main St, Apt 2") (js "Springfield") (js "IL")
       (js "62701") (js "USA") (js "Home; sweet home")]
    [MkTel (js "5558675309") (js "42") [js "cell"; js "voice"] true;
     MkTel (js "5551234567") [] [] false]
    [MkEmail (js "pam@example.com") false; MkEmail (js "pm@example.org") true]
    [MkImpp (Some (js "pam@example.com")) (js "xmpp") true]
    [js "Owner; Founder"] [js "C:\Users"]
    [image_uri (js "svg+xml") (js "PHN2Zz4=")]
    [[js "Acme, Inc."; js "R&D"]]
    [js "line one" ++ [NL] ++ js "line two"; [8364; 49]]
    [js "https://example.com/a?b=1,2"].


(* ===================================================================== *)
(** * Properties                                                          *)
(* ===================================================================== *)

(** ** Strings *)

Lemma jstr_eqb_eq (a b : jstring) : jstr_eqb a b = true <-> a = b.
Proof.
  revert b; induction a as [|x a IH]; intros [|y b]; simpl; split;
    try congruence; try discriminate.
  - intros H. apply andb_true_iff in H as [Hx Hab].
    apply N.eqb_eq in Hx. apply IH in Hab. congruence.
  - intros H. injection H as -> ->. rewrite N.eqb_refl. simpl. now apply IH.
Qed.

Lemma jstr_eqb_refl (a : jstring) : jstr_eqb a a = true.
Proof. now apply jstr_eqb_eq. Qed.

Lemma jstr_eqb_neq (a b : jstring) : jstr_eqb a b = false <-> a <> b.
Proof.
  rewrite <- jstr_eqb_eq. destruct (jstr_eqb a b); split; congruence.
Qed.

(** The UTF-8 length of a concatenation is at most the sum of the lengths:
    only a surrogate pair formed at the seam can make it smaller. *)
Lemma blob_size_app_le (a b : jstring) :
  blob_size (a ++ b) <= blob_size a + blob_size b.
Proof.
  remember (length a) as n eqn:Hn. revert a Hn.
  induction n as [n IH] using lt_wf_ind. intros a Hn.
  destruct a as [|c [|d a']].
  - simpl. lia.
  - destruct b as [|d b']; [simpl; lia|].
    change (blob_size ([c] ++ d :: b')) with
      (if is_high c && is_low d then 4 + blob_size b'
       else unit_bytes c + blob_size (d :: b')).
    change (blob_size [c]) with (unit_bytes c).
    destruct (is_high c && is_low d) eqn:E; [|lia].
    apply andb_true_iff in E as [Hc Hd].
    assert (Hd' : is_high d = false).
    { unfold is_high, is_low in *.
      apply andb_true_iff in Hd as [H1 H2].
      apply N.leb_le in H1, H2. apply andb_false_iff. right.
      apply N.leb_gt. lia. }
    assert (Hb : blob_size (d :: b') = unit_bytes d + blob_size b').
    { destruct b' as [|e b'']; simpl; [lia|]. now rewrite Hd'. }
    assert (unit_bytes c = 3 /\ unit_bytes d = 3) as [-> Hud].
    { unfold is_high, is_low, unit_bytes in *.
      apply andb_true_iff in Hc as [H1 H2], Hd as [H3 H4].
      apply N.leb_le in H1, H2, H3, H4.
      destruct (N.ltb_spec c 128), (N.ltb_spec c 2048),
        (N.ltb_spec d 128), (N.ltb_spec d 2048); try lia. }
    rewrite Hb, Hud. lia.
  - change (blob_size ((c :: d :: a') ++ b)) with
      (if is_high c && is_low d then 4 + blob_size (a' ++ b)
       else unit_bytes c + blob_size ((d :: a') ++ b)).
    change (blob_size (c :: d :: a')) with
      (if is_high c && is_low d then 4 + blob_size a'
       else unit_bytes c + blob_size (d :: a')).
    destruct (is_high c && is_low d).
    + specialize (IH (length a')). simpl in Hn.
      assert (Hlt : (length a' < n)%nat) by lia.
      specialize (IH Hlt a' eq_refl). lia.
    + specialize (IH (length (d :: a'))). simpl in Hn.
      assert (Hlt : (length (d :: a') < n)%nat) by (simpl; lia).
      specialize (IH Hlt (d :: a') eq_refl). lia.
Qed.

(** Induction on lists two elements at a time, as [spread], [blob_size] and
    [replace2] recurse. *)
Lemma list_ind2 {A} (P : list A -> Prop) :
  P [] -> (forall c, P [c]) ->
  (forall c d l, P l -> P (d :: l) -> P (c :: d :: l)) ->
  forall l, P l.
Proof.
  intros H0 H1 H2 l.
  assert (H : P l /\ forall c, P (c :: l)); [|exact (proj1 H)].
  induction l as [|d l [IH1 IH2]]; split; auto.
Qed.

(** ** Folding *)

Lemma spread_shape (s : jstring) : Forall char_shape (spread s).
Proof.
  induction s as [|c|c d l IHl IHdl] using list_ind2.
  - constructor.
  - simpl. constructor; [left; eauto | constructor].
  - change (spread (c :: d :: l)) with
      (if is_high c && is_low d then [c; d] :: spread l
       else [c] :: spread (d :: l)).
    destruct (is_high c && is_low d) eqn:E; constructor; auto.
    + right. eauto.
    + left. eauto.
Qed.

Lemma unit_bytes_le (c : N) : unit_bytes c <= 3.
Proof.
  unfold unit_bytes. destruct (c <? 128), (c <? 2048); lia.
Qed.

Lemma jstr_eqb_single (c d : N) : jstr_eqb [c] [d] = (c =? d).
Proof. simpl. apply andb_true_r. Qed.

Lemma jstr_eqb_pair_single (c d e : N) : jstr_eqb [c; d] [e] = false.
Proof. simpl. apply andb_false_r. Qed.

Ltac literals :=
  change (js ",") with [44] in *; change (js ";") with [59] in *;
  change (js ":") with [58] in *; change (js "\") with [92] in *;
  change (js "%") with [37] in *; change (js " ") with [32] in *;
  change (js "\,") with [92; 44] in *; change (js "\;") with [92; 59] in *;
  change (js "\:") with [92; 58] in *; change (js "\\") with [92; 92] in *;
  change (js "\n") with [92; 110] in *; change NL with 10 in *;
  change SP with 32 in *; change BSL with 92 in *.

(** [escape_char] on one code unit, as a table. *)
Lemma escape_char_single (c : N) :
  escape_char [c]
  = if c =? 44 then [92; 44] else if c =? 59 then [92; 59]
    else if c =? 58 then [92; 58] else if c =? 92 then [92; 92]
    else if c =? 10 then [92; 110] else [c].
Proof.
  unfold escape_char. cbv zeta. literals.
  destruct (N.eqb_spec c 44) as [->|H1]; [reflexivity|].
  destruct (N.eqb_spec c 59) as [->|H2]; [reflexivity|].
  destruct (N.eqb_spec c 58) as [->|H3]; [reflexivity|].
  destruct (N.eqb_spec c 92) as [->|H4]; [reflexivity|].
  destruct (N.eqb_spec c 10) as [->|H5]; [reflexivity|].
  apply N.eqb_neq in H1, H2, H3, H4, H5.
  repeat (rewrite jstr_eqb_single;
          rewrite ?H1, ?H2, ?H3, ?H4, ?H5; cbv iota).
  reflexivity.
Qed.

Lemma escape_char_pair (c d : N) : escape_char [c; d] = [c; d].
Proof.
  unfold escape_char. cbv zeta. literals.
  repeat (rewrite jstr_eqb_pair_single; cbv iota). reflexivity.
Qed.

Lemma escape_char_ok (u : jstring) : char_shape u -> unit_ok (escape_char u).
Proof.
  assert (Hlit : forall x y : N, x <> 10 -> y <> 10 -> unit_ok [x; y] ->
                                 unit_ok [x; y]) by auto.
  intros [[c ->]|(c & d & -> & Hp)].
  - rewrite escape_char_single.
    destruct (c =? 44); [split; [vm_compute; discriminate | intros [H|[H|[]]]; discriminate]|].
    destruct (c =? 59); [split; [vm_compute; discriminate | intros [H|[H|[]]]; discriminate]|].
    destruct (c =? 58); [split; [vm_compute; discriminate | intros [H|[H|[]]]; discriminate]|].
    destruct (c =? 92); [split; [vm_compute; discriminate | intros [H|[H|[]]]; discriminate]|].
    destruct (N.eqb_spec c 10) as [->|H5];
      [split; [vm_compute; discriminate | intros [H|[H|[]]]; discriminate]|].
    split.
    + change (blob_size [c]) with (unit_bytes c).
      pose proof (unit_bytes_le c). lia.
    + unfold NL. intros [H|[]]. congruence.
  - assert (Hc : 55296 <= c /\ 56320 <= d).
    { unfold is_high, is_low in Hp.
      apply andb_true_iff in Hp as [H1 H2].
      apply andb_true_iff in H1 as [H1 _], H2 as [H2 _].
      apply N.leb_le in H1, H2. lia. }
    rewrite escape_char_pair. split.
    + change (blob_size [c; d]) with
        (if is_high c && is_low d then 4 + 0 else unit_bytes c + unit_bytes d).
      rewrite Hp. lia.
    + unfold NL. intros [H|[H|[]]]; lia.
Qed.

Lemma token_char_ok (chars : list jstring) (u : jstring) :
  unit_ok u -> unit_ok (fst (token_char chars u)).
Proof.
  intros Hu. unfold token_char.
  repeat match goal with
         | |- context [if ?b then _ else _] => destruct b
         end; simpl; auto;
    (split; [vm_compute; discriminate | intros [H|[]]; discriminate]).
Qed.

Lemma escape_units_ok (k : nat) (chars : list jstring) :
  Forall char_shape chars -> Forall unit_ok (escape_units k chars).
Proof.
  revert k. induction chars as [|c rest IH]; intros k H; simpl.
  - constructor.
  - inversion H as [|? ? Hc Hrest]; subst.
    destruct k as [|k]; [|now apply IH].
    pose proof (token_char_ok (c :: rest) _ (escape_char_ok c Hc)) as Ht.
    destruct (token_char (c :: rest) (escape_char c)) as [char adv].
    constructor; [exact Ht | now apply IH].
Qed.

Lemma format_loop_units (k : nat) (chars : list jstring) (st : fold_state) :
  format_loop k chars st
  = fold_left (fun st u => push_char u st) (escape_units k chars) st.
Proof.
  revert k st. induction chars as [|c rest IH]; intros k st; simpl; auto.
  destruct k as [|k]; [|apply IH].
  destruct (token_char (c :: rest) (escape_char c)) as [char adv].
  simpl. apply IH.
Qed.

Lemma unfolded_app_last (ls : list jstring) (l u : jstring) :
  Forall (fun l => exists l', l = SP :: l') (tl (ls ++ [l])) ->
  unfolded (ls ++ [l ++ u]) = unfolded (ls ++ [l]) ++ u.
Proof.
  destruct ls as [|l0 rest]; simpl.
  - intros _. now rewrite !app_nil_r.
  - intros H. rewrite !map_app, !concat_app. simpl.
    apply Forall_app in H as [_ H]. inversion H as [|? ? [l' ->] _]; subst.
    simpl. rewrite !app_nil_r, <- !app_assoc. reflexivity.
Qed.

Lemma unfolded_snoc (ls : list jstring) (u : jstring) :
  ls <> [] -> unfolded (ls ++ [SP :: u]) = unfolded ls ++ u.
Proof.
  destruct ls as [|l0 rest]; [congruence|]. intros _. simpl.
  rewrite map_app, concat_app. simpl. now rewrite app_nil_r, app_assoc.
Qed.

Lemma push_char_inv (u : jstring) (st : fold_state) :
  unit_ok u -> fold_inv st ->
  fold_inv (push_char u st)
  /\ unfolded (text_lines (push_char u st)) = unfolded (text_lines st) ++ u.
Proof.
  intros [Hu Hnl] [H1 H2 H3 H4 H5]. unfold push_char, max_line_bytes.
  destruct (N.ltb_spec 75 (curr_line_bytes st + blob_size u)) as [Hlt|Hle].
  - split; [constructor|]; simpl.
    + apply Forall_app; split; auto. constructor; auto. lia.
    + rewrite app_nil_r. change (SP :: u) with ([SP] ++ u).
      pose proof (blob_size_app_le [SP] u). simpl blob_size in H at 2.
      change (unit_bytes SP) with 1 in H. exact H.
    + lia.
    + unfold text_lines in *. simpl. apply Forall_app; split; auto.
      constructor; auto. rewrite app_nil_r. intros [H|H]; [discriminate|auto].
    + unfold text_lines in *. simpl.
      destruct (lines st) as [|l0 rest]; simpl in *.
      * repeat constructor. rewrite app_nil_r. eauto.
      * apply Forall_app; split; auto.
        constructor; auto. rewrite app_nil_r. eauto.
    + unfold text_lines. simpl. rewrite app_nil_r.
      apply (unfolded_snoc (lines st ++ [concat (curr_line st)]) u).
      now destruct (lines st).
  - split; [constructor|]; simpl; auto.
    + rewrite concat_app. simpl. rewrite app_nil_r.
      pose proof (blob_size_app_le (concat (curr_line st)) u). lia.
    + unfold text_lines in *. simpl. rewrite concat_app. simpl.
      rewrite app_nil_r. apply Forall_app in H4 as [H4 H4'].
      apply Forall_app; split; auto. inversion H4'; subst.
      constructor; auto. intros H. apply in_app_or in H as [H|H]; auto.
    + unfold text_lines in *. simpl. rewrite concat_app. simpl.
      rewrite app_nil_r. destruct (lines st) as [|l0 rest]; simpl in *.
      * constructor.
      * apply Forall_app in H5 as [H5 H5']. apply Forall_app; split; auto.
        inversion H5' as [|? ? [l' Hl'] _]; subst. constructor; auto.
        rewrite Hl'. simpl. eauto.
    + unfold text_lines. simpl. rewrite concat_app. simpl. rewrite app_nil_r.
      now apply unfolded_app_last.
Qed.

Lemma fold_push_inv (us : list jstring) (st : fold_state) :
  Forall unit_ok us -> fold_inv st ->
  let st' := fold_left (fun st u => push_char u st) us st in
  fold_inv st'
  /\ unfolded (text_lines st') = unfolded (text_lines st) ++ concat us.
Proof.
  revert st. induction us as [|u us IH]; intros st Hus Hst; simpl.
  - now rewrite app_nil_r.
  - inversion Hus as [|? ? Hu Hus']; subst.
    destruct (push_char_inv u st Hu Hst) as [Hi He].
    destruct (IH _ Hus' Hi) as [Hi' He']. simpl in *.
    split; auto. now rewrite He', He, <- app_assoc.
Qed.

Lemma replace2_cons_ne (a b c : N) (rep s : jstring) :
  c <> a -> replace2 a b rep (c :: s) = c :: replace2 a b rep s.
Proof.
  intros H. destruct s as [|d s]; simpl; auto.
  apply N.eqb_neq in H. now rewrite H.
Qed.

Lemma replace2_skip (a b : N) (rep x t : jstring) :
  ~ In a x -> replace2 a b rep (x ++ t) = x ++ replace2 a b rep t.
Proof.
  induction x as [|c x IH]; intros H; simpl app; auto.
  rewrite replace2_cons_ne by (intros ->; apply H; now left).
  f_equal. apply IH. intros H'. apply H. now right.
Qed.

Lemma join_cons_sp (l : jstring) (rest : list jstring) :
  join [NL] ((SP :: l) :: rest) = SP :: join [NL] (l :: rest).
Proof. destruct rest; reflexivity. Qed.

Lemma unfold_join (ls : list jstring) :
  Forall (fun l => ~ In NL l) ls ->
  Forall (fun l => exists l', l = SP :: l') (tl ls) ->
  replace2 NL SP [] (join [NL] ls) = unfolded ls.
Proof.
  destruct ls as [|l0 rest]; [reflexivity|]. simpl tl.
  revert l0. induction rest as [|l1 rest IH]; intros l0 Hn Hs.
  - simpl. rewrite app_nil_r. inversion Hn; subst.
    rewrite <- (app_nil_r l0) at 1. rewrite replace2_skip by auto.
    simpl. apply app_nil_r.
  - inversion Hn as [|? ? Hn0 Hn']; subst.
    inversion Hs as [|? ? [l1' ->] Hs']; subst.
    change (join [NL] (l0 :: (SP :: l1') :: rest))
      with (l0 ++ NL :: join [NL] ((SP :: l1') :: rest)).
    rewrite join_cons_sp, replace2_skip by auto.
    change (replace2 NL SP [] (NL :: SP :: join [NL] (l1' :: rest)))
      with (replace2 NL SP [] (join [NL] (l1' :: rest))).
    rewrite IH; auto.
    inversion Hn' as [|? ? Hn1 Hn'']; subst. constructor; auto.
    intros H. apply Hn1. now right.
Qed.

Lemma split_on_cons (sep : N) (s : jstring) :
  exists p ps, split_on sep s = p :: ps.
Proof.
  destruct s as [|c s]; simpl; eauto.
  destruct (c =? sep); eauto. destruct (split_on sep s); eauto.
Qed.

Lemma split_on_skip (sep : N) (x t : jstring) :
  ~ In sep x ->
  split_on sep (x ++ t)
  = (x ++ hd [] (split_on sep t)) :: tl (split_on sep t).
Proof.
  induction x as [|c x IH]; intros H.
  - simpl. now destruct (split_on_cons sep t) as (p & ps & ->).
  - simpl. destruct (N.eqb_spec c sep) as [->|Hc].
    + exfalso. apply H. now left.
    + rewrite IH by (intros H'; apply H; now right). reflexivity.
Qed.

Lemma split_on_join (ls : list jstring) :
  ls <> [] -> Forall (fun l => ~ In NL l) ls ->
  split_on NL (join [NL] ls) = ls.
Proof.
  destruct ls as [|l0 rest]; [congruence|]. intros _.
  revert l0. induction rest as [|l1 rest IH]; intros l0 Hn.
  - simpl. inversion Hn; subst. rewrite <- (app_nil_r l0) at 1.
    rewrite split_on_skip by auto. simpl. now rewrite app_nil_r.
  - inversion Hn as [|? ? Hn0 Hn']; subst.
    change (join [NL] (l0 :: l1 :: rest))
      with (l0 ++ NL :: join [NL] (l1 :: rest)).
    rewrite split_on_skip by auto.
    change (split_on NL (NL :: join [NL] (l1 :: rest)))
      with ([] :: split_on NL (join [NL] (l1 :: rest))).
    rewrite IH by auto. simpl. now rewrite app_nil_r.
Qed.

Lemma fold_inv_init :
  fold_inv {| lines := []; curr_line := []; curr_line_bytes := 0 |}.
Proof.
  constructor; simpl; auto; try lia.
  unfold text_lines. simpl. constructor; auto.
Qed.

(** Whatever the string, no physical line of what
    [formatTextValue] returns has more than 75 bytes of UTF-8, and removing
    every newline followed by a space gives back the escaped logical line,
    code unit for code unit: characters of several bytes are never cut. *)
Theorem formatTextValue_folding (str : jstring) :
  Forall (fun line => blob_size line <= 75)
         (split_on NL (formatTextValue str))
  /\ replace2 NL SP [] (formatTextValue str) = escape_text str.
Proof.
  unfold formatTextValue, escape_text. rewrite format_loop_units.
  pose proof (fold_push_inv (escape_units 0 (spread str)) _
                (escape_units_ok 0 _ (spread_shape str)) fold_inv_init)
    as [Hi He].
  simpl in Hi, He.
  set (st := fold_left _ _ _) in *.
  change (lines st ++ [concat (curr_line st)]) with (text_lines st).
  destruct Hi as [H1 H2 H3 H4 H5]. split.
  - rewrite split_on_join; auto.
    + unfold text_lines. apply Forall_app; split; auto.
      constructor; auto. lia.
    + unfold text_lines. now destruct (lines st).
  - rewrite unfold_join; auto.
Qed.

(** ** White-space normalisation of names *)

Lemma trim_start_split (s : jstring) :
  exists p, s = p ++ trim_start s /\ Forall (fun c => is_ws c = true) p.
Proof.
  induction s as [|c s (p & Hp & Hws)]; simpl.
  - exists []. auto.
  - destruct (is_ws c) eqn:E.
    + exists (c :: p). simpl. split; [congruence | constructor; auto].
    + exists []. auto.
Qed.

Lemma trim_start_clean (s : jstring) : starts_clean (trim_start s).
Proof.
  induction s as [|c s IH]; simpl; auto.
  destruct (is_ws c) eqn:E; simpl; auto.
Qed.

(** [trim] keeps a contiguous part of the string, between two runs of
    white space, that neither begins nor ends with white space. *)
Lemma trim_split (s : jstring) :
  exists p q, s = p ++ trim s ++ q
              /\ Forall (fun c => is_ws c = true) p
              /\ Forall (fun c => is_ws c = true) q
              /\ starts_clean (trim s) /\ starts_clean (rev (trim s)).
Proof.
  unfold trim.
  destruct (trim_start_split s) as (p & Hp & Hpws).
  destruct (trim_start_split (rev (trim_start s))) as (q & Hq & Hqws).
  pose proof (trim_start_clean s) as H1.
  pose proof (trim_start_clean (rev (trim_start s))) as H2.
  set (t1 := trim_start s) in *. set (t2 := trim_start (rev t1)) in *.
  assert (Ht1 : t1 = rev t2 ++ rev q).
  { rewrite <- rev_app_distr, <- Hq. now rewrite rev_involutive. }
  exists p, (rev q). repeat split.
  - now rewrite <- Ht1.
  - exact Hpws.
  - apply Forall_rev. exact Hqws.
  - rewrite Ht1 in H1. destruct (rev t2); simpl in *; auto.
  - now rewrite rev_involutive.
Qed.

Lemma replace_ws_runs_clean (b : bool) (s : jstring) :
  let r := replace_ws_runs b s in
  no_adjacent_ws r
  /\ Forall (fun c => is_ws c = true -> c = SP) r
  /\ (b = true -> starts_clean r).
Proof.
  revert b. induction s as [|c s IH]; intros b; simpl.
  - repeat split; auto. intros [|? [|? ?]] ? ? ? H; discriminate.
  - destruct (is_ws c) eqn:E.
    + destruct b.
      * apply IH.
      * destruct (IH true) as (Ha & Hs & Hc). repeat split.
        -- intros [|x l1] a b' l2 H Hwa Hwb.
           ++ simpl in H. injection H as <- H.
              specialize (Hc eq_refl). rewrite H in Hc. simpl in Hc.
              congruence.
           ++ simpl in H. injection H as _ H. eapply Ha; eauto.
        -- constructor; auto.
        -- discriminate.
    + destruct (IH false) as (Ha & Hs & _). repeat split.
      * intros [|x l1] a b' l2 H Hwa Hwb.
        -- simpl in H. injection H as <- H. congruence.
        -- simpl in H. injection H as _ H. eapply Ha; eauto.
      * constructor; auto. congruence.
      * intros _. exact E.
Qed.

Lemma split_runs_cons (sep : N -> bool) (b : bool) (s : jstring) :
  exists p ps, split_runs sep b s = p :: ps.
Proof.
  revert b. induction s as [|c s IH]; intros b; simpl; eauto.
  destruct (sep c).
  - destruct b; eauto.
  - destruct (split_runs sep false s); eauto.
Qed.

Lemma filter_pieces (l l' : list jstring) :
  pieces_norm l = pieces_norm l' -> l <> [] -> l' <> [] ->
  List.filter truthy l = List.filter truthy l'.
Proof.
  destruct l as [|p ps], l' as [|p' ps']; try congruence.
  unfold pieces_norm. simpl. intros H _ _. injection H as -> ->. reflexivity.
Qed.

Lemma split_runs_nonnil (sep : N -> bool) (b : bool) (s : jstring) :
  split_runs sep b s <> [].
Proof. destruct (split_runs_cons sep b s) as (p & ps & ->). discriminate. Qed.

Lemma pieces_replace (b : bool) (s : jstring) :
  pieces_norm (split_runs is_ws b (replace_ws_runs b s))
  = pieces_norm (split_runs is_ws b s).
Proof.
  revert b. induction s as [|c s IH]; intros b; [reflexivity|].
  simpl. destruct (is_ws c) eqn:E.
  - destruct b; [apply IH|].
    simpl. change (is_ws SP) with true. cbv iota.
    unfold pieces_norm. simpl. f_equal.
    apply filter_pieces; auto using split_runs_nonnil.
  - simpl. rewrite E.
    specialize (IH false). unfold pieces_norm in *.
    destruct (split_runs_cons is_ws false (replace_ws_runs false s))
      as (p & ps & Ep).
    destruct (split_runs_cons is_ws false s) as (p' & ps' & Ep').
    rewrite Ep, Ep' in *. simpl in *. injection IH as -> ->. reflexivity.
Qed.

Lemma words_flag (b : bool) (s : jstring) :
  List.filter truthy (split_runs is_ws b s) = words s.
Proof.
  destruct b; [|reflexivity]. unfold words.
  destruct s as [|c s]; [reflexivity|]. simpl.
  destruct (is_ws c); reflexivity.
Qed.

Lemma words_replace (s : jstring) : words (replace_ws_runs false s) = words s.
Proof.
  unfold words. apply filter_pieces; auto using split_runs_nonnil.
  apply pieces_replace.
Qed.

Lemma words_ws_prefix (p s : jstring) :
  Forall (fun c => is_ws c = true) p -> words (p ++ s) = words s.
Proof.
  induction 1 as [|c p Hc _ IH]; [reflexivity|].
  unfold words. simpl. rewrite Hc. simpl. rewrite words_flag. exact IH.
Qed.

Lemma pieces_ws_suffix (b : bool) (s q : jstring) :
  Forall (fun c => is_ws c = true) q ->
  pieces_norm (split_runs is_ws b (s ++ q)) = pieces_norm (split_runs is_ws b s).
Proof.
  intros Hq. revert b. induction s as [|c s IH]; intros b.
  - simpl. clear -Hq. revert b.
    induction Hq as [|c q Hc _ IH]; intros b; [reflexivity|].
    simpl. rewrite Hc. destruct b; [apply IH|].
    specialize (IH true). unfold pieces_norm in *. simpl in *.
    destruct (split_runs_cons is_ws true q) as (p & ps & E).
    rewrite E in *. simpl in *. injection IH as -> ->. reflexivity.
  - simpl. destruct (is_ws c).
    + destruct b; [apply IH|].
      unfold pieces_norm. simpl. f_equal.
      apply filter_pieces; auto using split_runs_nonnil.
    + specialize (IH false). unfold pieces_norm in *.
      destruct (split_runs_cons is_ws false (s ++ q)) as (p & ps & Ep).
      destruct (split_runs_cons is_ws false s) as (p' & ps' & Ep').
      rewrite Ep, Ep' in *. simpl in *. injection IH as -> ->. reflexivity.
Qed.

Lemma words_trim (s : jstring) : words (trim s) = words s.
Proof.
  destruct (trim_split s) as (p & q & Hs & Hp & Hq & _).
  rewrite Hs at 2. rewrite words_ws_prefix by auto.
  unfold words. symmetry.
  apply filter_pieces; auto using split_runs_nonnil.
  now apply pieces_ws_suffix.
Qed.

Lemma no_adjacent_ws_part (p s q : jstring) :
  no_adjacent_ws (p ++ s ++ q) -> no_adjacent_ws s.
Proof.
  intros H l1 a b l2 E. apply (H (p ++ l1) a b (l2 ++ q)).
  rewrite E, <- !app_assoc. reflexivity.
Qed.

(** ** Validation in the setters *)

Lemma includes_In (arr : list jstring) (x : jstring) :
  includes arr x = true <-> In x arr.
Proof.
  unfold includes. rewrite existsb_exists. split.
  - intros (y & Hy & E). apply jstr_eqb_eq in E. now subst.
  - intros H. exists x. split; auto. apply jstr_eqb_refl.
Qed.

(** C10. [setGender] throws, changing nothing, unless the code is one of
    the five upper-case letters; when it returns, the code is stored as it
    is and the identity trimmed and lower-cased ([null] stays [null]). *)
Theorem setGender_spec (gender_ : jstring) (ident : option jstring)
    (v : VCard.VCard) :
  (~ In gender_ gender_codes ->
   setGender gender_ ident v = (Throw (js "Invalid Gender value."), v))
  /\ (In gender_ gender_codes ->
      setGender gender_ ident v
      = (Return tt,
         set_gender_ident (option_map (fun i => toLowerCase (trim i)) ident)
           (set_gender (Some gender_) v))).
Proof.
  unfold setGender. cbv zeta.
  change [GENDER_MAL; GENDER_FEM; GENDER_OTH; GENDER_NON; GENDER_UNK]
    with gender_codes.
  assert (Hid : (if truthy_opt ident
                 then option_map (fun i => toLowerCase (trim i)) ident
                 else ident)
                = option_map (fun i => toLowerCase (trim i)) ident).
  { destruct ident as [[|c i]|]; reflexivity. }
  rewrite Hid. split; intros H.
  - destruct (includes gender_codes gender_) eqn:E; [|reflexivity].
    apply includes_In in E. contradiction.
  - apply includes_In in H. rewrite H. reflexivity.
Qed.

Lemma setGender_spec_witness :
  setGender (js "boy") None new_VCard
  = (Throw (js "Invalid Gender value."), new_VCard)
  /\ setGender (js "m") None new_VCard
     = (Throw (js "Invalid Gender value."), new_VCard)
  /\ gender_ident (snd (setGender (js "F") (Some (js "  Non-Binary ")) new_VCard))
     = Some (js "non-binary")
  /\ gender_ident (snd (setGender (js "U") (Some [32; 201; 84; 201; 32])
                          new_VCard))
     = Some [233; 116; 233].
Proof.
  split; [|split; [|split]].
  - apply (proj1 (setGender_spec (js "boy") None new_VCard)).
    vm_compute. intuition discriminate.
  - apply (proj1 (setGender_spec (js "m") None new_VCard)).
    vm_compute. intuition discriminate.
  - rewrite (proj2 (setGender_spec (js "F") (Some (js "  Non-Binary "))
                      new_VCard)); [reflexivity|].
    vm_compute. auto.
  - rewrite (proj2 (setGender_spec (js "U") (Some [32; 201; 84; 201; 32])
                      new_VCard)); [reflexivity|].
    vm_compute. auto 6.
Defined.

(** C7. The five calls of the test suite throw and leave the contact as it
    was, whatever the contact and the phone number. *)
Theorem invalid_setter_calls_throw (v : VCard.VCard) (n : jstring) :
  setGender (js "boy") None v = (Throw (js "Invalid Gender value."), v)
  /\ setKind (js "animal") v = (Throw (js "Invalid Kind value."), v)
  /\ setPhone n None (Some (TypeArray [js "phone"])) false v
     = (Throw (js "Invalid Type value."), v)
  /\ setEmail (js "not an email") false v
     = (Throw (js "Invalid Email value."), v)
  /\ setPhoto (js "photo.jpg") v = (Throw (js "Invalid Image Data URI"), v).
Proof.
  assert (E : regex_test emailRegex (toLowerCase (js "not an email")) = false)
    by (vm_compute; reflexivity).
  split; [reflexivity|]. split; [reflexivity|]. split; [reflexivity|].
  split; [|reflexivity].
  unfold setEmail. rewrite E. reflexivity.
Qed.

(** ** The preferred entry *)

Lemma check_types_state (allowed types : list jstring) (v : VCard.VCard) :
  snd (for_each (fun t => if negb (includes allowed t)
                          then throw (js "Invalid Type value.") else ret tt)
         types v) = v.
Proof.
  induction types as [|t types IH]; [reflexivity|]. simpl.
  unfold bind. destruct (includes allowed t); simpl; auto.
Qed.

(** A [setPhone] call that returns has pushed its entry, after clearing
    the flag of the entries already there when it is preferred. *)
Lemma setPhone_returns (c : phone_call) (v v' : VCard.VCard) :
  call_setPhone c v = (Return tt, v') ->
  tel v' = (if pc_pref c then map clear_tel_pref (tel v) else tel v)
           ++ [phone_entry c].
Proof.
  unfold call_setPhone, setPhone, phone_entry. cbv zeta.
  set (chk := for_each _ _). unfold bind at 1.
  pose proof (check_types_state
                [TEL_TYPE_TXT; TEL_TYPE_VCE; TEL_TYPE_FAX; TEL_TYPE_CEL;
                 TEL_TYPE_VID; TEL_TYPE_PAG; TEL_TYPE_TPH]
                (match default_arg (TypeArray []) (pc_type c) with
                 | TypeString s => [s]
                 | TypeArray a => a
                 end) v) as Hs.
  fold chk in Hs. destruct (chk v) as [[[]|e] v1]; simpl in Hs; subst v1.
  - destruct (pc_pref c); intros H; injection H as <-; reflexivity.
  - discriminate.
Qed.

Lemma setEmail_returns (c : email_call) (v v' : VCard.VCard) :
  call_setEmail c v = (Return tt, v') ->
  email v' = (if ec_pref c then map clear_email_pref (email v) else email v)
             ++ [email_entry c].
Proof.
  unfold call_setEmail, setEmail, email_entry.
  destruct (regex_test emailRegex (toLowerCase (ec_email c))); simpl;
    [|discriminate].
  destruct (ec_pref c); intros H; injection H as <-; reflexivity.
Qed.

(** Pushing entries one after the other, a preferred one clearing the flag
    of those before it: the preferred entry is that of the last preferred
    call. *)
Lemma push_sole_pref {C A} (cpref : C -> bool) (pref : A -> bool)
    (clear : A -> A) (entry : C -> A) (calls : list C) (l0 : list A) :
  (forall x, pref (clear x) = false) ->
  (forall c, pref (entry c) = cpref c) ->
  existsb cpref calls = true ->
  exists c after,
    last_pref_call cpref calls c after
    /\ sole_pref pref (entry c) (length after)
         (fold_left (fun l c => (if cpref c then map clear l else l)
                                ++ [entry c]) calls l0).
Proof.
  intros Hclear Hentry. induction calls as [|c calls IH] using rev_ind.
  - discriminate.
  - intros Hex. rewrite fold_left_app. simpl.
    set (l := fold_left _ calls l0) in *.
    destruct (cpref c) eqn:Ec.
    + exists c, []. split; [|split].
      * split; [exact Ec|]. split; [constructor|]. now exists calls.
      * now rewrite Hentry.
      * exists (map clear l), []. repeat split; auto.
        apply Forall_map. apply Forall_forall. intros x _. apply Hclear.
    + rewrite existsb_app in Hex. simpl in Hex. rewrite Ec in Hex.
      rewrite !orb_false_r in Hex.
      destruct (IH Hex) as (c0 & after & (Hc0 & Haft & before & ->) & Hp & Hs).
      destruct Hs as (l1 & l2 & El & Hl1 & Hl2 & Hlen).
      exists c0, (after ++ [c]). split; [|split].
      * split; [exact Hc0|]. split.
        -- apply Forall_app. split; auto.
        -- exists before. now rewrite <- app_assoc.
      * exact Hp.
      * exists l1, (l2 ++ [entry c]). repeat split; auto.
        -- rewrite El, <- app_assoc. reflexivity.
        -- apply Forall_app. split; auto. constructor; auto.
           now rewrite Hentry.
        -- rewrite !length_app. simpl. lia.
Qed.

Lemma run_calls_fold {C A} (call : C -> M unit) (field : VCard.VCard -> list A)
    (cpref : C -> bool) (clear : A -> A) (entry : C -> A) :
  (forall c v v', call c v = (Return tt, v') ->
     field v' = (if cpref c then map clear (field v) else field v)
                ++ [entry c]) ->
  forall calls v v', for_each call calls v = (Return tt, v') ->
    field v' = fold_left (fun l c => (if cpref c then map clear l else l)
                                     ++ [entry c]) calls (field v).
Proof.
  intros Hcall. induction calls as [|c calls IH]; intros v v' H; simpl in *.
  - unfold ret in H. now injection H as <-.
  - unfold bind in H. destruct (call c v) as [[[]|e] v1] eqn:E;
      [|discriminate].
    rewrite (IH _ _ H). now rewrite (Hcall _ _ _ E).
Qed.

Lemma sole_pref_count {A} (pref : A -> bool) (e : A) (n : nat) (l : list A) :
  sole_pref pref e n l -> length (List.filter pref l) = 1%nat.
Proof.
  intros (He & l1 & l2 & -> & H1 & H2 & _).
  assert (Hnone : forall l, Forall (fun x => pref x = false) l ->
                            List.filter pref l = []).
  { induction 1 as [|x l Hx _ IH]; simpl; [reflexivity|]. now rewrite Hx. }
  rewrite List.filter_app. simpl. rewrite He, (Hnone _ H1), (Hnone _ H2).
  reflexivity.
Qed.

(** ** Contacts built through the setters *)

Lemma check_types_cases (allowed types : list jstring) (v : VCard.VCard) :
  let check := for_each (fun t => if negb (includes allowed t)
                                  then throw (js "Invalid Type value.")
                                  else ret tt) types in
  check v = (Return tt, v) \/ check v = (Throw (js "Invalid Type value."), v).
Proof.
  induction types as [|t types IH]; simpl; [now left|].
  unfold bind. destruct (includes allowed t); simpl; auto.
Qed.

(** [setPhone] throws before it writes, or pushes its entry. *)
Lemma setPhone_cases (phone : jstring) (ext : option jstring)
    (type : option type_arg) (pref : bool) (v : VCard.VCard) :
  setPhone phone ext type pref v = (Throw (js "Invalid Type value."), v)
  \/ setPhone phone ext type pref v
     = (Return tt,
        set_tel ((if pref then map clear_tel_pref (tel v) else tel v)
                 ++ [phone_entry (PhoneCall phone ext type pref)]) v).
Proof.
  destruct (check_types_cases
              [TEL_TYPE_TXT; TEL_TYPE_VCE; TEL_TYPE_FAX; TEL_TYPE_CEL;
               TEL_TYPE_VID; TEL_TYPE_PAG; TEL_TYPE_TPH]
              (match default_arg (TypeArray []) type with
               | TypeString s => [s]
               | TypeArray a => a
               end) v) as [E|E]; cbv zeta in E; [right|left];
    unfold setPhone; cbv zeta; unfold bind at 1; rewrite E.
  - destruct pref; reflexivity.
  - reflexivity.
Qed.

(** What a setter call does to the names, the phone entries and the email
    entries. *)
Lemma call_effect (c : setter_call) (v : VCard.VCard) :
  let v' := snd (call c v) in
  (name v' = name v
   \/ exists n, c = SetName n
                /\ name v' = name v ++ [trim (replace_ws_runs false n)])
  /\ (tel v' = tel v
      \/ exists cp, tel v' = (if pc_pref cp then map clear_tel_pref (tel v)
                              else tel v) ++ [phone_entry cp])
  /\ (email v' = email v
      \/ exists ce, email v' = (if ec_pref ce
                                then map clear_email_pref (email v)
                                else email v) ++ [email_entry ce]).
Proof.
  destruct c; cbn [call].
  all: try (unfold setVersion, setNickname, setName, setKind, setPhoto,
              setBday, setAnniversary, setGender, setAddress, setIM, setTitle,
              setRole, setLogo, setOrg, setNote, setURL, bind, assign, throw,
              ret;
            repeat match goal with
                   | |- context [if ?b then _ else _] => destruct b
                   | |- context [match ?d with IsDate _ => _ | NotDate _ => _ end] =>
                       destruct d
                   end;
            cbn; eauto 10; fail).
  - (* setPhone *)
    destruct (setPhone_cases phone ext type pref v) as [-> | ->]; cbn; auto.
    split; [now left|]. split; [|now left]. right.
    now exists (PhoneCall phone ext type pref).
  - (* setEmail *)
    unfold setEmail, bind, assign, throw, ret.
    destruct (negb (regex_test emailRegex (toLowerCase email_))); cbn; auto.
    split; [left; now destruct pref|]. split; [left; now destruct pref|].
    right. exists (EmailCall email_ pref). destruct pref; reflexivity.
Qed.

Lemma normalized_stored (n : jstring) :
  normalized (trim (replace_ws_runs false n)).
Proof.
  destruct (replace_ws_runs_clean false n) as (Ha & Hs & _).
  destruct (trim_split (replace_ws_runs false n))
    as (p & q & E & _ & _ & Hc1 & Hc2).
  simpl in Ha, Hs. repeat split; auto.
  - rewrite E in Ha. now apply no_adjacent_ws_part in Ha.
  - rewrite E in Hs. apply Forall_app in Hs as [_ Hs].
    now apply Forall_app in Hs as [Hs _].
Qed.

Lemma push_at_most_one {A} (pref : A -> bool) (clear : A -> A) (x : A)
    (l : list A) :
  (forall y, pref (clear y) = false) ->
  at_most_one pref l ->
  at_most_one pref ((if pref x then map clear l else l) ++ [x]).
Proof.
  intros Hclear H. unfold at_most_one in *. rewrite List.filter_app. simpl.
  destruct (pref x) eqn:E; rewrite length_app; simpl; [|lia].
  assert (Hnone : List.filter pref (map clear l) = []).
  { clear -Hclear. induction l as [|y l IH]; simpl; [reflexivity|].
    now rewrite Hclear. }
  rewrite Hnone. simpl. lia.
Qed.

(** The invariants of the contacts built through the setters: every name
    is normalized, and at most one phone entry and at most one email entry
    are preferred. *)
Lemma built_invariants (v : VCard.VCard) :
  built v ->
  Forall normalized (name v)
  /\ at_most_one tel_pref (tel v)
  /\ at_most_one em_pref (email v).
Proof.
  induction 1 as [|c v Hv (Hn & Ht & He)].
  - repeat split; try constructor; unfold at_most_one; simpl; lia.
  - destruct (call_effect c v) as (Hname & Htel & Hemail).
    cbv zeta in Hname, Htel, Hemail. split; [|split].
    + destruct Hname as [-> | (n & _ & ->)]; auto.
      apply Forall_app. split; auto. constructor; [|constructor].
      apply normalized_stored.
    + destruct Htel as [-> | (cp & ->)]; auto.
      change (pc_pref cp) with (tel_pref (phone_entry cp)).
      now apply push_at_most_one.
    + destruct Hemail as [-> | (ce & ->)]; auto.
      change (ec_pref ce) with (em_pref (email_entry ce)).
      now apply push_at_most_one.
Qed.

(** C9. [setName] appends one entry and leaves the others: the entry has the
    words of the argument, no two adjacent white-space code units, no
    white space other than the single space U+0020, and neither begins nor
    ends with white space.  So it is with every name of a contact built
    through the setters. *)
Theorem setName_normalizes (name_ : jstring) (v : VCard.VCard) :
  (exists stored,
     setName name_ v = (Return tt, set_name (name v ++ [stored]) v)
     /\ words stored = words name_
     /\ normalized stored)
  /\ (built v -> Forall normalized (name v)).
Proof.
  split.
  - exists (trim (replace_ws_runs false name_)). split; [reflexivity|].
    split; [|apply normalized_stored].
    now rewrite words_trim, words_replace.
  - intros H. now apply built_invariants.
Qed.

Lemma setName_normalizes_witness :
  Forall normalized
    (name (snd (call (SetName (js "  Pamela   Mishaw ")) new_VCard))).
Proof.
  apply (proj2 (setName_normalizes []
                  (snd (call (SetName (js "  Pamela   Mishaw ")) new_VCard)))).
  apply built_call, built_new.
Defined.

(** C4. After a sequence of [setPhone] calls that all return, at least one
    of them preferred, exactly one stored phone entry is preferred: the one
    the last preferred call pushed; and the same for [setEmail].  In every
    contact built through the setters at most one phone entry and at most
    one email entry are preferred. *)
Theorem preferred_entry_exclusive :
  (forall (calls : list phone_call) (v v' : VCard.VCard),
     for_each call_setPhone calls v = (Return tt, v') ->
     existsb pc_pref calls = true ->
     exists c after,
       last_pref_call pc_pref calls c after
       /\ sole_pref tel_pref (phone_entry c) (length after) (tel v')
       /\ length (List.filter tel_pref (tel v')) = 1%nat)
  /\ (forall (calls : list email_call) (v v' : VCard.VCard),
        for_each call_setEmail calls v = (Return tt, v') ->
        existsb ec_pref calls = true ->
        exists c after,
          last_pref_call ec_pref calls c after
          /\ sole_pref em_pref (email_entry c) (length after) (email v')
          /\ length (List.filter em_pref (email v')) = 1%nat)
  /\ (forall v, built v ->
        at_most_one tel_pref (tel v) /\ at_most_one em_pref (email v)).
Proof.
  split; [|split]; [| |intros v Hv; now apply built_invariants];
    intros calls v v' Hrun Hex.
  - rewrite (run_calls_fold call_setPhone tel pc_pref clear_tel_pref
               phone_entry setPhone_returns calls v v' Hrun).
    destruct (push_sole_pref pc_pref tel_pref clear_tel_pref phone_entry
                calls (tel v)) as (c & after & Hl & Hs); auto.
    exists c, after. eauto using sole_pref_count.
  - rewrite (run_calls_fold call_setEmail email ec_pref clear_email_pref
               email_entry setEmail_returns calls v v' Hrun).
    destruct (push_sole_pref ec_pref em_pref clear_email_pref email_entry
                calls (email v)) as (c & after & Hl & Hs); auto.
    exists c, after. eauto using sole_pref_count.
Qed.

Lemma preferred_entry_exclusive_witness :
  let phones := [PhoneCall (js "8187776543") (Some (js "123"))
                   (Some (TypeString (js "text"))) true;
                 PhoneCall (js "8136160999") None None false] in
  let emails := [EmailCall (js "email@me.com") true;
                 EmailCall (js "email@you.com") true] in
  (exists c after,
     last_pref_call pc_pref phones c after
     /\ sole_pref tel_pref (phone_entry c) (length after)
          (tel (snd (for_each call_setPhone phones new_VCard)))
     /\ length (List.filter tel_pref
                  (tel (snd (for_each call_setPhone phones new_VCard))))
        = 1%nat)
  /\ (exists c after,
        last_pref_call ec_pref emails c after
        /\ sole_pref em_pref (email_entry c) (length after)
             (email (snd (for_each call_setEmail emails new_VCard)))
        /\ length (List.filter em_pref
                     (email (snd (for_each call_setEmail emails new_VCard))))
           = 1%nat)
  /\ at_most_one tel_pref
       (tel (snd (call (SetPhone (js "8187776543") None None true)
                    new_VCard))).
Proof.
  intros phones emails. split; [|split].
  - apply (proj1 preferred_entry_exclusive phones new_VCard);
      vm_compute; reflexivity.
  - apply (proj1 (proj2 preferred_entry_exclusive) emails new_VCard);
      vm_compute; reflexivity.
  - apply (proj2 (proj2 preferred_entry_exclusive)).
    apply built_call, built_new.
Defined.

(** ** Mandatory fields *)

Lemma map_outcome_throw {A B} (f : A -> outcome B) (xs : list A) (e : jstring) :
  map_outcome f xs = Throw e -> exists x, In x xs /\ f x = Throw e.
Proof.
  induction xs as [|x xs IH]; simpl; [discriminate|].
  destruct (f x) as [y|e'] eqn:E; simpl.
  - destruct (map_outcome f xs); simpl; [discriminate|].
    intros H. injection H as <-. destruct (IH eq_refl) as (x' & ? & ?).
    exists x'. auto.
  - intros H. injection H as <-. exists x. auto.
Qed.

Lemma map_outcome_return {A B} (f : A -> outcome B) (xs : list A) :
  (forall x, In x xs -> exists y, f x = Return y) ->
  exists ys, map_outcome f xs = Return ys.
Proof.
  induction xs as [|x xs IH]; simpl; intros H; eauto.
  destruct (H x) as (y & ->); auto. simpl.
  destruct IH as (ys & ->); eauto.
Qed.

Lemma render_image_throw (ver : Z) (prop uri e : jstring) :
  render_image ver prop uri = Throw e ->
  e = js "TypeError: null is not iterable".
Proof.
  unfold render_image. destruct (ver =? 4)%Z; [discriminate|].
  destruct (dataUriRegex_match uri) as [[ty data]|]; [discriminate|].
  congruence.
Qed.

Lemma render_date_throw (ver : Z) (prop : jstring) (d : option Date)
    (e : jstring) :
  render_date ver prop d = Throw e -> e = js "RangeError: Invalid time value".
Proof.
  unfold render_date, formatDate. destruct d as [date|]; [|discriminate].
  destruct (toISOString date); simpl; [|congruence].
  destruct (ver =? 4)%Z; discriminate.
Qed.

Lemma render_image_return (ver : Z) (prop : jstring) (uris : list jstring) :
  renderable_images ver uris ->
  exists ys, map_outcome (render_image ver prop) uris = Return ys.
Proof.
  intros H. apply map_outcome_return. intros u Hu. unfold render_image.
  destruct H as [->|H]; [simpl; eauto|].
  destruct (ver =? 4)%Z; eauto.
  rewrite List.Forall_forall in H. specialize (H u Hu).
  unfold dataUriRegex_test in H.
  destruct (dataUriRegex_match u) as [[ty data]|]; [eauto|discriminate].
Qed.

Lemma render_date_return (ver : Z) (prop : jstring) (d : option Date) :
  renderable_date d -> exists ys, render_date ver prop d = Return ys.
Proof.
  unfold render_date, formatDate, toISOString. destruct d as [date|]; eauto.
  simpl. destruct (time_value date) as [t|]; [|congruence]. intros _.
  destruct (civil_from_days (t / ms_per_day)) as [[y m] d]. simpl.
  destruct (ver =? 4)%Z; eauto.
Qed.

(** The two checks of lines 322-330, as they decide [render_parts]. *)
Lemma render_parts_checked (v : VCard.VCard) :
  name v <> [] ->
  (specVersion v = 4%Z -> truthy_opt (kind v) = true) ->
  forall e, render_parts v = Throw e ->
            e = js "TypeError: null is not iterable"
            \/ e = js "RangeError: Invalid time value".
Proof.
  intros Hn Hk e. unfold render_parts. cbv zeta.
  destruct ((specVersion v =? 4)%Z && negb (truthy_opt (kind v))) eqn:E1.
  { apply andb_true_iff in E1 as [E1 E2]. apply Z.eqb_eq in E1.
    rewrite (Hk E1) in E2. discriminate. }
  destruct (name v) as [|n ns] eqn:E2; [congruence|]. simpl length.
  change (S (length ns) =? 0)%nat with false. cbv iota.
  destruct (map_outcome (render_image (specVersion v) (js "PHOTO")) (photo v))
    as [photos|e1] eqn:Ep; simpl.
  2:{ intros H. injection H as <-.
      apply map_outcome_throw in Ep as (x & _ & Hx).
      left. eapply render_image_throw; eauto. }
  destruct (render_date (specVersion v) (js "BDAY") (bday v))
    as [b|e1] eqn:Eb; simpl.
  2:{ intros H. injection H as <-. right. eapply render_date_throw; eauto. }
  destruct (if (specVersion v =? 4)%Z
            then render_date (specVersion v) (js "ANNIVERSARY") (anniversary v)
            else Return []) as [a|e1] eqn:Ea; simpl.
  2:{ intros H. injection H as <-. right.
      destruct (specVersion v =? 4)%Z; [|discriminate].
      eapply render_date_throw; eauto. }
  destruct (map_outcome (render_image (specVersion v) (js "LOGO")) (logo v))
    as [logos|e1] eqn:El; simpl; [discriminate|].
  intros H. injection H as <-.
  apply map_outcome_throw in El as (x & _ & Hx).
  left. eapply render_image_throw; eauto.
Qed.

(** C5. [render] throws when the contact has no name, whatever the version,
    and when the version is 4 and the kind is not set.  With a name (and a
    kind under version 4) it throws neither error, and it returns the text
    when no date is invalid and, outside version 4, the photos and logos
    are data URIs. *)
Theorem render_mandatory_fields (v : VCard.VCard) :
  (name v = [] ->
   render v = Throw missing_name \/ render v = Throw missing_kind)
  /\ (specVersion v = 4%Z -> truthy_opt (kind v) = false ->
      render v = Throw missing_kind)
  /\ (name v <> [] ->
      (specVersion v = 4%Z -> truthy_opt (kind v) = true) ->
      render v <> Throw missing_name /\ render v <> Throw missing_kind
      /\ (renderable_date (bday v) -> renderable_date (anniversary v) ->
          renderable_images (specVersion v) (photo v) ->
          renderable_images (specVersion v) (logo v) ->
          exists text, render v = Return text)).
Proof.
  split; [|split].
  - intros Hn. unfold render, render_parts. cbv zeta. rewrite Hn.
    destruct ((specVersion v =? 4)%Z && negb (truthy_opt (kind v)));
      simpl; auto.
  - intros Hv Hk. unfold render, render_parts. cbv zeta.
    rewrite Hv, Hk. reflexivity.
  - intros Hn Hk.
    pose proof (render_parts_checked v Hn Hk) as Hthrow.
    assert (Hne : forall e, render v = Throw e ->
                            e <> missing_name /\ e <> missing_kind).
    { intros e. unfold render. destruct (render_parts v) as [parts|e'] eqn:E;
        simpl; [discriminate|].
      intros H. injection H as <-.
      destruct (Hthrow e' eq_refl) as [->| ->]; split; discriminate. }
    split; [|split].
    + intros H. now destruct (Hne _ H).
    + intros H. now destruct (Hne _ H).
    + intros Hb Ha Hp Hl. unfold render, render_parts. cbv zeta.
      destruct ((specVersion v =? 4)%Z && negb (truthy_opt (kind v))) eqn:E1.
      { apply andb_true_iff in E1 as [E1 E2]. apply Z.eqb_eq in E1.
        rewrite (Hk E1) in E2. discriminate. }
      destruct (name v) as [|n ns] eqn:E2; [congruence|]. simpl length.
      change (S (length ns) =? 0)%nat with false. cbv iota.
      destruct (render_image_return _ (js "PHOTO") _ Hp) as (ps & ->).
      destruct (render_date_return (specVersion v) (js "BDAY") _ Hb)
        as (b & ->).
      destruct (render_date_return (specVersion v) (js "ANNIVERSARY") _ Ha)
        as (a & Ea).
      destruct (render_image_return _ (js "LOGO") _ Hl) as (ls & ->).
      simpl. destruct (specVersion v =? 4)%Z; [rewrite Ea|]; simpl; eauto.
Qed.

Lemma render_mandatory_fields_witness :
  (render (set_specVersion 3 new_VCard) = Throw missing_name
   \/ render (set_specVersion 3 new_VCard) = Throw missing_kind)
  /\ render (set_name [js "Bob"] new_VCard) = Throw missing_kind
  /\ exists text,
       render (set_kind (Some (js "individual"))
                 (set_name [js "Bob"] new_VCard)) = Return text.
Proof.
  split; [|split].
  - apply (proj1 (render_mandatory_fields (set_specVersion 3 new_VCard))).
    reflexivity.
  - apply (proj1 (proj2 (render_mandatory_fields
                           (set_name [js "Bob"] new_VCard))));
      reflexivity.
  - apply (proj2 (proj2 (render_mandatory_fields
                           (set_kind (Some (js "individual"))
                              (set_name [js "Bob"] new_VCard)))));
      simpl; try discriminate; try reflexivity; auto.
    + left. reflexivity.
    + left. reflexivity.
Defined.

(** ** Version gating *)

Lemma join_snoc (sep : jstring) (ls : list jstring) (m : jstring) :
  ls <> [] -> join sep (ls ++ [m]) = join sep ls ++ sep ++ m.
Proof.
  induction ls as [|l ls IH]; [congruence|]. intros _.
  destruct ls as [|l' ls]; [reflexivity|].
  change (join sep ((l :: l' :: ls) ++ [m]))
    with (l ++ sep ++ join sep ((l' :: ls) ++ [m])).
  rewrite IH by discriminate.
  change (join sep (l :: l' :: ls)) with (l ++ sep ++ join sep (l' :: ls)).
  now rewrite <- !app_assoc.
Qed.

Lemma join_app_last (sep : jstring) (ls : list jstring) (l u : jstring) :
  join sep (ls ++ [l ++ u]) = join sep (ls ++ [l]) ++ u.
Proof.
  destruct ls as [|l0 ls]; [reflexivity|].
  rewrite !join_snoc by discriminate. now rewrite <- !app_assoc.
Qed.

(** Pushing only appends to the text. *)
Lemma push_char_extends (u : jstring) (st : fold_state) :
  exists x, join [NL] (text_lines (push_char u st))
            = join [NL] (text_lines st) ++ x.
Proof.
  unfold push_char, text_lines.
  destruct (max_line_bytes <? curr_line_bytes st + blob_size u); simpl.
  - rewrite join_snoc by (now destruct (lines st)). eauto.
  - rewrite concat_app. simpl. rewrite app_nil_r, join_app_last. eauto.
Qed.

Lemma fold_push_extends (us : list jstring) (st : fold_state) :
  exists x, join [NL] (text_lines (fold_left (fun st u => push_char u st) us st))
            = join [NL] (text_lines st) ++ x.
Proof.
  revert st. induction us as [|u us IH]; intros st; simpl.
  - exists []. now rewrite app_nil_r.
  - destruct (IH (push_char u st)) as (x & ->).
    destruct (push_char_extends u st) as (y & ->).
    exists (y ++ x). now rewrite app_assoc.
Qed.

(** A value that begins with a plain code unit is formatted to a line that
    begins with it. *)
Lemma formatTextValue_head (c : N) (s : jstring) :
  plain c = true -> exists t, formatTextValue (c :: s) = c :: t.
Proof.
  intros Hp. unfold plain in Hp. apply andb_true_iff in Hp as [Hlt Hsp].
  apply N.ltb_lt in Hlt. apply negb_true_iff in Hsp. simpl in Hsp.
  repeat (apply orb_false_iff in Hsp as [?H Hsp]).
  assert (Hhigh : is_high c = false).
  { unfold is_high. apply andb_false_iff. left. apply N.leb_gt. lia. }
  assert (Hspread : spread (c :: s) = [c] :: spread s).
  { destruct s as [|d s]; [reflexivity|].
    change (spread (c :: d :: s)) with
      (if is_high c && is_low d then [c; d] :: spread s
       else [c] :: spread (d :: s)).
    now rewrite Hhigh. }
  assert (Hesc : escape_char [c] = [c]).
  { rewrite escape_char_single. now rewrite H, H0, H1, H2, H3. }
  assert (Htok : token_char ([c] :: spread s) [c] = ([c], 0%nat)).
  { unfold token_char. literals. rewrite jstr_eqb_single. now rewrite H4. }
  unfold formatTextValue. rewrite Hspread.
  change (format_loop 0 ([c] :: spread s) ?st)
    with (let '(char, adv) := token_char ([c] :: spread s) (escape_char [c]) in
          format_loop adv (spread s) (push_char char st)).
  rewrite Hesc, Htok. rewrite format_loop_units.
  match goal with
  | |- context [fold_left ?f ?us ?st] =>
      destruct (fold_push_extends us st) as (x & Hx)
  end.
  unfold text_lines in Hx. rewrite Hx.
  unfold push_char, max_line_bytes. simpl curr_line_bytes.
  change (blob_size [c]) with (unit_bytes c).
  pose proof (unit_bytes_le c).
  destruct (N.ltb_spec 75 (0 + unit_bytes c)); [lia|].
  simpl. eauto.
Qed.

Lemma headed_app (c : N) (s r : jstring) : headed c s -> headed c (s ++ r).
Proof. intros (t & ->). now exists (t ++ r). Qed.

Lemma headed_lit (c : N) (t : jstring) : headed c (c :: t).
Proof. now exists t. Qed.

Lemma begins_headed (c : N) (s : jstring) :
  In c line_initials -> headed c s -> begins_with line_initials s.
Proof. intros Hin (t & ->). now exists c, t. Qed.

Lemma begins_format (c : N) (s : jstring) :
  plain c = true -> In c line_initials -> headed c s ->
  begins_with line_initials (formatTextValue s).
Proof.
  intros Hp Hin (t & ->). destruct (formatTextValue_head c t Hp) as (x & ->).
  now exists c, x.
Qed.

Lemma begins_not_v4 (line : jstring) :
  begins_with line_initials line -> v4_only_line line = false.
Proof.
  intros (c & t & -> & Hin). unfold line_initials in Hin. simpl in Hin.
  repeat (destruct Hin as [<-|Hin]; [reflexivity|]). contradiction.
Qed.

Ltac initial := unfold line_initials; simpl; tauto.

Ltac head_of c :=
  apply (begins_format c); [reflexivity | initial |];
  repeat apply headed_app; apply (headed_lit c).

Lemma render_names_begin (i : nat) (names : list jstring) :
  Forall (begins_with line_initials) (render_names i names).
Proof.
  revert i. induction names as [|n names IH]; intros i; [constructor|].
  cbn [render_names]. apply Forall_app. split; [|apply Forall_app; split].
  - constructor; [|constructor]. head_of 70.
  - destruct (i =? 0)%nat; [|constructor].
    constructor; [|constructor]. head_of 78.
  - apply IH.
Qed.

Lemma render_nicknames_begin (nicknames : list jstring) :
  Forall (begins_with line_initials) (render_nicknames nicknames).
Proof.
  unfold render_nicknames.
  induction nicknames as [|n nicknames IH]; [constructor|].
  cbn [flat_map]. apply Forall_app. split; auto.
  destruct (negb (truthy (trim n))); constructor; [|constructor].
  apply (begins_headed 78); [initial|]. apply headed_app, (headed_lit 78).
Qed.

Lemma map_outcome_Forall {A B} (f : A -> outcome B) (P : B -> Prop)
    (xs : list A) (ys : list B) :
  (forall x y, f x = Return y -> P y) ->
  map_outcome f xs = Return ys -> Forall P ys.
Proof.
  intros Hf. revert ys. induction xs as [|x xs IH]; simpl; intros ys H.
  - injection H as <-. constructor.
  - destruct (f x) as [y|e] eqn:E; simpl in H; [|discriminate].
    destruct (map_outcome f xs) as [ys'|e]; simpl in H; [|discriminate].
    injection H as <-. constructor; eauto.
Qed.

Lemma render_image_begin (ver : Z) (c : N) (prop uri line : jstring) :
  plain c = true -> In c line_initials -> headed c prop ->
  render_image ver prop uri = Return line ->
  begins_with line_initials line.
Proof.
  intros Hp Hin Hh. unfold render_image. destruct (ver =? 4)%Z.
  - intros H. injection H as <-.
    apply (begins_format c); auto. now apply headed_app.
  - destruct (dataUriRegex_match uri) as [[ty data]|]; [|discriminate].
    intros H. injection H as <-.
    apply (begins_format c); auto. now apply headed_app.
Qed.

Lemma render_date_begin (ver : Z) (c : N) (prop : jstring) (d : option Date)
    (ls : list jstring) :
  In c line_initials -> headed c prop ->
  render_date ver prop d = Return ls ->
  Forall (begins_with line_initials) ls.
Proof.
  intros Hin Hh. unfold render_date. destruct d as [date|].
  - destruct (formatDate ver date); simpl; [|discriminate].
    intros H. injection H as <-. constructor; [|constructor].
    apply (begins_headed c); auto. now apply headed_app.
  - intros H. injection H as <-. constructor.
Qed.

Lemma render_addresses_begin (group : N) (adrs : list Address) :
  Forall (begins_with line_initials) (render_addresses 3 group adrs).
Proof.
  revert group. induction adrs as [|a adrs IH]; intros group; [constructor|].
  cbn [render_addresses]. change (3 =? 3)%Z with true.
  change (3 =? 4)%Z with false. cbv iota beta. cbn [andb].
  apply Forall_app. split; [|apply Forall_app; split; [|apply IH]].
  - constructor; [|constructor].
    apply (begins_format 105); [reflexivity | initial |].
    repeat match goal with
           | |- headed _ (if ?b then _ else _) => destruct b
           | |- headed _ (_ ++ _) => apply headed_app
           end; apply (headed_lit 105).
  - constructor; [|constructor]. head_of 105.
Qed.

Lemma render_tel_begin (ver : Z) (t : Tel) :
  begins_with line_initials (render_tel ver t).
Proof.
  unfold render_tel. destruct (ph_parts (tel_phone t)) as [[p1 p2] p3].
  apply (begins_format 84); [reflexivity | initial |].
  repeat match goal with
         | |- headed _ (if ?b then _ else _) => destruct b
         | |- headed _ (_ ++ _) => apply headed_app
         end; apply (headed_lit 84).
Qed.

Lemma render_email_begin (ver : Z) (e : Email) :
  begins_with line_initials (render_email ver e).
Proof.
  unfold render_email.
  apply (begins_format 69); [reflexivity | initial |].
  repeat match goal with
         | |- headed _ (if ?b then _ else _) => destruct b
         | |- headed _ (_ ++ _) => apply headed_app
         end; apply (headed_lit 69).
Qed.

Lemma Forall_map_begin {A} (f : A -> jstring) (xs : list A) :
  (forall x, begins_with line_initials (f x)) ->
  Forall (begins_with line_initials) (map f xs).
Proof. intros H. induction xs; simpl; constructor; auto. Qed.

Lemma Return_inj {A} (a b : A) : Return a = Return b -> a = b.
Proof. now injection 1. Qed.

(** Every line emitted under version 3 begins with one of the initials. *)
Lemma render_parts_v3_begin (v : VCard.VCard) (parts : list jstring) :
  render_parts (at_version 3 v) = Return parts ->
  Forall (begins_with line_initials) parts.
Proof.
  unfold render_parts, at_version. cbv zeta.
  change (specVersion (set_specVersion 3 v)) with 3%Z.
  change (3 =? 4)%Z with false. cbn [andb]. cbv iota.
  destruct (length (name (set_specVersion 3 v)) =? 0)%nat; [discriminate|].
  destruct (map_outcome (render_image 3 (js "PHOTO")) _) as [photos|]
    eqn:Ep; [|discriminate].
  destruct (render_date 3 (js "BDAY") _) as [b|] eqn:Eb; [|discriminate].
  cbn [obind].
  destruct (map_outcome (render_image 3 (js "LOGO")) _) as [logos|]
    eqn:El; [|discriminate].
  cbn [obind]. intros H. apply Return_inj in H. subst parts.
  repeat (apply Forall_app; split).
  - constructor; [|constructor; [|constructor]].
    + apply (begins_headed 66); [initial | apply (headed_lit 66)].
    + apply (begins_headed 86); [initial|]. apply headed_app, (headed_lit 86).
  - constructor.
  - apply render_names_begin.
  - apply render_nicknames_begin.
  - eapply map_outcome_Forall; [|exact Ep]. intros x y.
    apply (render_image_begin 3 80); [reflexivity | initial |].
    apply (headed_lit 80).
  - eapply (render_date_begin 3 66); [initial | | exact Eb].
    apply (headed_lit 66).
  - constructor.
  - constructor.
  - apply render_addresses_begin.
  - apply Forall_map_begin, render_tel_begin.
  - apply Forall_map_begin, render_email_begin.
  - constructor.
  - apply Forall_map_begin. intros x. head_of 84.
  - apply Forall_map_begin. intros x. head_of 82.
  - eapply map_outcome_Forall; [|exact El]. intros x y.
    apply (render_image_begin 3 76); [reflexivity | initial |].
    apply (headed_lit 76).
  - apply Forall_map_begin. intros x. head_of 79.
  - apply Forall_map_begin. intros x. head_of 78.
  - apply Forall_map_begin. intros x.
    apply (begins_headed 85); [initial|]. apply headed_app, (headed_lit 85).
  - constructor; [|constructor].
    apply (begins_headed 69); [initial | apply (headed_lit 69)].
Qed.

Lemma spread_ascii (c : N) (s : jstring) :
  (c <? 128) = true -> spread (c :: s) = [c] :: spread s.
Proof.
  intros Hlt. apply N.ltb_lt in Hlt.
  assert (Hhigh : is_high c = false).
  { unfold is_high. apply andb_false_iff. left. apply N.leb_gt. lia. }
  destruct s as [|d s]; [reflexivity|].
  change (spread (c :: d :: s)) with
    (if is_high c && is_low d then [c; d] :: spread s
     else [c] :: spread (d :: s)).
  now rewrite Hhigh.
Qed.

Lemma format_loop_plain (c : N) (rest : list jstring) (st : fold_state) :
  plain c = true -> curr_line_bytes st < 75 ->
  format_loop 0 ([c] :: rest) st
  = format_loop 0 rest
      {| lines := lines st; curr_line := curr_line st ++ [[c]];
         curr_line_bytes := curr_line_bytes st + 1 |}.
Proof.
  intros Hp Hlt. unfold plain in Hp. apply andb_true_iff in Hp as [Hc Hsp].
  apply N.ltb_lt in Hc. apply negb_true_iff in Hsp. simpl in Hsp.
  repeat (apply orb_false_iff in Hsp as [?H Hsp]).
  assert (Hesc : escape_char [c] = [c]).
  { rewrite escape_char_single. now rewrite H, H0, H1, H2, H3. }
  assert (Htok : token_char ([c] :: rest) [c] = ([c], 0%nat)).
  { unfold token_char. literals. rewrite jstr_eqb_single. now rewrite H4. }
  change (format_loop 0 ([c] :: rest) st)
    with (let '(char, adv) := token_char ([c] :: rest) (escape_char [c]) in
          format_loop adv rest (push_char char st)).
  rewrite Hesc, Htok. f_equal. unfold push_char, max_line_bytes.
  change (blob_size [c]) with (unit_bytes c).
  assert (Hb : unit_bytes c = 1).
  { unfold unit_bytes. destruct (N.ltb_spec c 128); [reflexivity | lia]. }
  rewrite Hb. destruct (N.ltb_spec 75 (curr_line_bytes st + 1)); [lia|].
  reflexivity.
Qed.

(** A colon or semicolon token after a name of plain code units: the line
    begins with the name and the separator. *)
Lemma formatTextValue_name (p : jstring) (s : jstring) :
  Forall (fun c => plain c = true) p -> (length p < 70)%nat ->
  (exists t, formatTextValue (p ++ js "%COL%" ++ s) = p ++ 58 :: t)
  /\ (exists t, formatTextValue (p ++ js "%SEM%" ++ s) = p ++ 59 :: t).
Proof.
  intros Hp Hlen.
  assert (Hloop : forall tok d,
    (forall st, format_loop 0 (spread (tok ++ s)) st
                  = format_loop 0 (spread s) (push_char [d] st)) ->
    exists t, formatTextValue (p ++ tok ++ s) = p ++ d :: t).
  { intros tok d Htok. unfold formatTextValue.
    assert (Hgen : forall st, (curr_line_bytes st + N.of_nat (length p) < 75) ->
      format_loop 0 (spread (p ++ tok ++ s)) st
      = format_loop 0 (spread s)
          (push_char [d]
             {| lines := lines st;
                curr_line := curr_line st ++ map (fun c => [c]) p;
                curr_line_bytes := curr_line_bytes st + N.of_nat (length p) |})).
    { clear Hlen. induction Hp as [|c p Hc Hp IH]; intros st Hst.
      - simpl. rewrite app_nil_r, N.add_0_r. rewrite (Htok st).
        now destruct st.
      - change ((c :: p) ++ tok ++ s) with (c :: (p ++ tok ++ s)).
        assert (Hc' : (c <? 128) = true).
        { unfold plain in Hc. now apply andb_true_iff in Hc as [Hc _]. }
        rewrite spread_ascii, format_loop_plain by (auto; simpl in Hst; lia).
        rewrite IH by (simpl in *; lia). simpl.
        rewrite <- app_assoc. simpl. do 3 f_equal. lia. }
    rewrite Hgen by (simpl; lia). simpl. rewrite format_loop_units.
    match goal with
    | |- context [fold_left ?f ?us ?st] =>
        destruct (fold_push_extends us st) as (x & Hx)
    end.
    unfold text_lines in Hx. rewrite Hx. clear Hx.
    unfold push_char, max_line_bytes. simpl.
    change (blob_size [d]) with (unit_bytes d).
    pose proof (unit_bytes_le d).
    destruct (N.ltb_spec 75 (0 + N.of_nat (length p) + unit_bytes d)); [lia|].
    simpl. rewrite concat_app. simpl.
    assert (Hc : concat (map (fun c => [c]) p) = p).
    { clear. induction p; simpl; congruence. }
    rewrite Hc, <- !app_assoc. simpl. eauto. }
  split; apply Hloop; intros st.
  - change (js "%COL%" ++ s) with (37 :: 67 :: 79 :: 76 :: 37 :: s).
    rewrite !spread_ascii by reflexivity. reflexivity.
  - change (js "%SEM%" ++ s) with (37 :: 83 :: 69 :: 77 :: 37 :: s).
    rewrite !spread_ascii by reflexivity. reflexivity.
Qed.

Lemma strip_prefix_app (p r : jstring) : strip_prefix p (p ++ r) = Some r.
Proof.
  induction p as [|c p IH]; simpl; [now destruct r|].
  now rewrite N.eqb_refl.
Qed.

Lemma line_of_name (p : jstring) (d : N) (t : jstring) :
  d = 58 \/ d = 59 -> line_of p (p ++ d :: t) = true.
Proof.
  intros Hd. unfold line_of. rewrite strip_prefix_app.
  destruct Hd as [-> | ->]; reflexivity.
Qed.

Ltac plain_name :=
  repeat (constructor; [reflexivity|]); constructor.

Lemma render_gender_line (v : VCard.VCard) :
  truthy_opt (gender v) = true ->
  exists line, render_gender v = [line] /\ line_of (js "GENDER") line = true.
Proof.
  intros Hg. unfold render_gender. rewrite Hg. cbv zeta.
  eexists. split; [reflexivity|].
  match goal with
  | |- context [formatTextValue (js "GENDER%COL%" ++ ?g)] =>
      destruct (proj1 (formatTextValue_name (js "GENDER") g
                         ltac:(plain_name) ltac:(simpl; lia))) as (t & Ht)
  end.
  change (js "GENDER" ++ js "%COL%" ++ ?g) with (js "GENDER%COL%" ++ g) in Ht.
  rewrite Ht. apply line_of_name. auto.
Qed.

Lemma render_impp_line (i : Impp) :
  line_of (js "IMPP") (render_impp i) = true.
Proof.
  unfold render_impp. cbv zeta. destruct (im_pref i).
  - match goal with
    | |- context [formatTextValue (_ ++ ?r)] =>
        destruct (proj2 (formatTextValue_name (js "IMPP") (js "PREF=1" ++ r)
                           ltac:(plain_name) ltac:(simpl; lia))) as (t & Ht)
    end.
    rewrite <- app_assoc.
    change (js "IMPP" ++ js "%SEM%PREF=1" ++ ?r)
      with (js "IMPP" ++ js "%SEM%" ++ js "PREF=1" ++ r).
    rewrite Ht. apply line_of_name. auto.
  - match goal with
    | |- context [formatTextValue (js "IMPP" ++ js "%COL%" ++ ?r)] =>
        destruct (proj1 (formatTextValue_name (js "IMPP") r
                           ltac:(plain_name) ltac:(simpl; lia))) as (t & Ht)
    end.
    rewrite Ht. apply line_of_name. auto.
Qed.

(** *** Physical lines *)

Lemma split_on_single (sep : N) (x : jstring) :
  ~ In sep x -> split_on sep x = [x].
Proof.
  intros H. rewrite <- (app_nil_r x) at 1.
  rewrite split_on_skip by auto. simpl. now rewrite app_nil_r.
Qed.

Lemma split_on_app_sep (sep : N) (p t : jstring) :
  split_on sep (p ++ sep :: t) = split_on sep p ++ split_on sep t.
Proof.
  induction p as [|c p IH]; simpl.
  - now rewrite N.eqb_refl.
  - destruct (c =? sep); rewrite IH; [reflexivity|].
    now destruct (split_on_cons sep p) as (h & hs & ->).
Qed.

(** The physical lines of the joined parts are those of the parts. *)
Lemma physical_lines_join (parts : list jstring) :
  parts <> [] ->
  physical_lines (join [NL] parts) = concat (map physical_lines parts).
Proof.
  unfold physical_lines.
  destruct parts as [|p rest]; [congruence|]. intros _. revert p.
  induction rest as [|q rest IH]; intros p.
  - simpl. now rewrite app_nil_r.
  - change (join [NL] (p :: q :: rest)) with (p ++ NL :: join [NL] (q :: rest)).
    rewrite split_on_app_sep, IH. reflexivity.
Qed.

Lemma no_newline (x : jstring) :
  forallb (fun c => negb (c =? NL)) x = true -> ~ In NL x.
Proof.
  intros H Hin. rewrite forallb_forall in H. specialize (H _ Hin).
  now rewrite N.eqb_refl in H.
Qed.

Lemma continued_line (x : jstring) : ~ In NL x -> continued x.
Proof.
  intros H. unfold continued, physical_lines.
  rewrite split_on_single by auto. constructor.
Qed.

Lemma continued_prefix (x p : jstring) :
  ~ In NL x -> continued p -> continued (x ++ p).
Proof.
  intros H Hp. unfold continued, physical_lines in *.
  now rewrite split_on_skip by auto.
Qed.

Lemma continued_format (str : jstring) : continued (formatTextValue str).
Proof.
  unfold continued, physical_lines, formatTextValue.
  rewrite format_loop_units.
  pose proof (fold_push_inv (escape_units 0 (spread str)) _
                (escape_units_ok 0 _ (spread_shape str)) fold_inv_init)
    as [Hi _].
  simpl in Hi. set (st := fold_left _ _ _) in *.
  change (lines st ++ [concat (curr_line st)]) with (text_lines st).
  destruct Hi as [_ _ _ H4 H5].
  rewrite split_on_join; auto.
  unfold text_lines. now destruct (lines st).
Qed.

Lemma Forall_map_continued {A} (f : A -> jstring) (xs : list A) :
  (forall x, continued (f x)) -> Forall continued (map f xs).
Proof. intros H. induction xs; simpl; constructor; auto. Qed.

(** A part that begins with an initial and whose other lines begin with a
    space has no line of the three properties. *)
Lemma part_lines (part : jstring) :
  begins_with line_initials part -> continued part ->
  Forall (fun line => v4_only_line line = false) (physical_lines part).
Proof.
  intros (c & t & -> & Hin) Hc. unfold continued, physical_lines in *.
  assert (Hnl : ~ In NL [c]).
  { intros [E|[]]. subst c. unfold line_initials in Hin. simpl in Hin.
    repeat (destruct Hin as [Hin|Hin]; [discriminate|]). contradiction. }
  change (c :: t) with ([c] ++ t) in *.
  rewrite split_on_skip in * by exact Hnl. simpl in *. constructor.
  - apply begins_not_v4. now exists c, (hd [] (split_on NL t)).
  - eapply List.Forall_impl; [|exact Hc]. now intros line (r & ->).
Qed.

(** *** Dates hold no newline *)

Lemma split_runs_pieces (sep : N -> bool) (b : bool) (s : jstring) :
  Forall (Forall (fun c => sep c = false)) (split_runs sep b s).
Proof.
  revert b. induction s as [|c s IH]; intros b; simpl.
  - repeat constructor.
  - destruct (sep c) eqn:E.
    + destruct b; [apply IH|]. constructor; [constructor|apply IH].
    + specialize (IH false).
      destruct (split_runs sep false s) as [|p ps]; [repeat constructor; auto|].
      inversion IH; subst. constructor; auto.
Qed.

Lemma digits_piece (iso : jstring) (i : nat) :
  ~ In NL (nth i (split_runs (fun c => negb (is_digit c)) false iso)
             (js "undefined")).
Proof.
  pose proof (split_runs_pieces (fun c => negb (is_digit c)) false iso) as H.
  destruct (nth_in_or_default i
              (split_runs (fun c => negb (is_digit c)) false iso)
              (js "undefined")) as [Hin | ->].
  - rewrite List.Forall_forall in H. specialize (H _ Hin).
    rewrite List.Forall_forall in H. intros Hnl. specialize (H _ Hnl).
    discriminate.
  - now apply no_newline.
Qed.

Lemma formatDate_line (ver : Z) (date : Date) (f : jstring) :
  formatDate ver date = Return f -> ~ In NL f.
Proof.
  unfold formatDate. destruct (toISOString date) as [iso|]; [|discriminate].
  cbv zeta. pose proof (digits_piece iso) as Hd.
  assert (Hl : forall x, forallb (fun c => negb (c =? NL)) x = true ->
                         forall r, ~ In NL r -> ~ In NL (x ++ r)).
  { intros x Hx r Hr Hin. apply in_app_or in Hin as [Hin|Hin]; auto.
    now apply no_newline in Hx. }
  assert (Hp : forall i r, ~ In NL r ->
                 ~ In NL (nth i (split_runs (fun c => negb (is_digit c))
                                   false iso) (js "undefined") ++ r)).
  { intros i r Hr Hin. apply in_app_or in Hin as [Hin|Hin]; auto.
    now apply Hd in Hin. }
  destruct (ver =? 4)%Z; intros H; apply Return_inj in H; subst f.
  - repeat first [apply Hp | apply (Hl (js "T")); [reflexivity|]].
    now apply no_newline.
  - repeat first [apply Hp | apply (Hl (js "T")); [reflexivity|]
                  | apply (Hl (js "-")); [reflexivity|]
                  | apply (Hl (js ":")); [reflexivity|]].
    now apply no_newline.
Qed.

(** *** The parts of version 3 *)

Lemma render_names_continued (i : nat) (names : list jstring) :
  Forall continued (render_names i names).
Proof.
  revert i. induction names as [|n names IH]; intros i; [constructor|].
  cbn [render_names]. apply Forall_app. split; [|apply Forall_app; split].
  - constructor; [|constructor]. apply continued_format.
  - destruct (i =? 0)%nat; [|constructor].
    constructor; [|constructor]. apply continued_format.
  - apply IH.
Qed.

Lemma render_nicknames_continued (nicknames : list jstring) :
  Forall continued (render_nicknames nicknames).
Proof.
  unfold render_nicknames.
  induction nicknames as [|n nicknames IH]; [constructor|].
  cbn [flat_map]. apply Forall_app. split; auto.
  destruct (negb (truthy (trim n))); constructor; [|constructor].
  apply continued_prefix; [now apply no_newline | apply continued_format].
Qed.

Lemma render_image_continued (ver : Z) (prop uri line : jstring) :
  render_image ver prop uri = Return line -> continued line.
Proof.
  unfold render_image. destruct (ver =? 4)%Z.
  - intros H. apply Return_inj in H. subst line. apply continued_format.
  - destruct (dataUriRegex_match uri) as [[ty data]|]; [|discriminate].
    intros H. apply Return_inj in H. subst line. apply continued_format.
Qed.

Lemma render_date_continued (ver : Z) (prop : jstring) (d : option Date)
    (ls : list jstring) :
  ~ In NL prop -> render_date ver prop d = Return ls -> Forall continued ls.
Proof.
  intros Hp. unfold render_date. destruct d as [date|].
  - destruct (formatDate ver date) as [f|] eqn:E; simpl; [|discriminate].
    intros H. apply Return_inj in H. subst ls. constructor; [|constructor].
    apply continued_line. intros Hin.
    apply in_app_or in Hin as [Hin|Hin]; [now apply Hp|].
    destruct Hin as [Hin|Hin]; [discriminate|].
    now apply (formatDate_line _ _ _ E).
  - intros H. apply Return_inj in H. subst ls. constructor.
Qed.

Lemma render_addresses_continued (ver : Z) (group : N) (adrs : list Address) :
  Forall continued (render_addresses ver group adrs).
Proof.
  revert group. induction adrs as [|a adrs IH]; intros group; [constructor|].
  cbn [render_addresses]. destruct (ver =? 3)%Z; cbv iota beta zeta.
  - constructor; [apply continued_format|].
    constructor; [apply continued_format | apply IH].
  - constructor; [apply continued_format | apply IH].
Qed.

Lemma render_tel_continued (ver : Z) (t : Tel) : continued (render_tel ver t).
Proof.
  unfold render_tel. destruct (ph_parts (tel_phone t)) as [[p1 p2] p3].
  apply continued_format.
Qed.

(** Under version 3 the continuation lines of every part begin with a
    space, when no URL holds a newline. *)
Lemma render_parts_v3_continued (v : VCard.VCard) (parts : list jstring) :
  urls_on_one_line v ->
  render_parts (at_version 3 v) = Return parts ->
  Forall continued parts.
Proof.
  intros Hu. unfold render_parts, at_version. cbv zeta.
  change (specVersion (set_specVersion 3 v)) with 3%Z.
  change (3 =? 4)%Z with false. cbn [andb]. cbv iota.
  destruct (length (name (set_specVersion 3 v)) =? 0)%nat; [discriminate|].
  destruct (map_outcome (render_image 3 (js "PHOTO")) _) as [photos|]
    eqn:Ep; [|discriminate].
  destruct (render_date 3 (js "BDAY") _) as [b|] eqn:Eb; [|discriminate].
  cbn [obind].
  destruct (map_outcome (render_image 3 (js "LOGO")) _) as [logos|]
    eqn:El; [|discriminate].
  cbn [obind]. intros H. apply Return_inj in H. subst parts.
  repeat (apply Forall_app; split).
  - constructor; [|constructor; [|constructor]];
      apply continued_line, no_newline; reflexivity.
  - constructor.
  - apply render_names_continued.
  - apply render_nicknames_continued.
  - eapply map_outcome_Forall; [|exact Ep]. intros x y.
    apply render_image_continued.
  - eapply render_date_continued; [|exact Eb]. now apply no_newline.
  - constructor.
  - constructor.
  - apply render_addresses_continued.
  - apply Forall_map_continued, render_tel_continued.
  - apply Forall_map_continued. intros x. apply continued_format.
  - constructor.
  - apply Forall_map_continued. intros x. apply continued_format.
  - apply Forall_map_continued. intros x. apply continued_format.
  - eapply map_outcome_Forall; [|exact El]. intros x y.
    apply render_image_continued.
  - apply Forall_map_continued. intros x. apply continued_format.
  - apply Forall_map_continued. intros x. apply continued_format.
  - change (url (set_specVersion 3 v)) with (url v).
    unfold urls_on_one_line in Hu.
    induction Hu as [|u us Hnl _ IH]; cbn [map]; constructor; auto.
    apply continued_prefix; [now apply no_newline | now apply continued_line].
  - constructor; [|constructor]. apply continued_line, no_newline. reflexivity.
Qed.

(** No physical line of the text of version 3 is a line of the three
    properties. *)
Lemma render_v3_lines (v : VCard.VCard) (text : jstring) :
  urls_on_one_line v ->
  render (at_version 3 v) = Return text ->
  Forall (fun line => v4_only_line line = false) (physical_lines text).
Proof.
  intros Hu. unfold render.
  destruct (render_parts (at_version 3 v)) as [parts|] eqn:E; [|discriminate].
  simpl. intros H. apply Return_inj in H. subst text.
  pose proof (render_parts_v3_begin v parts E) as Hb.
  pose proof (render_parts_v3_continued v parts Hu E) as Hc.
  destruct parts as [|p ps]; [repeat constructor|].
  rewrite physical_lines_join by discriminate.
  apply Forall_concat, Forall_map.
  rewrite List.Forall_forall in *. intros part Hin.
  apply part_lines; auto.
Qed.

(** *** The lines of version 4 *)

Lemma strip_prefix_Some (p s r : jstring) :
  strip_prefix p s = Some r -> s = p ++ r.
Proof.
  revert s. induction p as [|x p IH]; intros s; simpl.
  - now intros [= ->].
  - destruct s as [|y s]; [discriminate|].
    destruct (N.eqb_spec x y) as [->|]; [|discriminate].
    intros H. now rewrite (IH _ H).
Qed.

(** A part of a property begins with a physical line of that property. *)
Lemma first_line_of (prop part : jstring) :
  ~ In NL prop -> line_of prop part = true ->
  line_of prop (first_line part) = true.
Proof.
  intros Hp. unfold line_of at 1.
  destruct (strip_prefix prop part) as [[|c r]|] eqn:E; try discriminate.
  intros Hc. apply strip_prefix_Some in E. subst part.
  assert (Hnl : ~ In NL (prop ++ [c])).
  { intros Hin. apply in_app_or in Hin as [Hin|[E|[]]]; auto.
    subst c. discriminate. }
  unfold first_line, physical_lines.
  change (prop ++ c :: r) with (prop ++ [c] ++ r).
  rewrite app_assoc, split_on_skip by exact Hnl. simpl.
  rewrite <- app_assoc. simpl. unfold line_of. now rewrite strip_prefix_app.
Qed.

Lemma first_line_In (parts : list jstring) (part : jstring) :
  In part parts -> In (first_line part) (physical_lines (join [NL] parts)).
Proof.
  intros Hin. rewrite physical_lines_join by (now destruct parts).
  apply in_concat. exists (physical_lines part). split.
  - now apply in_map.
  - unfold first_line, physical_lines.
    destruct (split_on_cons NL part) as (l & ls & ->). now left.
Qed.

Lemma emitted_In (parts : list jstring) (part : jstring) :
  In part parts -> emitted part (join [NL] parts).
Proof.
  intros Hin. unfold emitted.
  rewrite physical_lines_join by (now destruct parts).
  apply in_split in Hin as (p1 & p2 & ->).
  exists (concat (map physical_lines p1)), (concat (map physical_lines p2)).
  now rewrite map_app, concat_app.
Qed.

(** Under version 4 the parts include the line of each populated field. *)
Lemma render_parts_v4_lines (v : VCard.VCard) (parts : list jstring) :
  render_parts (at_version 4 v) = Return parts ->
  (forall d, anniversary v = Some d ->
     exists f, formatDate 4 d = Return f
               /\ In (js "ANNIVERSARY:" ++ f) parts)
  /\ (forall g, gender v = Some g -> truthy g = true ->
        In (formatTextValue
              (js "GENDER%COL%" ++ g
               ++ match gender_ident v with
                  | Some i => if truthy i then js "%SEM%" ++ i else []
                  | None => []
                  end)) parts)
  /\ (forall i, In i (impp v) ->
        In (formatTextValue
              (js "IMPP" ++ (if im_pref i then js "%SEM%PREF=1" else [])
               ++ js "%COL%" ++ im_protocol i ++ js "%COL%"
               ++ tmpl (im_imurl i))) parts).
Proof.
  unfold render_parts, at_version. cbv zeta.
  change (specVersion (set_specVersion 4 v)) with 4%Z.
  change (4 =? 4)%Z with true. cbn [andb]. cbv iota.
  destruct (negb _); [discriminate|].
  destruct (length _ =? 0)%nat; [discriminate|].
  destruct (map_outcome (render_image 4 (js "PHOTO")) _) as [photos|];
    [|discriminate].
  destruct (render_date 4 (js "BDAY") _) as [b|]; [|discriminate].
  cbn [obind].
  change (anniversary (set_specVersion 4 v)) with (anniversary v).
  destruct (render_date 4 (js "ANNIVERSARY") (anniversary v)) as [a|]
    eqn:Ea; [|discriminate].
  cbn [obind].
  destruct (map_outcome (render_image 4 (js "LOGO")) _) as [logos|];
    [|discriminate].
  cbn [obind]. intros H. apply Return_inj in H. subst parts.
  split; [|split].
  - intros d Hd. rewrite Hd in Ea. unfold render_date in Ea.
    destruct (formatDate 4 d) as [f|]; simpl in Ea; [|discriminate].
    apply Return_inj in Ea. subst a.
    exists f. split; [reflexivity|].
    change (js "ANNIVERSARY:" ++ f) with (js "ANNIVERSARY" ++ js ":" ++ f).
    rewrite !in_app_iff. simpl. tauto.
  - intros g Hg Ht.
    assert (E : render_gender (set_specVersion 4 v)
                = [formatTextValue
                     (js "GENDER%COL%" ++ g
                      ++ match gender_ident v with
                         | Some i => if truthy i then js "%SEM%" ++ i else []
                         | None => []
                         end)]).
    { unfold render_gender.
      change (gender (set_specVersion 4 v)) with (gender v).
      change (gender_ident (set_specVersion 4 v)) with (gender_ident v).
      rewrite Hg. cbn [truthy_opt tmpl]. rewrite Ht. cbv zeta.
      destruct (gender_ident v) as [i|]; cbn [truthy_opt tmpl].
      - destruct (truthy i); [reflexivity | now rewrite app_nil_r].
      - now rewrite app_nil_r. }
    rewrite E, !in_app_iff. simpl. tauto.
  - intros i Hi.
    assert (E : formatTextValue
                  (js "IMPP" ++ (if im_pref i then js "%SEM%PREF=1" else [])
                   ++ js "%COL%" ++ im_protocol i ++ js "%COL%"
                   ++ tmpl (im_imurl i))
                = render_impp i).
    { unfold render_impp. cbv zeta.
      destruct (im_pref i); [now rewrite <- app_assoc | reflexivity]. }
    rewrite E.
    change (impp (set_specVersion 4 v)) with (impp v).
    rewrite !in_app_iff, !in_map_iff. do 4 right. left. do 4 right. left.
    eauto.
Qed.

(** C6 (amended). Under version 3 [render] does not read the anniversary,
    the gender and the instant-message entries: the text is the text of the
    contact without them, none of the entries [render] emits is an
    ANNIVERSARY, GENDER or IMPP line, and neither is any physical line of
    the text when no URL holds a newline.  Under version 4 the text holds
    the line [ANNIVERSARY:] with the formatted date when the anniversary is
    set, the folded GENDER line with the code and the identity when the
    gender is set, and the folded IMPP line with the preference, the
    protocol and the address of every instant-message entry. *)
Theorem version_gating (v : VCard.VCard) :
  render (at_version 3 v) = render (at_version 3 (without_v4_fields v))
  /\ (forall parts, render_parts (at_version 3 v) = Return parts ->
        Forall (fun line => v4_only_line line = false) parts)
  /\ (urls_on_one_line v ->
      forall text, render (at_version 3 v) = Return text ->
        Forall (fun line => v4_only_line line = false) (physical_lines text))
  /\ (forall text, render (at_version 4 v) = Return text ->
        (forall d, anniversary v = Some d ->
           exists f, formatDate 4 d = Return f
                     /\ In (js "ANNIVERSARY:" ++ f) (physical_lines text))
        /\ (forall g, gender v = Some g -> truthy g = true ->
              let line :=
                formatTextValue
                  (js "GENDER%COL%" ++ g
                   ++ match gender_ident v with
                      | Some i => if truthy i then js "%SEM%" ++ i else []
                      | None => []
                      end) in
              emitted line text
              /\ line_of (js "GENDER") (first_line line) = true)
        /\ (forall i, In i (impp v) ->
              let line :=
                formatTextValue
                  (js "IMPP" ++ (if im_pref i then js "%SEM%PREF=1" else [])
                   ++ js "%COL%" ++ im_protocol i ++ js "%COL%"
                   ++ tmpl (im_imurl i)) in
              emitted line text
              /\ line_of (js "IMPP") (first_line line) = true)).
Proof.
  split; [reflexivity|]. split; [|split].
  - intros parts H. apply render_parts_v3_begin in H.
    eapply List.Forall_impl; [|exact H]. intros line. apply begins_not_v4.
  - intros Hu text. now apply render_v3_lines.
  - intros text. unfold render.
    destruct (render_parts (at_version 4 v)) as [parts|] eqn:E;
      [|discriminate].
    cbn [obind]. intros H. apply Return_inj in H. subst text.
    destruct (render_parts_v4_lines v parts E) as (Ha & Hg & Hi).
    split; [|split].
    + intros d Hd. destruct (Ha d Hd) as (f & Hf & Hin).
      exists f. split; [exact Hf|].
      apply first_line_In in Hin.
      replace (first_line (js "ANNIVERSARY:" ++ f))
        with (js "ANNIVERSARY:" ++ f) in Hin; [exact Hin|].
      unfold first_line, physical_lines. rewrite split_on_single; [reflexivity|].
      intros Hnl. apply in_app_or in Hnl as [Hnl|Hnl].
      * revert Hnl. now apply no_newline.
      * revert Hnl. now apply (formatDate_line 4 d).
    + intros g Hgen Ht. split; [now apply emitted_In, Hg|].
      set (r := match gender_ident v with
                | Some i => if truthy i then js "%SEM%" ++ i else []
                | None => []
                end).
      destruct (proj1 (formatTextValue_name (js "GENDER") (g ++ r)
                         ltac:(plain_name) ltac:(simpl; lia))) as (t & Et).
      change (js "GENDER" ++ js "%COL%" ++ ?x)
        with (js "GENDER%COL%" ++ x) in Et.
      rewrite Et. apply first_line_of; [now apply no_newline|].
      apply line_of_name. auto.
    + intros i Hin. split; [now apply emitted_In, Hi|].
      assert (E' : formatTextValue
                     (js "IMPP" ++ (if im_pref i then js "%SEM%PREF=1" else [])
                      ++ js "%COL%" ++ im_protocol i ++ js "%COL%"
                      ++ tmpl (im_imurl i))
                   = render_impp i).
      { unfold render_impp. cbv zeta.
        destruct (im_pref i); [now rewrite <- app_assoc | reflexivity]. }
      rewrite E'.
      apply first_line_of; [now apply no_newline | apply render_impp_line].
Qed.

Lemma version_gating_witness :
  Forall (fun line => v4_only_line line = false)
    (physical_lines (text_of (render (at_version 3 gating_example))))
  /\ In (js "ANNIVERSARY:" ++ js "19960828T040000Z")
       (physical_lines (text_of (render (at_version 4 gating_example))))
  /\ emitted (js "GENDER:M") (text_of (render (at_version 4 gating_example)))
  /\ emitted (js "IMPP;PREF=1:sip:rob@out.com")
       (text_of (render (at_version 4 gating_example))).
Proof.
  destruct (version_gating gating_example) as (_ & _ & H3 & H4).
  split.
  - apply H3; [constructor | vm_compute; reflexivity].
  - destruct (H4 (text_of (render (at_version 4 gating_example))))
      as (Ha & Hg & Hi); [vm_compute; reflexivity|].
    split; [|split].
    + destruct (Ha (Date_UTC 1996 7 28 4 0 0) eq_refl) as (f & Hf & Hin).
      assert (Hd : formatDate 4 (Date_UTC 1996 7 28 4 0 0)
                   = Return (js "19960828T040000Z"))
        by (vm_compute; reflexivity).
      rewrite Hd in Hf. injection Hf as <-. exact Hin.
    + exact (proj1 (Hg (js "M") eq_refl eq_refl)).
    + refine (proj1 (Hi (MkImpp (Some (js "rob@out.com")) (js "sip") true)
                       _)).
      vm_compute. auto.
Defined.

(** C6, as stated: a URL is emitted as it is, so what follows a newline in
    it stands on a physical line of its own.  The text of this contact
    under version 3 has the physical line [GENDER:M], which is decoded as a
    gender, while the gender of the contact is F. *)
Lemma url_newline_starts_line :
  specVersion url_gender_contact = 3%Z
  /\ gender url_gender_contact = Some (js "F")
  /\ exists text,
       render url_gender_contact = Return text
       /\ In (js "GENDER:M") (physical_lines text)
       /\ v4_only_line (js "GENDER:M") = true
       /\ gender (snd (decode text)) = Some (js "M").
Proof.
  split; [reflexivity|]. split; [reflexivity|].
  exists (text_of (render url_gender_contact)).
  split; [vm_compute; reflexivity|]. split; [vm_compute; tauto|].
  split; vm_compute; reflexivity.
Qed.

(** ** Grouped lines *)

Lemma attach_length (lm : gmap jstring nat) (rest done : list Token) :
  length (attach lm rest done) = length done.
Proof.
  revert done. induction rest as [|t rest IH]; intros done; simpl; auto.
  destruct (group_of (key t)) as [[l bare]|]; auto.
  destruct (lm !! l); auto. now rewrite IH, length_alter.
Qed.

Lemma attach_app (lm : gmap jstring nat) (rest done more : list Token) :
  bounded lm (length done) ->
  attach lm rest (done ++ more) = attach lm rest done ++ more.
Proof.
  revert done. induction rest as [|t rest IH]; intros done Hb; simpl; auto.
  destruct (group_of (key t)) as [[l bare]|]; auto.
  destruct (lm !! l) as [j|] eqn:E; auto.
  rewrite alter_app_l by eauto. apply IH.
  intros l' j' H. rewrite length_alter. eauto.
Qed.

Lemma attach_new (lm : gmap jstring nat) (l : jstring) (rest done : list Token)
    (x : Token) :
  bounded lm (length done) -> lm !! l = None ->
  attach (<[l := length done]> lm) rest (done ++ [x])
  = attach lm rest done
    ++ [MkToken (key x) (props x ++ attached l rest) (values x)].
Proof.
  intros Hb Hl. revert done x Hb.
  induction rest as [|t rest IH]; intros done x Hb; simpl.
  - rewrite app_nil_r. now destruct x.
  - destruct (group_of (key t)) as [[l' bare]|] eqn:Eg; [|apply IH; auto].
    destruct (jstr_eqb l' l) eqn:El.
    + apply jstr_eqb_eq in El. subst l'. rewrite lookup_insert_eq, Hl.
      rewrite alter_app_r_alt by lia. rewrite Nat.sub_diag. simpl.
      rewrite IH by auto. simpl. now rewrite <- app_assoc.
    + apply jstr_eqb_neq in El. rewrite lookup_insert_ne by congruence.
      destruct (lm !! l') as [j|] eqn:Ej; [|apply IH; auto].
      rewrite alter_app_l by eauto.
      rewrite <- (length_alter
                    (push_prop (MkParam (folded_name bare) (values t))) done j)
        at 1.
      apply IH. intros l0 j0 H. rewrite length_alter. eauto.
Qed.

Lemma combine_step_at (lm : gmap jstring nat) (done rest : list Token)
    (t : Token) :
  bounded lm (length done) -> lm !! js "hasOwnProperty" = None ->
  (forall l bare, group_of (key t) = Some (l, bare) -> ordinary_label l) ->
  combine_step (Return (lm, done ++ t :: rest)) (length done)
  = Return
      match group_of (key t) with
      | None => (lm, done ++ t :: rest)
      | Some (l, bare) =>
          match lm !! l with
          | None => (<[l := length done]> lm, done ++ set_key bare t :: rest)
          | Some j =>
              (lm, alter (push_prop (MkParam (folded_name bare) (values t))) j
                     done ++ t :: rest)
          end
      end.
Proof.
  intros Hb Hh Ho. unfold combine_step, group_of in *. cbn [obind].
  rewrite list_lookup_middle by reflexivity.
  destruct (has_dot (key t)); [|reflexivity]. cbv zeta. rewrite Hh.
  destruct (lm !! nth 0 (split_on 46 (key t)) []) as [j|] eqn:E.
  - rewrite alter_app_l by eauto. reflexivity.
  - unfold store_label. destruct (Ho _ _ eq_refl) as [Hp _].
    apply jstr_eqb_neq in Hp. rewrite Hp.
    pose proof (insert_app_r done (t :: rest) 0
                  (set_key (nth 1 (split_on 46 (key t)) []) t)) as Hi.
    rewrite Nat.add_0_r in Hi. rewrite Hi. reflexivity.
Qed.

(** The loop from index [length done] on. *)
Lemma combine_loop (rest : list Token) :
  forall (lm : gmap jstring nat) (done : list Token),
    bounded lm (length done) -> lm !! js "hasOwnProperty" = None ->
    ordinary_groups rest ->
    exists lm',
      fold_left combine_step (seq (length done) (length rest))
        (Return (lm, done ++ rest))
      = Return (lm', attach lm rest done ++ processed lm (length done) rest).
Proof.
  induction rest as [|t rest IH]; intros lm done Hb Hh Ho.
  - simpl. exists lm. now rewrite app_nil_r.
  - apply List.Forall_cons_iff in Ho as [Ht Ho].
    cbn [length seq fold_left]. rewrite combine_step_at by auto.
    cbn [attach processed].
    destruct (group_of (key t)) as [[l bare]|] eqn:Eg.
    + destruct (lm !! l) as [j|] eqn:El.
      * set (f := push_prop (MkParam (folded_name bare) (values t))).
        set (done' := alter f j done ++ [t]).
        assert (Hd : length done' = S (length done)).
        { unfold done'. rewrite length_app, length_alter. simpl. lia. }
        replace (alter f j done ++ t :: rest) with (done' ++ rest)
          by (unfold done'; now rewrite <- app_assoc).
        rewrite <- Hd.
        destruct (IH lm done') as (lm' & E); auto.
        { intros l0 j0 H. rewrite Hd. specialize (Hb l0 j0 H). lia. }
        exists lm'. rewrite E.
        unfold done'. rewrite attach_app, <- app_assoc; [reflexivity|].
        intros l0 j0 H. rewrite length_alter. eauto.
      * set (done' := done ++ [set_key bare t]).
        assert (Hd : length done' = S (length done)).
        { unfold done'. rewrite length_app. simpl. lia. }
        replace (done ++ set_key bare t :: rest) with (done' ++ rest)
          by (unfold done'; now rewrite <- app_assoc).
        rewrite <- Hd.
        destruct (IH (<[l := length done]> lm) done') as (lm' & E); auto.
        { intros l0 j0 H. rewrite Hd.
          destruct (decide (l = l0)) as [->|Hne].
          - rewrite lookup_insert_eq in H. injection H as <-. lia.
          - rewrite lookup_insert_ne in H by auto.
            specialize (Hb l0 j0 H). lia. }
        { destruct (Ht _ _ eq_refl) as [_ Hl].
          rewrite lookup_insert_ne by exact Hl. exact Hh. }
        exists lm'. rewrite Hd in E. rewrite Hd, E.
        unfold done'. rewrite attach_new by auto.
        rewrite <- app_assoc. reflexivity.
    + set (done' := done ++ [t]).
      assert (Hd : length done' = S (length done)).
      { unfold done'. rewrite length_app. simpl. lia. }
      replace (done ++ t :: rest) with (done' ++ rest)
        by (unfold done'; now rewrite <- app_assoc).
      rewrite <- Hd.
      destruct (IH lm done') as (lm' & E); auto.
      { intros l0 j0 H. rewrite Hd. specialize (Hb l0 j0 H). lia. }
      exists lm'. rewrite E.
      unfold done'. rewrite attach_app by auto.
      rewrite <- app_assoc. reflexivity.
Qed.

Lemma attach_nil (lm : gmap jstring nat) (rest : list Token) :
  attach lm rest [] = [].
Proof.
  induction rest as [|t rest IH]; simpl; auto.
  destruct (group_of (key t)) as [[l bare]|]; auto.
  destruct (lm !! l); auto.
Qed.

Lemma split_on_pieces (sep : N) (s : jstring) :
  Forall (fun p => ~ In sep p) (split_on sep s).
Proof.
  induction s as [|c s IH]; simpl.
  - constructor; auto.
  - destruct (N.eqb_spec c sep) as [->|Hc].
    + constructor; auto.
    + destruct (split_on sep s) as [|p ps]; inversion IH; subst.
      * constructor; auto. intros [H|[]]. congruence.
      * constructor; auto. intros [H|H]; [congruence|auto].
Qed.

Lemma has_dot_false (s : jstring) : ~ In 46 s -> has_dot s = false.
Proof.
  intros H. unfold has_dot. apply not_true_is_false. intros E.
  apply existsb_exists in E as (x & Hx & Ex). apply N.eqb_eq in Ex.
  subst. contradiction.
Qed.

(** The bare key has no dot. *)
Lemma group_of_bare (k l bare : jstring) :
  group_of k = Some (l, bare) -> has_dot k = true /\ has_dot bare = false.
Proof.
  unfold group_of. destruct (has_dot k); [|discriminate].
  intros H. injection H as _ <-. split; auto.
  apply has_dot_false.
  pose proof (split_on_pieces 46 k) as Hp.
  destruct (split_on 46 k) as [|p0 [|p1 ps]]; simpl; auto.
  inversion Hp as [|? ? _ Hp']; subst. now inversion Hp'; subst.
Qed.

Lemma group_of_none (k : jstring) : group_of k = None -> has_dot k = false.
Proof. unfold group_of. now destruct (has_dot k). Qed.

Lemma processed_filter (rest : list Token) :
  forall (lm : gmap jstring nat) (i : nat) (seen : list jstring),
    (forall l, includes seen l = true <-> is_Some (lm !! l)) ->
    List.filter (fun t => negb (has_dot (key t))) (processed lm i rest)
    = merge_groups_spec seen rest.
Proof.
  induction rest as [|t rest IH]; intros lm i seen Hs; [reflexivity|].
  cbn [processed merge_groups_spec].
  destruct (group_of (key t)) as [[l bare]|] eqn:Eg.
  - destruct (group_of_bare _ _ _ Eg) as [Hd Hb].
    destruct (lm !! l) as [j|] eqn:El.
    + assert (Hin : includes seen l = true) by (apply Hs; rewrite El; eauto).
      rewrite Hin. cbn [List.filter]. rewrite Hd. simpl. now apply IH.
    + assert (Hin : includes seen l = false).
      { apply not_true_is_false. intros H. apply Hs in H.
        rewrite El in H. now destruct H. }
      rewrite Hin. cbn [List.filter key]. rewrite Hb. simpl. f_equal.
      apply IH. intros l0. simpl.
      destruct (jstr_eqb l0 l) eqn:E0.
      * apply jstr_eqb_eq in E0. subst l0. rewrite lookup_insert_eq.
        split; eauto.
      * apply jstr_eqb_neq in E0. rewrite lookup_insert_ne by congruence.
        simpl. apply Hs.
  - cbn [List.filter]. rewrite (group_of_none _ Eg). simpl. f_equal.
    now apply IH.
Qed.

(** On lines whose group labels are ordinary keys of [label_map], the loop
    that combines the grouped lines computes what the specification
    describes. *)
Lemma combine_groups_ordinary (tokens : list Token) :
  ordinary_groups tokens ->
  combine_groups tokens = Return (merge_groups_spec [] tokens).
Proof.
  intros Ho. unfold combine_groups.
  destruct (combine_loop tokens ∅ []) as (lm' & E); auto.
  { intros l j H. rewrite lookup_empty in H. discriminate. }
  cbn [length app] in E. rewrite E. cbn [obind].
  rewrite attach_nil. cbn [app]. f_equal. apply processed_filter.
  intros l. simpl. rewrite lookup_empty. split; [discriminate|].
  intros [x Hx]. discriminate.
Qed.

(** C8. Under two group labels the lines are not combined as the
    specification describes, because [label_map] is an object and not a
    map.  The lines of the group [__proto__] are never combined: each stays
    a token of its own under its bare key, where the specification attaches
    the second to the first.  After a line of the group [hasOwnProperty]
    the next line with a group makes the tokenizer throw a TypeError, and
    the parser with it, before any field is set. *)
Theorem grouped_lines_object_names :
  tokenizeVcardString (js "__proto__.ADR:;;1 Main St;Town" ++ [NL]
                       ++ js "__proto__.X-ABLabel:Home")
  = Return [MkToken (js "ADR") [] [js "1 Main St"; js "Town"];
            MkToken (js "X-ABLabel") [] [js "Home"]]
  /\ merge_groups_spec []
       [MkToken (js "__proto__.ADR") [] [js "1 Main St"; js "Town"];
        MkToken (js "__proto__.X-ABLabel") [] [js "Home"]]
     = [MkToken (js "ADR") [MkParam (js "LABEL") [js "Home"]]
          [js "1 Main St"; js "Town"]]
  /\ tokenizeVcardString (js "hasOwnProperty.ADR:;;1 Main St;Town" ++ [NL]
                          ++ js "hasOwnProperty.X-ABLabel:Home")
     = Throw TypeError
  /\ merge_groups_spec []
       [MkToken (js "hasOwnProperty.ADR") [] [js "1 Main St"; js "Town"];
        MkToken (js "hasOwnProperty.X-ABLabel") [] [js "Home"]]
     = [MkToken (js "ADR") [MkParam (js "LABEL") [js "Home"]]
          [js "1 Main St"; js "Town"]]
  /\ decode (js "BEGIN:VCARD" ++ [NL] ++ js "VERSION:3.0" ++ [NL]
             ++ js "FN:Bob" ++ [NL]
             ++ js "hasOwnProperty.ADR:;;1 Main St;Town" ++ [NL]
             ++ js "hasOwnProperty.X-ABLabel:Home" ++ [NL]
             ++ js "END:VCARD")
     = (Throw TypeError, new_VCard).
Proof. repeat split; vm_compute; reflexivity. Qed.

(** The two lines [render] emits for an address under version 3 come back
    as one ADR token with a LABEL parameter. *)
Example combine_groups_address :
  tokenizeVcardString (js "item1.ADR:;;1 Main St;Town
item1.X-ABLabel:Home")
  = Return [MkToken (js "ADR") [MkParam (js "LABEL") [js "Home"]]
              [js "1 Main St"; js "Town"]].
Proof. vm_compute. reflexivity. Qed.

(** ** Escaping and unescaping *)

Lemma enc_0 (u : jstring) : char_shape u -> enc 0 u = escape_char u.
Proof.
  intros [[c ->]|(c & d & -> & _)].
  - rewrite escape_char_single. reflexivity.
  - now rewrite escape_char_pair.
Qed.

Lemma enc_5 (u : jstring) : enc 5 u = u.
Proof.
  destruct u as [|c [|d u]]; try reflexivity. simpl.
  destruct (N.eqb_spec c 44) as [->|]; [reflexivity|].
  destruct (N.eqb_spec c 59) as [->|]; [reflexivity|].
  destruct (N.eqb_spec c 58) as [->|]; [reflexivity|].
  destruct (N.eqb_spec c 92) as [->|]; [reflexivity|].
  destruct (N.eqb_spec c 10) as [->|]; reflexivity.
Qed.

Lemma replace2_head (a b : N) (rep t : jstring) :
  head_not b t -> replace2 a b rep (a :: t) = a :: replace2 a b rep t.
Proof.
  destruct t as [|d t]; simpl; auto. intros H.
  apply N.eqb_neq in H. rewrite H. now rewrite andb_false_r.
Qed.

Lemma replace2_hit (a b : N) (rep t : jstring) :
  replace2 a b rep (a :: b :: t) = rep ++ replace2 a b rep t.
Proof. simpl. now rewrite !N.eqb_refl. Qed.

Lemma surrogate_not_ascii (c d : N) :
  is_high c && is_low d = true -> 128 <= c /\ 128 <= d.
Proof.
  unfold is_high, is_low. intros H.
  apply andb_true_iff in H as [H1 H2].
  apply andb_true_iff in H1 as [H1 _], H2 as [H2 _].
  apply N.leb_le in H1, H2. lia.
Qed.

(** The four first replacements: nothing but the escape they look for
    matches, because no element begins with the code unit it restores. *)
Lemma enc_head (k : nat) (b : N) (us : list jstring) :
  Forall char_shape us ->
  (k = 0%nat /\ b = 44) \/ (k = 1%nat /\ b = 59) \/ (k = 2%nat /\ b = 58) ->
  head_not b (concat (map (enc k) us)).
Proof.
  intros Hs Hk. destruct Hs as [|u us Hu _]; [exact I|].
  simpl. destruct Hu as [[c ->]|(c & d & -> & Hp)].
  - unfold enc.
    destruct (N.eqb_spec c 44); [destruct Hk as [[-> ->]|[[-> ->]|[-> ->]]]; simpl; lia|].
    destruct (N.eqb_spec c 59); [destruct Hk as [[-> ->]|[[-> ->]|[-> ->]]]; simpl; lia|].
    destruct (N.eqb_spec c 58); [destruct Hk as [[-> ->]|[[-> ->]|[-> ->]]]; simpl; lia|].
    destruct (N.eqb_spec c 92); [destruct Hk as [[-> ->]|[[-> ->]|[-> ->]]]; simpl; lia|].
    destruct (N.eqb_spec c 10); [destruct Hk as [[-> ->]|[[-> ->]|[-> ->]]]; simpl; lia|].
    simpl. destruct Hk as [[-> ->]|[[-> ->]|[-> ->]]]; auto.
  - apply surrogate_not_ascii in Hp. simpl.
    destruct Hk as [[-> ->]|[[-> ->]|[-> ->]]]; lia.
Qed.

Ltac step_plain :=
  rewrite replace2_cons_ne by (try lia; congruence).

Ltac step_head H :=
  rewrite replace2_head by (try exact H; simpl; lia).

Lemma pass_restore (k : nat) (b : N) (us : list jstring) :
  Forall char_shape us ->
  (k = 0%nat /\ b = 44) \/ (k = 1%nat /\ b = 59) \/ (k = 2%nat /\ b = 58) ->
  replace2 92 b [b] (concat (map (enc k) us)) = concat (map (enc (S k)) us).
Proof.
  intros Hs Hk. induction Hs as [|u us Hu Hus IH]; [reflexivity|].
  pose proof (enc_head k b us Hus Hk) as Hh.
  simpl map. simpl concat. rewrite <- IH.
  destruct Hu as [[c ->]|(c & d & -> & Hp)].
  - unfold enc.
    destruct (N.eqb_spec c 44) as [->|];
      [destruct Hk as [[-> ->]|[[-> ->]|[-> ->]]]; simpl app;
       first [now rewrite replace2_hit | now step_plain]|].
    destruct (N.eqb_spec c 59) as [->|];
      [destruct Hk as [[-> ->]|[[-> ->]|[-> ->]]]; simpl app;
       first [now rewrite replace2_hit | now step_plain
             | now (rewrite replace2_head by (simpl; lia); step_plain)]|].
    destruct (N.eqb_spec c 58) as [->|];
      [destruct Hk as [[-> ->]|[[-> ->]|[-> ->]]]; simpl app;
       first [now rewrite replace2_hit | now step_plain
             | now (rewrite replace2_head by (simpl; lia); step_plain)]|].
    destruct (N.eqb_spec c 92) as [->|];
      [destruct Hk as [[-> ->]|[[-> ->]|[-> ->]]]; simpl app;
       rewrite replace2_head by (simpl; lia);
       now rewrite replace2_head by exact Hh|].
    destruct (N.eqb_spec c 10) as [->|];
      [destruct Hk as [[-> ->]|[[-> ->]|[-> ->]]]; simpl app;
       rewrite replace2_head by (simpl; lia); now step_plain|].
    simpl app. now step_plain.
  - apply surrogate_not_ascii in Hp.
    replace (enc k [c; d]) with [c; d] by reflexivity.
    replace (enc (S k) [c; d]) with [c; d] by reflexivity.
    simpl app. now rewrite !replace2_cons_ne by lia.
Qed.

Lemma pass_backslash (us : list jstring) :
  Forall char_shape us ->
  replace2 92 92 [92] (concat (map (enc 3) us)) = concat (map (enc 4) us).
Proof.
  intros Hs. induction Hs as [|u us Hu Hus IH]; [reflexivity|].
  simpl map. simpl concat. rewrite <- IH.
  destruct Hu as [[c ->]|(c & d & -> & Hp)].
  - unfold enc.
    destruct (N.eqb_spec c 44) as [->|]; [simpl app; now step_plain|].
    destruct (N.eqb_spec c 59) as [->|]; [simpl app; now step_plain|].
    destruct (N.eqb_spec c 58) as [->|]; [simpl app; now step_plain|].
    destruct (N.eqb_spec c 92) as [->|];
      [simpl app; now rewrite replace2_hit|].
    destruct (N.eqb_spec c 10) as [->|];
      [simpl app; rewrite replace2_head by (simpl; lia); now step_plain|].
    simpl app. now step_plain.
  - apply surrogate_not_ascii in Hp. simpl app.
    now rewrite !replace2_cons_ne by lia.
Qed.

Lemma pass_newline (us : list jstring) :
  Forall char_shape us -> no_bsl_n_units us ->
  replace2 92 110 [10] (concat (map (enc 4) us)) = concat (map (enc 5) us).
Proof.
  intros Hs. induction Hs as [|u us Hu Hus IH]; [reflexivity|].
  intros [Hn Hrest]. simpl map. simpl concat. rewrite <- (IH Hrest).
  destruct Hu as [[c ->]|(c & d & -> & Hp)].
  - unfold enc.
    destruct (N.eqb_spec c 44) as [->|]; [simpl app; now step_plain|].
    destruct (N.eqb_spec c 59) as [->|]; [simpl app; now step_plain|].
    destruct (N.eqb_spec c 58) as [->|]; [simpl app; now step_plain|].
    destruct (N.eqb_spec c 92) as [->|].
    + simpl app. rewrite replace2_head; [reflexivity|].
      specialize (Hn eq_refl). clear -Hn Hus.
      destruct Hus as [|u us Hu _]; [exact I|]. simpl in *.
      destruct Hu as [[c ->]|(c & d & -> & Hp)]; [|exact Hn].
      simpl in Hn. unfold enc.
      repeat match goal with
             | |- context [if ?c =? ?x then _ else _] =>
                 destruct (N.eqb_spec c x); [simpl; lia|]
             end.
      exact Hn.
    + destruct (N.eqb_spec c 10) as [->|];
        [simpl app; now rewrite replace2_hit|].
      simpl app. now step_plain.
  - apply surrogate_not_ascii in Hp. simpl app.
    now rewrite !replace2_cons_ne by lia.
Qed.

Lemma concat_spread (s : jstring) : concat (spread s) = s.
Proof.
  induction s as [|c|c d l IHl IHdl] using list_ind2; try reflexivity.
  change (spread (c :: d :: l)) with
    (if is_high c && is_low d then [c; d] :: spread l
     else [c] :: spread (d :: l)).
  destruct (is_high c && is_low d); cbn [concat app];
    rewrite ?IHl, ?IHdl; reflexivity.
Qed.

Lemma no_bsl_n_spread (s : jstring) :
  no_backslash_n s -> no_bsl_n_units (spread s).
Proof.
  induction s as [|c|c d l IHl IHdl] using list_ind2; intros H.
  - exact I.
  - simpl. auto.
  - change (spread (c :: d :: l)) with
      (if is_high c && is_low d then [c; d] :: spread l
       else [c] :: spread (d :: l)).
    destruct (is_high c && is_low d) eqn:E.
    + split; [discriminate|]. apply IHl. intros l1 l2 ->.
      apply (H (c :: d :: l1) l2). reflexivity.
    + split.
      * intros Hc. injection Hc as ->. rewrite concat_spread. simpl.
        intros ->. apply (H [] l). reflexivity.
      * apply IHdl. intros l1 l2 E'. apply (H (c :: l1) l2).
        simpl. now rewrite E'.
Qed.

Lemma escape_units_no_percent (chars : list jstring) :
  Forall (fun u => u <> [37]) chars ->
  escape_units 0 chars = map escape_char chars.
Proof.
  induction 1 as [|c rest Hc _ IH]; [reflexivity|].
  cbn [escape_units map].
  assert (Ht : token_char (c :: rest) (escape_char c) = (escape_char c, 0%nat)).
  { unfold token_char.
    destruct (jstr_eqb (escape_char c) (js "%")) eqn:E; [|reflexivity].
    apply jstr_eqb_eq in E. exfalso. apply Hc.
    unfold escape_char in E. cbv zeta in E. literals.
    repeat match type of E with
           | context [if jstr_eqb ?a ?b then _ else _] =>
               destruct (jstr_eqb a b) eqn:?; try discriminate
           end.
    exact E. }
  rewrite Ht. now rewrite IH.
Qed.

Lemma spread_no_percent (s : jstring) :
  ~ In 37 s -> Forall (fun u => u <> [37]) (spread s).
Proof.
  induction s as [|c|c d l IHl IHdl] using list_ind2; intros H.
  - constructor.
  - simpl. constructor; [|constructor]. intros E. injection E as ->.
    apply H. now left.
  - change (spread (c :: d :: l)) with
      (if is_high c && is_low d then [c; d] :: spread l
       else [c] :: spread (d :: l)).
    destruct (is_high c && is_low d); constructor.
    + discriminate.
    + apply IHl. intros Hin. apply H. now right; right.
    + intros E. injection E as ->. apply H. now left.
    + apply IHdl. intros Hin. apply H. now right.
Qed.

(** [unesc] inverts the escaping of every string in which no backslash is
    followed by the letter n: in particular of every string made of the five
    reserved characters.  The same holds for the escaped logical line of
    [formatTextValue] when the string has no percent sign, hence no token. *)
Theorem unesc_escape_inverse (s : jstring) :
  no_backslash_n s ->
  unesc (escape s) = s
  /\ (~ In 37 s -> unesc (escape_text s) = s).
Proof.
  intros Hn.
  assert (He : unesc (escape s) = s).
  { unfold unesc, escape. pose proof (spread_shape s) as Hs.
    replace (map escape_char (spread s)) with (map (enc 0) (spread s)).
    2:{ apply map_ext_in. intros u Hu. apply enc_0.
        rewrite List.Forall_forall in Hs. auto. }
    change BSL with 92. change (js ",") with [44].
    change (js ";") with [59]. change (js ":") with [58]. change NL with 10.
    rewrite (pass_restore 0 44), (pass_restore 1 59), (pass_restore 2 58),
      pass_backslash, pass_newline by (auto using no_bsl_n_spread).
    rewrite (map_ext _ (fun u => u) enc_5), map_id. apply concat_spread. }
  split; [exact He|]. intros Hp. unfold escape_text.
  rewrite escape_units_no_percent by now apply spread_no_percent.
  exact He.
Qed.

Lemma unesc_escape_inverse_witness :
  unesc (escape (js ",;:\" ++ [NL; 92; 92; 44])) = js ",;:\" ++ [NL; 92; 92; 44].
Proof.
  refine (proj1 (unesc_escape_inverse (js ",;:\" ++ [NL; 92; 92; 44]) _)).
  intros l1 l2 E. vm_compute in E.
  repeat (destruct l1 as [|? l1]; [discriminate|];
          injection E as _ E).
  destruct l1; discriminate.
Defined.

(** In particular [unesc] inverts the escaping of every string made of the
    five reserved characters alone. *)
Corollary unesc_escape_reserved (s : jstring) :
  Forall (fun c => In c [44; 59; 58; 92; NL]) s ->
  unesc (escape s) = s /\ unesc (escape_text s) = s.
Proof.
  intros H. rewrite List.Forall_forall in H.
  assert (Hc : forall c, In c s -> c <> 110 /\ c <> 37).
  { intros c Hin. specialize (H c Hin). simpl in H.
    repeat (destruct H as [<-|H]; [split; discriminate|]). contradiction. }
  destruct (unesc_escape_inverse s) as [He Ht].
  - intros l1 l2 E. destruct (Hc 110) as [Hn _]; [|congruence].
    rewrite E. apply in_or_app. right. now right; left.
  - split; [exact He|]. apply Ht. intros Hin.
    destruct (Hc 37 Hin) as [_ Hp]. congruence.
Qed.

(** C2. A backslash followed by the letter n: it is escaped to two
    backslashes and n, and [unesc], which replaces the doubled backslash
    before it looks for the escaped newline, returns a newline. *)
Theorem unesc_escape_backslash_n :
  formatTextValue (js "\n") = js "\\n"
  /\ unesc (js "\\n") = [NL]
  /\ unesc (formatTextValue (js "\n")) <> js "\n".
Proof.
  split; [|split]; vm_compute; [reflexivity | reflexivity | discriminate].
Qed.

(** ** Round trip *)

(** C1. The note is rendered, decoded to a note with a raw newline, and
    rendered again to another text, under version 3 and under version 4. *)
Theorem round_trip_note_backslash_n :
  (exists c',
     render (note_contact 3) = Return (js "BEGIN:VCARD
VERSION:3.0
FN:Bob
N:Bob
NOTE:C\:\\new
END:VCARD")
     /\ decode (js "BEGIN:VCARD
VERSION:3.0
FN:Bob
N:Bob
NOTE:C\:\\new
END:VCARD") = (Return tt, c')
     /\ note c' = [[67; 58; NL; 101; 119]]
     /\ render c' = Return (js "BEGIN:VCARD
VERSION:3.0
FN:Bob
N:Bob
NOTE:C\:\new
END:VCARD"))
  /\ (exists c',
        render (note_contact 4) = Return (js "BEGIN:VCARD
VERSION:4.0
KIND:individual
FN:Bob
N:Bob
NOTE:C\:\\new
END:VCARD")
        /\ decode (js "BEGIN:VCARD
VERSION:4.0
KIND:individual
FN:Bob
N:Bob
NOTE:C\:\\new
END:VCARD") = (Return tt, c')
        /\ render c' = Return (js "BEGIN:VCARD
VERSION:4.0
KIND:individual
FN:Bob
N:Bob
NOTE:C\:\new
END:VCARD")).
Proof.
  split.
  - exists (snd (decode (js "BEGIN:VCARD
VERSION:3.0
FN:Bob
N:Bob
NOTE:C\:\\new
END:VCARD"))).
    repeat split; vm_compute; reflexivity.
  - exists (snd (decode (js "BEGIN:VCARD
VERSION:4.0
KIND:individual
FN:Bob
N:Bob
NOTE:C\:\\new
END:VCARD"))).
    repeat split; vm_compute; reflexivity.
Qed.

(** Two more contacts of the test suite's valid calls whose text does not
    come back: a phone number of seven digits is read with the country
    code as its first digit, and an address with no component is rendered
    to a line that the decoder refuses. *)
Example round_trip_short_phone :
  let c := snd (for_each (fun m => m)
                  [setVersion 3; setName (js "Bob");
                   setPhone (js "8675309") None None false] new_VCard) in
  render c = Return (js "BEGIN:VCARD
VERSION:3.0
FN:Bob
N:Bob
TEL:+1-867-530-9
END:VCARD")
  /\ render (snd (decode (js "BEGIN:VCARD
VERSION:3.0
FN:Bob
N:Bob
TEL:+1-867-530-9
END:VCARD"))) = Return (js "BEGIN:VCARD
VERSION:3.0
FN:Bob
N:Bob
TEL:+1-186-753-09
END:VCARD").
Proof. split; vm_compute; reflexivity. Qed.

Example round_trip_default_address :
  let c := snd (for_each (fun m => m)
                  [setKind KIND_IND; setName (js "Bob");
                   setAddress None None None None None None] new_VCard) in
  render c = Return (js "BEGIN:VCARD
VERSION:4.0
KIND:individual
FN:Bob
N:Bob
ADR:;;;;;;
END:VCARD")
  /\ fst (decode (js "BEGIN:VCARD
VERSION:4.0
KIND:individual
FN:Bob
N:Bob
ADR:;;;;;;
END:VCARD")) = Throw (js "Invalid vCard (Invalid token)").
Proof. split; vm_compute; reflexivity. Qed.

(** ** Lines that are not folded *)

Lemma bounded_lines_forallb (text : jstring) :
  Forall (fun line => blob_size line <= 75) (split_on NL text) ->
  forallb (fun line => blob_size line <=? 75) (split_on NL text) = true.
Proof.
  intros H. apply forallb_forall. intros line Hin. apply N.leb_le.
  rewrite List.Forall_forall in H. auto.
Qed.

(** [render] emits a URL as it is: the URL line of this text has 91
    bytes. *)
Lemma url_line_exceeds_75_bytes :
  exists text,
    render url_contact = Return text
    /\ In (js "URL:http://" ++ repeat 97 80) (split_on NL text)
    /\ blob_size (js "URL:http://" ++ repeat 97 80) = 91
    /\ ~ Forall (fun line => blob_size line <= 75) (split_on NL text).
Proof.
  exists (join [NL] (parts_of (render_parts url_contact))).
  split; [vm_compute; reflexivity|]. split; [|split].
  - vm_compute. tauto.
  - vm_compute. reflexivity.
  - intros H. apply bounded_lines_forallb in H. vm_compute in H.
    discriminate.
Qed.

(** C3. The NICKNAME line is folded without its property name, which is
    put before the folded value: a nickname of 75 bytes, which
    [formatTextValue] leaves on one line, gives a physical line of 84 bytes
    in the rendered text, while the TITLE line of the same value, folded
    with its property name, keeps to 75 bytes. *)
Theorem nickname_line_exceeds_75_bytes :
  render_nicknames [repeat 97 75] = [js "NICKNAME:" ++ repeat 97 75]
  /\ blob_size (js "NICKNAME:" ++ repeat 97 75) = 84
  /\ (exists text,
        render nickname_contact = Return text
        /\ In (js "NICKNAME:" ++ repeat 97 75) (split_on NL text)
        /\ ~ Forall (fun line => blob_size line <= 75) (split_on NL text))
  /\ Forall (fun line => blob_size line <= 75)
        (split_on NL (formatTextValue (js "TITLE%COL%" ++ repeat 97 75))).
Proof.
  split; [vm_compute; reflexivity|]. split; [vm_compute; reflexivity|].
  split.
  - exists (join [NL] (parts_of (render_parts nickname_contact))).
    split; [vm_compute; reflexivity|]. split; [vm_compute; tauto|].
    intros H. apply bounded_lines_forallb in H. vm_compute in H.
    discriminate.
  - apply formatTextValue_folding.
Qed.

(** A three-byte character that does not fit on the first line goes whole
    to the continuation line. *)
Example fold_before_multibyte :
  formatTextValue (repeat 97 74 ++ [8364; 98])
  = repeat 97 74 ++ [NL; SP; 8364; 98].
Proof. vm_compute. reflexivity. Qed.

(* ===================================================================== *)
(** * Further properties of the generator and of the parser               *)
(* ===================================================================== *)

#[local] Arguments js : simpl never.

(** ** Setters: failure and validated fields *)

Lemma includes_false (arr : list jstring) (x : jstring) :
  includes arr x = false -> ~ In x arr.
Proof.
  intros H Hin. apply includes_In in Hin. congruence.
Qed.

(** X1. A setter call returns, or throws and leaves the contact as it was. *)
Theorem setter_call_atomic (c : setter_call) (v : VCard.VCard) :
  fst (call c v) = Return tt \/ exists e, call c v = (Throw e, v).
Proof.
  destruct c; cbn [call].
  all: try (unfold setVersion, setNickname, setName, setKind, setPhoto,
              setBday, setAnniversary, setGender, setAddress, setIM, setTitle,
              setRole, setLogo, setOrg, setNote, setURL, bind, assign, throw,
              ret;
            repeat match goal with
                   | |- context [if ?b then _ else _] => destruct b
                   | |- context [match ?d with IsDate _ => _ | NotDate _ => _ end] =>
                       destruct d
                   end;
            cbn; eauto; fail).
  - destruct (setPhone_cases phone ext type pref v) as [-> | ->]; cbn; eauto.
  - unfold setEmail, bind, assign, throw, ret.
    destruct (negb (regex_test emailRegex (toLowerCase email_))); cbn; eauto.
    destruct pref; cbn; eauto.
Qed.

Lemma check_types_ok (allowed types : list jstring) (v : VCard.VCard) :
  fst (for_each (fun t => if negb (includes allowed t)
                          then throw (js "Invalid Type value.")
                          else ret tt) types v) = Return tt ->
  Forall (fun x => In x allowed) types.
Proof.
  induction types as [|t types IH]; simpl; [constructor|].
  unfold bind. destruct (includes allowed t) eqn:E; simpl; [|discriminate].
  intros H. constructor; [now apply includes_In | auto].
Qed.

Lemma setPhone_types (phone : jstring) (ext : option jstring)
    (type : option type_arg) (pref : bool) (v : VCard.VCard) :
  fst (setPhone phone ext type pref v) = Return tt ->
  Forall (fun x => In x tel_types)
    (tel_type (phone_entry (PhoneCall phone ext type pref))).
Proof.
  unfold setPhone. cbv zeta. unfold bind at 1.
  match goal with
  | |- context [for_each ?f ?l v] =>
      pose proof (check_types_ok tel_types l v) as Hok;
      destruct (check_types_cases tel_types l v) as [E|E]
  end; cbv zeta in E; unfold tel_types in *.
  - intros _. apply Hok. now rewrite E.
  - rewrite E. discriminate.
Qed.

Lemma Forall_snoc {A} (P : A -> Prop) (l : list A) (x : A) :
  Forall P l -> P x -> Forall P (l ++ [x]).
Proof. intros Hl Hx. apply Forall_app. split; auto. Qed.

Lemma Forall_clear {A} (P : A -> Prop) (f : A -> A) (l : list A) :
  (forall x, P x -> P (f x)) -> Forall P l -> Forall P (map f l).
Proof. intros Hf H. induction H; simpl; constructor; auto. Qed.

(** The setters keep the validated fields valid. *)
Lemma call_validated (c : setter_call) (v : VCard.VCard) :
  validated v -> validated (snd (call c v)).
Proof.
  intros [Hv Hk Hg Hi Ht Him He Hp Hl]. destruct c; cbn [call].
  - unfold setVersion.
    destruct (negb (version =? 3)%Z && negb (version =? 4)%Z) eqn:E;
      constructor; cbn -[In]; auto.
    apply andb_false_iff in E as [E|E]; apply negb_false_iff, Z.eqb_eq in E;
      auto.
  - constructor; cbn -[In]; auto.
  - constructor; cbn -[In]; auto.
  - unfold setKind. cbv zeta.
    destruct (includes _ _) eqn:E; constructor; cbn -[In]; auto.
    intros k [= <-]. now apply (proj1 (includes_In _ _)).
  - unfold setPhoto.
    destruct (dataUriRegex_test dataURI) eqn:E; constructor; cbn -[In]; auto.
    now apply Forall_snoc.
  - destruct bday_; constructor; cbn -[In]; auto.
  - destruct anniversary_; constructor; cbn -[In]; auto.
  - unfold setGender. cbv zeta.
    destruct (includes _ gender_) eqn:E; constructor; cbn -[In]; auto.
    + intros g [= <-]. now apply (proj1 (includes_In _ _)).
    + discriminate.
  - constructor; cbn -[In]; auto.
  - pose proof (setPhone_types phone ext type pref v) as Hty.
    destruct (setPhone_cases phone ext type pref v) as [E|E]; rewrite E in *;
      constructor; cbn -[In]; auto.
    apply Forall_snoc; [|now apply Hty].
    destruct pref; auto. now apply Forall_clear.
  - unfold setEmail.
    destruct (regex_test emailRegex (toLowerCase email_)) eqn:E;
      destruct pref; constructor; cbn -[In]; auto;
      apply Forall_snoc; auto. now apply Forall_clear.
  - unfold setIM. cbv zeta.
    destruct (includes _ protocol) eqn:E; destruct pref; constructor; cbn -[In]; auto;
      apply Forall_snoc; auto; try (now apply (proj1 (includes_In _ _))).
    now apply Forall_clear.
  - constructor; cbn -[In]; auto.
  - constructor; cbn -[In]; auto.
  - unfold setLogo.
    destruct (dataUriRegex_test dataURI) eqn:E; constructor; cbn -[In]; auto.
    now apply Forall_snoc.
  - constructor; cbn -[In]; auto.
  - constructor; cbn -[In]; auto.
  - constructor; cbn -[In]; auto.
Qed.

Lemma built_validated (v : VCard.VCard) : built v -> validated v.
Proof.
  induction 1 as [|c v _ IH]; [|now apply call_validated].
  constructor; cbn; auto; discriminate.
Qed.

(** X2. In a contact built through the setters the version is 3 or 4, the
    kind, the gender, the phone types and the instant-message protocols are
    among the constants, every email address matches the email pattern once
    lower-cased, and every photo and logo is an image data URI. *)
Theorem built_fields_validated (v : VCard.VCard) : built v -> validated v.
Proof. apply built_validated. Qed.

Lemma built_for_each_call (cs : list setter_call) (v : VCard.VCard) :
  built v -> built (snd (for_each call cs v)).
Proof.
  revert v. induction cs as [|c cs IH]; intros v Hv; [exact Hv|].
  cbn [for_each]. unfold bind.
  pose proof (built_call c v Hv) as Hc.
  destruct (call c v) as [[[]|e] v']; cbn in *; auto.
Qed.

Lemma built_fields_validated_witness :
  validated validated_example
  /\ kind validated_example = Some (js "group")
  /\ specVersion validated_example = 3%Z.
Proof.
  split; [|split; reflexivity].
  apply built_fields_validated.
  apply built_for_each_call, built_new.
Defined.

(** What a setter call does to the instant-message entries. *)
Lemma call_impp (c : setter_call) (v : VCard.VCard) :
  impp (snd (call c v)) = impp v
  \/ exists i, impp (snd (call c v))
               = (if im_pref i then map clear_impp_pref (impp v) else impp v)
                 ++ [i].
Proof.
  destruct c; cbn [call].
  all: try (unfold setVersion, setNickname, setName, setKind, setPhoto,
              setBday, setAnniversary, setGender, setAddress, setTitle,
              setRole, setLogo, setOrg, setNote, setURL, setEmail, bind,
              assign, throw, ret;
            repeat match goal with
                   | |- context [if ?b then _ else _] => destruct b
                   | |- context [match ?d with IsDate _ => _ | NotDate _ => _ end] =>
                       destruct d
                   end;
            cbn; auto; fail).
  - destruct (setPhone_cases phone ext type pref v) as [-> | ->]; cbn; auto.
  - unfold setIM, bind, assign, throw, ret. cbv zeta.
    destruct (negb (includes _ protocol)); cbn; auto.
    right. exists (MkImpp imurl protocol pref). destruct pref; reflexivity.
Qed.

Lemma filter_cleared {A} (pref : A -> bool) (clear : A -> A) (l : list A) :
  (forall y, pref (clear y) = false) -> List.filter pref (map clear l) = [].
Proof.
  intros H. induction l as [|y l IH]; simpl; [reflexivity|]. now rewrite H.
Qed.

(** X3. A [setIM] call with an accepted protocol and [pref] set pushes its
    entry and leaves it the only preferred one; in every contact built
    through the setters at most one instant-message entry is preferred. *)
Theorem setIM_preferred :
  (forall imurl protocol v,
     In protocol im_protocols ->
     exists v',
       setIM imurl protocol true v = (Return tt, v')
       /\ impp v' = map clear_impp_pref (impp v) ++ [MkImpp imurl protocol true]
       /\ List.filter im_pref (impp v') = [MkImpp imurl protocol true])
  /\ (forall v, built v -> at_most_one im_pref (impp v)).
Proof.
  split.
  - intros imurl protocol v Hin. unfold setIM. cbv zeta.
    apply includes_In in Hin. unfold im_protocols in Hin. rewrite Hin.
    eexists. split; [reflexivity|]. cbn. split; [reflexivity|].
    rewrite List.filter_app, filter_cleared by reflexivity. reflexivity.
  - induction 1 as [|c v Hv IH]; [unfold at_most_one; simpl; lia|].
    destruct (call_impp c v) as [-> | (i & ->)]; auto.
    now apply push_at_most_one.
Qed.

Lemma setIM_preferred_witness :
  (exists v',
     setIM (Some (js "bob@example.com")) (js "sip") true validated_example
     = (Return tt, v')
     /\ impp v' = map clear_impp_pref (impp validated_example)
                  ++ [MkImpp (Some (js "bob@example.com")) (js "sip") true]
     /\ List.filter im_pref (impp v')
        = [MkImpp (Some (js "bob@example.com")) (js "sip") true])
  /\ at_most_one im_pref (impp validated_example).
Proof.
  split.
  - apply (proj1 setIM_preferred). vm_compute. tauto.
  - apply (proj2 setIM_preferred). apply built_for_each_call, built_new.
Defined.

(** ** The parser works through the setters *)

Lemma preserves_ret {A} (a : A) : preserves_built (ret a).
Proof. now intros v Hv. Qed.

Lemma preserves_throw {A} (e : jstring) : preserves_built (@throw A e).
Proof. now intros v Hv. Qed.

Lemma preserves_this : preserves_built this.
Proof. now intros v Hv. Qed.

Lemma preserves_bind {A B} (m : M A) (k : A -> M B) :
  preserves_built m -> (forall a, preserves_built (k a)) ->
  preserves_built (bind m k).
Proof.
  intros Hm Hk v Hv. unfold bind. specialize (Hm v Hv).
  destruct (m v) as [[a|e] v']; cbn in *; auto. now apply Hk.
Qed.

Lemma preserves_for_each {A} (body : A -> M unit) (xs : list A) :
  (forall x, preserves_built (body x)) -> preserves_built (for_each body xs).
Proof.
  intros Hb. induction xs as [|x xs IH]; cbn [for_each].
  - apply preserves_ret.
  - apply preserves_bind; auto.
Qed.

Lemma preserves_call (c : setter_call) : preserves_built (call c).
Proof. intros v Hv. now apply built_call. Qed.

Ltac by_setter c := exact (preserves_call c).

Lemma preserves_parseImageToken (set : jstring -> M unit) (t : Token) :
  (forall u, preserves_built (set u)) ->
  preserves_built (parseImageToken set t).
Proof.
  intros Hs. unfold parseImageToken. apply preserves_bind; [apply preserves_this|].
  intros v. destruct (specVersion v =? 3)%Z; [|apply Hs].
  destruct (props_named _ t) as [|p ps]; [apply preserves_throw|].
  destruct (pvalues p); [apply preserves_throw | apply Hs].
Qed.

Lemma preserves_parseToken (t : Token) : preserves_built (parseToken t).
Proof.
  unfold parseToken.
  destruct (negb (truthy (key t)) || (length (values t) =? 0)%nat);
    [apply preserves_throw|].
  cbv zeta.
  repeat match goal with
         | |- preserves_built (if ?b then _ else _) => destruct b
         end; try apply preserves_ret.
  - unfold parseVersionToken. cbv zeta.
    destruct (negb _); [apply preserves_throw|]. by_setter (SetVersion (parseInt (tmpl (values t !! 0%nat)))).
  - by_setter (SetName (default_arg [] (values t !! 0%nat))).
  - by_setter (SetKind (tmpl (values t !! 0%nat))).
  - apply preserves_for_each. intros x. by_setter (SetNickname x).
  - apply preserves_parseImageToken. intros u. by_setter (SetPhoto u).
  - unfold parseBDayToken. destruct (parse_date _) as [d|];
      [by_setter (SetBday (IsDate d)) | apply preserves_throw].
  - unfold parseAnniversaryToken. destruct (parse_date _) as [d|];
      [by_setter (SetAnniversary (IsDate d)) | apply preserves_throw].
  - by_setter (SetGender (tmpl (values t !! 0%nat)) (values t !! 1%nat)).
  - unfold parseAddressToken. cbv zeta.
    match goal with
    | |- preserves_built (setAddress ?a ?b ?c ?d ?e ?f) =>
        by_setter (SetAddress a b c d e f)
    end.
  - unfold parsePhoneToken. cbv zeta.
    apply preserves_bind; [apply preserves_this|]. intros v.
    destruct (specVersion v =? 3)%Z;
      match goal with
      | |- preserves_built (setPhone ?a ?b ?c ?d) => by_setter (SetPhone a b c d)
      end.
  - unfold parseEmailToken. cbv zeta.
    apply preserves_bind; [apply preserves_this|]. intros v.
    match goal with
    | |- preserves_built (setEmail ?a ?b) => by_setter (SetEmail a b)
    end.
  - unfold parseIMToken. cbv zeta.
    match goal with
    | |- preserves_built (setIM ?a ?b ?c) => by_setter (SetIM a b c)
    end.
  - by_setter (SetTitle (tmpl (values t !! 0%nat))).
  - by_setter (SetRole (tmpl (values t !! 0%nat))).
  - apply preserves_parseImageToken. intros u. by_setter (SetLogo u).
  - by_setter (SetOrg (values t !! 0%nat) (values t !! 1%nat)
                 (values t !! 2%nat)).
  - apply preserves_for_each. intros x. by_setter (SetNote x).
  - apply preserves_for_each. intros x. by_setter (SetURL x).
Qed.

Lemma preserves_parse (text : jstring) : preserves_built (parse text).
Proof.
  unfold parse.
  destruct (tokenizeVcardString text) as [tokens|e]; [|apply preserves_throw].
  destruct tokens as [|b tokens]; [apply preserves_throw|].
  destruct (not_bracket _ b); [apply preserves_throw|].
  destruct (rev tokens) as [|e rtokens]; [apply preserves_throw|].
  cbv zeta. destruct (not_bracket _ e); [apply preserves_throw|].
  destruct (rev rtokens) as [|t0 ts]; [apply preserves_throw|].
  destruct (negb _); [apply preserves_throw|].
  apply preserves_for_each, preserves_parseToken.
Qed.

(** X4. Whatever the text and however parsing ends, the contact the parser
    leaves is one that setter calls build from the contact it was given:
    the parser writes through the setters only, so a decoded contact has
    the validated fields and the preferred entries of a built one. *)
Theorem decode_built (text : jstring) :
  built (snd (decode text))
  /\ validated (snd (decode text))
  /\ at_most_one tel_pref (tel (snd (decode text)))
  /\ at_most_one em_pref (email (snd (decode text)))
  /\ (forall v, built v -> built (snd (parse text v))).
Proof.
  assert (H : built (snd (decode text))) by apply preserves_parse, built_new.
  split; [exact H|]. split; [now apply built_validated|].
  destruct (built_invariants _ H) as (_ & Ht & He).
  repeat split; auto. intros v. apply preserves_parse.
Qed.

(** ** Rendering a built contact *)

Lemma kinds_truthy (k : jstring) : In k kinds -> truthy k = true.
Proof.
  unfold kinds. simpl.
  intros H. repeat (destruct H as [<-|H]; [reflexivity|]). contradiction.
Qed.

Lemma render_returns (v : VCard.VCard) :
  name v <> [] ->
  (specVersion v = 4%Z -> truthy_opt (kind v) = true) ->
  renderable_date (bday v) ->
  (specVersion v = 4%Z -> renderable_date (anniversary v)) ->
  renderable_images (specVersion v) (photo v) ->
  renderable_images (specVersion v) (logo v) ->
  exists text, render v = Return text.
Proof.
  intros Hn Hk Hb Ha Hp Hl. unfold render, render_parts. cbv zeta.
  destruct ((specVersion v =? 4)%Z && negb (truthy_opt (kind v))) eqn:E1.
  { apply andb_true_iff in E1 as [E1 E2]. apply Z.eqb_eq in E1.
    rewrite (Hk E1) in E2. discriminate. }
  destruct (name v) as [|n ns] eqn:E2; [congruence|]. simpl length.
  change (S (length ns) =? 0)%nat with false. cbv iota.
  destruct (render_image_return _ (js "PHOTO") _ Hp) as (ps & ->).
  destruct (render_date_return (specVersion v) (js "BDAY") _ Hb) as (b & ->).
  destruct (render_image_return _ (js "LOGO") _ Hl) as (ls & ->).
  simpl. destruct (specVersion v =? 4)%Z eqn:E4.
  - apply Z.eqb_eq in E4.
    destruct (render_date_return (specVersion v) (js "ANNIVERSARY") _ (Ha E4))
      as (a & ->).
    simpl. eauto.
  - simpl. eauto.
Qed.

(** X5. A contact built through the setters, with a name, and with a kind
    when its version is 4, is rendered unless the birthday (or, under
    version 4, the anniversary) is an invalid date: no photo or logo can
    make [render] fail.  With an invalid birthday [render] throws the
    RangeError of [toISOString]. *)
Theorem render_built (v : VCard.VCard) :
  built v -> name v <> [] -> (specVersion v = 4%Z -> kind v <> None) ->
  (renderable_date (bday v) ->
   (specVersion v = 4%Z -> renderable_date (anniversary v)) ->
   exists text, render v = Return text)
  /\ (forall d, bday v = Some d -> time_value d = None ->
        render v = Throw (js "RangeError: Invalid time value")).
Proof.
  intros Hb Hn Hk. pose proof (built_validated v Hb) as Hv.
  assert (Hkind : specVersion v = 4%Z -> truthy_opt (kind v) = true).
  { intros H4. destruct (kind v) as [k|] eqn:E; [|now destruct (Hk H4)].
    simpl. apply kinds_truthy. now apply (val_kind v Hv). }
  assert (Hp : renderable_images (specVersion v) (photo v))
    by (right; apply (val_photo v Hv)).
  assert (Hl : renderable_images (specVersion v) (logo v))
    by (right; apply (val_logo v Hv)).
  split.
  - intros Hd Ha. now apply render_returns.
  - intros d Ed Et. unfold render, render_parts. cbv zeta.
    destruct ((specVersion v =? 4)%Z && negb (truthy_opt (kind v))) eqn:E1.
    { apply andb_true_iff in E1 as [E1 E2]. apply Z.eqb_eq in E1.
      rewrite (Hkind E1) in E2. discriminate. }
    destruct (name v) as [|n ns] eqn:E2; [congruence|]. simpl length.
    change (S (length ns) =? 0)%nat with false. cbv iota.
    destruct (render_image_return _ (js "PHOTO") _ Hp) as (ps & ->).
    rewrite Ed. unfold render_date, formatDate, toISOString. rewrite Et.
    reflexivity.
Qed.

Lemma render_built_witness :
  (exists text, render validated_example = Return text)
  /\ render (snd (call (SetBday (IsDate (MkDate None))) validated_example))
     = Throw (js "RangeError: Invalid time value").
Proof.
  split.
  - apply (render_built validated_example).
    + apply built_for_each_call, built_new.
    + vm_compute. discriminate.
    + vm_compute. discriminate.
    + vm_compute. exact I.
    + vm_compute. discriminate.
  - apply (proj2 (render_built
                    (snd (call (SetBday (IsDate (MkDate None)))
                            validated_example))
                    (built_call _ _ (built_for_each_call _ _ built_new))
                    ltac:(vm_compute; discriminate)
                    ltac:(vm_compute; discriminate))
             (MkDate None)); vm_compute; reflexivity.
Defined.

(** ** Folding: when a value is folded *)

Lemma high_not_low (c : N) : is_high c = true -> is_low c = false.
Proof.
  unfold is_high, is_low. intros H. apply andb_true_iff in H as [H1 H2].
  apply N.leb_le in H1, H2. apply andb_false_iff. left. apply N.leb_gt. lia.
Qed.

Lemma low_not_high (c : N) : is_low c = true -> is_high c = false.
Proof.
  intros H. destruct (is_high c) eqn:E; [|reflexivity].
  apply high_not_low in E. congruence.
Qed.

Lemma blob_size_cons (c : N) (t : jstring) :
  is_high c && starts_low t = false ->
  blob_size (c :: t) = unit_bytes c + blob_size t.
Proof.
  destruct t as [|d t]; simpl; [lia|]. now intros ->.
Qed.

(** Without a surrogate pair at the seam the sizes add up. *)
Lemma blob_size_app (a b : jstring) :
  is_high (List.last a 0) && starts_low b = false ->
  blob_size (a ++ b) = blob_size a + blob_size b.
Proof.
  induction a as [|c|c d a IHa IHda] using list_ind2; intros H.
  - reflexivity.
  - change (blob_size [c]) with (unit_bytes c). now apply blob_size_cons.
  - change (blob_size ((c :: d :: a) ++ b)) with
      (if is_high c && is_low d then 4 + blob_size (a ++ b)
       else unit_bytes c + blob_size ((d :: a) ++ b)).
    change (blob_size (c :: d :: a)) with
      (if is_high c && is_low d then 4 + blob_size a
       else unit_bytes c + blob_size (d :: a)).
    destruct (is_high c && is_low d) eqn:E.
    + destruct a as [|e a]; [simpl app|].
      * simpl. lia.
      * rewrite IHa; [lia|]. exact H.
    + rewrite IHda; [lia|]. exact H.
Qed.

Lemma line_bytes_concat (us : list jstring) :
  seamless us -> blob_size (concat us) = line_bytes us.
Proof.
  induction us as [|u us IH]; [reflexivity|]. intros [Hu Hs]. simpl.
  rewrite blob_size_app by exact Hu. now rewrite IH.
Qed.

Lemma spread_seamless (s : jstring) : seamless (spread s).
Proof.
  induction s as [|c|c d l IHl IHdl] using list_ind2.
  - exact I.
  - simpl. split; [apply andb_false_r | exact I].
  - change (spread (c :: d :: l)) with
      (if is_high c && is_low d then [c; d] :: spread l
       else [c] :: spread (d :: l)).
    destruct (is_high c && is_low d) eqn:E; split; auto.
    + apply andb_true_iff in E as [_ E]. apply low_not_high in E.
      simpl. now rewrite E.
    + rewrite concat_spread. exact E.
Qed.

(** What the loop makes of an element: the element itself, or a unit of
    Basic Latin code units. *)
Lemma unit_cases (chars : list jstring) (c : jstring) :
  char_shape c ->
  token_char chars (escape_char c) = (c, 0%nat)
  \/ exists x y, fst (token_char chars (escape_char c)) = x :: y
                 /\ x < 128 /\ List.last (x :: y) 0 < 128.
Proof.
  intros [[x ->]|(x & y & -> & Hp)].
  - rewrite escape_char_single.
    destruct (N.eqb_spec x 44) as [->|H1];
      [right; exists 92, [44]; repeat split; reflexivity|].
    destruct (N.eqb_spec x 59) as [->|H2];
      [right; exists 92, [59]; repeat split; reflexivity|].
    destruct (N.eqb_spec x 58) as [->|H3];
      [right; exists 92, [58]; repeat split; reflexivity|].
    destruct (N.eqb_spec x 92) as [->|H4];
      [right; exists 92, [92]; repeat split; reflexivity|].
    destruct (N.eqb_spec x 10) as [->|H5];
      [right; exists 92, [110]; repeat split; reflexivity|].
    unfold token_char. literals. rewrite jstr_eqb_single.
    destruct (N.eqb_spec x 37) as [->|H6]; [|now left].
    repeat match goal with
           | |- context [if ?b then _ else _] => destruct b
           end;
      right; eexists _, []; repeat split; reflexivity.
  - rewrite escape_char_pair. unfold token_char. literals.
    rewrite jstr_eqb_pair_single. now left.
Qed.

Lemma char_shape_nonnil (c : jstring) : char_shape c -> c <> [].
Proof. intros [[x ->]|(x & y & -> & _)]; discriminate. Qed.

Lemma ascii_not_low (x : N) : x < 128 -> is_low x = false.
Proof.
  intros H. unfold is_low. apply andb_false_iff. left. apply N.leb_gt. lia.
Qed.

Lemma ascii_not_high (x : N) : x < 128 -> is_high x = false.
Proof.
  intros H. unfold is_high. apply andb_false_iff. left. apply N.leb_gt. lia.
Qed.

(** The escaped units begin with a low surrogate only where the elements
    do. *)
Lemma escape_units_low (chars : list jstring) :
  Forall char_shape chars ->
  starts_low (concat (escape_units 0 chars)) = true ->
  starts_low (concat chars) = true.
Proof.
  destruct chars as [|c rest]; [discriminate|]. intros H.
  inversion H as [|? ? Hc _]; subst. cbn [escape_units].
  destruct (unit_cases (c :: rest) c Hc) as [E|(x & y & E & Hx & _)].
  - rewrite E. cbn [concat]. pose proof (char_shape_nonnil c Hc).
    destruct c; [congruence|]. auto.
  - destruct (token_char (c :: rest) (escape_char c)) as [char adv].
    simpl in E. subst char. simpl. now rewrite ascii_not_low.
Qed.

Lemma escape_units_seamless (k : nat) (chars : list jstring) :
  Forall char_shape chars -> seamless chars ->
  seamless (escape_units k chars).
Proof.
  revert k. induction chars as [|c rest IH]; intros k Hc Hs; [exact I|].
  inversion Hc as [|? ? Hc0 Hrest]; subst. destruct Hs as [Hs0 Hs].
  cbn [escape_units]. destruct k as [|k]; [|now apply IH].
  destruct (unit_cases (c :: rest) c Hc0) as [E|(x & y & E & _ & Hl)].
  - rewrite E. split; [|now apply IH].
    destruct (is_high (List.last c 0)); [|reflexivity].
    simpl in *. destruct (starts_low (concat (escape_units 0 rest))) eqn:El;
      [|reflexivity].
    apply escape_units_low in El; auto. congruence.
  - destruct (token_char (c :: rest) (escape_char c)) as [char adv].
    simpl in E. subst char. split; [|now apply IH].
    now rewrite ascii_not_high.
Qed.

(** The bytes the loop counts are the bytes of the escaped line. *)
Lemma escape_text_bytes (str : jstring) :
  line_bytes (escape_units 0 (spread str)) = blob_size (escape_text str).
Proof.
  unfold escape_text. symmetry. apply line_bytes_concat.
  apply escape_units_seamless; [apply spread_shape | apply spread_seamless].
Qed.

(** While the bytes fit on the line nothing is folded. *)
Lemma fold_push_short (us : list jstring) (st : fold_state) :
  curr_line_bytes st + line_bytes us <= 75 ->
  fold_left (fun st u => push_char u st) us st
  = {| lines := lines st; curr_line := curr_line st ++ us;
       curr_line_bytes := curr_line_bytes st + line_bytes us |}.
Proof.
  revert st. induction us as [|u us IH]; intros st H; simpl in *.
  - rewrite app_nil_r, N.add_0_r. now destruct st.
  - unfold push_char at 2. unfold max_line_bytes.
    destruct (N.ltb_spec 75 (curr_line_bytes st + blob_size u)); [lia|].
    rewrite IH by (simpl; lia). simpl.
    rewrite <- app_assoc, N.add_assoc. reflexivity.
Qed.

Lemma escape_text_line (str : jstring) : ~ In NL (escape_text str).
Proof.
  unfold escape_text.
  pose proof (escape_units_ok 0 _ (spread_shape str)) as H.
  induction H as [|u us [_ Hu] _ IH]; simpl; [tauto|].
  intros Hin. apply in_app_or in Hin as [Hin|Hin]; auto.
Qed.

Lemma formatTextValue_lines (str : jstring) :
  Forall (fun line => blob_size line <= 75)
         (split_on NL (formatTextValue str)).
Proof.
  unfold formatTextValue. rewrite format_loop_units.
  pose proof (fold_push_inv (escape_units 0 (spread str)) _
                (escape_units_ok 0 _ (spread_shape str)) fold_inv_init)
    as [Hi _].
  simpl in Hi. set (st := fold_left _ _ _) in *.
  change (lines st ++ [concat (curr_line st)]) with (text_lines st).
  destruct Hi as [H1 H2 H3 H4 H5].
  rewrite split_on_join; auto.
  - unfold text_lines. apply Forall_app; split; auto.
    constructor; auto. lia.
  - unfold text_lines. now destruct (lines st).
Qed.

Lemma formatTextValue_unfold (str : jstring) :
  replace2 NL SP [] (formatTextValue str) = escape_text str.
Proof.
  unfold formatTextValue, escape_text. rewrite format_loop_units.
  pose proof (fold_push_inv (escape_units 0 (spread str)) _
                (escape_units_ok 0 _ (spread_shape str)) fold_inv_init)
    as [Hi He].
  simpl in Hi, He. set (st := fold_left _ _ _) in *.
  change (lines st ++ [concat (curr_line st)]) with (text_lines st).
  destruct Hi as [H1 H2 H3 H4 H5]. rewrite unfold_join; auto.
Qed.

(** X6. A value is folded exactly when its escaped line has more than 75
    bytes of UTF-8: up to 75 bytes [formatTextValue] returns the escaped
    line itself. *)
Theorem formatTextValue_short (str : jstring) :
  blob_size (escape_text str) <= 75
  <-> formatTextValue str = escape_text str.
Proof.
  split.
  - intros H. rewrite <- escape_text_bytes in H.
    unfold formatTextValue, escape_text. rewrite format_loop_units.
    rewrite fold_push_short by (simpl; lia). simpl.
    reflexivity.
  - intros E. pose proof (formatTextValue_lines str) as H.
    rewrite E, split_on_single in H by apply escape_text_line.
    now inversion H.
Qed.

(** X7. A value never breaks out of its logical line: the lines that
    [formatTextValue] adds begin with a space, and the text it returns,
    unfolded, holds no newline. *)
Theorem formatTextValue_one_line (str : jstring) :
  continued (formatTextValue str)
  /\ ~ In NL (replace2 NL SP [] (formatTextValue str)).
Proof.
  split; [apply continued_format|].
  rewrite formatTextValue_unfold. apply escape_text_line.
Qed.

(** ** Tokenizing a rendered value *)

Lemma plain_cases (c : N) :
  plain c = true ->
  c < 128 /\ c <> 44 /\ c <> 59 /\ c <> 58 /\ c <> 92 /\ c <> 10 /\ c <> 37.
Proof.
  unfold plain. intros Hp. apply andb_true_iff in Hp as [Hc Hsp].
  apply N.ltb_lt in Hc. apply negb_true_iff in Hsp. simpl in Hsp.
  repeat (apply orb_false_iff in Hsp as [?H Hsp]).
  repeat match goal with
         | H : (_ =? _) = false |- _ => apply N.eqb_neq in H
         end.
  tauto.
Qed.

Lemma escape_units_plain (c : N) (rest : list jstring) :
  plain c = true ->
  escape_units 0 ([c] :: rest) = [c] :: escape_units 0 rest.
Proof.
  intros Hp. apply plain_cases in Hp as (_ & H1 & H2 & H3 & H4 & H5 & H6).
  apply N.eqb_neq in H1, H2, H3, H4, H5, H6.
  cbn [escape_units]. rewrite escape_char_single, H1, H2, H3, H4, H5.
  unfold token_char. literals. rewrite jstr_eqb_single, H6. reflexivity.
Qed.

(** The elements and the escaped units of a name of plain code units
    followed by a colon token. *)
Lemma spread_plain (p t : jstring) :
  Forall (fun c => plain c = true) p ->
  spread (p ++ t) = map (fun c => [c]) p ++ spread t.
Proof.
  induction 1 as [|c p Hc _ IH]; [reflexivity|].
  apply plain_cases in Hc as (Hc & _). simpl app.
  rewrite spread_ascii by now apply N.ltb_lt. now rewrite IH.
Qed.

Lemma escape_units_name (p : jstring) (rest : list jstring) :
  Forall (fun c => plain c = true) p ->
  escape_units 0 (map (fun c => [c]) p ++ rest) = map (fun c => [c]) p ++ escape_units 0 rest.
Proof.
  induction 1 as [|c p Hc _ IH]; [reflexivity|].
  simpl map. simpl app. rewrite escape_units_plain by exact Hc. now rewrite IH.
Qed.

Lemma concat_singletons (p : jstring) : concat (map (fun c => [c]) p) = p.
Proof. induction p as [|c p IH]; simpl; congruence. Qed.

Lemma escape_text_name (p s : jstring) :
  Forall (fun c => plain c = true) p ->
  escape_text (p ++ js "%COL%" ++ s) = p ++ 58 :: escape_text s.
Proof.
  intros Hp. unfold escape_text.
  rewrite spread_plain, escape_units_name by exact Hp.
  change (js "%COL%" ++ s) with (37 :: 67 :: 79 :: 76 :: 37 :: s).
  rewrite !spread_ascii by reflexivity.
  rewrite concat_app, concat_singletons. reflexivity.
Qed.

Lemma escape_text_escape (s : jstring) :
  ~ In 37 s -> escape_text s = escape s.
Proof.
  intros H. unfold escape_text, escape.
  now rewrite escape_units_no_percent by now apply spread_no_percent.
Qed.

(** The delimiters of a line: colon, semicolon and comma. *)
Lemma segments_unit (d : N) (cur : jstring) (c : jstring) (t : jstring) :
  d = 58 \/ d = 59 \/ d = 44 -> char_shape c ->
  segments d false cur (escape_char c ++ t)
  = segments d false (cur ++ escape_char c) t.
Proof.
  intros Hd [[x ->]|(x & y & -> & Hp)].
  - rewrite escape_char_single.
    assert (Hesc : forall z, is_line_terminator z = false ->
              segments d false cur ([92; z] ++ t)
              = segments d false (cur ++ [92; z]) t).
    { intros z Hz. simpl app. cbn [segments].
      change (92 =? BSL) with true. rewrite Hz. cbn [andb negb].
      now rewrite <- app_assoc. }
    destruct (N.eqb_spec x 44) as [->|H1]; [now apply Hesc|].
    destruct (N.eqb_spec x 59) as [->|H2]; [now apply Hesc|].
    destruct (N.eqb_spec x 58) as [->|H3]; [now apply Hesc|].
    destruct (N.eqb_spec x 92) as [->|H4]; [now apply Hesc|].
    destruct (N.eqb_spec x 10) as [->|H5]; [now apply Hesc|].
    simpl app. cbn [segments]. unfold BSL.
    apply N.eqb_neq in H4. rewrite H4. cbn [andb].
    assert (Hx : (x =? d) = false).
    { apply N.eqb_neq. destruct Hd as [-> | [-> | ->]]; auto. }
    now rewrite Hx.
  - rewrite escape_char_pair.
    apply andb_true_iff in Hp as [Hh Hl].
    assert (Hx : 55296 <= x).
    { unfold is_high in Hh. apply andb_true_iff in Hh as [Hh _].
      now apply N.leb_le in Hh. }
    assert (Hy : 56320 <= y).
    { unfold is_low in Hl. apply andb_true_iff in Hl as [Hl _].
      now apply N.leb_le in Hl. }
    assert (Hne : forall z, 55296 <= z ->
              (z =? BSL) = false /\ (z =? d) = false).
    { intros z Hz. unfold BSL. split; apply N.eqb_neq;
        destruct Hd as [-> | [-> | ->]]; lia. }
    simpl app. cbn [segments].
    destruct (Hne x Hx) as [-> ->]. cbn [andb].
    destruct (Hne y) as [-> ->]; [lia|]. cbn [andb].
    now rewrite <- app_assoc.
Qed.

Lemma segments_nil (d : N) (cur : jstring) :
  segments d false cur [] = if truthy cur then [cur] else [].
Proof. reflexivity. Qed.

(** An escaped text is one piece: its delimiters are all escaped. *)
Lemma segments_escaped (d : N) (cur : jstring) (cs : list jstring) :
  d = 58 \/ d = 59 \/ d = 44 -> Forall char_shape cs ->
  segments d false cur (concat (map escape_char cs))
  = if truthy (cur ++ concat (map escape_char cs))
    then [cur ++ concat (map escape_char cs)] else [].
Proof.
  intros Hd H. revert cur. induction H as [|c cs Hc _ IH]; intros cur.
  - simpl. now rewrite app_nil_r.
  - cbn [map concat]. rewrite segments_unit by auto.
    rewrite IH. now rewrite <- app_assoc.
Qed.

Lemma segments_plain (d : N) (cur p t : jstring) :
  d = 58 \/ d = 59 \/ d = 44 -> Forall (fun c => plain c = true) p ->
  segments d false cur (p ++ t) = segments d false (cur ++ p) t.
Proof.
  intros Hd H. revert cur. induction H as [|c p Hc _ IH]; intros cur.
  - now rewrite app_nil_r.
  - apply plain_cases in Hc as (_ & H1 & H2 & H3 & H4 & _).
    simpl app. cbn [segments]. unfold BSL.
    apply N.eqb_neq in H4. rewrite H4. cbn [andb].
    assert (Hx : (c =? d) = false).
    { apply N.eqb_neq. destruct Hd as [-> | [-> | ->]]; auto. }
    rewrite Hx, IH, <- app_assoc. reflexivity.
Qed.

Lemma replace2_absent (a b : N) (rep s : jstring) :
  ~ In a s -> replace2 a b rep s = s.
Proof.
  intros H. rewrite <- (app_nil_r s) at 1.
  rewrite replace2_skip by exact H. simpl. now rewrite app_nil_r.
Qed.

(** [unesc] leaves a text without backslash as it is. *)
Lemma unesc_plain (s : jstring) : ~ In 92 s -> unesc s = s.
Proof.
  intros H. unfold unesc, BSL.
  rewrite (replace2_absent 92 44) by exact H.
  rewrite (replace2_absent 92 59) by exact H.
  rewrite (replace2_absent 92 58) by exact H.
  rewrite (replace2_absent 92 92) by exact H.
  now apply replace2_absent.
Qed.

Lemma plain_no_backslash (p : jstring) :
  Forall (fun c => plain c = true) p -> ~ In 92 p.
Proof.
  intros H Hin. rewrite List.Forall_forall in H. apply H in Hin.
  discriminate.
Qed.

Lemma escape_nonnil (s : jstring) : s <> [] -> truthy (escape s) = true.
Proof.
  intros H. unfold escape. destruct s as [|c s]; [congruence|].
  pose proof (spread_shape (c :: s)) as Hs.
  destruct (spread (c :: s)) as [|u us] eqn:E.
  - apply (f_equal (@concat N)) in E. rewrite concat_spread in E.
    discriminate.
  - inversion Hs as [|? ? Hu _]; subst. cbn [map concat].
    destruct Hu as [[x ->]|(x & y & -> & _)].
    + rewrite escape_char_single.
      repeat match goal with
             | |- context [if ?b then _ else _] => destruct b
             end; reflexivity.
    + now rewrite escape_char_pair.
Qed.

(** A property name, a colon and an escaped value are read back as the
    property and the value. *)
Lemma tokenize_escaped (p s : jstring) :
  p <> [] -> Forall (fun c => plain c = true) p ->
  s <> [] -> no_backslash_n s ->
  tokenize_line (p ++ 58 :: escape s) = Return (MkToken p [] [s]).
Proof.
  intros Hp0 Hp Hs0 Hn.
  pose proof (escape_nonnil s Hs0) as Ht.
  assert (Hseg : forall d, d = 58 \/ d = 59 \/ d = 44 ->
                   match_segments d (escape s) = [escape s]).
  { intros d Hd. unfold match_segments, escape.
    rewrite segments_escaped by (auto using spread_shape).
    fold (escape s). simpl app. now rewrite Ht. }
  assert (Hpt : truthy p = true) by (destruct p; [congruence|reflexivity]).
  unfold tokenize_line, match_segments.
  rewrite segments_plain by auto. simpl app at 1.
  cbn [segments]. change (58 =? BSL) with false. cbn [andb].
  change (58 =? 58) with true. cbv iota. rewrite Hpt.
  fold (match_segments 58 (escape s)). rewrite Hseg by auto.
  cbn [join]. fold (match_segments 59 (escape s)). rewrite Hseg by auto.
  rewrite <- (app_nil_r p) at 1. rewrite segments_plain by auto.
  rewrite segments_nil. simpl app. rewrite Hpt. cbn [map_outcome obind map].
  rewrite unesc_plain by now apply plain_no_backslash.
  now rewrite (proj1 (unesc_escape_inverse s Hn)).
Qed.

(** The line of a property without parameters and with one value is read
    back as the property and the value. *)
Lemma tokenize_value_line (p s : jstring) :
  p <> [] -> Forall (fun c => plain c = true) p ->
  s <> [] -> ~ In 37 s -> no_backslash_n s ->
  tokenize_line (replace2 NL SP [] (formatTextValue (p ++ js "%COL%" ++ s)))
  = Return (MkToken p [] [s]).
Proof.
  intros Hp0 Hp Hs0 Hs Hn.
  rewrite formatTextValue_unfold, escape_text_name by exact Hp.
  rewrite escape_text_escape by exact Hs.
  now apply tokenize_escaped.
Qed.

(** X8. The line that [formatTextValue] makes of a property name, a colon
    token and a value is read back by the tokenizer, once unfolded, as that
    property with that one value, when the value is not empty and holds no
    percent sign and no backslash followed by the letter n. *)
Theorem value_line_round_trip (p s : jstring) :
  p <> [] -> Forall (fun c => plain c = true) p ->
  s <> [] -> ~ In 37 s -> no_backslash_n s ->
  tokenize_line (replace2 NL SP [] (formatTextValue (p ++ js "%COL%" ++ s)))
  = Return (MkToken p [] [s]).
Proof. apply tokenize_value_line. Qed.

Lemma value_line_round_trip_witness :
  tokenize_line
    (replace2 NL SP [] (formatTextValue (js "NOTE" ++ js "%COL%"
                                         ++ js "a,b;c:d\e" ++ [NL; 8364])))
  = Return (MkToken (js "NOTE") [] [js "a,b;c:d\e" ++ [NL; 8364]]).
Proof.
  apply (value_line_round_trip (js "NOTE") (js "a,b;c:d\e" ++ [NL; 8364])).
  - discriminate.
  - repeat constructor.
  - discriminate.
  - vm_compute. intuition discriminate.
  - intros l1 l2 E. vm_compute in E.
    repeat (destruct l1 as [|? l1]; [discriminate|]; injection E as _ E).
    destruct l1; discriminate.
Defined.

(** ** The email pattern *)

Lemma nullable_matches (r : regex) : nullable r = true -> matches r [].
Proof.
  induction r as [| |p|r1 IH1 r2 IH2|r1 IH1 r2 IH2|r IH]; simpl; intros H;
    try discriminate.
  - constructor.
  - apply andb_true_iff in H as [H1 H2].
    apply (MCat r1 r2 [] []); auto.
  - apply orb_true_iff in H as [H|H]; [apply MAltL | apply MAltR]; auto.
  - constructor.
Qed.

Lemma deriv_matches (c : N) (r : regex) (s : jstring) :
  matches (deriv c r) s -> matches r (c :: s).
Proof.
  revert s. induction r as [| |p|r1 IH1 r2 IH2|r1 IH1 r2 IH2|r IH];
    simpl; intros s H.
  - inversion H.
  - inversion H.
  - destruct (p c) eqn:E; inversion H; subst. now constructor.
  - destruct (nullable r1) eqn:En.
    + inversion H as [| | | ? ? ? H1 | ? ? ? H2 | |]; subst.
      * inversion H1; subst.
        apply (MCat r1 r2 (c :: _) _); auto.
      * apply (MCat r1 r2 [] (c :: s)); auto using nullable_matches.
    + inversion H; subst. apply (MCat r1 r2 (c :: _) _); auto.
  - inversion H; subst; [apply MAltL | apply MAltR]; auto.
  - inversion H; subst. apply (MStarApp r (c :: _) _); auto.
Qed.

(** What the test accepts is matched. *)
Lemma regex_test_matches (r : regex) (s : jstring) :
  regex_test r s = true -> matches r s.
Proof.
  unfold regex_test. revert r. induction s as [|c s IH]; intros r; simpl.
  - apply nullable_matches.
  - intros H. apply deriv_matches. now apply IH.
Qed.

Lemma matches_cat (r1 r2 : regex) (s : jstring) :
  matches (RCat r1 r2) s ->
  exists s1 s2, s = s1 ++ s2 /\ matches r1 s1 /\ matches r2 s2.
Proof. inversion 1; subst; eauto. Qed.

Lemma matches_alt (r1 r2 : regex) (s : jstring) :
  matches (RAlt r1 r2) s -> matches r1 s \/ matches r2 s.
Proof. inversion 1; subst; auto. Qed.

Lemma matches_sym (p : N -> bool) (s : jstring) :
  matches (RSym p) s -> exists c, s = [c] /\ p c = true.
Proof. inversion 1; subst; eauto. Qed.

Lemma matches_lit (c : N) (s : jstring) : matches (RLit c) s -> s = [c].
Proof.
  intros H. apply matches_sym in H as (d & -> & E).
  apply N.eqb_eq in E. now subst.
Qed.

Lemma matches_eps (s : jstring) : matches REps s -> s = [].
Proof. now inversion 1. Qed.

(** X9. [setEmail] returns only for an address that, lower-cased, has an at
    sign after a non-empty local part and before a domain that holds a
    dot: an address without at sign, or with a host name without dot, is
    refused. *)
Theorem setEmail_shape (email_ : jstring) (pref : bool) (v : VCard.VCard) :
  fst (setEmail email_ pref v) = Return tt ->
  exists local_ domain,
    toLowerCase email_ = local_ ++ 64 :: domain
    /\ local_ <> [] /\ In 46 domain.
Proof.
  unfold setEmail.
  destruct (regex_test emailRegex (toLowerCase email_)) eqn:E;
    [intros _ | discriminate].
  apply regex_test_matches in E. unfold emailRegex in E.
  set (s := toLowerCase email_) in *. clearbody s.
  simpl RSeq in E.
  apply matches_cat in E as (local_ & rest & -> & Hl & E).
  apply matches_cat in E as (at_ & rest' & -> & Hat & E).
  apply matches_cat in E as (domain & e & -> & Hd & E).
  apply matches_lit in Hat. apply matches_eps in E. subst.
  exists local_, domain. rewrite app_nil_r. split; [reflexivity|]. split.
  - apply matches_alt in Hl as [Hl|Hl].
    + apply matches_cat in Hl as (s1 & s2 & -> & H1 & _).
      unfold RPlus in H1. apply matches_cat in H1 as (a & b & -> & Ha & _).
      apply matches_sym in Ha as (c & -> & _). discriminate.
    + simpl RSeq in Hl. apply matches_cat in Hl as (a & b & -> & Ha & _).
      apply matches_sym in Ha as (c & -> & _). discriminate.
  - apply matches_alt in Hd as [Hd|Hd].
    + simpl RSeq in Hd.
      apply matches_cat in Hd as (a & b & -> & _ & Hd).
      apply matches_cat in Hd as (o & b' & -> & _ & Hd).
      apply matches_cat in Hd as (dot & b'' & -> & Hdot & _).
      apply matches_lit in Hdot. subst.
      rewrite !in_app_iff. right; right; left. now left.
    + apply matches_cat in Hd as (s1 & s2 & -> & H1 & _).
      unfold RPlus in H1 at 1.
      apply matches_cat in H1 as (x & y & -> & Hx & _).
      apply matches_cat in Hx as (l & dot & -> & _ & Hdot).
      apply matches_lit in Hdot. subst.
      rewrite !in_app_iff. left; left; right. now left.
Qed.

Lemma setEmail_shape_witness :
  exists local_ domain,
    toLowerCase (js "Rob@Example.com") = local_ ++ 64 :: domain
    /\ local_ <> [] /\ In 46 domain.
Proof.
  apply (setEmail_shape (js "Rob@Example.com") true new_VCard).
  vm_compute. reflexivity.
Defined.

Example setEmail_refuses_bare_host :
  setEmail (js "root@localhost") false new_VCard
  = (Throw (js "Invalid Email value."), new_VCard).
Proof. vm_compute. reflexivity. Qed.

(** ** Texts the tokenizer refuses *)

Lemma replace2_app (a b : N) (rep p t : jstring) :
  head_not b t -> 
  replace2 a b rep (p ++ t) = replace2 a b rep p ++ replace2 a b rep t.
Proof.
  intros Ht. induction p as [|c|c d p IHp IHdp] using list_ind2.
  - reflexivity.
  - destruct t as [|x t]; [reflexivity|]. simpl in Ht.
    simpl. apply N.eqb_neq in Ht. rewrite Ht, andb_false_r.
    destruct t; reflexivity.
  - change (replace2 a b rep ((c :: d :: p) ++ t)) with
      (if (c =? a) && (d =? b) then rep ++ replace2 a b rep (p ++ t)
       else c :: replace2 a b rep ((d :: p) ++ t)).
    change (replace2 a b rep (c :: d :: p)) with
      (if (c =? a) && (d =? b) then rep ++ replace2 a b rep p
       else c :: replace2 a b rep (d :: p)).
    destruct ((c =? a) && (d =? b)).
    + now rewrite IHp, app_assoc.
    + now rewrite IHdp.
Qed.

(** The pieces of a text that ends with a separator end with an empty
    piece. *)
Lemma split_runs_trailing (sep : N -> bool) (b : bool) (t : jstring) (c : N) :
  sep c = true ->
  exists ps, split_runs sep b (t ++ [c]) = ps ++ [[]]
             /\ (b = false -> ps <> []).
Proof.
  intros Hc. revert b. induction t as [|x t IH]; intros b; simpl.
  - rewrite Hc. destruct b.
    + exists []. split; [reflexivity | discriminate].
    + exists [[]]. split; [reflexivity | discriminate].
  - destruct (sep x).
    + destruct (IH true) as (ps & -> & _). destruct b.
      * exists ps. split; [reflexivity | discriminate].
      * exists ([] :: ps). split; [reflexivity | discriminate].
    + destruct (IH false) as (ps & -> & Hps).
      destruct ps as [|p ps]; [now destruct Hps|].
      exists ((x :: p) :: ps). split; [reflexivity | discriminate].
Qed.

Lemma tokenize_prop_throws (prop : jstring) (e : jstring) :
  tokenize_prop prop = Throw e -> e = TypeError.
Proof.
  unfold tokenize_prop.
  destruct (match_segments 61 prop) as [|a [|b l]]; try (now intros [= <-]).
  destruct (match_segments 44 b); [now intros [= <-] | discriminate].
Qed.

Lemma map_outcome_throws {A B} (f : A -> outcome B) (xs : list A)
    (e0 e : jstring) :
  (forall x e, f x = Throw e -> e = e0) ->
  map_outcome f xs = Throw e -> e = e0.
Proof.
  intros Hf. induction xs as [|x xs IH]; simpl; [discriminate|].
  destruct (f x) as [y|e'] eqn:E; simpl.
  - destruct (map_outcome f xs); simpl; [discriminate|].
    intros [= <-]. now apply IH.
  - intros [= <-]. eauto.
Qed.

(** The tokenizer of one line throws nothing but a TypeError. *)
Lemma tokenize_line_throws (line : jstring) (e : jstring) :
  tokenize_line line = Throw e -> e = TypeError.
Proof.
  unfold tokenize_line.
  destruct (match_segments 58 line) as [|kp vs]; [now intros [= <-]|].
  cbv zeta. destruct (match_segments 59 kp) as [|k ps]; [now intros [= <-]|].
  destruct (map_outcome tokenize_prop ps) as [props_|e'] eqn:E; simpl;
    [discriminate|].
  intros [= <-]. eapply map_outcome_throws; [|exact E].
  apply tokenize_prop_throws.
Qed.

Lemma map_outcome_In_throw {A B} (f : A -> outcome B) (xs : list A)
    (x : A) (e0 : jstring) :
  (forall x e, f x = Throw e -> e = e0) ->
  In x xs -> f x = Throw e0 -> map_outcome f xs = Throw e0.
Proof.
  intros Hf Hin Hx. induction xs as [|y xs IH]; [contradiction|]. simpl.
  destruct (f y) as [z|e] eqn:E; simpl.
  - destruct Hin as [->|Hin]; [congruence|]. now rewrite IH.
  - f_equal. eauto.
Qed.

(** A text with an empty line among its pieces makes the tokenizer throw. *)
Lemma tokenize_empty_piece (str : jstring) :
  In [] (split_runs (N.eqb NL) false (replace2 NL SP [] str)) ->
  tokenizeVcardString str = Throw TypeError.
Proof.
  intros Hin. unfold tokenizeVcardString.
  rewrite (map_outcome_In_throw tokenize_line _ [] TypeError);
    [reflexivity | apply tokenize_line_throws | exact Hin | reflexivity].
Qed.

(** X10. The tokenizer throws a TypeError on the empty text, on every text
    that ends with a newline, and on every text that begins with a newline
    not followed by a space; the parser then leaves the contact as it
    was. *)
Theorem tokenize_blank_line (text : jstring) (v : VCard.VCard) :
  tokenizeVcardString [] = Throw TypeError
  /\ tokenizeVcardString (text ++ [NL]) = Throw TypeError
  /\ parse (text ++ [NL]) v = (Throw TypeError, v)
  /\ (head_not SP text ->
      tokenizeVcardString (NL :: text) = Throw TypeError
      /\ parse (NL :: text) v = (Throw TypeError, v)).
Proof.
  assert (H1 : tokenizeVcardString (text ++ [NL]) = Throw TypeError).
  { apply tokenize_empty_piece.
    rewrite replace2_app by (simpl; discriminate).
    change (replace2 NL SP [] [NL]) with [NL].
    destruct (split_runs_trailing (N.eqb NL) false
                (replace2 NL SP [] text) NL eq_refl) as (ps & -> & _).
    apply in_or_app. right. now left. }
  split; [reflexivity|]. split; [exact H1|]. split.
  - unfold parse. now rewrite H1.
  - intros Hsp.
    assert (H2 : tokenizeVcardString (NL :: text) = Throw TypeError).
    { apply tokenize_empty_piece.
      change (NL :: text) with ([NL] ++ text).
      rewrite replace2_app by exact Hsp.
      change (replace2 NL SP [] [NL]) with [NL]. simpl. now left. }
    split; [exact H2|]. unfold parse. now rewrite H2.
Qed.

Lemma tokenize_blank_line_witness :
  tokenizeVcardString (NL :: js "BEGIN:VCARD") = Throw TypeError
  /\ parse (NL :: js "BEGIN:VCARD") new_VCard = (Throw TypeError, new_VCard).
Proof.
  apply (proj2 (proj2 (proj2 (tokenize_blank_line (js "BEGIN:VCARD")
                                new_VCard)))).
  vm_compute. discriminate.
Defined.

(** ** Names that are already normalized *)

Lemma replace_ws_runs_id (b : bool) (s : jstring) :
  no_adjacent_ws s -> Forall (fun c => is_ws c = true -> c = SP) s ->
  (b = true -> starts_clean s) ->
  replace_ws_runs b s = s.
Proof.
  revert b. induction s as [|c s IH]; intros b Ha Hs Hb; [reflexivity|].
  inversion Hs as [|? ? Hc Hs']; subst. simpl.
  assert (Ha' : no_adjacent_ws s).
  { intros l1 x y l2 E. apply (Ha (c :: l1) x y l2). now rewrite E. }
  destruct (is_ws c) eqn:E.
  - destruct b; [specialize (Hb eq_refl); simpl in Hb; congruence|].
    rewrite <- (Hc eq_refl) at 1. f_equal. apply IH; auto.
    intros _. destruct s as [|d s]; [exact I|]. simpl.
    destruct (is_ws d) eqn:Ed; [|reflexivity].
    exfalso. apply (Ha [] c d s); auto.
  - f_equal. apply IH; auto. discriminate.
Qed.

Lemma trim_start_id (s : jstring) : starts_clean s -> trim_start s = s.
Proof. destruct s as [|c s]; simpl; [reflexivity|]. now intros ->. Qed.

Lemma normalized_fixed (s : jstring) :
  normalized s -> trim (replace_ws_runs false s) = s.
Proof.
  intros (Ha & Hs & Hc & Hr).
  rewrite replace_ws_runs_id by (auto; discriminate).
  unfold trim. rewrite (trim_start_id s) by exact Hc.
  rewrite trim_start_id by exact Hr. apply rev_involutive.
Qed.

(** X11. [setName] is idempotent on what it stores: a name that is already
    normalized is stored as it is, so that setting again a name of a
    contact built through the setters, as the parser does with the FN line
    of a rendered contact, stores the same name. *)
Theorem setName_idempotent (v : VCard.VCard) :
  (forall name_, normalized name_ ->
     setName name_ v = (Return tt, set_name (name v ++ [name_]) v))
  /\ (forall w stored, built w -> In stored (name w) ->
        setName stored v = (Return tt, set_name (name v ++ [stored]) v)).
Proof.
  split.
  - intros name_ H. unfold setName, assign. now rewrite normalized_fixed.
  - intros w stored Hb Hin.
    assert (Hn : normalized stored).
    { apply built_invariants in Hb as (Hn & _).
      rewrite List.Forall_forall in Hn. now apply Hn. }
    unfold setName, assign. now rewrite normalized_fixed.
Qed.

Lemma setName_idempotent_witness :
  setName (js "Pamela Mishaw") new_VCard
  = (Return tt, set_name [js "Pamela Mishaw"] new_VCard).
Proof.
  apply (proj2 (setName_idempotent new_VCard)
           (snd (call (SetName (js "  Pamela   Mishaw ")) new_VCard))).
  - apply built_call, built_new.
  - vm_compute. now left.
Defined.

(** ** Reading a rendered text *)

Lemma replace2_head_sep (a b : N) (rep t : jstring) :
  head_not b t -> replace2 a b rep (a :: t) = a :: replace2 a b rep t.
Proof.
  intros H. change (a :: t) with ([a] ++ t). now rewrite replace2_app.
Qed.

Lemma join_cons2 (sep : jstring) (p q : jstring) (rest : list jstring) :
  join sep (p :: q :: rest) = p ++ sep ++ join sep (q :: rest).
Proof. reflexivity. Qed.

Lemma head_not_join (b : N) (q : jstring) (rest : list jstring) :
  b <> NL -> head_not b q -> head_not b (join [NL] (q :: rest)).
Proof.
  intros Hb Hq. destruct rest as [|r rest]; [exact Hq|].
  rewrite join_cons2. destruct q; simpl; auto.
Qed.

(** Unfolding a text unfolds its parts, when no part begins with a
    space. *)
Lemma logical_join (parts : list jstring) :
  Forall (head_not SP) parts ->
  logical (join [NL] parts) = join [NL] (map logical parts).
Proof.
  unfold logical. induction 1 as [|p parts Hp Hps IH]; [reflexivity|].
  destruct parts as [|q parts]; [reflexivity|].
  cbn [map] in *. rewrite !join_cons2.
  change ([NL] ++ join [NL] (q :: parts)) with (NL :: join [NL] (q :: parts)).
  rewrite replace2_app by (simpl; discriminate).
  inversion Hps; subst.
  rewrite replace2_head_sep by (apply head_not_join; [discriminate | auto]).
  now rewrite IH.
Qed.

Lemma split_runs_flag (sep : N -> bool) (b : bool) (c : N) (s : jstring) :
  sep c = false -> split_runs sep b (c :: s) = split_runs sep false (c :: s).
Proof. intros H. simpl. now rewrite H. Qed.

Lemma split_runs_line (sep : N -> bool) (l t : jstring) :
  Forall (fun c => sep c = false) l ->
  split_runs sep false (l ++ t)
  = (l ++ hd [] (split_runs sep false t)) :: tl (split_runs sep false t).
Proof.
  induction 1 as [|c l Hc _ IH]; simpl.
  - now destruct (split_runs_cons sep false t) as (p & ps & ->).
  - now rewrite Hc, IH.
Qed.

(** The lines of a text whose lines are not empty. *)
Lemma split_runs_join (ls : list jstring) :
  ls <> [] -> Forall (fun l => l <> [] /\ ~ In NL l) ls ->
  split_runs (N.eqb NL) false (join [NL] ls) = ls.
Proof.
  assert (Hsep : forall l, ~ In NL l ->
                   Forall (fun c => (NL =? c) = false) l).
  { intros l Hl. apply List.Forall_forall. intros c Hc. apply N.eqb_neq.
    intros <-. contradiction. }
  destruct ls as [|l ls]; [congruence|]. intros _ H. revert l H.
  induction ls as [|q ls IH]; intros l H;
    inversion H as [|? ? [Hl0 Hl] Hls]; subst.
  - cbn [join]. rewrite <- (app_nil_r l) at 1.
    rewrite split_runs_line by auto. simpl. now rewrite app_nil_r.
  - rewrite join_cons2. rewrite split_runs_line by auto.
    inversion Hls as [|? ? [Hq0 Hq] _]; subst.
    destruct q as [|c q]; [congruence|].
    assert (Hc : (NL =? c) = false).
    { apply N.eqb_neq. intros <-. apply Hq. now left. }
    assert (E : split_runs (N.eqb NL) false
                  ([NL] ++ join [NL] ((c :: q) :: ls))
                = [] :: (c :: q) :: ls).
    { unfold jstring in *.
      assert (HJ : exists J', join [NL] ((c :: q) :: ls) = c :: J').
      { destruct ls; [now exists q|]. rewrite join_cons2. simpl. eauto. }
      destruct HJ as (J' & HJ).
      assert (E0 : split_runs (N.eqb NL) false (NL :: c :: J')
                   = [] :: split_runs (N.eqb NL) true (c :: J'))
        by reflexivity.
      change ([NL] ++ ?t) with (NL :: t). rewrite HJ, E0.
      rewrite split_runs_flag by exact Hc. rewrite <- HJ.
      now rewrite (IH (c :: q) Hls). }
    unfold jstring in *. rewrite E. simpl. now rewrite app_nil_r.
Qed.

Lemma map_outcome_Forall2 {A B} (f : A -> outcome B) (xs : list A)
    (ys : list B) :
  Forall2 (fun x y => f x = Return y) xs ys -> map_outcome f xs = Return ys.
Proof.
  induction 1 as [|x y xs ys E _ IH]; [reflexivity|]. simpl.
  now rewrite E, IH.
Qed.

(** Lines without group are left as they are. *)
Lemma combine_groups_plain (tokens : list Token) :
  Forall (fun t => has_dot (key t) = false) tokens ->
  combine_groups tokens = Return tokens.
Proof.
  intros H. unfold combine_groups.
  assert (Hfold : forall idx (lm : gmap jstring nat),
            fold_left combine_step idx (Return (lm, tokens))
            = Return (lm, tokens)).
  { induction idx as [|i idx IH]; intros lm; [reflexivity|].
    cbn [fold_left].
    assert (E : combine_step (Return (lm, tokens)) i = Return (lm, tokens)).
    { unfold combine_step. cbn [obind].
      destruct (tokens !! i) as [t|] eqn:Et; [|reflexivity].
      assert (Hin : In t tokens).
      { apply list_elem_of_In. eapply list_elem_of_lookup_2. exact Et. }
      rewrite List.Forall_forall in H. now rewrite (H t Hin). }
    rewrite E. apply IH. }
  rewrite Hfold. clear Hfold. cbn [obind]. f_equal.
  induction H as [|t ts Ht _ IH]; [reflexivity|].
  cbn [List.filter]. rewrite Ht. cbn [negb]. f_equal. exact IH.
Qed.

Lemma for_each_app {A} (body : A -> M unit) (xs ys : list A) (v : VCard.VCard) :
  for_each body (xs ++ ys) v = (for_each body xs ;;; for_each body ys) v.
Proof.
  revert v. induction xs as [|x xs IH]; intros v; simpl.
  - unfold bind, ret. reflexivity.
  - unfold bind. destruct (body x v) as [[[]|e] v']; [|reflexivity].
    rewrite IH. reflexivity.
Qed.

Lemma for_each_ext {A B} (f : A -> M unit) (g : B -> M unit) (xs : list A)
    (ys : list B) (v : VCard.VCard) :
  Forall2 (fun x y => forall v, f x v = g y v) xs ys ->
  for_each f xs v = for_each g ys v.
Proof.
  intros H. revert v. induction H as [|x y xs ys E _ IH]; intros v;
    [reflexivity|].
  simpl. unfold bind. rewrite E. destruct (g y v) as [[[]|e] v']; auto.
Qed.

Lemma reads_tokens (rest : list jstring) (ms : list (M unit)) :
  Forall2 reads rest ms ->
  exists toks,
    Forall2 (fun part tok => tokenize_line (logical part) = Return tok)
      rest toks
    /\ Forall (fun t => has_dot (key t) = false) toks
    /\ Forall2 (fun tok m => forall v, parseToken tok v = m v) toks ms.
Proof.
  induction 1 as [|part m rest ms (_ & _ & _ & tok & Ht & Hd & Hp) _
                    (toks & H1 & H2 & H3)].
  - exists []. repeat constructor.
  - exists (tok :: toks). repeat constructor; auto.
Qed.

Lemma Forall2_map_l {A B C} (f : A -> B) (P : B -> C -> Prop) (xs : list A)
    (ys : list C) :
  Forall2 (fun x y => P (f x) y) xs ys -> Forall2 P (map f xs) ys.
Proof. induction 1; simpl; constructor; auto. Qed.

(** A text of a BEGIN line, a VERSION line, lines that are read as calls
    and an END line is parsed as the version is set and the calls are
    made. *)
Lemma parse_lines (ver : Z) (rest : list jstring) (ms : list (M unit))
    (v : VCard.VCard) :
  ver = 3%Z \/ ver = 4%Z ->
  Forall2 reads rest ms ->
  parse (join [NL] ([js "BEGIN:VCARD"; js "VERSION:" ++ Z_to_js ver ++ js ".0"]
                    ++ rest ++ [js "END:VCARD"])) v
  = (setVersion ver ;;; for_each (fun m => m) ms) v.
Proof.
  intros Hver Hreads.
  destruct (reads_tokens rest ms Hreads) as (toks & Htok & Hdot & Hparse).
  set (bline := js "BEGIN:VCARD"). set (eline := js "END:VCARD").
  set (vline := js "VERSION:" ++ Z_to_js ver ++ js ".0").
  set (btok := MkToken (js "BEGIN") [] [js "VCARD"]).
  set (etok := MkToken (js "END") [] [js "VCARD"]).
  set (vtok := MkToken (js "VERSION") [] [Z_to_js ver ++ js ".0"]).
  assert (Hclosed : logical vline = vline /\ head_not SP vline
                    /\ vline <> [] /\ ~ In NL vline
                    /\ tokenize_line vline = Return vtok
                    /\ forall v, parseToken vtok v = setVersion ver v).
  { subst vline vtok. destruct Hver as [-> | ->];
      (split; [reflexivity|]; split; [vm_compute; discriminate|];
       split; [discriminate|]; split; [now apply no_newline|];
       split; [vm_compute; reflexivity|]; intros v0; reflexivity). }
  destruct Hclosed as (Hv1 & Hv2 & Hv3 & Hv4 & Hv5 & Hv6).
  assert (Hheads : Forall (head_not SP)
                     ([bline; vline] ++ rest ++ [eline])).
  { constructor; [vm_compute; discriminate|]. constructor; [exact Hv2|].
    apply Forall_app. split.
    - clear -Hreads. induction Hreads as [|? ? ? ? (H & _) _ IH];
        constructor; auto.
    - constructor; [vm_compute; discriminate | constructor]. }
  assert (Hlines : split_runs (N.eqb NL) false
                     (logical (join [NL] ([bline; vline] ++ rest ++ [eline])))
                   = [bline; vline] ++ map logical rest ++ [eline]).
  { rewrite logical_join by exact Hheads.
    cbn [map app]. rewrite map_app. cbn [map]. rewrite Hv1.
    change (logical bline) with bline. change (logical eline) with eline.
    apply split_runs_join; [discriminate|].
    constructor; [split; [discriminate | now apply no_newline]|].
    constructor; [split; assumption|].
    apply Forall_app. split.
    - clear -Hreads. induction Hreads as [|? ? ? ? (_ & H1 & H2 & _) _ IH];
        simpl; constructor; auto.
    - constructor; [split; [discriminate | now apply no_newline]|constructor]. }
  assert (Htokens : tokenizeVcardString
                      (join [NL] ([bline; vline] ++ rest ++ [eline]))
                    = Return (btok :: (vtok :: toks) ++ [etok])).
  { unfold tokenizeVcardString. fold (logical (join [NL] ([bline; vline] ++ rest ++ [eline]))).
    rewrite Hlines.
    rewrite (map_outcome_Forall2 tokenize_line _
               ([btok; vtok] ++ toks ++ [etok])).
    - cbn [obind]. rewrite combine_groups_plain; [reflexivity|].
      constructor; [reflexivity|]. constructor; [reflexivity|].
      apply Forall_app. split; [exact Hdot|]. now constructor.
    - constructor; [vm_compute; reflexivity|]. constructor; [exact Hv5|].
      apply Forall2_app; [now apply Forall2_map_l|].
      constructor; [vm_compute; reflexivity | constructor]. }
  unfold parse. rewrite Htokens.
  change (not_bracket (js "BEGIN") btok) with false. cbv iota.
  rewrite rev_unit.
  change (not_bracket (js "END") etok) with false. cbv iota zeta.
  rewrite rev_involutive.
  change (negb (jstr_eqb (toUpperCase (key vtok)) (js "VERSION"))) with false.
  cbv iota. cbn [for_each]. unfold bind. rewrite Hv6.
  destruct (setVersion ver v) as [[[]|e] v']; [|reflexivity].
  now apply for_each_ext.
Qed.

(** ** The lines of a contact of text fields *)

Lemma formatTextValue_head_not (c : N) (s : jstring) :
  plain c = true -> c <> SP -> head_not SP (formatTextValue (c :: s)).
Proof.
  intros Hp Hc. destruct (formatTextValue_head c s Hp) as (t & ->). exact Hc.
Qed.

(** A line of one value is read as the call of its setter. *)
Lemma reads_value (p : jstring) (c : N) (p' : jstring) (set : jstring -> M unit)
    (s : jstring) :
  p = c :: p' -> plain c = true -> c <> SP ->
  Forall (fun c => plain c = true) p -> has_dot p = false ->
  (forall v, parseToken (MkToken p [] [s]) v = set s v) ->
  safe s ->
  reads (formatTextValue (p ++ js "%COL%" ++ s)) (set s).
Proof.
  intros Ep Hc Hsp Hp Hd Hparse (Hs0 & Hs & Hn). unfold reads, logical.
  split; [rewrite Ep; now apply formatTextValue_head_not|].
  rewrite formatTextValue_unfold. split; [|split].
  - rewrite escape_text_name by exact Hp. rewrite Ep. discriminate.
  - apply escape_text_line.
  - exists (MkToken p [] [s]). split; [|split; auto].
    rewrite <- formatTextValue_unfold.
    apply tokenize_value_line; auto. rewrite Ep. discriminate.
Qed.

Lemma reads_values (p : jstring) (c : N) (p' : jstring)
    (set : jstring -> M unit) (xs : list jstring) :
  p = c :: p' -> plain c = true -> c <> SP ->
  Forall (fun c => plain c = true) p -> has_dot p = false ->
  (forall s v, parseToken (MkToken p [] [s]) v = set s v) ->
  Forall safe xs ->
  Forall2 reads (map (fun s => formatTextValue (p ++ js "%COL%" ++ s)) xs)
    (map set xs).
Proof.
  intros Ep Hc Hsp Hp Hd Hparse H.
  induction H as [|s xs Hs _ IH]; simpl; constructor; auto.
  eapply reads_value; eauto.
Qed.

(** The NICKNAME line: the name of the property is put before the folded
    value. *)
Lemma reads_nickname (s : jstring) :
  safe s -> reads (js "NICKNAME:" ++ formatTextValue s) (setNickname s).
Proof.
  intros (Hs0 & Hs & Hn). unfold reads, logical.
  assert (E : replace2 NL SP [] (js "NICKNAME:" ++ formatTextValue s)
              = js "NICKNAME" ++ 58 :: escape s).
  { rewrite replace2_skip by now apply no_newline.
    rewrite formatTextValue_unfold, escape_text_escape by exact Hs.
    reflexivity. }
  rewrite E. split; [vm_compute; discriminate|]. split; [discriminate|].
  split.
  - rewrite <- escape_text_escape by exact Hs. intros Hin.
    apply in_app_or in Hin as [Hin|Hin];
      [revert Hin; now apply no_newline|].
    destruct Hin as [Hin|Hin]; [discriminate|].
    now apply escape_text_line in Hin.
  - exists (MkToken (js "NICKNAME") [] [s]). split; [|split].
    + apply tokenize_escaped;
        [discriminate | repeat constructor | exact Hs0 | exact Hn].
    + reflexivity.
    + reflexivity.
Qed.

Lemma reads_kind (k : jstring) :
  In k kinds -> reads (js "KIND:" ++ k) (assign (set_kind (Some k))).
Proof.
  assert (H : forall k, forallb (fun c => negb (c =? NL)) (js "KIND:" ++ k)
                        = true ->
                tokenize_line (js "KIND:" ++ k)
                = Return (MkToken (js "KIND") [] [k]) ->
                setKind k = assign (set_kind (Some k)) ->
                reads (js "KIND:" ++ k) (assign (set_kind (Some k)))).
  { intros k0 Hnl Htok Hset. unfold reads.
    assert (E : logical (js "KIND:" ++ k0) = js "KIND:" ++ k0).
    { unfold logical. apply replace2_absent. now apply no_newline. }
    rewrite E. split; [vm_compute; discriminate|].
    split; [discriminate|]. split; [now apply no_newline|].
    eexists. split; [exact Htok|]. split; [reflexivity|].
    intros v. change (parseToken (MkToken (js "KIND") [] [k0]) v)
      with (setKind k0 v). now rewrite Hset. }
  unfold kinds. intros [<-|[<-|[<-|[<-|[]]]]]; apply H; reflexivity.
Qed.

(** *** The N line *)

Lemma segments_keep (d : N) (esc : bool) (cur s : jstring) :
  truthy cur = true ->
  exists q ps, segments d esc cur s = (cur ++ q) :: ps.
Proof.
  revert esc cur. induction s as [|c s IH]; intros esc cur Hc.
  - simpl. destruct esc; rewrite Hc; exists [], []; now rewrite app_nil_r.
  - assert (Hc' : truthy (cur ++ [c]) = true) by now destruct cur.
    cbn [segments]. destruct esc.
    + destruct (IH false _ Hc') as (q & ps & ->).
      exists (c :: q), ps. now rewrite <- app_assoc.
    + destruct ((c =? BSL) && _).
      * destruct (IH true _ Hc') as (q & ps & ->).
        exists (c :: q), ps. now rewrite <- app_assoc.
      * destruct (c =? d).
        -- rewrite Hc. exists [], (segments d false [] s).
           now rewrite app_nil_r.
        -- destruct (IH false _ Hc') as (q & ps & ->).
           exists (c :: q), ps. now rewrite <- app_assoc.
Qed.

(** A text that begins with a code unit other than the delimiter has a
    first piece, which begins with it. *)
Lemma segments_first (d c : N) (s : jstring) :
  c <> d -> exists q ps, match_segments d (c :: s) = (c :: q) :: ps.
Proof.
  intros Hc. unfold match_segments. cbn [segments].
  apply N.eqb_neq in Hc. rewrite Hc.
  destruct ((c =? BSL) && _);
    [apply (segments_keep d true [c] s) | apply (segments_keep d false [c] s)];
    reflexivity.
Qed.

Lemma escape_text_first (c : N) (s : jstring) :
  c <> 37 ->
  exists c0 t, escape_text (c :: s) = c0 :: t /\ c0 <> 58 /\ c0 <> 59.
Proof.
  intros Hc. unfold escape_text.
  pose proof (spread_shape (c :: s)) as Hs.
  assert (Hu : exists u us, spread (c :: s) = u :: us
                            /\ (u = [c] \/ exists d, u = [c; d]
                                                     /\ is_high c = true)).
  { destruct s as [|d s]; [exists [c], []; auto|].
    change (spread (c :: d :: s)) with
      (if is_high c && is_low d then [c; d] :: spread s
       else [c] :: spread (d :: s)).
    destruct (is_high c && is_low d) eqn:E.
    - apply andb_true_iff in E as [E _].
      exists [c; d], (spread s). split; [reflexivity|]. right. eauto.
    - exists [c], (spread (d :: s)). auto. }
  destruct Hu as (u & us & E & Hu). rewrite E. cbn [escape_units].
  destruct Hu as [-> | (d & -> & Hh)].
  - rewrite escape_char_single.
    assert (Hesc : forall x, exists c0 t,
              concat (let '(char, adv) := token_char ([c] :: us) [92; x] in
                      char :: escape_units adv us) = c0 :: t
              /\ c0 <> 58 /\ c0 <> 59).
    { intros x.
      assert (Ht : token_char ([c] :: us) [92; x] = ([92; x], 0%nat)).
      { unfold token_char. literals. now rewrite jstr_eqb_pair_single. }
      rewrite Ht. cbn [concat app]. exists 92. eexists.
      split; [reflexivity|]. split; discriminate. }
    destruct (N.eqb_spec c 44); [apply Hesc|].
    destruct (N.eqb_spec c 59); [apply Hesc|].
    destruct (N.eqb_spec c 58); [apply Hesc|].
    destruct (N.eqb_spec c 92); [apply Hesc|].
    destruct (N.eqb_spec c 10); [apply Hesc|].
    unfold token_char. literals. rewrite jstr_eqb_single.
    apply N.eqb_neq in Hc. rewrite Hc. cbn [concat app]. eauto.
  - rewrite escape_char_pair. unfold token_char. literals.
    rewrite jstr_eqb_pair_single. cbn [concat app].
    exists c. eexists. split; [reflexivity|].
    unfold is_high in Hh. apply andb_true_iff in Hh as [Hh _].
    apply N.leb_le in Hh. split; lia.
Qed.

Lemma segments_name (d : N) (p : jstring) :
  d = 58 \/ d = 59 \/ d = 44 -> p <> [] ->
  Forall (fun c => plain c = true) p -> segments d false [] p = [p].
Proof.
  intros Hd Hp0 Hp. rewrite <- (app_nil_r p) at 1.
  rewrite segments_plain by auto. rewrite segments_nil. simpl app.
  now destruct p.
Qed.

Lemma segments_delim (cur t : jstring) :
  truthy cur = true ->
  segments 58 false cur (58 :: t) = cur :: segments 58 false [] t.
Proof.
  intros H. cbn [segments]. change (58 =? BSL) with false. cbn [andb].
  change (58 =? 58) with true. cbv iota. now rewrite H.
Qed.

(** A line with a property name of plain code units always gives a token;
    it has a value when the text after the colon token begins with a code
    unit that is no percent sign. *)
Lemma tokenize_name_line (p : jstring) (c : N) (x : jstring) :
  p <> [] -> Forall (fun c => plain c = true) p -> c <> 37 ->
  exists vs,
    tokenize_line (logical (formatTextValue (p ++ js "%COL%" ++ c :: x)))
    = Return (MkToken p [] vs)
    /\ vs <> [].
Proof.
  intros Hp0 Hp Hc. unfold logical.
  rewrite formatTextValue_unfold, escape_text_name by exact Hp.
  destruct (escape_text_first c x Hc) as (c0 & t & -> & H58 & H59).
  assert (Hpt : truthy p = true) by (destruct p; [congruence|reflexivity]).
  unfold tokenize_line, match_segments.
  rewrite segments_plain by auto. simpl app at 1.
  rewrite segments_delim by exact Hpt.
  fold (match_segments 58 (c0 :: t)).
  destruct (segments_first 58 c0 t H58) as (q & ps & ->).
  rewrite segments_name by auto. cbn [map_outcome obind].
  rewrite unesc_plain by now apply plain_no_backslash.
  eexists. split; [reflexivity|].
  assert (Hj : exists r, join (js ":") ((c0 :: q) :: ps) = c0 :: r).
  { destruct ps; [now exists q|]. rewrite join_cons2. simpl. eauto. }
  destruct Hj as (r & ->).
  fold (match_segments 59 (c0 :: r)).
  destruct (segments_first 59 c0 r H59) as (q' & ps' & ->). discriminate.
Qed.

Lemma split_on_pieces_in (sep : N) (s p : jstring) (x : N) :
  In p (split_on sep s) -> In x p -> In x s.
Proof.
  revert p. induction s as [|c s IH]; intros p; simpl.
  - intros [<-|[]] [].
  - destruct (c =? sep).
    + intros [<-|Hin] Hx; [contradiction|]. right. eauto.
    + destruct (split_on sep s) as [|q qs] eqn:E.
      * intros [<-|[]] [->|[]]. now left.
      * intros [<-|Hin] Hx.
        -- destruct Hx as [->|Hx]; [now left|]. right.
           apply (IH q); [now left | exact Hx].
        -- right. apply (IH p); [now right | exact Hx].
Qed.

Lemma split_on_last_nil (sep : N) (s : jstring) :
  List.last (split_on sep s) [] = [] -> s = [] \/ List.last s 0 = sep.
Proof.
  induction s as [|c s IH]; [auto|]. intros H. right. simpl in H.
  destruct (split_on_cons sep s) as (p & ps & E). rewrite E in *.
  destruct (N.eqb_spec c sep) as [->|Hc].
  - destruct (IH H) as [->|Hl]; [reflexivity|].
    destruct s; [reflexivity | exact Hl].
  - destruct ps as [|p' ps]; [discriminate|].
    destruct (IH H) as [->|Hl]; [discriminate|].
    destruct s; [discriminate E | exact Hl].
Qed.

Lemma last_rev_hd (s : jstring) : List.last s 0 = hd 0 (rev s).
Proof.
  induction s as [|c s IH] using rev_ind; [reflexivity|].
  now rewrite last_last, rev_unit.
Qed.

Lemma last_In {A} (l : list A) (d : A) : l <> [] -> In (List.last l d) l.
Proof.
  induction l as [|a [|b l] IH]; [congruence | now left |]. intros _.
  right. apply IH. discriminate.
Qed.

(** The family name of a normalized name: its last word, which is not
    empty. *)
Lemma last_word (n : jstring) :
  n <> [] -> normalized n -> ~ In 37 n ->
  exists c w, List.last (split_on SP n) [] = c :: w /\ c <> 37.
Proof.
  intros Hn0 (_ & _ & _ & Hr) Hp.
  destruct (List.last (split_on SP n) []) as [|c w] eqn:E.
  - apply split_on_last_nil in E as [->|E]; [congruence|].
    rewrite last_rev_hd in E. destruct (rev n) as [|x r] eqn:Er.
    + apply (f_equal (@rev N)) in Er. rewrite rev_involutive in Er.
      now subst.
    + simpl in *. subst x. discriminate.
  - exists c, w. split; [reflexivity|]. intros ->. apply Hp.
    apply (split_on_pieces_in SP n (37 :: w)); [|now left].
    rewrite <- E. apply last_In.
    destruct (split_on_cons SP n) as (p & ps & ->). discriminate.
Qed.

(** *** The lines of the names *)

Lemma render_names_later (i : nat) (names : list jstring) :
  render_names (S i) names
  = map (fun n => formatTextValue (js "FN%COL%" ++ n)) names.
Proof.
  revert i. induction names as [|n names IH]; intros i; [reflexivity|].
  cbn [render_names map]. change (S i =? 0)%nat with false. cbv iota.
  now rewrite IH.
Qed.

Lemma reads_FN (names : list jstring) :
  Forall safe_name names ->
  Forall2 reads (map (fun n => formatTextValue (js "FN%COL%" ++ n)) names)
    (map setName names).
Proof.
  intros H.
  apply (reads_values (js "FN") 70 (js "N") setName);
    [reflexivity | reflexivity | discriminate | repeat constructor
     | reflexivity | reflexivity |].
  eapply List.Forall_impl; [|exact H]. now intros n [Hs _].
Qed.

Lemma reads_N (n : jstring) :
  safe_name n ->
  let name_parts := split_on SP n in
  let name_ := List.last name_parts [] in
  let last_name := join (js " ") (removelast name_parts) in
  let name_ := if truthy last_name
               then name_ ++ js "%SEM%" ++ last_name else name_ in
  reads (formatTextValue (js "N%COL%" ++ name_)) (ret tt).
Proof.
  intros ((Hn0 & Hp & _) & Hnorm). cbv zeta.
  destruct (last_word n Hn0 Hnorm Hp) as (c & w & -> & Hc).
  set (x := if truthy _ then _ else _).
  assert (Hx : exists x', x = c :: x').
  { subst x. destruct (truthy _); simpl; eauto. }
  destruct Hx as (x' & ->).
  destruct (tokenize_name_line (js "N") c x') as (vs & Htok & Hvs);
    [discriminate | repeat constructor | exact Hc |].
  change (js "N" ++ js "%COL%" ++ c :: x') with (js "N%COL%" ++ c :: x')
    in Htok.
  unfold reads. split; [|split; [|split]].
  - change (js "N%COL%" ++ c :: x')
      with (78 :: js "%COL%" ++ c :: x').
    now apply formatTextValue_head_not.
  - unfold logical. rewrite formatTextValue_unfold.
    change (js "N%COL%" ++ c :: x') with (js "N" ++ js "%COL%" ++ c :: x').
    rewrite escape_text_name by repeat constructor. discriminate.
  - unfold logical. rewrite formatTextValue_unfold. apply escape_text_line.
  - exists (MkToken (js "N") [] vs). split; [exact Htok|].
    split; [reflexivity|]. intros v. destruct vs; [congruence|reflexivity].
Qed.

Lemma reads_names (names : list jstring) :
  names <> [] -> Forall safe_name names ->
  exists n0 ns,
    names = n0 :: ns
    /\ Forall2 reads (render_names 0 names)
         (setName n0 :: ret tt :: map setName ns).
Proof.
  destruct names as [|n0 ns]; [congruence|]. intros _ H.
  exists n0, ns. split; [reflexivity|].
  inversion H as [|? ? H0 Hns]; subst.
  cbn [render_names]. change (0 =? 0)%nat with true. cbv iota.
  rewrite render_names_later. cbn [app].
  constructor; [|constructor].
  - assert (H1 : Forall safe_name [n0]) by (constructor; auto).
    apply reads_FN in H1. now inversion H1.
  - now apply reads_N.
  - now apply reads_FN.
Qed.

(** *** The calls that the lines are read as *)

Lemma run_seq (m1 m2 : M unit) (v v1 : VCard.VCard) :
  m1 v = (Return tt, v1) -> (m1 ;;; m2) v = m2 v1.
Proof. intros H. unfold bind. now rewrite H. Qed.

Lemma for_each_push {A} (set : A -> M unit) (get : VCard.VCard -> list A)
    (upd : list A -> VCard.VCard -> VCard.VCard) :
  (forall x v, set x v = (Return tt, upd (get v ++ [x]) v)) ->
  (forall l v, get (upd l v) = l) ->
  (forall l l' v, upd l (upd l' v) = upd l v) ->
  (forall v, upd (get v) v = v) ->
  forall xs v,
    for_each (fun m => m) (map set xs) v
    = (Return tt, upd (get v ++ xs) v).
Proof.
  intros Hset Hget Hupd Hid xs.
  induction xs as [|x xs IH]; intros v.
  - simpl. now rewrite app_nil_r, Hid.
  - cbn [map for_each]. erewrite run_seq by apply Hset.
    rewrite IH, Hget, Hupd, <- app_assoc. reflexivity.
Qed.

Lemma for_each_setName (names : list jstring) (v : VCard.VCard) :
  Forall safe_name names ->
  for_each (fun m => m) (map setName names) v
  = (Return tt, set_name (name v ++ names) v).
Proof.
  intros H. revert v. induction H as [|n names [_ Hn] _ IH]; intros v.
  - simpl. rewrite app_nil_r. now destruct v.
  - cbn [map for_each].
    erewrite run_seq
      by (unfold setName, assign; now rewrite normalized_fixed).
    rewrite IH. cbn. now rewrite <- app_assoc.
Qed.

(** *** The round trip *)

Lemma render_nicknames_all (nicknames : list jstring) :
  Forall safe_nickname nicknames ->
  render_nicknames nicknames
  = map (fun n => js "NICKNAME:" ++ formatTextValue n) nicknames.
Proof.
  unfold render_nicknames.
  induction 1 as [|n ns [_ Hn] _ IH]; [reflexivity|].
  cbn [flat_map map]. rewrite Hn, IH. reflexivity.
Qed.

(** The parts of a contact of text fields. *)
Lemma render_parts_text (ver : Z) (k : option jstring)
    (names nicknames titles roles notes : list jstring) :
  version_kind ver k -> names <> [] -> Forall safe_nickname nicknames ->
  render_parts (text_contact ver k names nicknames titles roles notes)
  = Return
      ([js "BEGIN:VCARD"; js "VERSION:" ++ Z_to_js ver ++ js ".0"]
       ++ ((match k with Some kind_ => [js "KIND:" ++ kind_] | None => [] end)
           ++ render_names 0 names
           ++ map (fun n => js "NICKNAME:" ++ formatTextValue n) nicknames
           ++ map (fun t => formatTextValue (js "TITLE%COL%" ++ t)) titles
           ++ map (fun r => formatTextValue (js "ROLE%COL%" ++ r)) roles
           ++ map (fun n => formatTextValue (js "NOTE%COL%" ++ n)) notes)
       ++ [js "END:VCARD"]).
Proof.
  intros Hvk Hn Hnick. unfold render_parts, text_contact. cbv zeta.
  cbn [specVersion kind name nickname photo bday anniversary gender
       gender_ident address tel email impp title role logo org note url].
  rewrite render_nicknames_all by exact Hnick.
  destruct names as [|n0 ns]; [congruence|].
  change (length (n0 :: ns) =? 0)%nat with false.
  destruct Hvk as [[-> ->] | (-> & kind_ & -> & Hk)].
  - cbn -[render_names formatTextValue js Z_to_js].
    rewrite <- ?app_assoc. reflexivity.
  - change (truthy_opt (Some kind_)) with (truthy kind_).
    rewrite (kinds_truthy kind_ Hk).
    cbn -[render_names formatTextValue js Z_to_js].
    rewrite <- ?app_assoc. reflexivity.
Qed.

(** The calls the lines of such a contact are read as. *)
Lemma reads_text (k : option jstring)
    (n0 : jstring) (ns nicknames titles roles notes : list jstring) :
  (forall kind_, k = Some kind_ -> In kind_ kinds) ->
  Forall safe_name (n0 :: ns) -> Forall safe_nickname nicknames ->
  Forall safe titles -> Forall safe roles -> Forall safe notes ->
  Forall2 reads
    ((match k with Some kind_ => [js "KIND:" ++ kind_] | None => [] end)
     ++ render_names 0 (n0 :: ns)
     ++ map (fun n => js "NICKNAME:" ++ formatTextValue n) nicknames
     ++ map (fun t => formatTextValue (js "TITLE%COL%" ++ t)) titles
     ++ map (fun r => formatTextValue (js "ROLE%COL%" ++ r)) roles
     ++ map (fun n => formatTextValue (js "NOTE%COL%" ++ n)) notes)
    ((match k with
      | Some kind_ => [assign (set_kind (Some kind_))]
      | None => []
      end)
     ++ (setName n0 :: ret tt :: map setName ns)
     ++ map setNickname nicknames ++ map setTitle titles
     ++ map setRole roles ++ map setNote notes).
Proof.
  intros Hk Hnames Hnick Ht Hr Hno.
  apply Forall2_app;
    [|apply Forall2_app;
      [|apply Forall2_app;
        [|apply Forall2_app; [|apply Forall2_app]]]].
  - destruct k as [kind_|]; [|constructor].
    constructor; [apply reads_kind, Hk; reflexivity | constructor].
  - destruct (reads_names (n0 :: ns) ltac:(discriminate) Hnames)
      as (n0' & ns' & [= <- <-] & H).
    exact H.
  - clear -Hnick. induction Hnick as [|n l [Hn _] _ IH]; cbn [map];
      constructor; [now apply reads_nickname | exact IH].
  - apply (reads_values (js "TITLE") 84 (js "ITLE") setTitle);
      [reflexivity | reflexivity | discriminate | repeat constructor
       | reflexivity | reflexivity | exact Ht].
  - apply (reads_values (js "ROLE") 82 (js "OLE") setRole);
      [reflexivity | reflexivity | discriminate | repeat constructor
       | reflexivity | reflexivity | exact Hr].
  - apply (reads_values (js "NOTE") 78 (js "OTE") setNote);
      [reflexivity | reflexivity | discriminate | repeat constructor
       | reflexivity | reflexivity | exact Hno].
Qed.

Lemma decode_text (ver : Z) (k : option jstring)
    (names nicknames titles roles notes : list jstring) :
  version_kind ver k -> names <> [] ->
  Forall safe_name names -> Forall safe_nickname nicknames ->
  Forall safe titles -> Forall safe roles -> Forall safe notes ->
  exists text,
    render (text_contact ver k names nicknames titles roles notes)
    = Return text
    /\ decode text
       = (Return tt, text_contact ver k names nicknames titles roles notes).
Proof.
  intros Hvk Hn0 Hnames Hnick Ht Hr Hno.
  unfold render. rewrite render_parts_text by assumption. cbn [obind].
  eexists. split; [reflexivity|].
  destruct names as [|n0 ns]; [congruence|].
  assert (Hver : ver = 3%Z \/ ver = 4%Z) by (destruct Hvk as [[-> _]|[-> _]]; auto).
  assert (Hk : forall kind_, k = Some kind_ -> In kind_ kinds).
  { intros kind_ ->. destruct Hvk as [[_ [=]]|(_ & k' & [= <-] & Hin)]; auto. }
  unfold decode.
  etransitivity;
    [exact (parse_lines ver _ _ new_VCard Hver
              (reads_text k n0 ns nicknames titles roles notes Hk Hnames
                 Hnick Ht Hr Hno))|].
  assert (Hsv : setVersion ver new_VCard
                = (Return tt, set_specVersion ver new_VCard))
    by (destruct Hver as [-> | ->]; reflexivity).
  rewrite (run_seq _ _ _ _ Hsv).
  rewrite for_each_app.
  assert (Hkind : for_each (fun m => m)
                    (match k with
                     | Some kind_ => [assign (set_kind (Some kind_))]
                     | None => []
                     end) (set_specVersion ver new_VCard)
                  = (Return tt, set_kind k (set_specVersion ver new_VCard))).
  { destruct k; reflexivity. }
  rewrite (run_seq _ _ _ _ Hkind).
  rewrite for_each_app.
  assert (Hname : forall v,
            for_each (fun m => m) (setName n0 :: ret tt :: map setName ns) v
            = (Return tt, set_name (name v ++ n0 :: ns) v)).
  { intros v. inversion Hnames as [|? ? [_ H0] Hns]; subst.
    cbn [for_each].
    erewrite run_seq
      by (unfold setName, assign; now rewrite normalized_fixed).
    erewrite run_seq by reflexivity.
    rewrite for_each_setName by exact Hns. cbn. now rewrite <- app_assoc. }
  rewrite (run_seq _ _ _ _ (Hname _)).
  rewrite for_each_app.
  erewrite run_seq
    by (apply (for_each_push setNickname nickname set_nickname);
        try reflexivity; now intros []).
  rewrite for_each_app.
  erewrite run_seq
    by (apply (for_each_push setTitle title set_title);
        try reflexivity; now intros []).
  rewrite for_each_app.
  erewrite run_seq
    by (apply (for_each_push setRole role set_role);
        try reflexivity; now intros []).
  etransitivity;
    [apply (for_each_push setNote note set_note);
     try reflexivity; now intros []|].
  reflexivity.
Qed.

(** X12. A contact that holds a version, a kind when the version is 4,
    names, nicknames, titles, roles and notes, all of them values that are
    not empty and hold no percent sign and no backslash followed by the
    letter n (the names normalized, the nicknames not blank), is rendered
    to a text that the parser decodes to the same contact. *)
Theorem text_contact_round_trip (ver : Z) (k : option jstring)
    (names nicknames titles roles notes : list jstring) :
  version_kind ver k -> names <> [] ->
  Forall safe_name names -> Forall safe_nickname nicknames ->
  Forall safe titles -> Forall safe roles -> Forall safe notes ->
  exists text,
    render (text_contact ver k names nicknames titles roles notes)
    = Return text
    /\ decode text
       = (Return tt, text_contact ver k names nicknames titles roles notes).
Proof. apply decode_text. Qed.

Lemma bsl_n_free_ok (s : jstring) : bsl_n_free s = true -> no_backslash_n s.
Proof.
  intros H l1. revert s H. induction l1 as [|x l1 IH]; intros s H l2 E.
  - subst s. simpl in H. discriminate.
  - subst s. refine (IH (l1 ++ 92 :: 110 :: l2) _ l2 eq_refl).
    simpl in H. destruct (l1 ++ 92 :: 110 :: l2); [reflexivity|].
    now apply andb_true_iff in H as [_ H].
Qed.

Lemma safe_test_ok (s : jstring) : safe_test s = true -> safe s.
Proof.
  unfold safe_test, safe. intros H.
  apply andb_true_iff in H as [H H3]. apply andb_true_iff in H as [H1 H2].
  split; [now destruct s|]. split; [|now apply bsl_n_free_ok].
  intros Hin. rewrite forallb_forall in H2. specialize (H2 _ Hin).
  now rewrite N.eqb_refl in H2.
Qed.

Lemma text_contact_round_trip_witness :
  exists text,
    render text_example = Return text
    /\ decode text = (Return tt, text_example).
Proof.
  unfold text_example.
  apply (text_contact_round_trip 4 (Some (js "individual"))
           [js "Pamela Mishaw"; js "P. Mishaw, PhD"] [js "Pam"]
           [js "Owner; Founder"] [js "C:\Users"]
           [js "line one" ++ [NL] ++ js "line two"; [8364; 49]]).
  - right. split; [reflexivity|]. eexists. split; [reflexivity|].
    vm_compute. tauto.
  - discriminate.
  - constructor; [|constructor; [|constructor]].
    + split; [apply safe_test_ok; vm_compute; reflexivity|].
      exact (normalized_stored (js "Pamela Mishaw")).
    + split; [apply safe_test_ok; vm_compute; reflexivity|].
      exact (normalized_stored (js "P. Mishaw, PhD")).
  - constructor; [|constructor].
    split; [apply safe_test_ok|]; vm_compute; reflexivity.
  - constructor; [|constructor]. apply safe_test_ok. vm_compute. reflexivity.
  - constructor; [|constructor]. apply safe_test_ok. vm_compute. reflexivity.
  - constructor; [|constructor; [|constructor]];
      apply safe_test_ok; vm_compute; reflexivity.
Defined.

(** ** Dates *)

Lemma all_below_iter (f : N -> bool) (n : N) :
  N.iter n (fun '(b, i) => (b && f i, N.succ i)) (true, 0)
  = (forallb f (map N.of_nat (seq 0 (N.to_nat n))), n).
Proof.
  induction n as [|n IH] using N.peano_ind; [reflexivity|].
  rewrite N.iter_succ, IH, N2Nat.inj_succ, seq_S, map_app, forallb_app.
  simpl. now rewrite N2Nat.id, andb_true_r.
Qed.

Lemma all_below_spec (f : N -> bool) (n : N) :
  all_below f n = true -> forall i, i < n -> f i = true.
Proof.
  unfold all_below. rewrite all_below_iter. simpl. intros H i Hi.
  rewrite forallb_forall in H. apply H.
  apply in_map_iff. exists (N.to_nat i). split; [lia|].
  apply in_seq. lia.
Qed.

(** The 146097 days of an era, one by one. *)
Lemma era_days (doe : Z) :
  (0 <= doe < 146097)%Z -> era_day_ok doe = true.
Proof.
  intros H.
  assert (E : all_below (fun n => era_day_ok (Z.of_N n)) 146097 = true)
    by (vm_compute; reflexivity).
  rewrite <- (Z2N.id doe) by lia.
  apply (all_below_spec _ _ E). lia.
Qed.

Lemma padded (w : nat) (n : N) :
  (w = 2%nat /\ n < 100) \/ (w = 3%nat /\ n < 1000)
  \/ (w = 4%nat /\ n < 10000) ->
  length (pad0 w n) = w /\ forallb is_digit (pad0 w n) = true
  /\ digits_to_N (pad0 w n) = n.
Proof.
  assert (E2 : all_below (padded_ok 2) 100 = true) by (vm_compute; reflexivity).
  assert (E3 : all_below (padded_ok 3) 1000 = true)
    by (vm_compute; reflexivity).
  assert (E4 : all_below (padded_ok 4) 10000 = true)
    by (vm_compute; reflexivity).
  intros H.
  assert (Hok : padded_ok w n = true).
  { destruct H as [[-> H]|[[-> H]|[-> H]]];
      [exact (all_below_spec _ _ E2 n H) | exact (all_below_spec _ _ E3 n H)
       | exact (all_below_spec _ _ E4 n H)]. }
  unfold padded_ok in Hok.
  apply andb_true_iff in Hok as [Hok H3]. apply andb_true_iff in Hok as [H1 H2].
  apply Nat.eqb_eq in H1. apply N.eqb_eq in H3. auto.
Qed.

Lemma civil_from_days_era (z : Z) :
  civil_from_days z
  = let era := ((z + 719468) / 146097)%Z in
    let '(yoe, m, d) := civil_of_doe ((z + 719468) mod 146097) in
    ((if m <=? 2 then yoe + era * 400 + 1 else yoe + era * 400)%Z, m, d).
Proof.
  unfold civil_from_days, civil_of_doe. cbv zeta.
  rewrite Z.mod_eq by lia.
  replace (z + 719468 - (z + 719468) / 146097 * 146097)%Z
    with (z + 719468 - 146097 * ((z + 719468) / 146097))%Z by lia.
  reflexivity.
Qed.

Lemma days_from_civil_era (y m d : Z) :
  days_from_civil y m d
  = let y' := (if m <=? 2 then y - 1 else y)%Z in
    ((y' / 400) * 146097 + doe_of_civil (y' mod 400) m d - 719468)%Z.
Proof.
  unfold days_from_civil, doe_of_civil. cbv zeta.
  rewrite Z.mod_eq by lia.
  replace ((if m <=? 2 then y - 1 else y)
           - (if m <=? 2 then y - 1 else y) / 400 * 400)%Z
    with ((if m <=? 2 then y - 1 else y)
          - 400 * ((if m <=? 2 then y - 1 else y) / 400))%Z by lia.
  reflexivity.
Qed.

(** The date of a day: its month and day are those of the calendar, and
    the day comes back from it. *)
Lemma civil_days_inverse (z : Z) :
  let '(y, m, d) := civil_from_days z in
  (1 <= m <= 12)%Z /\ (1 <= d <= 31)%Z /\ days_from_civil y m d = z
  /\ ((z + 719468) / 146097 * 400 <= y
      <= (z + 719468) / 146097 * 400 + 400)%Z.
Proof.
  rewrite civil_from_days_era. cbv zeta.
  pose proof (Z.mod_pos_bound (z + 719468) 146097 ltac:(lia)) as Hb.
  pose proof (era_days _ Hb) as Hok. unfold era_day_ok in Hok.
  destruct (civil_of_doe ((z + 719468) mod 146097)) as [[yoe m] d].
  repeat (apply andb_true_iff in Hok as [Hok ?]).
  repeat match goal with
         | H : (_ <=? _)%Z = true |- _ => apply Z.leb_le in H
         | H : (_ =? _)%Z = true |- _ => apply Z.eqb_eq in H
         end.
  split; [lia|]. split; [lia|]. split.
  - rewrite days_from_civil_era. cbv zeta.
    set (era := ((z + 719468) / 146097)%Z).
    assert (E : ((if m <=? 2
                  then (if m <=? 2 then yoe + era * 400 + 1
                        else yoe + era * 400) - 1
                  else (if m <=? 2 then yoe + era * 400 + 1
                        else yoe + era * 400))%Z = yoe + era * 400)%Z)
      by (destruct (m <=? 2)%Z; lia).
    rewrite E, Z.div_add, Z.mod_add, Z.div_small, Z.mod_small by lia.
    rewrite H. subst era.
    pose proof (Z.div_mod (z + 719468) 146097 ltac:(lia)). lia.
  - destruct (m <=? 2)%Z; lia.
Qed.

Lemma days_from_civil_day (y m d : Z) :
  (days_from_civil y m 1 + d - 1)%Z = days_from_civil y m d.
Proof. unfold days_from_civil. cbv zeta. lia. Qed.

(** [Date.UTC] on the fields of a date of the years 100 to 9999 gives the
    date back, to the second. *)
Lemma Date_UTC_fields (t : Z) :
  (100 <= utc_year t <= 9999)%Z ->
  let '(y, m, d) := civil_from_days (t / ms_per_day) in
  let r := (t mod ms_per_day)%Z in
  Date_UTC y (m - 1) d (r / 3600000) ((r / 60000) mod 60) ((r / 1000) mod 60)
  = MkDate (Some (t - t mod 1000)%Z).
Proof.
  unfold utc_year. pose proof (civil_days_inverse (t / ms_per_day)) as H.
  destruct (civil_from_days (t / ms_per_day)) as [[y m] d].
  destruct H as (Hm & Hd & Hinv & Hy). intros Hyr. cbv zeta.
  unfold Date_UTC.
  assert (E1 : ((0 <=? y) && (y <=? 99))%Z = false).
  { apply andb_false_iff. right. apply Z.leb_gt. lia. }
  rewrite E1.
  rewrite (Z.div_small (m - 1) 12), (Z.mod_small (m - 1) 12) by lia.
  replace (y + 0)%Z with y by lia. replace (m - 1 + 1)%Z with m by lia.
  rewrite days_from_civil_day, Hinv.
  unfold ms_per_day in *.
  assert (Et : (t / 86400000 * 86400000 + t mod 86400000 / 3600000 * 3600000
                + (t mod 86400000 / 60000) mod 60 * 60000
                + (t mod 86400000 / 1000) mod 60 * 1000
                = t - t mod 1000)%Z).
  { Z.to_euclidean_division_equations. lia. }
  rewrite Et.
  assert (Hz : (-719468 <= t / 86400000 <= 25 * 146097)%Z).
  { Z.to_euclidean_division_equations. lia. }
  assert (Ht : (Z.abs (t - t mod 1000) <=? 8640000000000000)%Z = true).
  { apply Z.leb_le. Z.to_euclidean_division_equations. lia. }
  now rewrite Ht.
Qed.

(** The pieces between the characters that are no digits. *)
Lemma split_block (b : bool) (B : jstring) (c : N) (t : jstring) :
  forallb is_digit B = true -> B <> [] -> is_digit c = false ->
  split_runs (fun c => negb (is_digit c)) b (B ++ c :: t)
  = B :: split_runs (fun c => negb (is_digit c)) true t.
Proof.
  intros HB HB0 Hc. destruct B as [|x B]; [congruence|].
  simpl in HB. apply andb_true_iff in HB as [Hx HB].
  simpl app. rewrite split_runs_flag by now rewrite Hx.
  change (x :: B ++ c :: t) with ((x :: B) ++ c :: t).
  rewrite split_runs_line.
  - cbn [split_runs]. rewrite Hc. cbn [negb hd tl]. now rewrite app_nil_r.
  - constructor; [now rewrite Hx|].
    apply List.Forall_forall. intros y Hy. rewrite forallb_forall in HB.
    now rewrite (HB y Hy).
Qed.

Lemma digits_of_block (B t : jstring) :
  forallb is_digit B = true -> digits_of (B ++ t) = B ++ digits_of t.
Proof.
  unfold digits_of. intros H. rewrite List.filter_app. f_equal.
  induction B as [|x B IH]; [reflexivity|]. simpl in *.
  apply andb_true_iff in H as [Hx HB]. now rewrite Hx, IH.
Qed.

Lemma length2 {A} (l : list A) : length l = 2%nat -> exists a b, l = [a; b].
Proof. destruct l as [|a [|b [|c l]]]; try discriminate. eauto. Qed.

Lemma length4 {A} (l : list A) :
  length l = 4%nat -> exists a b c d, l = [a; b; c; d].
Proof.
  destruct l as [|a [|b [|c [|d [|e l]]]]]; try discriminate. eauto 6.
Qed.

(** The text of a date and the date the parser reads from it; under
    version 4 the text is two blocks of digits around the letter T, and the
    letter Z. *)
Lemma date_text (ver : Z) (t : Z) :
  (100 <= utc_year t <= 9999)%Z ->
  exists f,
    formatDate ver (MkDate (Some t)) = Return f
    /\ parse_date f = Some (MkDate (Some (t - t mod 1000)%Z))
    /\ (ver = 4%Z ->
        exists B1 B2,
          f = B1 ++ 84 :: B2 ++ [90] /\ B1 <> []
          /\ forallb is_digit B1 = true /\ forallb is_digit B2 = true).
Proof.
  intros Hyr. pose proof (Date_UTC_fields t Hyr) as HUTC.
  pose proof (civil_days_inverse (t / ms_per_day)) as Hciv.
  unfold utc_year in Hyr. unfold formatDate, toISOString.
  cbn [time_value].
  destruct (civil_from_days (t / ms_per_day)) as [[y m] d].
  destruct Hciv as (Hm & Hd & _ & _). cbv zeta in HUTC.
  set (r := (t mod ms_per_day)%Z) in *.
  assert (Hr : (0 <= r < 86400000)%Z)
    by (subst r; unfold ms_per_day; apply Z.mod_pos_bound; lia).
  assert (E1 : ((0 <=? y) && (y <=? 9999))%Z = true).
  { apply andb_true_iff. split; apply Z.leb_le; lia. }
  rewrite E1.
  set (h := (r / 3600000)%Z) in *. set (mi := ((r / 60000) mod 60)%Z) in *.
  set (s := ((r / 1000) mod 60)%Z) in *.
  assert (Hh : (0 <= h < 24)%Z)
    by (subst h; Z.to_euclidean_division_equations; lia).
  assert (Hmi : (0 <= mi < 60)%Z) by (subst mi; apply Z.mod_pos_bound; lia).
  assert (Hs : (0 <= s < 60)%Z) by (subst s; apply Z.mod_pos_bound; lia).
  assert (Hms : (0 <= r mod 1000 < 1000)%Z) by (apply Z.mod_pos_bound; lia).
  destruct (padded 4 (Z.to_N y)) as (LY & DY & VY); [right; right; lia|].
  destruct (padded 2 (Z.to_N m)) as (LM & DM & VM); [left; lia|].
  destruct (padded 2 (Z.to_N d)) as (LD & DD & VD); [left; lia|].
  destruct (padded 2 (Z.to_N h)) as (LH & DH & VH); [left; lia|].
  destruct (padded 2 (Z.to_N mi)) as (LI & DI & VI); [left; lia|].
  destruct (padded 2 (Z.to_N s)) as (LS & DS & VS); [left; lia|].
  destruct (padded 3 (Z.to_N (r mod 1000))) as (LX & DX & _);
    [right; left; lia|].
  set (By := pad0 4 (Z.to_N y)) in *. set (Bm := pad0 2 (Z.to_N m)) in *.
  set (Bd := pad0 2 (Z.to_N d)) in *. set (Bh := pad0 2 (Z.to_N h)) in *.
  set (Bi := pad0 2 (Z.to_N mi)) in *. set (Bs := pad0 2 (Z.to_N s)) in *.
  set (Bx := pad0 3 (Z.to_N (r mod 1000))) in *.
  assert (Hne : forall (B : jstring) (n : nat),
            length B = Datatypes.S n -> B <> [])
    by (intros B n HB ->; discriminate).
  assert (Hcons : split_runs (fun c => negb (is_digit c)) false
                    (By ++ 45 :: Bm ++ 45 :: Bd ++ 84 :: Bh ++ 58 :: Bi
                     ++ 58 :: Bs ++ 46 :: Bx ++ [90])
                  = [By; Bm; Bd; Bh; Bi; Bs; Bx; []]).
  { repeat (rewrite split_block by (eauto; reflexivity)). reflexivity. }
  match goal with
  | |- context [split_runs ?f false ?x] =>
      assert (Hpieces : split_runs f false x
                        = [By; Bm; Bd; Bh; Bi; Bs; Bx; []])
        by exact Hcons
  end.
  rewrite Hpieces. cbn [nth].
  assert (Hparse : forall f,
            digits_of f = By ++ Bm ++ Bd ++ Bh ++ Bi ++ Bs ->
            parse_date f = Some (MkDate (Some (t - t mod 1000)%Z))).
  { intros f Hf. unfold parse_date. rewrite Hf. cbv zeta.
    destruct (length4 By LY) as (y1 & y2 & y3 & y4 & EY).
    destruct (length2 Bm LM) as (m1 & m2 & EM).
    destruct (length2 Bd LD) as (d1 & d2 & ED).
    destruct (length2 Bh LH) as (h1 & h2 & EH).
    destruct (length2 Bi LI) as (i1 & i2 & EI).
    destruct (length2 Bs LS) as (s1 & s2 & ES).
    rewrite EY, EM, ED, EH, EI, ES.
    cbn [app length firstn skipn Nat.ltb Nat.leb].
    rewrite <- EY, <- EM, <- ED, <- EH, <- EI, <- ES.
    rewrite VY, VM, VD, VH, VI, VS, !Z2N.id by lia.
    now rewrite HUTC. }
  assert (Hsep : forall c l, is_digit c = false ->
                   digits_of (c :: l) = digits_of l).
  { intros c l Hc. unfold digits_of. simpl. now rewrite Hc. }
  assert (H4 : digits_of (By ++ Bm ++ Bd ++ 84 :: Bh ++ Bi ++ Bs ++ [90])
               = By ++ Bm ++ Bd ++ Bh ++ Bi ++ Bs).
  { repeat first [rewrite digits_of_block by assumption
                 | rewrite Hsep by reflexivity].
    now rewrite app_nil_r. }
  assert (H3 : digits_of (By ++ 45 :: Bm ++ 45 :: Bd ++ 84 :: Bh ++ 58 :: Bi
                          ++ 58 :: Bs ++ [90])
               = By ++ Bm ++ Bd ++ Bh ++ Bi ++ Bs).
  { repeat first [rewrite digits_of_block by assumption
                 | rewrite Hsep by reflexivity].
    now rewrite app_nil_r. }
  destruct (ver =? 4)%Z eqn:Ev; eexists; (split; [reflexivity|]).
  - split; [apply Hparse; exact H4|]. intros _.
    exists (By ++ Bm ++ Bd), (Bh ++ Bi ++ Bs).
    split; [now rewrite <- !app_assoc|].
    split; [intros E; apply app_eq_nil in E as [E _]; now apply (Hne By 3%nat)|].
    rewrite !forallb_app, DY, DM, DD, DH, DI, DS. split; reflexivity.
  - split; [apply Hparse; exact H3|]. intros ->. discriminate Ev.
Qed.

(** X13. A date of a year from 100 to 9999, in universal time, comes back
    from the text [formatDate] makes of it, under both versions, to the
    second: the parser reads the fourteen digits and calls [setBday] (or
    [setAnniversary]) with the date without its milliseconds. *)
Theorem date_round_trip (ver : Z) (t : Z) (v : VCard.VCard) :
  (100 <= utc_year t <= 9999)%Z ->
  exists f,
    formatDate ver (MkDate (Some t)) = Return f
    /\ parseBDayToken (MkToken (js "BDAY") [] [f]) v
       = setBday (IsDate (MkDate (Some (t - t mod 1000)%Z))) v
    /\ parseAnniversaryToken (MkToken (js "ANNIVERSARY") [] [f]) v
       = setAnniversary (IsDate (MkDate (Some (t - t mod 1000)%Z))) v.
Proof.
  intros Hyr. destruct (date_text ver t Hyr) as (f & Hf & Hp & _).
  exists f. split; [exact Hf|].
  unfold parseBDayToken, parseAnniversaryToken.
  cbn [values lookup list_lookup tmpl]. now rewrite Hp.
Qed.

Lemma date_round_trip_witness :
  exists f,
    formatDate 3 (MkDate (Some 838526400123%Z)) = Return f
    /\ parseBDayToken (MkToken (js "BDAY") [] [f]) new_VCard
       = setBday (IsDate (MkDate (Some 838526400000%Z))) new_VCard
    /\ parseAnniversaryToken (MkToken (js "ANNIVERSARY") [] [f]) new_VCard
       = setAnniversary (IsDate (MkDate (Some 838526400000%Z))) new_VCard.
Proof.
  apply (date_round_trip 3 838526400123 new_VCard).
  vm_compute. split; discriminate.
Defined.

(** A date of the first century does not come back: [Date.UTC] reads the
    years 0 to 99 as 1900 to 1999. *)
Example date_first_century :
  formatDate 4 (MkDate (Some (-60589296000000)%Z))
  = Return (js "00500101T000000Z")
  /\ parse_date (js "00500101T000000Z")
     = Some (MkDate (Some (-631152000000)%Z)).
Proof. split; vm_compute; reflexivity. Qed.

(** ** Lines with parameters *)

(** Code units that are neither the delimiter nor a backslash stay in the
    piece. *)
Lemma segments_free (d : N) (cur p t : jstring) :
  Forall (fun c => c <> d /\ c <> 92) p ->
  segments d false cur (p ++ t) = segments d false (cur ++ p) t.
Proof.
  intros H. revert cur. induction H as [|c p [H1 H2] _ IH]; intros cur.
  - now rewrite app_nil_r.
  - simpl app. cbn [segments]. unfold BSL.
    apply N.eqb_neq in H1, H2. rewrite H1, H2. cbn [andb].
    rewrite IH, <- app_assoc. reflexivity.
Qed.

(** A delimiter ends the piece. *)
Lemma segments_sep (d : N) (cur t : jstring) :
  d <> 92 ->
  segments d false cur (d :: t)
  = (if truthy cur then [cur] else []) ++ segments d false [] t.
Proof.
  intros H. cbn [segments]. unfold BSL. apply N.eqb_neq in H.
  rewrite H. cbn [andb]. rewrite N.eqb_refl.
  destruct (truthy cur); reflexivity.
Qed.

(** An escaped value stays in the piece. *)
Lemma segments_value (d : N) (cur s : jstring) :
  d = 58 \/ d = 59 \/ d = 44 -> s <> [] ->
  segments d false cur (escape s) = [cur ++ escape s].
Proof.
  intros Hd Hs. unfold escape.
  rewrite segments_escaped by (auto using spread_shape).
  fold (escape s). pose proof (escape_nonnil s Hs) as Ht.
  destruct cur; simpl app; [now rewrite Ht | reflexivity].
Qed.

(** The name and the parameters of a line are read apart from its value. *)
Lemma tokenize_params (kp s : jstring) :
  kp <> [] -> Forall (fun c => c <> 58 /\ c <> 92) kp ->
  s <> [] -> no_backslash_n s ->
  tokenize_line (kp ++ 58 :: escape s)
  = obind (tokenize_line kp)
      (fun t => Return (MkToken (key t) (props t) [s])).
Proof.
  intros Hk0 Hk Hs0 Hn.
  assert (Hkt : truthy kp = true) by (destruct kp; [congruence|reflexivity]).
  unfold tokenize_line, match_segments.
  rewrite segments_free by exact Hk. simpl app at 1.
  rewrite segments_sep by discriminate. rewrite Hkt.
  rewrite segments_value by auto. simpl app.
  rewrite <- (app_nil_r kp) at 2. rewrite segments_free by exact Hk.
  simpl app. rewrite segments_nil, Hkt. cbn [join].
  fold (match_segments 59 (escape s)). unfold match_segments at 1.
  rewrite segments_value by auto. simpl app. cbn [map].
  rewrite (proj1 (unesc_escape_inverse s Hn)).
  destruct (segments 59 false [] kp) as [|k ps]; [reflexivity|].
  cbn [obind]. destruct (map_outcome tokenize_prop ps); reflexivity.
Qed.

Lemma escape_text_sem (p s : jstring) :
  Forall (fun c => plain c = true) p ->
  escape_text (p ++ js "%SEM%" ++ s) = p ++ 59 :: escape_text s.
Proof.
  intros Hp. unfold escape_text.
  rewrite spread_plain, escape_units_name by exact Hp.
  change (js "%SEM%" ++ s) with (37 :: 83 :: 69 :: 77 :: 37 :: s).
  rewrite !spread_ascii by reflexivity.
  rewrite concat_app, concat_singletons. reflexivity.
Qed.

Lemma escape_text_com (p s : jstring) :
  Forall (fun c => plain c = true) p ->
  escape_text (p ++ js "%COM%" ++ s) = p ++ 44 :: escape_text s.
Proof.
  intros Hp. unfold escape_text.
  rewrite spread_plain, escape_units_name by exact Hp.
  change (js "%COM%" ++ s) with (37 :: 67 :: 79 :: 77 :: 37 :: s).
  rewrite !spread_ascii by reflexivity.
  rewrite concat_app, concat_singletons. reflexivity.
Qed.

Ltac plain_word := solve [repeat constructor].
Ltac free_word :=
  solve [repeat (constructor; [split; discriminate|]); constructor].

(** The line of an email address. *)
Lemma email_line (ver : Z) (e : Email) :
  ver = 3%Z \/ ver = 4%Z -> safe (em_email e) ->
  tokenize_line (logical (render_email ver e))
  = Return (MkToken (js "EMAIL")
              (if (ver =? 4)%Z
               then if em_pref e then [MkParam (js "PREF") [js "1"]] else []
               else [MkParam (js "TYPE")
                       (js "internet"
                        :: if em_pref e then [js "pref"] else [])])
              [em_email e]).
Proof.
  intros Hver (Hs0 & Hs & Hn). unfold logical, render_email.
  rewrite formatTextValue_unfold.
  destruct Hver as [-> | ->]; destruct (em_pref e); cbv iota beta zeta;
    change (3 =? 4)%Z with false; change (4 =? 4)%Z with true; cbv iota.
  - change ((js "EMAIL" ++ js "%SEM%TYPE=internet") ++ js "%COM%pref")
      with (js "EMAIL" ++ js "%SEM%" ++ js "TYPE=internet" ++ js "%COM%" ++ js "pref").
    rewrite <- !app_assoc.
    rewrite escape_text_sem, escape_text_com, escape_text_name by plain_word.
    rewrite escape_text_escape by exact Hs.
    change (js "EMAIL" ++ 59 :: js "TYPE=internet" ++ 44 :: js "pref" ++ 58 :: escape (em_email e))
      with (js "EMAIL;TYPE=internet,pref" ++ 58 :: escape (em_email e)).
    rewrite tokenize_params by (auto; try discriminate; free_word).
    reflexivity.
  - change (js "EMAIL" ++ js "%SEM%TYPE=internet")
      with (js "EMAIL" ++ js "%SEM%" ++ js "TYPE=internet").
    rewrite <- !app_assoc.
    rewrite escape_text_sem, escape_text_name by plain_word.
    rewrite escape_text_escape by exact Hs.
    change (js "EMAIL" ++ 59 :: js "TYPE=internet" ++ 58 :: escape (em_email e))
      with (js "EMAIL;TYPE=internet" ++ 58 :: escape (em_email e)).
    rewrite tokenize_params by (auto; try discriminate; free_word).
    reflexivity.
  - change (js "EMAIL" ++ js "%SEM%PREF=1")
      with (js "EMAIL" ++ js "%SEM%" ++ js "PREF=1").
    rewrite <- !app_assoc.
    rewrite escape_text_sem, escape_text_name by plain_word.
    rewrite escape_text_escape by exact Hs.
    change (js "EMAIL" ++ 59 :: js "PREF=1" ++ 58 :: escape (em_email e))
      with (js "EMAIL;PREF=1" ++ 58 :: escape (em_email e)).
    rewrite tokenize_params by (auto; try discriminate; free_word).
    reflexivity.
  - rewrite escape_text_name by plain_word.
    rewrite escape_text_escape by exact Hs.
    rewrite tokenize_params by (auto; try discriminate; free_word).
    reflexivity.
Qed.

(** X14. The line that [render] makes of an email entry is read back, in a
    contact of the same version, as the [setEmail] call of that entry: the
    address and the preference come back, under version 3 from the TYPE
    parameter and under version 4 from the PREF parameter. *)
Theorem email_line_round_trip (ver : Z) (e : Email) (v : VCard.VCard) :
  ver = 3%Z \/ ver = 4%Z -> specVersion v = ver -> safe (em_email e) ->
  exists tok,
    tokenize_line (logical (render_email ver e)) = Return tok
    /\ parseToken tok v = setEmail (em_email e) (em_pref e) v.
Proof.
  intros Hver Hv Hs. eexists. split; [exact (email_line ver e Hver Hs)|].
  change (parseToken ?t) with (parseEmailToken t).
  unfold parseEmailToken, bind, this. cbn [values props]. rewrite Hv.
  destruct Hver as [-> | ->]; destruct (em_pref e); reflexivity.
Qed.

Lemma email_line_round_trip_witness :
  exists tok,
    tokenize_line
      (logical (render_email 3 (MkEmail (js "pam@example.com") true)))
    = Return tok
    /\ parseToken tok (set_specVersion 3 new_VCard)
       = setEmail (js "pam@example.com") true (set_specVersion 3 new_VCard).
Proof.
  apply (email_line_round_trip 3 (MkEmail (js "pam@example.com") true)
           (set_specVersion 3 new_VCard)).
  - now left.
  - reflexivity.
  - apply safe_test_ok. vm_compute. reflexivity.
Defined.

(** The name and the parameters of a line are read apart from what follows
    the first colon. *)
Lemma tokenize_head (kp rest : jstring) :
  kp <> [] -> Forall (fun c => c <> 58 /\ c <> 92) kp ->
  tokenize_line (kp ++ 58 :: rest)
  = obind (tokenize_line kp)
      (fun t => Return
         (MkToken (key t) (props t)
            (map unesc
               (match_segments 59
                  (join (js ":") (match_segments 58 rest)))))).
Proof.
  intros Hk0 Hk.
  assert (Hkt : truthy kp = true) by (destruct kp; [congruence|reflexivity]).
  unfold tokenize_line, match_segments.
  rewrite segments_free by exact Hk. simpl app at 1.
  rewrite segments_sep by discriminate. rewrite Hkt. simpl app.
  rewrite <- (app_nil_r kp) at 2. rewrite segments_free by exact Hk.
  simpl app. rewrite segments_nil, Hkt.
  destruct (segments 59 false [] kp) as [|k ps]; [reflexivity|].
  cbn [obind]. destruct (map_outcome tokenize_prop ps); reflexivity.
Qed.

Lemma unesc_prefix (p t : jstring) :
  ~ In 92 p -> unesc (p ++ t) = p ++ unesc t.
Proof.
  intros H. unfold unesc, BSL. now rewrite !replace2_skip by exact H.
Qed.

Lemma split_on_prefix (sep : N) (p t : jstring) :
  ~ In sep p -> split_on sep (p ++ sep :: t) = p :: split_on sep t.
Proof.
  induction p as [|c p IH]; intros H.
  - simpl. now rewrite N.eqb_refl.
  - simpl app. cbn [split_on].
    assert (Hc : (c =? sep) = false).
    { apply N.eqb_neq. intros ->. apply H. now left. }
    rewrite Hc, IH; [reflexivity|]. intros Hin. apply H. now right.
Qed.

Lemma plain_free (d : N) (p : jstring) :
  d = 58 \/ d = 59 \/ d = 44 -> Forall (fun c => plain c = true) p ->
  Forall (fun c => c <> d /\ c <> 92) p.
Proof.
  intros Hd H. induction H as [|c p Hc _ IH]; constructor; [|exact IH].
  apply plain_cases in Hc as (_ & H1 & H2 & H3 & H4 & _).
  destruct Hd as [-> | [-> | ->]]; auto.
Qed.

Lemma im_protocols_plain (p : jstring) :
  In p im_protocols -> p <> [] /\ Forall (fun c => plain c = true) p.
Proof.
  unfold im_protocols. simpl.
  intros H.
  repeat (destruct H as [<-|H]; [split; [discriminate | repeat constructor]|]).
  contradiction.
Qed.

(** The line of an instant messaging address. *)
Lemma impp_line (i : Impp) (u : jstring) :
  In (im_protocol i) im_protocols -> im_imurl i = Some u -> safe u ->
  tokenize_line (logical (render_impp i))
  = Return (MkToken (js "IMPP")
              (if im_pref i then [MkParam (js "PREF") [js "1"]] else [])
              [im_protocol i ++ 58 :: u]).
Proof.
  intros Hp Hu (Hs0 & Hs & Hn). unfold logical, render_impp.
  rewrite formatTextValue_unfold, Hu. cbn [tmpl].
  apply im_protocols_plain in Hp as [Hp0 Hp].
  assert (Hval : map unesc
                   (match_segments 59
                      (join (js ":")
                         (match_segments 58 (im_protocol i ++ 58 :: escape u))))
                 = [im_protocol i ++ 58 :: u]).
  { unfold match_segments.
    rewrite segments_plain by auto. simpl app at 1.
    rewrite segments_sep by discriminate.
    assert (Ht : truthy (im_protocol i) = true)
      by (destruct (im_protocol i); [congruence|reflexivity]).
    rewrite Ht, segments_value by auto. simpl app. cbn [join].
    change (js ":" ++ escape u) with (58 :: escape u).
    rewrite segments_plain by auto. simpl app at 1.
    change (segments 59 false (im_protocol i) (58 :: escape u))
      with (segments 59 false (im_protocol i ++ [58]) (escape u)).
    rewrite segments_value by auto. cbn [map].
    rewrite <- !app_assoc. simpl app.
    rewrite unesc_prefix by now apply plain_no_backslash.
    change (58 :: escape u) with ([58] ++ escape u).
    rewrite unesc_prefix by (intros [E|[]]; discriminate).
    now rewrite (proj1 (unesc_escape_inverse u Hn)). }
  destruct (im_pref i); cbv iota.
  - change (js "IMPP" ++ js "%SEM%PREF=1")
      with (js "IMPP" ++ js "%SEM%" ++ js "PREF=1").
    rewrite <- !app_assoc.
    rewrite escape_text_sem, escape_text_name by plain_word.
    rewrite escape_text_name, escape_text_escape by auto.
    change (js "IMPP" ++ 59 :: js "PREF=1" ++ 58 :: ?r)
      with (js "IMPP;PREF=1" ++ 58 :: r).
    rewrite tokenize_head by (try discriminate; free_word).
    rewrite Hval. reflexivity.
  - rewrite escape_text_name by plain_word.
    rewrite escape_text_name, escape_text_escape by auto.
    rewrite tokenize_head by (try discriminate; free_word).
    rewrite Hval. reflexivity.
Qed.



Lemma gender_codes_plain (g : jstring) :
  In g gender_codes -> g <> [] /\ Forall (fun c => plain c = true) g.
Proof.
  unfold gender_codes. simpl. intros H.
  repeat (destruct H as [<-|H]; [split; [discriminate | repeat constructor]|]).
  contradiction.
Qed.

(** The GENDER line. *)
Lemma gender_line (c : VCard.VCard) (g : jstring) :
  gender c = Some g -> In g gender_codes ->
  (forall i, gender_ident c = Some i -> i = [] \/ safe i) ->
  exists s,
    render_gender c = [formatTextValue (js "GENDER%COL%" ++ s)]
    /\ tokenize_line (logical (formatTextValue (js "GENDER%COL%" ++ s)))
       = Return (MkToken (js "GENDER") []
                   (g :: match gender_ident c with
                         | Some i => if truthy i then [i] else []
                         | None => []
                         end)).
Proof.
  intros Hg Hin Hi. apply gender_codes_plain in Hin as [Hg0 Hgp].
  assert (Hgt : truthy g = true) by (destruct g; [congruence|reflexivity]).
  assert (Hone : tokenize_line
                   (logical (formatTextValue (js "GENDER%COL%" ++ g)))
                 = Return (MkToken (js "GENDER") [] [g])).
  { apply (tokenize_value_line (js "GENDER") g); try discriminate;
      try plain_word; auto.
    - intros H. rewrite List.Forall_forall in Hgp. apply Hgp in H.
      discriminate.
    - intros l1 l2 E. apply (plain_no_backslash g Hgp). rewrite E.
      apply in_or_app. right. now left. }
  unfold render_gender. rewrite Hg. cbn [truthy_opt tmpl]. rewrite Hgt.
  destruct (gender_ident c) as [i|] eqn:Ei; cbn [truthy_opt tmpl];
    [destruct (truthy i) eqn:Et|].
  - destruct (Hi i eq_refl) as [-> | (Hs0 & Hs & Hn)]; [discriminate|].
    eexists. split; [reflexivity|].
    unfold logical. rewrite formatTextValue_unfold.
    change (js "GENDER%COL%" ++ ?r) with (js "GENDER" ++ js "%COL%" ++ r).
    rewrite escape_text_name by plain_word.
    rewrite escape_text_sem, escape_text_escape by auto.
    rewrite tokenize_head by (try discriminate; free_word).
    change (tokenize_line (js "GENDER"))
      with (Return (MkToken (js "GENDER") [] [])).
    cbn [obind key props].
    assert (Hval : map unesc
                     (match_segments 59
                        (join (js ":") (match_segments 58 (g ++ 59 :: escape i))))
                   = [g; i]).
    { unfold match_segments.
      rewrite segments_plain by auto. simpl app at 1.
      change (segments 58 false g (59 :: escape i))
        with (segments 58 false (g ++ [59]) (escape i)).
      rewrite segments_value by auto. cbn [join].
      rewrite <- !app_assoc. simpl app.
      rewrite segments_plain by auto. simpl app at 1.
      rewrite segments_sep by discriminate. rewrite Hgt.
      rewrite segments_value by auto. simpl app. cbn [map].
      rewrite unesc_plain by now apply plain_no_backslash.
      now rewrite (proj1 (unesc_escape_inverse i Hn)). }
    rewrite Hval. reflexivity.
  - exists g. split; [reflexivity | exact Hone].
  - exists g. split; [reflexivity | exact Hone].
Qed.



(** ** Telephone lines *)

Lemma escape_text_plain (p s : jstring) :
  Forall (fun c => plain c = true) p ->
  escape_text (p ++ s) = p ++ escape_text s.
Proof.
  intros Hp. unfold escape_text.
  rewrite spread_plain, escape_units_name by exact Hp.
  now rewrite concat_app, concat_singletons.
Qed.

Lemma escape_text_word (p : jstring) :
  Forall (fun c => plain c = true) p -> escape_text p = p.
Proof.
  intros Hp. rewrite <- (app_nil_r p) at 1.
  rewrite escape_text_plain by exact Hp. apply app_nil_r.
Qed.

(** Words joined by comma tokens are escaped as the words joined by
    commas. *)
Lemma escape_text_join (ws : list jstring) (s : jstring) :
  Forall (fun w => Forall (fun c => plain c = true) w) ws ->
  escape_text (join (js "%COM%") ws ++ s) = join (js ",") ws ++ escape_text s.
Proof.
  induction 1 as [|w ws Hw Hws IH]; [reflexivity|].
  destruct ws as [|w' ws].
  - cbn [join]. now apply escape_text_plain.
  - rewrite !join_cons2, <- !app_assoc.
    rewrite escape_text_com by exact Hw.
    exact (f_equal (fun x => w ++ 44 :: x) IH).
Qed.

(** The pieces of words joined by a delimiter are the words. *)
Lemma match_segments_join (d : N) (ws : list jstring) :
  d <> 92 ->
  Forall (fun w => w <> [] /\ Forall (fun c => c <> d /\ c <> 92) w) ws ->
  match_segments d (join [d] ws) = ws.
Proof.
  intros Hd. induction 1 as [|w ws [Hw0 Hw] Hws IH]; [reflexivity|].
  assert (Ht : truthy w = true) by (destruct w; [congruence|reflexivity]).
  unfold match_segments in *. destruct ws as [|w' ws].
  - cbn [join]. rewrite <- (app_nil_r w) at 1.
    rewrite segments_free by exact Hw. simpl app.
    now rewrite segments_nil, Ht.
  - rewrite join_cons2. rewrite segments_free by exact Hw. simpl app.
    rewrite segments_sep by exact Hd. rewrite Ht.
    exact (f_equal (cons w) IH).
Qed.

Lemma tel_types_plain (ty : jstring) :
  In ty tel_types -> ty <> [] /\ Forall (fun c => plain c = true) ty.
Proof.
  unfold tel_types. simpl. intros H.
  repeat (destruct H as [<-|H]; [split; [discriminate | repeat constructor]|]).
  contradiction.
Qed.

Lemma digits_plain (d : jstring) :
  Forall (fun c => is_digit c = true) d -> Forall (fun c => plain c = true) d.
Proof.
  induction 1 as [|c d Hc _ IH]; constructor; [|exact IH].
  unfold is_digit in Hc. apply andb_true_iff in Hc as [H1 H2].
  apply N.leb_le in H1, H2. unfold plain. apply andb_true_iff. split.
  - apply N.ltb_lt. lia.
  - cbn [existsb]. rewrite !orb_false_r.
    repeat match goal with
           | |- context [c =? ?k] =>
               replace (c =? k) with false by (symmetry; apply N.eqb_neq; lia)
           end.
    reflexivity.
Qed.

Lemma digits_of_digits (d : jstring) :
  Forall (fun c => is_digit c = true) d -> digits_of d = d.
Proof.
  unfold digits_of. induction 1 as [|c d Hc _ IH]; [reflexivity|].
  cbn [List.filter]. now rewrite Hc, IH.
Qed.

Lemma digits_of_app (a b : jstring) :
  digits_of (a ++ b) = digits_of a ++ digits_of b.
Proof. apply List.filter_app. Qed.

Lemma digits_of_all (s : jstring) :
  Forall (fun c => is_digit c = true) (digits_of s).
Proof.
  apply List.Forall_forall. intros c H. unfold digits_of in H.
  now apply List.filter_In in H.
Qed.

(** The three groups of a number of at most ten digits make up the
    number. *)
Lemma ph_groups (d : jstring) :
  (length d <= 10)%nat ->
  firstn 3 d ++ firstn 3 (skipn 3 d) ++ firstn 4 (skipn 6 d) = d.
Proof.
  intros H.
  rewrite <- (firstn_skipn 3 d) at 4. f_equal.
  rewrite <- (firstn_skipn 3 (skipn 3 d)) at 2. f_equal.
  rewrite List.skipn_skipn. simpl Nat.add.
  apply List.firstn_all2. rewrite List.length_skipn. lia.
Qed.

Lemma ph_number_plain (phone : jstring) :
  Forall (fun c => plain c = true) (ph_number phone).
Proof.
  unfold ph_number, ph_parts.
  pose proof (digits_of_all phone) as H.
  apply (Forall_take _ 10%nat) in H.
  set (d := firstn 10 (digits_of phone)) in *.
  repeat apply Forall_app_2; try plain_word;
    apply digits_plain; auto using Forall_take, Forall_drop.
Qed.

Lemma ph_number_digits (phone : jstring) :
  digits_of (ph_number phone) = 49 :: firstn 10 (digits_of phone).
Proof.
  unfold ph_number, ph_parts.
  pose proof (digits_of_all phone) as H.
  apply (Forall_take _ 10%nat) in H.
  assert (Hl : (length (firstn 10 (digits_of phone)) <= 10)%nat)
    by apply List.firstn_le_length.
  set (d := firstn 10 (digits_of phone)) in *.
  rewrite !digits_of_app.
  change (digits_of (js "+1-")) with [49].
  change (digits_of (js "-")) with (@nil N).
  rewrite !digits_of_digits by auto using Forall_take, Forall_drop.
  simpl app. f_equal. now apply ph_groups.
Qed.

Lemma ph_number_nonnil (phone : jstring) : ph_number phone <> [].
Proof. unfold ph_number, ph_parts. discriminate. Qed.

(** The number of the token of a TEL line. *)
Lemma ph_back_spec (pre : jstring) (phone : jstring) :
  digits_of pre = [] ->
  (let p := digits_of (pre ++ ph_number phone) in
   if (length p =? 11)%nat && jstr_eqb (firstn 1 p) (js "1")
   then skipn 1 p else p) = ph_back phone.
Proof.
  intros Hpre. cbv zeta. rewrite digits_of_app, Hpre, ph_number_digits.
  unfold ph_back. simpl app.
  set (d := firstn 10 (digits_of phone)).
  change (Nat.eqb (length (49 :: d)) 11) with (Nat.eqb (length d) 10).
  destruct (Nat.eqb (length d) 10); reflexivity.
Qed.

Lemma ph_back_whole (phone : jstring) :
  length phone = 10%nat -> Forall (fun c => is_digit c = true) phone ->
  ph_back phone = phone.
Proof.
  intros Hl Hd. unfold ph_back. rewrite digits_of_digits by exact Hd.
  rewrite List.firstn_all2 by lia. now rewrite Hl.
Qed.

(** A delimiter after a text without backslash ends the last piece of the
    text. *)
Lemma segments_snoc (d : N) (cur p x : jstring) :
  d <> 92 -> ~ In 92 p ->
  segments d false cur (p ++ d :: x)
  = segments d false cur p ++ segments d false [] x.
Proof.
  intros Hd. revert cur. induction p as [|c p IH]; intros cur Hp.
  - cbn [app]. rewrite segments_sep by exact Hd. reflexivity.
  - simpl app. cbn [segments]. unfold BSL.
    assert (Hc : (c =? 92) = false).
    { apply N.eqb_neq. intros ->. apply Hp. now left. }
    rewrite Hc. cbn [andb].
    assert (Hp' : ~ In 92 p) by (intros H; apply Hp; now right).
    destruct (c =? d); [destruct (truthy cur)|]; rewrite IH by exact Hp';
      reflexivity.
Qed.

Lemma map_outcome_snoc {A B} (f : A -> outcome B) (xs : list A) (x : A) :
  map_outcome f (xs ++ [x])
  = obind (map_outcome f xs) (fun ys =>
    obind (f x) (fun y => Return (ys ++ [y]))).
Proof.
  induction xs as [|a xs IH]; simpl.
  - destruct (f x); reflexivity.
  - destruct (f a); [|reflexivity]. simpl. rewrite IH.
    destruct (map_outcome f xs); [|reflexivity]. simpl.
    destruct (f x); reflexivity.
Qed.

Lemma free_no_backslash (d : N) (p : jstring) :
  Forall (fun c => c <> d /\ c <> 92) p -> ~ In 92 p.
Proof.
  intros H Hin. rewrite List.Forall_forall in H. apply H in Hin as [_ Hin].
  congruence.
Qed.

(** One more parameter after the name and the parameters of a line. *)
Lemma tokenize_line_snoc (kp x : jstring) (tok : Token) (p : Param) :
  tokenize_line kp = Return tok -> tokenize_prop x = Return p ->
  kp <> [] -> Forall (fun c => c <> 58 /\ c <> 92) kp ->
  x <> [] -> Forall (fun c => c <> 59 /\ c <> 92) x ->
  Forall (fun c => c <> 58) x ->
  tokenize_line (kp ++ 59 :: x)
  = Return (MkToken (key tok) (props tok ++ [p]) (values tok)).
Proof.
  intros Hkp Hx Hk0 Hk Hx0 Hxf Hxc.
  assert (Hkt : truthy kp = true) by (destruct kp; [congruence|reflexivity]).
  assert (Hxt : truthy x = true) by (destruct x; [congruence|reflexivity]).
  assert (Hall : Forall (fun c => c <> 58 /\ c <> 92) (kp ++ 59 :: x)).
  { apply Forall_app_2; [exact Hk|]. constructor; [split; discriminate|].
    rewrite List.Forall_forall in *. intros c Hc. split.
    - now apply Hxc. - now apply Hxf. }
  unfold tokenize_line, match_segments in *.
  rewrite <- (app_nil_r (kp ++ 59 :: x)) at 1.
  rewrite segments_free by exact Hall.
  rewrite <- (app_nil_r kp) in Hkp at 1.
  rewrite segments_free in Hkp by exact Hk.
  simpl app in *. rewrite segments_nil in *. rewrite Hkt in Hkp.
  assert (Ht2 : truthy (kp ++ 59 :: x) = true) by (destruct kp; reflexivity).
  rewrite Ht2. cbn [join] in *.
  rewrite segments_snoc by
    (try discriminate; now apply (free_no_backslash 58)).
  rewrite <- (app_nil_r x) at 1. rewrite segments_free by exact Hxf.
  simpl app. rewrite segments_nil, Hxt.
  destruct (segments 59 false [] kp) as [|k ps]; [discriminate|].
  simpl app. cbv iota. rewrite map_outcome_snoc.
  destruct (map_outcome tokenize_prop ps) as [qs|e]; [|discriminate].
  cbn [obind] in *. injection Hkp as <-. rewrite Hx. reflexivity.
Qed.

(** A word of a TYPE parameter: not empty, of plain code units, without
    equals sign. *)
Lemma join_Forall (P : N -> Prop) (sep : jstring) (ws : list jstring) :
  Forall P sep -> Forall (Forall P) ws -> Forall P (join sep ws).
Proof.
  intros Hsep. induction 1 as [|w ws Hw Hws IH]; [constructor|].
  destruct ws as [|w' ws]; [exact Hw|].
  rewrite join_cons2. apply Forall_app_2; [exact Hw|].
  apply Forall_app_2; [exact Hsep | exact IH].
Qed.

Lemma tokenize_type_prop (ws : list jstring) :
  ws <> [] ->
  Forall (fun w => w <> []
                   /\ Forall (fun c => plain c = true /\ c <> 61) w) ws ->
  tokenize_prop (js "TYPE=" ++ join (js ",") ws)
  = Return (MkParam (js "TYPE") ws)
  /\ Forall (fun c => c <> 59 /\ c <> 92) (js "TYPE=" ++ join (js ",") ws)
  /\ Forall (fun c => c <> 58 /\ c <> 92) (js "TYPE=" ++ join (js ",") ws).
Proof.
  intros Hws0 Hws.
  set (J := join (js ",") ws).
  assert (HJ : Forall (fun c => c <> 61 /\ c <> 92 /\ c <> 59 /\ c <> 58) J).
  { apply join_Forall; [repeat constructor; discriminate|].
    eapply List.Forall_impl; [|exact Hws]. intros w [_ Hw].
    eapply List.Forall_impl; [|exact Hw]. intros c [Hc Hc'].
    apply plain_cases in Hc. tauto. }
  assert (HJ0 : truthy J = true).
  { unfold J. destruct ws as [|w ws]; [congruence|].
    apply List.Forall_inv in Hws as [Hw _].
    destruct w as [|c w]; [congruence|]. destruct ws; reflexivity. }
  split; [|split].
  - unfold tokenize_prop, match_segments.
    change (js "TYPE=" ++ J) with (js "TYPE" ++ 61 :: J).
    rewrite segments_snoc by (discriminate || (vm_compute; intuition discriminate)).
    change (segments 61 false [] (js "TYPE")) with [js "TYPE"].
    rewrite <- (app_nil_r J) at 1.
    rewrite segments_free
      by (eapply List.Forall_impl; [|exact HJ]; cbv beta; tauto).
    cbn [app]. rewrite segments_nil, HJ0.
    fold (match_segments 44 J). unfold J.
    change (js ",") with [44].
    rewrite match_segments_join.
    + destruct ws as [|w ws]; [congruence|].
      change (unesc (js "TYPE")) with (js "TYPE"). do 2 f_equal.
      clear -Hws. induction Hws as [|x xs [_ Hx] _ IH]; [reflexivity|].
      cbn [map]. rewrite IH. f_equal. apply unesc_plain.
      intros Hin. rewrite List.Forall_forall in Hx. apply Hx in Hin as [Hin _].
      discriminate.
    + discriminate.
    + eapply List.Forall_impl; [|exact Hws]. intros w [Hw0 Hw].
      split; [exact Hw0|].
      eapply List.Forall_impl; [|exact Hw]. intros c [Hc _].
      apply plain_cases in Hc. tauto.
  - apply Forall_app_2; [free_word|].
    eapply List.Forall_impl; [|exact HJ]; cbv beta; tauto.
  - apply Forall_app_2; [free_word|].
    eapply List.Forall_impl; [|exact HJ]; cbv beta; tauto.
Qed.

Lemma tel_types_word (ty : jstring) :
  In ty tel_types ->
  ty <> [] /\ Forall (fun c => plain c = true /\ c <> 61) ty.
Proof.
  unfold tel_types. simpl. intros H.
  repeat (destruct H as [<-|H];
          [split; [discriminate | repeat constructor; discriminate]|]).
  contradiction.
Qed.

(** The values of a TEL line of version 4. *)
Lemma tel_values (n ext : jstring) :
  n <> [] -> Forall (fun c => plain c = true) n ->
  map unesc
    (match_segments 59 (join (js ":") (match_segments 58 (js "tel" ++ 58 :: n))))
  = [js "tel:" ++ n]
  /\ (safe ext ->
      map unesc
        (match_segments 59
           (join (js ":")
              (match_segments 58
                 (js "tel" ++ 58 :: n ++ 59 :: js "ext=" ++ escape ext))))
      = [js "tel:" ++ n; js "ext=" ++ ext]).
Proof.
  intros Hn0 Hn.
  assert (Hnt : truthy n = true) by (destruct n; [congruence|reflexivity]).
  assert (Hnb : ~ In 92 n) by now apply plain_no_backslash.
  assert (Htn : ~ In 92 (js "tel:" ++ n)).
  { intros H. apply in_app_or in H as [H|H]; [|auto].
    vm_compute in H. intuition discriminate. }
  assert (Htn' : truthy (js "tel:" ++ n) = true) by reflexivity.
  unfold match_segments. split.
  - rewrite segments_snoc by (discriminate || (vm_compute; intuition discriminate)).
    change (segments 58 false [] (js "tel")) with [js "tel"].
    rewrite <- (app_nil_r n) at 1. rewrite segments_plain by auto.
    cbn [app]. rewrite segments_nil, Hnt. cbn [join].
    change (js "tel" ++ js ":" ++ n) with (js "tel:" ++ n).
    rewrite <- (app_nil_r (js "tel:" ++ n)) at 1.
    rewrite segments_free.
    + cbn [app]. rewrite segments_nil, Htn'. cbn [map].
      now rewrite unesc_plain by exact Htn.
    + apply Forall_app_2; [free_word|]. now apply plain_free; auto.
  - intros (He0 & He & Hen).
    rewrite segments_snoc by (discriminate || (vm_compute; intuition discriminate)).
    change (segments 58 false [] (js "tel")) with [js "tel"].
    rewrite segments_plain by auto. cbn [app].
    change (59 :: js "ext=" ++ escape ext)
      with (js ";ext=" ++ escape ext).
    rewrite segments_free by free_word.
    rewrite segments_value by auto. cbn [app join].
    change (js "tel" ++ js ":" ++ ?r) with (js "tel:" ++ r).
    rewrite <- !app_assoc.
    change (js "tel:" ++ n ++ js ";ext=" ++ escape ext)
      with ((js "tel:" ++ n) ++ 59 :: js "ext=" ++ escape ext).
    rewrite segments_snoc by (discriminate || exact Htn).
    rewrite <- (app_nil_r (js "tel:" ++ n)) at 1.
    rewrite segments_free
      by (apply Forall_app_2; [free_word | now apply plain_free; auto]).
    cbn [app]. rewrite segments_nil, Htn'.
    rewrite segments_free by free_word.
    rewrite segments_value by auto. cbn [app map].
    rewrite unesc_plain by exact Htn.
    change (101 :: 120 :: 116 :: 61 :: escape ext) with (js "ext=" ++ escape ext).
    rewrite unesc_prefix by (vm_compute; intuition discriminate).
    now rewrite (proj1 (unesc_escape_inverse ext Hen)).
Qed.

Lemma escape_text_col (s : jstring) :
  escape_text (js "%COL%" ++ s) = 58 :: escape_text s.
Proof. exact (escape_text_name [] s (List.Forall_nil _)). Qed.

(** The name and the parameters of a TEL line of version 4. *)
Lemma tel_key4 (pref : bool) (types : list jstring) :
  Forall (fun ty => In ty tel_types) types ->
  let P := if pref then js "TEL;VALUE=uri;PREF=1" else js "TEL;VALUE=uri" in
  let kp := match types with
            | [] => P
            | _ => P ++ 59 :: js "TYPE=" ++ join (js ",") types
            end in
  kp <> [] /\ Forall (fun c => c <> 58 /\ c <> 92) kp
  /\ tokenize_line kp
     = Return (MkToken (js "TEL")
                 ((MkParam (js "VALUE") [js "uri"]
                   :: if pref then [MkParam (js "PREF") [js "1"]] else [])
                  ++ match types with
                     | [] => []
                     | _ => [MkParam (js "TYPE") types]
                     end)
                 []).
Proof.
  intros Hty. cbv zeta.
  assert (HP : forall P tokP,
             P <> [] -> Forall (fun c => c <> 58 /\ c <> 92) P ->
             tokenize_line P = Return tokP ->
             let kp := match types with
                       | [] => P
                       | _ => P ++ 59 :: js "TYPE=" ++ join (js ",") types
                       end in
             kp <> [] /\ Forall (fun c => c <> 58 /\ c <> 92) kp
             /\ tokenize_line kp
                = Return (MkToken (key tokP)
                            (props tokP
                             ++ match types with
                                | [] => []
                                | _ => [MkParam (js "TYPE") types]
                                end)
                            (values tokP))).
  { intros P tokP HP0 HPf HPt. cbv zeta.
    destruct types as [|ty tys].
    - rewrite app_nil_r. destruct tokP. auto.
    - cbv iota. set (types := ty :: tys) in *.
      assert (Hw : Forall (fun w => w <> []
                     /\ Forall (fun c => plain c = true /\ c <> 61) w) types).
      { eapply List.Forall_impl; [|exact Hty]. intros w. apply tel_types_word. }
      destruct (tokenize_type_prop types) as (Hp & Hf59 & Hf58);
        [unfold types; discriminate | exact Hw |].
      split; [destruct P; [congruence|discriminate]|]. split.
      + apply Forall_app_2; [exact HPf|].
        constructor; [split; discriminate | exact Hf58].
      + apply (tokenize_line_snoc P _ tokP _ HPt Hp); auto;
          try discriminate.
        eapply List.Forall_impl; [|exact Hf58]. cbv beta. tauto. }
  destruct pref.
  - apply (HP (js "TEL;VALUE=uri;PREF=1")
             (MkToken (js "TEL")
                [MkParam (js "VALUE") [js "uri"]; MkParam (js "PREF") [js "1"]]
                [])); [discriminate | free_word | reflexivity].
  - apply (HP (js "TEL;VALUE=uri")
             (MkToken (js "TEL") [MkParam (js "VALUE") [js "uri"]] []));
      [discriminate | free_word | reflexivity].
Qed.

Lemma tel_types_plain_all (types : list jstring) :
  Forall (fun ty => In ty tel_types) types ->
  Forall (fun w => Forall (fun c => plain c = true) w) types.
Proof.
  intros H. eapply List.Forall_impl; [|exact H].
  intros w Hw. now apply tel_types_plain.
Qed.

(** The TEL line of version 4. *)
Lemma tel_line4 (t : Tel) :
  Forall (fun ty => In ty tel_types) (tel_type t) ->
  tel_ext t = [] \/ safe (tel_ext t) ->
  tokenize_line (logical (render_tel 4 t))
  = Return (MkToken (js "TEL")
              ((MkParam (js "VALUE") [js "uri"]
                :: if tel_pref t then [MkParam (js "PREF") [js "1"]] else [])
               ++ match tel_type t with
                  | [] => []
                  | _ => [MkParam (js "TYPE") (tel_type t)]
                  end)
              ((js "tel:" ++ ph_number (tel_phone t))
               :: if truthy (tel_ext t) then [js "ext=" ++ tel_ext t]
                  else [])).
Proof.
  intros Hty Hext.
  pose proof (tel_key4 (tel_pref t) (tel_type t) Hty) as Hkey.
  pose proof (tel_types_plain_all _ Hty) as Hpl.
  pose proof (ph_number_plain (tel_phone t)) as Hn.
  pose proof (ph_number_nonnil (tel_phone t)) as Hn0.
  destruct (tel_values (ph_number (tel_phone t)) (tel_ext t) Hn0 Hn)
    as [Hv1 Hv2].
  unfold logical, render_tel, ph_parts.
  change (4 =? 4)%Z with true. change (4 =? 3)%Z with false.
  cbv beta iota zeta.
  rewrite formatTextValue_unfold.
  set (n := js "+1-" ++ _ ++ js "-" ++ _ ++ js "-" ++ _).
  assert (En : n = ph_number (tel_phone t)) by reflexivity.
  clearbody n. subst n.
  set (n := ph_number (tel_phone t)) in *.
  change (js "%SEM%VALUE=uri") with (js "%SEM%" ++ js "VALUE=uri").
  change (js "%SEM%PREF=1") with (js "%SEM%" ++ js "PREF=1").
  change (js "%SEM%TYPE=") with (js "%SEM%" ++ js "TYPE=").
  change (js "%COL%tel%COL%") with (js "%COL%" ++ js "tel" ++ js "%COL%").
  change (js "%SEM%ext=") with (js "%SEM%" ++ js "ext=").
  cbv zeta in Hkey.
  destruct (tel_pref t); destruct (tel_type t) as [|ty tys];
    cbn [length Nat.eqb negb andb] in *; cbv iota;
    destruct Hkey as (Hk0 & Hkf & Hkt);
    (destruct Hext as [Hext | Hext];
     [ rewrite Hext; cbn [truthy]; cbv iota
     | pose proof Hext as (He0 & He & Hen);
       replace (truthy (tel_ext t)) with true
         by (destruct (tel_ext t); [congruence|reflexivity]);
       cbv iota; specialize (Hv2 Hext) ]);
    rewrite <- ?app_assoc;
    repeat first
      [ rewrite escape_text_sem by (exact Hn || plain_word)
      | rewrite escape_text_name by (exact Hn || plain_word)
      | rewrite escape_text_col
      | rewrite (escape_text_plain (js "TYPE=")) by plain_word;
        rewrite escape_text_join by exact Hpl
      | rewrite (escape_text_plain (js "ext=")) by plain_word;
        rewrite escape_text_escape by exact He
      | rewrite (escape_text_word n) by exact Hn ].
  all: match goal with
       | Hk : tokenize_line ?kp = _ |- tokenize_line ?L = _ =>
           match L with
           | context [escape _] =>
               change L with (kp ++ 58 :: js "tel" ++ 58 :: n ++ 59 :: js "ext=" ++ escape (tel_ext t))
           | _ => change L with (kp ++ 58 :: js "tel" ++ 58 :: n)
           end
       end.
  all: rewrite tokenize_head by assumption.
  all: rewrite Hkt; cbn [obind key props].
  all: first [rewrite Hv2 | rewrite Hv1]; reflexivity.
Qed.



(** The types of a version 3 TEL line are words, and none is [pref]. *)
Lemma ph_types3_words (types : list jstring) :
  Forall (fun w => (w <> []
                    /\ Forall (fun c => plain c = true /\ c <> 61) w)
                   /\ jstr_eqb (js "pref") w = false
                   /\ jstr_eqb w (js "pref") = false)
    (ph_types3 types).
Proof.
  assert (Hc : forall ty,
             default_arg [] (phone_type_map ty) = []
             \/ ((default_arg [] (phone_type_map ty) <> []
                  /\ Forall (fun c => plain c = true /\ c <> 61)
                       (default_arg [] (phone_type_map ty)))
                 /\ jstr_eqb (js "pref") (default_arg [] (phone_type_map ty))
                    = false
                 /\ jstr_eqb (default_arg [] (phone_type_map ty)) (js "pref")
                    = false)).
  { intros ty. unfold phone_type_map.
    repeat match goal with
           | |- context [if jstr_eqb ty ?w then _ else _] =>
               destruct (jstr_eqb ty w)
           end;
      cbn [default_arg]; try (left; reflexivity);
      (right; split;
       [split; [discriminate | repeat constructor; discriminate]
       | split; reflexivity]). }
  unfold ph_types3. induction types as [|ty types IH]; [constructor|].
  cbn [map List.filter].
  destruct (Hc ty) as [E | H].
  - rewrite E. exact IH.
  - destruct (default_arg [] (phone_type_map ty)) as [|c w] eqn:E;
      [now destruct H as [[H _] _]|].
    cbn [truthy]. constructor; [exact H | exact IH].
Qed.

Lemma pref_word :
  js "pref" <> []
  /\ Forall (fun c => plain c = true /\ c <> 61) (js "pref").
Proof. split; [discriminate | repeat constructor; discriminate]. Qed.

(** What the parser of version 3 makes of the types of a line. *)
Lemma pref_types (m : list jstring) (pref : bool) :
  Forall (fun w => jstr_eqb (js "pref") w = false
                   /\ jstr_eqb w (js "pref") = false) m ->
  let vs := if pref then m ++ [js "pref"] else m in
  existsb (jstr_eqb (js "pref")) vs = pref
  /\ List.filter (fun x => negb (jstr_eqb x (js "pref"))) vs = m.
Proof.
  intros Hm. cbv zeta.
  assert (H1 : existsb (jstr_eqb (js "pref")) m = false).
  { induction Hm as [|w m [Hw _] _ IH]; [reflexivity|].
    cbn [existsb]. now rewrite Hw, IH. }
  assert (H2 : List.filter (fun x => negb (jstr_eqb x (js "pref"))) m = m).
  { clear H1. induction Hm as [|w m [_ Hw] _ IH]; [reflexivity|].
    cbn [List.filter]. now rewrite Hw, IH. }
  destruct pref; [|auto].
  rewrite existsb_app, List.filter_app, H1, H2. split; [reflexivity|].
  change (List.filter _ [js "pref"]) with (@nil jstring).
  apply app_nil_r.
Qed.

(** The TEL line of version 3. *)
Lemma tel_line3 (t : Tel) :
  let ws := if tel_pref t then ph_types3 (tel_type t) ++ [js "pref"]
            else ph_types3 (tel_type t) in
  tokenize_line (logical (render_tel 3 t))
  = match tel_type t with
    | [] => Return (MkToken (js "TEL") [] [ph_number (tel_phone t)])
    | _ =>
        match ws with
        | [] => Throw TypeError
        | _ => Return (MkToken (js "TEL") [MkParam (js "TYPE") ws]
                         [ph_number (tel_phone t)])
        end
    end.
Proof.
  cbv zeta.
  pose proof (ph_number_plain (tel_phone t)) as Hn.
  pose proof (ph_number_nonnil (tel_phone t)) as Hn0.
  assert (Hv : map unesc
                 (match_segments 59
                    (join (js ":") (match_segments 58 (ph_number (tel_phone t)))))
               = [ph_number (tel_phone t)]).
  { unfold match_segments.
    rewrite (segments_name 58 (ph_number (tel_phone t))) by auto. cbn [join].
    rewrite (segments_name 59 (ph_number (tel_phone t))) by auto. cbn [map].
    now rewrite unesc_plain by now apply plain_no_backslash. }
  unfold logical, render_tel, ph_parts.
  change (3 =? 4)%Z with false. change (3 =? 3)%Z with true.
  cbv beta iota zeta. cbn [andb]. cbv iota.
  rewrite formatTextValue_unfold.
  set (n := js "+1-" ++ _ ++ js "-" ++ _ ++ js "-" ++ _).
  assert (En : n = ph_number (tel_phone t)) by reflexivity.
  clearbody n. subst n.
  set (n := ph_number (tel_phone t)) in *.
  fold (ph_types3 (tel_type t)).
  change (js "%SEM%TYPE=") with (js "%SEM%" ++ js "TYPE=").
  destruct (tel_type t) as [|ty tys] eqn:Ety; cbn [length Nat.eqb negb];
    cbv iota.
  - rewrite escape_text_name by plain_word.
    rewrite escape_text_word by exact Hn.
    rewrite tokenize_head by (try discriminate; free_word).
    fold n in Hv. rewrite Hv. reflexivity.
  - set (ws := if tel_pref t then ph_types3 (ty :: tys) ++ [js "pref"]
               else ph_types3 (ty :: tys)).
    assert (Hws : Forall (fun w => w <> []
                    /\ Forall (fun c => plain c = true /\ c <> 61) w) ws).
    { pose proof (ph_types3_words (ty :: tys)) as H.
      assert (H' : Forall (fun w => w <> []
                      /\ Forall (fun c => plain c = true /\ c <> 61) w)
                     (ph_types3 (ty :: tys))).
      { eapply List.Forall_impl; [|exact H]. cbv beta. tauto. }
      unfold ws. destruct (tel_pref t); [|exact H'].
      apply Forall_app_2; [exact H'|]. constructor; [exact pref_word|constructor]. }
    assert (Hpl : Forall (fun w => Forall (fun c => plain c = true) w) ws).
    { eapply List.Forall_impl; [|exact Hws]. intros w [_ Hw].
      eapply List.Forall_impl; [|exact Hw]. cbv beta. tauto. }
    rewrite <- !app_assoc.
    rewrite escape_text_sem by plain_word.
    rewrite (escape_text_plain (js "TYPE=")) by plain_word.
    rewrite escape_text_join by exact Hpl.
    rewrite escape_text_col, escape_text_word by exact Hn.
    destruct ws as [|w ws'] eqn:Ews.
    + cbn [join app].
      change (js "TEL" ++ 59 :: js "TYPE=" ++ 58 :: n)
        with (js "TEL;TYPE=" ++ 58 :: n).
      rewrite tokenize_head by (try discriminate; free_word).
      reflexivity.
    + rewrite <- Ews in *.
      destruct (tokenize_type_prop ws) as (Hp & Hf59 & Hf58);
        [rewrite Ews; discriminate | exact Hws |].
      change (js "TEL" ++ 59 :: js "TYPE=" ++ join (js ",") ws ++ 58 :: n)
        with ((js "TEL" ++ 59 :: js "TYPE=" ++ join (js ",") ws) ++ 58 :: n).
      rewrite tokenize_head.
      * rewrite (tokenize_line_snoc (js "TEL") _
                   (MkToken (js "TEL") [] []) _ eq_refl Hp);
          try discriminate; try free_word; auto.
        -- cbn [obind key props values app]. fold n in Hv. rewrite Hv.
           rewrite Ews. reflexivity.
        -- eapply List.Forall_impl; [|exact Hf58]. cbv beta. tauto.
      * discriminate.
      * apply Forall_app_2; [free_word|].
        constructor; [split; discriminate | exact Hf58].
Qed.

(** X18. Under version 3 the line of a phone entry with accepted types is
    read back as a [setPhone] call with the number as under version 4,
    without extension, and with the types as [render] maps them.  An entry without type loses
    its preference; the line of an entry that is not preferred and whose
    types all map to nothing has an empty TYPE parameter, on which the
    tokenizer throws a TypeError. *)
Theorem tel_line_version3 (t : Tel) (v : VCard.VCard) :
  specVersion v = 3%Z ->
  Forall (fun ty => In ty tel_types) (tel_type t) ->
  (tel_type t = [] ->
   exists tok,
     tokenize_line (logical (render_tel 3 t)) = Return tok
     /\ parseToken tok v
        = setPhone (ph_back (tel_phone t)) (Some []) (Some (TypeArray []))
            false v)
  /\ (tel_type t <> [] -> ph_types3 (tel_type t) = [] ->
      tel_pref t = false ->
      tokenize_line (logical (render_tel 3 t)) = Throw TypeError)
  /\ (tel_type t <> [] ->
      ph_types3 (tel_type t) <> [] \/ tel_pref t = true ->
      exists tok,
        tokenize_line (logical (render_tel 3 t)) = Return tok
        /\ parseToken tok v
           = setPhone (ph_back (tel_phone t)) (Some [])
               (Some (TypeArray (ph_types3 (tel_type t)))) (tel_pref t) v).
Proof.
  intros Hv _. pose proof (tel_line3 t) as H. cbv zeta in H.
  pose proof (ph_back_spec [] (tel_phone t) eq_refl) as Hb. cbv zeta in Hb.
  cbn [app] in Hb.
  split; [|split].
  - intros E. rewrite E in H. eexists. split; [exact H|].
    change (parseToken ?k) with (parsePhoneToken k).
    unfold parsePhoneToken, bind, this. cbn [values props]. rewrite Hv.
    change (3 =? 3)%Z with true. cbv iota zeta.
    change (tmpl (?l !! 0%nat)) with (ph_number (tel_phone t)).
    rewrite Hb. reflexivity.
  - intros E Em Ep. rewrite Em, Ep in H.
    destruct (tel_type t); [congruence | exact H].
  - intros E Hm.
    destruct (pref_types (ph_types3 (tel_type t)) (tel_pref t)) as [H1 H2].
    { eapply List.Forall_impl; [|apply ph_types3_words]. cbv beta. tauto. }
    cbv zeta in H1, H2.
    set (ws := if tel_pref t then ph_types3 (tel_type t) ++ [js "pref"]
               else ph_types3 (tel_type t)) in *.
    assert (Hws : ws <> []).
    { unfold ws. destruct Hm as [Hm | ->].
      - destruct (tel_pref t); [|exact Hm].
        destruct (ph_types3 (tel_type t)); discriminate.
      - destruct (ph_types3 (tel_type t)); discriminate. }
    destruct (tel_type t) as [|ty tys]; [congruence|].
    destruct ws as [|w ws'] eqn:Ews; [congruence|]. rewrite <- Ews in *.
    eexists. split; [exact H|].
    change (parseToken ?k) with (parsePhoneToken k).
    unfold parsePhoneToken, bind, this. cbn [values props]. rewrite Hv.
    change (3 =? 3)%Z with true. cbv iota zeta.
    change (tmpl (?l !! 0%nat)) with (ph_number (tel_phone t)).
    rewrite Hb.
    change (props_named (js "TYPE") ?k) with [MkParam (js "TYPE") ws].
    cbv iota. cbn [pvalues]. now rewrite H1, H2.
Qed.

Lemma tel_line_version3_witness :
  (exists tok,
     tokenize_line
       (logical (render_tel 3 (MkTel (js "5558675309") [] [] true)))
     = Return tok
     /\ parseToken tok (set_specVersion 3 new_VCard)
        = setPhone (ph_back (js "5558675309")) (Some []) (Some (TypeArray []))
            false (set_specVersion 3 new_VCard))
  /\ tokenize_line
       (logical (render_tel 3 (MkTel (js "5558675309") [] [js "textphone"]
                                  false)))
     = Throw TypeError
  /\ (exists tok,
        tokenize_line
          (logical (render_tel 3 (MkTel (js "5558675309") []
                                     [js "text"; js "voice"] true)))
        = Return tok
        /\ parseToken tok (set_specVersion 3 new_VCard)
           = setPhone (ph_back (js "5558675309")) (Some [])
               (Some (TypeArray [js "cell"; js "voice"])) true
               (set_specVersion 3 new_VCard)).
Proof.
  split; [|split].
  - apply (proj1 (tel_line_version3 (MkTel (js "5558675309") [] [] true)
                    (set_specVersion 3 new_VCard) eq_refl
                    (List.Forall_nil _))).
    reflexivity.
  - apply (proj1 (proj2 (tel_line_version3
                           (MkTel (js "5558675309") [] [js "textphone"] false)
                           (set_specVersion 3 new_VCard) eq_refl
                           ltac:(repeat constructor; vm_compute; tauto)))).
    + discriminate.
    + reflexivity.
    + reflexivity.
  - apply (proj2 (proj2 (tel_line_version3
                           (MkTel (js "5558675309") []
                              [js "text"; js "voice"] true)
                           (set_specVersion 3 new_VCard) eq_refl
                           ltac:(repeat constructor; vm_compute; tauto)))).
    + discriminate.
    + right. reflexivity.
Defined.

(** The line on which the tokenizer throws. *)
Example tel_textphone_line :
  render_tel 3 (MkTel (js "5558675309") [] [js "textphone"] false)
  = js "TEL;TYPE=:+1-555-867-5309"
  /\ tokenize_line (js "TEL;TYPE=:+1-555-867-5309") = Throw TypeError.
Proof. split; vm_compute; reflexivity. Qed.

(** ** Address lines *)

Lemma spread_app (s t : jstring) :
  starts_low t = false -> spread (s ++ t) = spread s ++ spread t.
Proof.
  intros Ht. induction s as [|c|c d l IHl IHdl] using list_ind2.
  - reflexivity.
  - destruct t as [|x t]; [reflexivity|]. simpl in Ht.
    change (spread ([c] ++ x :: t))
      with (if is_high c && is_low x then [c; x] :: spread t
            else [c] :: spread (x :: t)).
    now rewrite Ht, andb_false_r.
  - change (spread ((c :: d :: l) ++ t))
      with (if is_high c && is_low d then [c; d] :: spread (l ++ t)
            else [c] :: spread ((d :: l) ++ t)).
    change (spread (c :: d :: l))
      with (if is_high c && is_low d then [c; d] :: spread l
            else [c] :: spread (d :: l)).
    rewrite IHl, IHdl. now destruct (is_high c && is_low d).
Qed.

Lemma escape_units_app (us rest : list jstring) :
  Forall (fun u => u <> [37]) us ->
  escape_units 0 (us ++ rest) = map escape_char us ++ escape_units 0 rest.
Proof.
  induction 1 as [|c us Hc _ IH]; [reflexivity|].
  cbn [app escape_units map].
  assert (Ht : token_char (c :: us ++ rest) (escape_char c)
               = (escape_char c, 0%nat)).
  { unfold token_char.
    destruct (jstr_eqb (escape_char c) (js "%")) eqn:E; [|reflexivity].
    apply jstr_eqb_eq in E. exfalso. apply Hc.
    unfold escape_char in E. cbv zeta in E. literals.
    repeat match type of E with
           | context [if jstr_eqb ?a ?b then _ else _] =>
               destruct (jstr_eqb a b) eqn:?; try discriminate
           end.
    exact E. }
  unfold jstring in *. rewrite Ht. now rewrite IH.
Qed.

(** A value without percent sign is escaped apart from what follows it. *)
Lemma escape_text_app (s t : jstring) :
  ~ In 37 s -> starts_low t = false ->
  escape_text (s ++ t) = escape s ++ escape_text t.
Proof.
  intros Hs Ht. unfold escape_text, escape.
  rewrite spread_app by exact Ht.
  rewrite escape_units_app by now apply spread_no_percent.
  apply concat_app.
Qed.

Lemma escape_text_part (c r : jstring) :
  ~ In 37 c ->
  escape_text (c ++ js "%SEM%" ++ r) = escape c ++ 59 :: escape_text r.
Proof.
  intros Hc. rewrite escape_text_app by (exact Hc || reflexivity).
  f_equal. exact (escape_text_sem [] r (List.Forall_nil _)).
Qed.

Lemma inert_nil (d : N) : inert d [].
Proof. intros cur t. now rewrite app_nil_r. Qed.

Lemma inert_app (d : N) (p q : jstring) :
  inert d p -> inert d q -> inert d (p ++ q).
Proof.
  intros Hp Hq cur t. rewrite <- app_assoc, Hp, Hq. now rewrite app_assoc.
Qed.

Lemma inert_free (d : N) (p : jstring) :
  Forall (fun c => c <> d /\ c <> 92) p -> inert d p.
Proof. intros H cur t. now apply segments_free. Qed.

Lemma inert_escape (d : N) (s : jstring) :
  d = 58 \/ d = 59 \/ d = 44 -> inert d (escape s).
Proof.
  intros Hd cur t. unfold escape.
  pose proof (spread_shape s) as H. revert cur.
  induction H as [|c cs Hc _ IH]; intros cur.
  - simpl. now rewrite app_nil_r.
  - cbn [map concat]. rewrite <- app_assoc.
    rewrite segments_unit by auto. rewrite IH. now rewrite <- app_assoc.
Qed.

Lemma spread_without (x : N) (s : jstring) :
  ~ In x s -> Forall (fun u => u <> [x]) (spread s).
Proof.
  induction s as [|c|c d l IHl IHdl] using list_ind2; intros H.
  - constructor.
  - simpl. constructor; [|constructor]. intros E. injection E as ->.
    apply H. now left.
  - change (spread (c :: d :: l)) with
      (if is_high c && is_low d then [c; d] :: spread l
       else [c] :: spread (d :: l)).
    destruct (is_high c && is_low d); constructor.
    + discriminate.
    + apply IHl. intros Hin. apply H. now right; right.
    + intros E. injection E as ->. apply H. now left.
    + apply IHdl. intros Hin. apply H. now right.
Qed.

(** An escaped value without equals sign holds no unescaped equals sign. *)
Lemma inert_escape_eq (s : jstring) : ~ In 61 s -> inert 61 (escape s).
Proof.
  intros Hs cur t. unfold escape.
  pose proof (spread_shape s) as H.
  pose proof (spread_without 61 s Hs) as H'. revert cur.
  induction H as [|c cs Hc _ IH]; intros cur.
  - simpl. now rewrite app_nil_r.
  - apply List.Forall_cons_iff in H' as [Hc' H'].
    cbn [map concat]. rewrite <- app_assoc.
    assert (Hu : segments 61 false cur (escape_char c ++ concat (map escape_char cs) ++ t)
                 = segments 61 false (cur ++ escape_char c)
                     (concat (map escape_char cs) ++ t)).
    { generalize (concat (map escape_char cs) ++ t). intros r.
      destruct Hc as [[x ->]|(x & y & -> & Hp)].
      - rewrite escape_char_single.
        assert (Hesc : forall z, is_line_terminator z = false ->
                  segments 61 false cur ([92; z] ++ r)
                  = segments 61 false (cur ++ [92; z]) r).
        { intros z Hz. simpl app. cbn [segments].
          change (92 =? BSL) with true. rewrite Hz. cbn [andb negb].
          now rewrite <- app_assoc. }
        destruct (N.eqb_spec x 44) as [->|H1]; [now apply Hesc|].
        destruct (N.eqb_spec x 59) as [->|H2]; [now apply Hesc|].
        destruct (N.eqb_spec x 58) as [->|H3]; [now apply Hesc|].
        destruct (N.eqb_spec x 92) as [->|H4]; [now apply Hesc|].
        destruct (N.eqb_spec x 10) as [->|H5]; [now apply Hesc|].
        simpl app. cbn [segments]. unfold BSL.
        apply N.eqb_neq in H4. rewrite H4. cbn [andb].
        assert (Hx : (x =? 61) = false).
        { apply N.eqb_neq. intros ->. now apply Hc'. }
        now rewrite Hx.
      - rewrite escape_char_pair.
        apply andb_true_iff in Hp as [Hh Hl].
        assert (Hx : 55296 <= x).
        { unfold is_high in Hh. apply andb_true_iff in Hh as [Hh _].
          now apply N.leb_le in Hh. }
        assert (Hy : 56320 <= y).
        { unfold is_low in Hl. apply andb_true_iff in Hl as [Hl _].
          now apply N.leb_le in Hl. }
        assert (Hne : forall z, 55296 <= z ->
                  (z =? BSL) = false /\ (z =? 61) = false).
        { intros z Hz. unfold BSL. split; apply N.eqb_neq; lia. }
        simpl app. cbn [segments].
        destruct (Hne x Hx) as [-> ->]. cbn [andb].
        destruct (Hne y) as [-> ->]; [lia|]. cbn [andb].
        now rewrite <- app_assoc. }
    rewrite Hu, (IH H'). now rewrite <- app_assoc.
Qed.

(** A text without unescaped delimiter is one piece. *)
Lemma segments_inert (d : N) (cur p : jstring) :
  inert d p ->
  segments d false cur p = if truthy (cur ++ p) then [cur ++ p] else [].
Proof.
  intros H. rewrite <- (app_nil_r p) at 1. rewrite H. apply segments_nil.
Qed.

Lemma truthy_escape (s : jstring) : truthy (escape s) = truthy s.
Proof.
  destruct s as [|c s]; [reflexivity|].
  now rewrite escape_nonnil by discriminate.
Qed.

(** The name and the parameters of a line are read apart from what follows
    the first unescaped colon. *)
Lemma tokenize_head_inert (kp rest : jstring) :
  kp <> [] -> inert 58 kp ->
  tokenize_line (kp ++ 58 :: rest)
  = obind (tokenize_line kp)
      (fun t => Return
         (MkToken (key t) (props t)
            (map unesc
               (match_segments 59
                  (join (js ":") (match_segments 58 rest)))))).
Proof.
  intros Hk0 Hk.
  assert (Hkt : truthy kp = true) by (destruct kp; [congruence|reflexivity]).
  unfold tokenize_line, match_segments.
  rewrite Hk. cbn [app].
  rewrite segments_sep by discriminate. rewrite Hkt. cbn [app].
  rewrite (segments_inert 58 [] kp Hk). cbn [app]. rewrite Hkt.
  destruct (segments 59 false [] kp) as [|k ps]; [reflexivity|].
  cbn [obind]. destruct (map_outcome tokenize_prop ps); reflexivity.
Qed.

Lemma if_truthy_app (x c : jstring) :
  (if truthy c then x ++ c else x) = x ++ c.
Proof. destruct c; [now rewrite app_nil_r | reflexivity]. Qed.

Lemma escape_text_sem0 (r : jstring) :
  escape_text (js "%SEM%" ++ r) = 59 :: escape_text r.
Proof. exact (escape_text_sem [] r (List.Forall_nil _)). Qed.

(** The pieces of components separated by semicolons: the empty ones are
    skipped. *)
Lemma segments_part (c t : jstring) :
  segments 59 false [] (escape c ++ 59 :: t)
  = (if truthy c then [escape c] else []) ++ segments 59 false [] t.
Proof.
  rewrite (inert_escape 59 c) by auto. cbn [app].
  rewrite segments_sep by discriminate. now rewrite truthy_escape.
Qed.

Lemma segments_last (c : jstring) :
  segments 59 false [] (escape c) = if truthy c then [escape c] else [].
Proof.
  rewrite segments_inert by (apply inert_escape; auto). cbn [app].
  now rewrite truthy_escape.
Qed.

Lemma unesc_parts (cs : list jstring) :
  Forall clean cs ->
  map unesc (map escape (List.filter truthy cs)) = List.filter truthy cs.
Proof.
  induction 1 as [|c cs [_ Hc] _ IH]; [reflexivity|].
  cbn [List.filter]. destruct (truthy c); [|exact IH].
  cbn [map]. rewrite IH. f_equal. exact (proj1 (unesc_escape_inverse c Hc)).
Qed.

(** The values of an ADR line. *)
Lemma adr_values (a : Address) :
  Forall clean (adr_components a) ->
  map unesc
    (match_segments 59
       (join (js ":")
          (match_segments 58
             (59 :: 59 :: escape (adr_street a) ++ 59 :: escape (adr_city a)
              ++ 59 :: escape (adr_state a) ++ 59 :: escape (adr_zip a)
              ++ 59 :: escape (adr_country a)))))
  = List.filter truthy (adr_components a).
Proof.
  intros Hc.
  set (R := 59 :: 59 :: escape (adr_street a) ++ 59 :: escape (adr_city a)
            ++ 59 :: escape (adr_state a) ++ 59 :: escape (adr_zip a)
            ++ 59 :: escape (adr_country a)).
  assert (Hi : inert 58 R).
  { assert (Hs : inert 58 [59]) by (apply inert_free; free_word).
    change R with ([59] ++ [59] ++ escape (adr_street a)
                   ++ [59] ++ escape (adr_city a)
                   ++ [59] ++ escape (adr_state a)
                   ++ [59] ++ escape (adr_zip a)
                   ++ [59] ++ escape (adr_country a)).
    repeat (apply inert_app; [first [exact Hs | apply inert_escape; auto]|]).
    apply inert_escape; auto. }
  unfold match_segments. rewrite (segments_inert 58 [] R Hi).
  cbn [app]. change (truthy R) with true. cbv iota. cbn [join].
  unfold R. rewrite !(segments_sep 59 []) by discriminate. cbn [truthy app].
  rewrite !segments_part, segments_last.
  rewrite <- (unesc_parts _ Hc). f_equal. unfold adr_components.
  cbn [List.filter].
  destruct (truthy (adr_street a)), (truthy (adr_city a)),
    (truthy (adr_state a)), (truthy (adr_zip a)), (truthy (adr_country a));
    reflexivity.
Qed.

(** The name and the label of an ADR line. *)
Lemma adr_key (label : jstring) :
  label <> [] -> clean label -> ~ In 61 label ->
  inert 58 (js "ADR;LABEL=" ++ escape label)
  /\ tokenize_line (js "ADR;LABEL=" ++ escape label)
     = Return (MkToken (js "ADR") [MkParam (js "LABEL") [label]] []).
Proof.
  intros Hl0 [Hl Hn] Heq.
  assert (Hi : inert 58 (js "ADR;LABEL=" ++ escape label)).
  { apply inert_app; [apply inert_free; free_word | apply inert_escape; auto]. }
  split; [exact Hi|].
  assert (Ht : truthy (escape label) = true) by now apply escape_nonnil.
  unfold tokenize_line, match_segments.
  rewrite (segments_inert 58 [] _ Hi). cbn [app].
  change (truthy (js "ADR;LABEL=" ++ escape label)) with true. cbv iota.
  cbn [join].
  change (segments 59 false [] []) with (@nil jstring). cbn [map].
  change (js "ADR;LABEL=" ++ escape label)
    with (js "ADR" ++ 59 :: js "LABEL=" ++ escape label).
  rewrite segments_snoc by (discriminate || (vm_compute; intuition discriminate)).
  change (segments 59 false [] (js "ADR")) with [js "ADR"].
  rewrite segments_inert
    by (apply inert_app; [apply inert_free; free_word | apply inert_escape; auto]).
  cbn [app]. change (truthy (js "LABEL=" ++ escape label)) with true.
  cbv iota. cbn [map_outcome].
  assert (Hp : tokenize_prop (js "LABEL=" ++ escape label)
               = Return (MkParam (js "LABEL") [label])).
  { unfold tokenize_prop, match_segments.
    change (js "LABEL=" ++ escape label)
      with (js "LABEL" ++ 61 :: escape label).
    rewrite segments_snoc by (discriminate || (vm_compute; intuition discriminate)).
    change (segments 61 false [] (js "LABEL")) with [js "LABEL"].
    rewrite segments_inert by now apply inert_escape_eq.
    cbn [app]. rewrite Ht.
    rewrite segments_inert by (apply inert_escape; auto).
    cbn [app]. rewrite Ht. cbn [map].
    now rewrite (proj1 (unesc_escape_inverse label Hn)). }
  rewrite Hp. reflexivity.
Qed.

(** The ADR line of version 4. *)
Lemma adr_line4 (a : Address) (g : N) :
  Forall clean (adr_components a) -> clean (adr_label a) ->
  ~ In 61 (adr_label a) ->
  exists line,
    render_addresses 4 g [a] = [line]
    /\ tokenize_line (logical line)
       = Return (MkToken (js "ADR")
                   (if truthy (adr_label a)
                    then [MkParam (js "LABEL") [adr_label a]] else [])
                   (List.filter truthy (adr_components a))).
Proof.
  intros Hc Hl Heq. eexists. split; [reflexivity|].
  unfold logical. rewrite formatTextValue_unfold.
  change (4 =? 3)%Z with false. change (4 =? 4)%Z with true.
  cbv beta iota zeta. cbn [andb app]. rewrite !if_truthy_app.
  pose proof Hc as Hc'. unfold adr_components in Hc'.
  repeat match goal with
         | H : Forall clean (_ :: _) |- _ =>
             apply List.Forall_cons_iff in H as [[? _] H]
         end.
  pose proof (adr_values a Hc) as Hv.
  change (js "%COL%%SEM%%SEM%") with (js "%COL%" ++ js "%SEM%" ++ js "%SEM%").
  change (js "%SEM%LABEL=") with (js "%SEM%" ++ js "LABEL=").
  destruct (adr_label a) as [|c label] eqn:El; cbn [truthy]; cbv iota.
  - rewrite <- !app_assoc.
    rewrite escape_text_name by plain_word.
    rewrite !escape_text_sem0.
    rewrite !escape_text_part by assumption.
    rewrite escape_text_escape by assumption.
    rewrite tokenize_head by (try discriminate; free_word).
    rewrite Hv. reflexivity.
  - rewrite <- El in *.
    destruct (adr_key (adr_label a)) as [Hi Hk]; auto.
    { rewrite El. discriminate. }
    rewrite <- !app_assoc.
    rewrite escape_text_sem by plain_word.
    rewrite (escape_text_plain (js "LABEL=")) by plain_word.
    rewrite escape_text_app by (apply Hl || reflexivity).
    rewrite escape_text_col.
    rewrite !escape_text_sem0.
    rewrite !escape_text_part by assumption.
    rewrite escape_text_escape by assumption.
    match goal with
    | |- tokenize_line (_ ++ 59 :: _ ++ _ ++ 58 :: ?R) = _ =>
        change (tokenize_line
                  ((js "ADR;LABEL=" ++ escape (adr_label a)) ++ 58 :: R)
                = Return (MkToken (js "ADR")
                            [MkParam (js "LABEL") [adr_label a]]
                            (List.filter truthy (adr_components a))))
    end.
    rewrite tokenize_head_inert by (discriminate || exact Hi).
    rewrite Hk. cbn [obind key props]. rewrite Hv. reflexivity.
Qed.

(** X19. The line that [render] makes of an address under version 4 is read
    back as a [setAddress] call whose arguments are the components that are
    not empty, in their order, followed by the label: an address of five
    components comes back as it is, an empty component moves the later ones
    and the label one place forward, and a line without any component makes
    [parseToken] throw. *)
Theorem adr_line_round_trip (a : Address) (g : N) (v : VCard.VCard) :
  Forall clean (adr_components a) -> clean (adr_label a) ->
  ~ In 61 (adr_label a) ->
  exists line tok,
    render_addresses 4 g [a] = [line]
    /\ tokenize_line (logical line) = Return tok
    /\ parseToken tok v
       = match List.filter truthy (adr_components a) with
         | [] => (Throw (js "Invalid vCard (Invalid token)"), v)
         | parts =>
             apply_setAddress (map Some parts ++ [Some (adr_label a)]) v
         end
    /\ (Forall (fun c => c <> []) (adr_components a) ->
        parseToken tok v = (Return tt, set_address (address v ++ [a]) v)).
Proof.
  intros Hc Hl Heq.
  destruct (adr_line4 a g Hc Hl Heq) as (line & Hr & Ht).
  exists line. eexists. split; [exact Hr|]. split; [exact Ht|].
  match goal with
  | |- ?x = ?y /\ _ => assert (H : x = y); [|split; [exact H|]]
  end.
  - destruct (List.filter truthy (adr_components a)) as [|p ps] eqn:E;
      [reflexivity|].
    change (parseToken ?k) with (parseAddressToken k).
    unfold parseAddressToken, apply_setAddress. cbn [values].
    destruct (adr_label a) as [|c l]; reflexivity.
  - intros Hall. rewrite H.
    assert (Hf : List.filter truthy (adr_components a) = adr_components a).
    { clear -Hall. induction Hall as [|c cs Hc _ IH]; [reflexivity|].
      cbn [List.filter]. destruct c; [congruence|]. cbn [truthy].
      now rewrite IH. }
    rewrite Hf. unfold adr_components. destruct a. reflexivity.
Qed.

Lemma adr_line_round_trip_witness :
  exists line tok,
    render_addresses 4 0
      [MkAddress (js "1 Main St, Apt 2") (js "Springfield") (js "IL")
         (js "62701") (js "USA") (js "Home; sweet home")] = [line]
    /\ tokenize_line (logical line) = Return tok
    /\ parseToken tok new_VCard
       = match List.filter truthy
                 (adr_components
                    (MkAddress (js "1 Main St, Apt 2") (js "Springfield")
                       (js "IL") (js "62701") (js "USA")
                       (js "Home; sweet home"))) with
         | [] => (Throw (js "Invalid vCard (Invalid token)"), new_VCard)
         | parts =>
             apply_setAddress
               (map Some parts ++ [Some (js "Home; sweet home")]) new_VCard
         end
    /\ (Forall (fun c => c <> [])
          (adr_components
             (MkAddress (js "1 Main St, Apt 2") (js "Springfield") (js "IL")
                (js "62701") (js "USA") (js "Home; sweet home"))) ->
        parseToken tok new_VCard
        = (Return tt,
           set_address
             (address new_VCard
              ++ [MkAddress (js "1 Main St, Apt 2") (js "Springfield")
                    (js "IL") (js "62701") (js "USA")
                    (js "Home; sweet home")])
             new_VCard)).
Proof.
  assert (Hs : forall s, safe_test s = true -> clean s).
  { intros s H. apply safe_test_ok in H as (_ & H1 & H2). now split. }
  apply (adr_line_round_trip
           (MkAddress (js "1 Main St, Apt 2") (js "Springfield") (js "IL")
              (js "62701") (js "USA") (js "Home; sweet home"))
           0 new_VCard).
  - repeat constructor; apply Hs; vm_compute; reflexivity.
  - apply Hs. vm_compute. reflexivity.
  - vm_compute. intuition discriminate.
Defined.

(** An address without country: the label is read as the country. *)
Example adr_label_moves :
  tokenize_line
    (logical (hd [] (render_addresses 4 0
                       [MkAddress (js "1 Main St") (js "Springfield")
                          (js "IL") (js "62701") [] (js "Home")])))
  = Return (MkToken (js "ADR") [MkParam (js "LABEL") [js "Home"]]
              [js "1 Main St"; js "Springfield"; js "IL"; js "62701"])
  /\ parseToken
       (MkToken (js "ADR") [MkParam (js "LABEL") [js "Home"]]
          [js "1 Main St"; js "Springfield"; js "IL"; js "62701"])
       new_VCard
     = (Return tt,
        set_address
          [MkAddress (js "1 Main St") (js "Springfield") (js "IL")
             (js "62701") (js "Home") []]
          new_VCard).
Proof. split; vm_compute; reflexivity. Qed.

(** ** Organization and URL lines *)

Lemma inert_join (d : N) (sep : jstring) (ws : list jstring) :
  inert d sep -> Forall (inert d) ws -> inert d (join sep ws).
Proof.
  intros Hsep. induction 1 as [|w ws Hw Hws IH]; [apply inert_nil|].
  destruct ws as [|w' ws]; [exact Hw|].
  rewrite join_cons2. auto using inert_app.
Qed.

Lemma escape_text_join_sem (o : list jstring) :
  Forall safe o ->
  escape_text (join (js "%SEM%") o) = join (js ";") (map escape o).
Proof.
  induction 1 as [|x o (_ & Hx & _) Ho IH]; [reflexivity|].
  destruct o as [|y o].
  - cbn [join map]. now apply escape_text_escape.
  - cbn [map]. rewrite !join_cons2.
    rewrite escape_text_part by exact Hx.
    exact (f_equal (fun r => escape x ++ 59 :: r) IH).
Qed.

Lemma segments_join_escaped (o : list jstring) :
  Forall safe o ->
  segments 59 false [] (join (js ";") (map escape o)) = map escape o.
Proof.
  induction 1 as [|x o (Hx & _) Ho IH]; [reflexivity|].
  assert (Ht : truthy x = true) by (destruct x; [congruence|reflexivity]).
  destruct o as [|y o].
  - cbn [join map]. now rewrite segments_last, Ht.
  - cbn [map]. rewrite join_cons2.
    change (js ";" ++ ?r) with (59 :: r).
    rewrite segments_part, Ht.
    exact (f_equal (cons (escape x)) IH).
Qed.

Lemma unesc_escaped (o : list jstring) :
  Forall safe o -> map unesc (map escape o) = o.
Proof.
  induction 1 as [|x o (_ & _ & Hx) _ IH]; [reflexivity|].
  cbn [map]. rewrite IH. f_equal. exact (proj1 (unesc_escape_inverse x Hx)).
Qed.

(** The ORG line. *)
Lemma org_line (o : list jstring) :
  Forall safe o ->
  tokenize_line
    (logical (formatTextValue (js "ORG%COL%" ++ join (js "%SEM%") o)))
  = Return (MkToken (js "ORG") [] o).
Proof.
  intros Ho. unfold logical. rewrite formatTextValue_unfold.
  change (js "ORG%COL%" ++ ?r) with (js "ORG" ++ js "%COL%" ++ r).
  rewrite escape_text_name by plain_word.
  rewrite escape_text_join_sem by exact Ho.
  rewrite tokenize_head by (try discriminate; free_word).
  change (tokenize_line (js "ORG")) with (Return (MkToken (js "ORG") [] [])).
  cbn [obind key props]. do 2 f_equal.
  set (J := join (js ";") (map escape o)).
  assert (Hi : inert 58 J).
  { apply inert_join; [apply inert_free; free_word|].
    apply List.Forall_map. eapply List.Forall_impl; [|exact Ho].
    intros x _. apply inert_escape. auto. }
  unfold match_segments. rewrite (segments_inert 58 [] J Hi). cbn [app].
  destruct (truthy J) eqn:Et.
  - cbn [join]. unfold J. rewrite segments_join_escaped by exact Ho.
    now apply unesc_escaped.
  - destruct o as [|x o]; [reflexivity|]. exfalso.
    apply List.Forall_inv in Ho as (Hx & _).
    pose proof (escape_nonnil x Hx) as Hx'. unfold J in Et. cbn [map] in Et.
    destruct (escape x); [discriminate|]. destruct (map escape o); discriminate.
Qed.

(** X20. The line that [render] makes of an organization is read back as
    the [setOrg] call of its first three parts, which stores them; a line
    without part makes [parseToken] throw. *)
Theorem org_line_round_trip (o : list jstring) (v : VCard.VCard) :
  Forall safe o ->
  exists tok,
    tokenize_line
      (logical (formatTextValue (js "ORG%COL%" ++ join (js "%SEM%") o)))
    = Return tok
    /\ parseToken tok v
       = match o with
         | [] => (Throw (js "Invalid vCard (Invalid token)"), v)
         | _ => (Return tt, set_org (org v ++ [firstn 3 o]) v)
         end.
Proof.
  intros Ho. eexists. split; [exact (org_line o Ho)|].
  destruct o as [|x o]; [reflexivity|].
  change (parseToken ?k) with (parseOrgToken k).
  unfold parseOrgToken, setOrg, assign. cbn [values].
  repeat match goal with
         | H : Forall safe (_ :: _) |- _ =>
             apply List.Forall_cons_iff in H as [(? & _) H]
         end.
  destruct x as [|c x]; [congruence|].
  destruct o as [|y o]; [reflexivity|].
  repeat match goal with
         | H : Forall safe (_ :: _) |- _ =>
             apply List.Forall_cons_iff in H as [(? & _) H]
         end.
  destruct y as [|d y]; [congruence|].
  destruct o as [|z o]; [reflexivity|].
  repeat match goal with
         | H : Forall safe (_ :: _) |- _ =>
             apply List.Forall_cons_iff in H as [(? & _) H]
         end.
  destruct z as [|e z]; [congruence|]. reflexivity.
Qed.

Lemma org_line_round_trip_witness :
  exists tok,
    tokenize_line
      (logical (formatTextValue
                  (js "ORG%COL%"
                   ++ join (js "%SEM%") [js "Acme, Inc."; js "R&D"])))
    = Return tok
    /\ parseToken tok new_VCard
       = (Return tt,
          set_org (org new_VCard ++ [firstn 3 [js "Acme, Inc."; js "R&D"]])
            new_VCard).
Proof.
  apply (org_line_round_trip [js "Acme, Inc."; js "R&D"] new_VCard).
  repeat constructor; apply safe_test_ok; vm_compute; reflexivity.
Defined.

Lemma join_split_on (sep : N) (s : jstring) :
  join [sep] (split_on sep s) = s.
Proof.
  induction s as [|c s IH]; [reflexivity|].
  cbn [split_on]. destruct (split_on_cons sep s) as (p & ps & E).
  rewrite E in *. destruct (N.eqb_spec c sep) as [->|Hc].
  - rewrite join_cons2. cbn [app]. now rewrite IH.
  - destruct ps as [|q ps].
    + cbn [join] in *. now rewrite IH.
    + rewrite join_cons2 in *. cbn [app] in *. now rewrite IH.
Qed.

(** The URL line. *)
Lemma url_line (u : jstring) :
  ~ In 92 u -> ~ In 59 u -> ~ In NL u ->
  Forall (fun p => p <> []) (split_on 58 u) ->
  logical (js "URL:" ++ u) = js "URL:" ++ u
  /\ tokenize_line (js "URL:" ++ u) = Return (MkToken (js "URL") [] [u]).
Proof.
  intros Hb Hs Hn Hp.
  assert (Hu : u <> []) by (intros ->; inversion Hp; congruence).
  split.
  { unfold logical. apply replace2_absent.
    intros H. apply in_app_or in H as [H|H]; [|auto].
    vm_compute in H. intuition discriminate. }
  change (js "URL:" ++ u) with (js "URL" ++ 58 :: u).
  rewrite tokenize_head by (try discriminate; free_word).
  change (tokenize_line (js "URL")) with (Return (MkToken (js "URL") [] [])).
  cbn [obind key props]. do 2 f_equal.
  assert (Hseg : match_segments 58 u = split_on 58 u).
  { rewrite <- (join_split_on 58 u) at 1.
    apply match_segments_join; [discriminate|].
    pose proof (split_on_pieces 58 u) as Hno.
    rewrite List.Forall_forall in Hp, Hno.
    apply List.Forall_forall. intros p Hin. split; [now apply Hp|].
    apply List.Forall_forall. intros c Hc. split.
    - intros ->. now apply (Hno p Hin).
    - intros ->. apply Hb. now apply (split_on_pieces_in 58 u p 92). }
  rewrite Hseg. change (js ":") with [58]. rewrite join_split_on.
  unfold match_segments. rewrite segments_inert.
  - cbn [app]. destruct u; [congruence|]. cbn [truthy map].
    now rewrite unesc_plain by exact Hb.
  - apply inert_free. rewrite List.Forall_forall. intros c Hc.
    split; intros ->; auto.
Qed.

(** X21. A URL line, which [render] writes as it is, is read back as the
    [setURL] call of the URL when the URL holds no backslash, semicolon or
    newline and no piece between its colons is empty. *)
Theorem url_line_round_trip (u : jstring) (v : VCard.VCard) :
  ~ In 92 u -> ~ In 59 u -> ~ In NL u ->
  Forall (fun p => p <> []) (split_on 58 u) ->
  exists tok,
    tokenize_line (logical (js "URL:" ++ u)) = Return tok
    /\ parseToken tok v = (Return tt, set_url (url v ++ [u]) v).
Proof.
  intros Hb Hs Hn Hp. destruct (url_line u Hb Hs Hn Hp) as [Hl Ht].
  exists (MkToken (js "URL") [] [u]). split; [|reflexivity].
  now rewrite Hl.
Qed.

Lemma url_line_round_trip_witness :
  exists tok,
    tokenize_line (logical (js "URL:" ++ js "https://example.com/a?b=1,2"))
    = Return tok
    /\ parseToken tok new_VCard
       = (Return tt,
          set_url (url new_VCard ++ [js "https://example.com/a?b=1,2"])
            new_VCard).
Proof.
  apply (url_line_round_trip (js "https://example.com/a?b=1,2") new_VCard);
    vm_compute; try intuition discriminate.
  repeat constructor; discriminate.
Defined.

(** A URL with two colons in a row loses one of them. *)
Example url_double_colon :
  tokenize_line (logical (js "URL:http://[::1]/"))
  = Return (MkToken (js "URL") [] [js "http://[:1]/"]).
Proof. vm_compute. reflexivity. Qed.

(** ** Image lines *)

Lemma replace1_app (a : N) (rep x y : jstring) :
  replace1 a rep (x ++ y) = replace1 a rep x ++ replace1 a rep y.
Proof.
  induction x as [|c x IH]; [reflexivity|].
  simpl. rewrite IH. destruct (c =? a); [now rewrite <- app_assoc | reflexivity].
Qed.

Lemma replace1_absent (a : N) (rep s : jstring) :
  ~ In a s -> replace1 a rep s = s.
Proof.
  induction s as [|c s IH]; intros H; [reflexivity|]. simpl.
  assert (Hc : (c =? a) = false).
  { apply N.eqb_neq. intros ->. apply H. now left. }
  rewrite Hc, IH; [reflexivity|]. intros Hin. apply H. now right.
Qed.

Lemma plain_absent (p : jstring) (x : N) :
  Forall (fun c => plain c = true) p -> plain x = false -> ~ In x p.
Proof.
  intros H Hx Hin. rewrite List.Forall_forall in H. apply H in Hin.
  congruence.
Qed.

Lemma tokenize_uri_plain (p : jstring) :
  Forall (fun c => plain c = true) p -> tokenize_uri p = p.
Proof.
  intros H. unfold tokenize_uri, BSL.
  rewrite (replace1_absent 58 _ p) by (apply (plain_absent p); auto).
  rewrite (replace1_absent 59 _ p) by (apply (plain_absent p); auto).
  rewrite (replace1_absent 44 _ p) by (apply (plain_absent p); auto).
  now rewrite (replace1_absent 92 _ p) by (apply (plain_absent p); auto).
Qed.

Lemma tokenize_uri_image (type data : jstring) :
  Forall (fun c => plain c = true) type ->
  Forall (fun c => plain c = true) data ->
  tokenize_uri (image_uri type data)
  = js "data%COL%image/" ++ type ++ js "%SEM%base64%COM%" ++ data.
Proof.
  intros Ht Hd. unfold image_uri, tokenize_uri.
  rewrite !replace1_app.
  fold (tokenize_uri (js "data:image/")). fold (tokenize_uri type).
  fold (tokenize_uri (js ";base64,")). fold (tokenize_uri data).
  change (tokenize_uri (js "data:image/")) with (js "data%COL%image/").
  change (tokenize_uri (js ";base64,")) with (js "%SEM%base64%COM%").
  now rewrite (tokenize_uri_plain type), (tokenize_uri_plain data)
    by assumption.
Qed.

Lemma span_until_app (d : N) (p r : jstring) :
  ~ In d p -> span_until d (p ++ d :: r) = (p, d :: r).
Proof.
  induction p as [|c p IH]; intros H.
  - simpl. now rewrite N.eqb_refl.
  - simpl.
    assert (Hc : (c =? d) = false).
    { apply N.eqb_neq. intros ->. apply H. now left. }
    rewrite Hc, IH; [reflexivity|]. intros Hin. apply H. now right.
Qed.

Lemma dataUriRegex_image (type data : jstring) :
  image_type type -> image_data data ->
  dataUriRegex_match (image_uri type data) = Some (type, data).
Proof.
  intros [_ Ht] [_ Hd]. unfold dataUriRegex_match, image_uri.
  change (strip_prefix (js "data:image/") (js "data:image/" ++ ?r))
    with (Some r).
  cbv iota. change (js ";base64," ++ data) with (59 :: js "base64," ++ data).
  rewrite span_until_app.
  - change (strip_prefix (js ";base64,") (59 :: js "base64," ++ data))
      with (Some data).
    cbv iota.
    assert (Ha : forallb any_char data = true).
    { apply forallb_forall. rewrite List.Forall_forall in Hd.
      intros c Hc. now apply Hd. }
    now rewrite Ha.
  - intros Hin. rewrite List.Forall_forall in Ht. apply Ht in Hin as [Hin _].
    discriminate.
Qed.

(** On strings of ASCII code units the case mappings are those of the
    Basic Latin letters, code unit by code unit. *)
Lemma code_points_ascii (s : jstring) :
  Forall (fun c => c < 128) s -> code_points s = s.
Proof.
  induction 1 as [|c s Hc _ IH]; [reflexivity|].
  cbn [code_points]. destruct s as [|d s']; [reflexivity|].
  rewrite (ascii_not_high c Hc). cbn [andb]. now rewrite IH.
Qed.

Lemma toUpperCase_ascii (s : jstring) :
  Forall (fun c => c < 128) s -> toUpperCase s = map upper_unit s.
Proof.
  intros H. unfold toUpperCase. rewrite (code_points_ascii s H).
  induction H as [|c s Hc _ IH]; [reflexivity|].
  cbn [flat_map map]. rewrite flat_map_app, IH.
  unfold upper_point. apply N.ltb_lt in Hc as Hb. rewrite Hb.
  cbn [flat_map app]. unfold code_units.
  assert (Hu : (upper_unit c <? 65536) = true).
  { apply N.ltb_lt. unfold upper_unit.
    destruct ((97 <=? c) && (c <=? 122)); lia. }
  now rewrite Hu.
Qed.

Lemma toLowerCase_ascii (s : jstring) :
  Forall (fun c => c < 128) s -> toLowerCase s = map lower_unit s.
Proof.
  intros H. unfold toLowerCase. rewrite (code_points_ascii s H).
  generalize (@nil N) as before.
  induction H as [|c s Hc _ IH]; intros before; [reflexivity|].
  cbn [lower_points map]. rewrite flat_map_app, IH.
  assert (Hs : (c =? 931) = false) by (apply N.eqb_neq; lia).
  rewrite Hs. unfold lower_point. apply N.ltb_lt in Hc as Hb. rewrite Hb.
  cbn [flat_map app]. unfold code_units.
  assert (Hu : (lower_unit c <? 65536) = true).
  { apply N.ltb_lt. unfold lower_unit.
    destruct ((65 <=? c) && (c <=? 90)); lia. }
  now rewrite Hu.
Qed.

(** Outside ASCII: a letter of Latin-1, the Kelvin sign, the capital I with
    dot above, a capital sigma at the end of a word and before a letter, a
    letter of a supplementary plane; the dotless i, the long s and the
    sharp s. *)
Example case_mapping_samples :
  toLowerCase [201] = [233]
  /\ toLowerCase [8490] = [107]
  /\ toLowerCase [304] = [105; 775]
  /\ toLowerCase [913; 931] = [945; 962]
  /\ toLowerCase [931; 913] = [963; 945]
  /\ toLowerCase [55297; 56320] = [55297; 56360]
  /\ toUpperCase [305] = [73]
  /\ toUpperCase [383] = [83]
  /\ toUpperCase [223] = [83; 83]
  /\ toUpperCase [118; 101; 114; 115; 305; 111; 110] = js "VERSION".
Proof. repeat split; vm_compute; reflexivity. Qed.

(** [setEmail] lower-cases the address before it tests it: an address with
    the Kelvin sign in the host name is accepted and stored as it was
    given. *)
Example setEmail_kelvin_sign :
  setEmail [97; 64; 8490; 46; 99; 111; 109] false new_VCard
  = (Return tt,
     set_email [MkEmail [97; 64; 8490; 46; 99; 111; 109] false] new_VCard).
Proof. vm_compute. reflexivity. Qed.

Lemma upper_unit_ascii (c : N) : c < 128 -> upper_unit c < 128.
Proof. unfold upper_unit. destruct ((97 <=? c) && (c <=? 122)); lia. Qed.

Lemma upper_word (type : jstring) :
  image_type type ->
  toUpperCase type <> []
  /\ Forall (fun c => plain c = true /\ c <> 61) (toUpperCase type)
  /\ toLowerCase (toUpperCase type) = type.
Proof.
  intros [H0 H].
  assert (Ha : Forall (fun c => c < 128) type).
  { eapply List.Forall_impl; [|exact H]. cbv beta.
    intros c (Hp & _). now apply plain_cases in Hp. }
  rewrite (toUpperCase_ascii type Ha).
  assert (Hb : Forall (fun c => c < 128) (map upper_unit type)).
  { clear - Ha. induction Ha; constructor; auto using upper_unit_ascii. }
  rewrite (toLowerCase_ascii _ Hb). clear Ha Hb.
  split; [destruct type; [congruence|discriminate]|].
  clear H0.
  induction H as [|c type (Hp & He & Hl) _ [IH1 IH2]];
    [split; [constructor | reflexivity]|].
  cbn [map].
  assert (Hc : (plain (upper_unit c) = true /\ upper_unit c <> 61)
               /\ lower_unit (upper_unit c) = c).
  { unfold upper_unit, lower_unit in *.
    destruct ((97 <=? c) && (c <=? 122)) eqn:E.
    - apply andb_true_iff in E as [E1 E2]. apply N.leb_le in E1, E2.
      assert (Hr : (65 <=? c - 32) && (c - 32 <=? 90) = true).
      { apply andb_true_iff. split; apply N.leb_le; lia. }
      rewrite Hr. split; [split|]; try lia.
      unfold plain. apply andb_true_iff. split; [apply N.ltb_lt; lia|].
      cbn [existsb]. rewrite !orb_false_r.
      repeat match goal with
             | |- context [?a =? ?k] =>
                 replace (a =? k) with false
                   by (symmetry; apply N.eqb_neq; lia)
             end.
      reflexivity.
    - auto. }
  destruct Hc as [Hc1 Hc2]. split; [constructor; auto|].
  now rewrite Hc2, IH2.
Qed.

(** The line of an image, for a property whose token [parseToken] hands to
    [parseImageToken]. *)
Lemma image_line (ver : Z) (prop type data : jstring)
    (set : jstring -> M unit) :
  prop <> [] -> Forall (fun c => plain c = true) prop ->
  tokenize_line prop = Return (MkToken prop [] []) ->
  tokenize_line (prop ++ js ";ENCODING=b")
  = Return (MkToken prop [MkParam (js "ENCODING") [js "b"]] []) ->
  (forall ps x xs,
     parseToken (MkToken prop ps (x :: xs))
     = parseImageToken set (MkToken prop ps (x :: xs))) ->
  ver = 3%Z \/ ver = 4%Z -> image_type type -> image_data data ->
  exists line ps vs,
    render_image ver prop (image_uri type data) = Return line
    /\ tokenize_line (logical line) = Return (MkToken prop ps vs)
    /\ forall v, specVersion v = ver ->
         parseToken (MkToken prop ps vs) v = set (image_uri type data) v.
Proof.
  intros Hp0 Hp Hk4 Hk3 Hparse Hver Hty Hda.
  pose proof (upper_word type Hty) as (Hu0 & Hu & Hlow).
  pose proof Hty as [Ht0 Ht]. pose proof Hda as [Hd0 Hd].
  assert (Htp : Forall (fun c => plain c = true) type).
  { eapply List.Forall_impl; [|exact Ht]. cbv beta. tauto. }
  assert (Hdp : Forall (fun c => plain c = true) data).
  { eapply List.Forall_impl; [|exact Hd]. cbv beta. tauto. }
  assert (Hpf : Forall (fun c => c <> 58 /\ c <> 92) prop)
    by (apply plain_free; auto).
  unfold render_image. destruct Hver as [-> | ->].
  - change (3 =? 4)%Z with false. cbv iota.
    rewrite dataUriRegex_image by assumption.
    eexists. eexists. eexists. split; [reflexivity|].
    unfold logical. rewrite formatTextValue_unfold.
    rewrite tokenize_uri_plain by exact Hdp.
    change (js "%SEM%ENCODING=b%SEM%TYPE=")
      with (js "%SEM%" ++ js "ENCODING=b" ++ js "%SEM%" ++ js "TYPE=").
    rewrite <- !app_assoc.
    rewrite escape_text_sem by exact Hp.
    rewrite escape_text_sem by plain_word.
    rewrite (escape_text_plain (js "TYPE=")) by plain_word.
    rewrite escape_text_name
      by (eapply List.Forall_impl; [|exact Hu]; cbv beta; tauto).
    rewrite escape_text_word by exact Hdp.
    destruct (tokenize_type_prop [toUpperCase type]) as (Htp' & Hf59 & Hf58).
    { discriminate. }
    { constructor; [split; assumption | constructor]. }
    cbn [join] in Htp', Hf59, Hf58.
    match goal with
    | |- tokenize_line ?L = _ /\ _ =>
        replace L with (((prop ++ js ";ENCODING=b") ++ 59
                         :: js "TYPE=" ++ toUpperCase type) ++ 58 :: data)
          by (rewrite <- !app_assoc; reflexivity)
    end.
    assert (Hpe : Forall (fun c => c <> 58 /\ c <> 92)
                    (prop ++ js ";ENCODING=b"))
      by (apply Forall_app_2; [exact Hpf | free_word]).
    rewrite tokenize_head.
    + rewrite (tokenize_line_snoc _ _ _ _ Hk3 Htp'); auto.
      * cbn [obind key props values app].
        assert (Hval : map unesc
                         (match_segments 59
                            (join (js ":") (match_segments 58 data)))
                       = [data]).
        { unfold match_segments.
          rewrite (segments_name 58 data) by auto. cbn [join].
          rewrite (segments_name 59 data) by auto. cbn [map].
          now rewrite unesc_plain by now apply plain_no_backslash. }
        rewrite Hval. split; [reflexivity|]. intros v Hv.
        rewrite Hparse. unfold parseImageToken, bind, this. rewrite Hv.
        change (3 =? 3)%Z with true. cbv iota.
        change (props_named (js "TYPE") ?k)
          with [MkParam (js "TYPE") [toUpperCase type]].
        cbv iota. cbn [pvalues].
        change (tmpl (?l !! 0%nat)) with data.
        now rewrite Hlow.
      * destruct prop; [congruence|discriminate].
      * eapply List.Forall_impl; [|exact Hf58]. cbv beta. tauto.
    + destruct prop; [congruence|discriminate].
    + apply Forall_app_2; [exact Hpe|].
      constructor; [split; discriminate | exact Hf58].
  - change (4 =? 4)%Z with true. cbv iota.
    eexists. eexists. eexists. split; [reflexivity|].
    unfold logical. rewrite formatTextValue_unfold.
    rewrite tokenize_uri_image by assumption.
    change (js "data%COL%image/") with (js "data" ++ js "%COL%" ++ js "image/").
    change (js "%SEM%base64%COM%")
      with (js "%SEM%" ++ js "base64" ++ js "%COM%").
    rewrite <- !app_assoc.
    rewrite escape_text_name by exact Hp.
    rewrite escape_text_name by plain_word.
    rewrite (escape_text_plain (js "image/")) by plain_word.
    rewrite escape_text_sem by exact Htp.
    rewrite escape_text_com by plain_word.
    rewrite escape_text_word by exact Hdp.
    rewrite tokenize_head by assumption.
    rewrite Hk4. cbn [obind key props].
    assert (Hval : map unesc
                     (match_segments 59
                        (join (js ":")
                           (match_segments 58
                              (js "data" ++ 58 :: js "image/" ++ type
                               ++ 59 :: js "base64" ++ 44 :: data))))
                   = [js "data:image/" ++ type; js "base64," ++ data]).
    { unfold match_segments.
      assert (Hi : inert 58 (js "image/" ++ type
                             ++ 59 :: js "base64" ++ 44 :: data)).
      { change (inert 58 (js "image/" ++ type ++ js ";base64," ++ data)).
        repeat apply inert_app; apply inert_free;
          first [free_word | now apply plain_free; auto]. }
      rewrite segments_snoc
        by (discriminate || (vm_compute; intuition discriminate)).
      change (segments 58 false [] (js "data")) with [js "data"].
      rewrite (segments_inert 58 [] _ Hi). cbn [app].
      change (truthy (js "image/" ++ ?r)) with true. cbv iota.
      cbn [app join].
      change (js "data" ++ js ":" ++ js "image/" ++ ?r)
        with (js "data:image/" ++ r).
      assert (Hb : ~ In 92 (js "data:image/" ++ type)).
      { intros H. apply in_app_or in H as [H|H].
        - vm_compute in H. intuition discriminate.
        - now apply (plain_no_backslash type Htp). }
      change (js "data:image/" ++ type ++ 59 :: js "base64" ++ 44 :: data)
        with ((js "data:image/" ++ type) ++ 59 :: js "base64," ++ data).
      rewrite segments_snoc by (discriminate || exact Hb).
      rewrite !segments_inert
        by (apply inert_app; apply inert_free;
            first [free_word | now apply plain_free; auto]).
      cbn [app]. change (truthy (js "data:image/" ++ type)) with true.
      change (truthy (js "base64," ++ data)) with true. cbv iota.
      cbn [app map]. rewrite !unesc_plain; [reflexivity| |exact Hb].
      intros H. apply in_app_or in H as [H|H].
      - vm_compute in H. intuition discriminate.
      - now apply (plain_no_backslash data Hdp). }
    rewrite Hval. split; [reflexivity|]. intros v Hv.
    rewrite Hparse. unfold parseImageToken, bind, this. rewrite Hv.
    change (4 =? 3)%Z with false. cbv iota. cbn [values join].
    unfold image_uri. now rewrite <- app_assoc.
Qed.

(** X22. The line that [render] makes of a photo or of a logo, under
    version 3 as under version 4, is read back in a contact of the same
    version as the data URI it was made of, which [setPhoto] or [setLogo]
    accepts and stores. *)
Theorem image_line_round_trip (ver : Z) (type data : jstring)
    (v : VCard.VCard) :
  ver = 3%Z \/ ver = 4%Z -> specVersion v = ver ->
  image_type type -> image_data data ->
  (exists line tok,
     render_image ver (js "PHOTO") (image_uri type data) = Return line
     /\ tokenize_line (logical line) = Return tok
     /\ parseToken tok v
        = (Return tt, set_photo (photo v ++ [image_uri type data]) v))
  /\ (exists line tok,
        render_image ver (js "LOGO") (image_uri type data) = Return line
        /\ tokenize_line (logical line) = Return tok
        /\ parseToken tok v
           = (Return tt, set_logo (logo v ++ [image_uri type data]) v)).
Proof.
  intros Hver Hv Hty Hda.
  pose proof (dataUriRegex_image type data Hty Hda) as Hm.
  split.
  - destruct (image_line ver (js "PHOTO") type data setPhoto)
      as (line & ps & vs & H1 & H2 & H3); auto;
      try discriminate; try plain_word; try reflexivity.
    exists line, (MkToken (js "PHOTO") ps vs).
    split; [exact H1|]. split; [exact H2|].
    rewrite (H3 v Hv). unfold setPhoto, dataUriRegex_test. now rewrite Hm.
  - destruct (image_line ver (js "LOGO") type data setLogo)
      as (line & ps & vs & H1 & H2 & H3); auto;
      try discriminate; try plain_word; try reflexivity.
    exists line, (MkToken (js "LOGO") ps vs).
    split; [exact H1|]. split; [exact H2|].
    rewrite (H3 v Hv). unfold setLogo, dataUriRegex_test. now rewrite Hm.
Qed.

Lemma image_line_round_trip_witness :
  (exists line tok,
     render_image 3 (js "PHOTO") (image_uri (js "svg+xml") (js "PHN2Zz4="))
     = Return line
     /\ tokenize_line (logical line) = Return tok
     /\ parseToken tok (set_specVersion 3 new_VCard)
        = (Return tt,
           set_photo
             (photo (set_specVersion 3 new_VCard)
              ++ [image_uri (js "svg+xml") (js "PHN2Zz4=")])
             (set_specVersion 3 new_VCard)))
  /\ (exists line tok,
        render_image 3 (js "LOGO") (image_uri (js "svg+xml") (js "PHN2Zz4="))
        = Return line
        /\ tokenize_line (logical line) = Return tok
        /\ parseToken tok (set_specVersion 3 new_VCard)
           = (Return tt,
              set_logo
                (logo (set_specVersion 3 new_VCard)
                 ++ [image_uri (js "svg+xml") (js "PHN2Zz4=")])
                (set_specVersion 3 new_VCard))).
Proof.
  apply (image_line_round_trip 3 (js "svg+xml") (js "PHN2Zz4=")
           (set_specVersion 3 new_VCard)).
  - now left.
  - reflexivity.
  - split; [discriminate|]. repeat constructor; discriminate.
  - split; [discriminate|]. repeat constructor.
Defined.

(** A type with a capital letter comes back in small letters under
    version 3. *)
Example image_type_case :
  render_image 3 (js "PHOTO") (js "data:image/PNG;base64,AAAA")
  = Return (js "PHOTO;ENCODING=b;TYPE=PNG:AAAA")
  /\ tokenize_line (js "PHOTO;ENCODING=b;TYPE=PNG:AAAA")
     = Return (MkToken (js "PHOTO")
                 [MkParam (js "ENCODING") [js "b"];
                  MkParam (js "TYPE") [js "PNG"]] [js "AAAA"])
  /\ parseToken
       (MkToken (js "PHOTO")
          [MkParam (js "ENCODING") [js "b"]; MkParam (js "TYPE") [js "PNG"]]
          [js "AAAA"])
       (set_specVersion 3 new_VCard)
     = (Return tt,
        set_photo [js "data:image/png;base64,AAAA"]
          (set_specVersion 3 new_VCard)).
Proof. repeat split; vm_compute; reflexivity. Qed.

(** ** Address groups of version 3 *)

Lemma uint_to_js_digits (d : Decimal.uint) :
  Forall (fun c => is_digit c = true) (uint_to_js d).
Proof. induction d; simpl; constructor; auto. Qed.

Lemma N_to_js_plain (n : N) : Forall (fun c => plain c = true) (N_to_js n).
Proof. apply digits_plain, uint_to_js_digits. Qed.

Lemma group_plain (n : N) :
  Forall (fun c => plain c = true) (js "item" ++ N_to_js n ++ js ".").
Proof.
  repeat apply Forall_app_2; try plain_word. apply N_to_js_plain.
Qed.

(** The key of a line of a group: its label and its bare key. *)
Lemma group_of_item (n : N) (bare : jstring) :
  ~ In 46 bare ->
  group_of ((js "item" ++ N_to_js n ++ js ".") ++ bare)
  = Some (js "item" ++ N_to_js n, bare).
Proof.
  intros Hb.
  assert (Hi : ~ In 46 (js "item" ++ N_to_js n)).
  { intros H. apply in_app_or in H as [H|H].
    - vm_compute in H. intuition discriminate.
    - pose proof (N_to_js_plain n) as Hp.
      pose proof (uint_to_js_digits (N.to_uint n)) as Hd.
      rewrite List.Forall_forall in Hd. apply Hd in H. discriminate. }
  unfold group_of.
  assert (Hd : has_dot ((js "item" ++ N_to_js n ++ js ".") ++ bare) = true).
  { unfold has_dot. rewrite !existsb_app.
    change (existsb (N.eqb 46) (js ".")) with true.
    now rewrite !orb_true_r. }
  rewrite Hd.
  replace ((js "item" ++ N_to_js n ++ js ".") ++ bare)
    with ((js "item" ++ N_to_js n) ++ 46 :: bare)
    by (rewrite <- !app_assoc; reflexivity).
  rewrite split_on_prefix by exact Hi.
  now rewrite split_on_single by exact Hb.
Qed.

(** The values of the label line of a group. *)
Lemma label_values (label : jstring) :
  clean label ->
  map unesc
    (match_segments 59 (join (js ":") (match_segments 58 (escape label))))
  = if truthy label then [label] else [].
Proof.
  intros [_ Hn]. unfold match_segments.
  rewrite (segments_inert 58 [] (escape label))
    by (apply inert_escape; auto).
  cbn [app]. rewrite truthy_escape.
  destruct (truthy label) eqn:E; [|reflexivity].
  cbn [join].
  rewrite (segments_inert 59 [] (escape label))
    by (apply inert_escape; auto).
  cbn [app]. rewrite truthy_escape, E. cbn [map].
  now rewrite (proj1 (unesc_escape_inverse label Hn)).
Qed.

(** The two lines of an address under version 3. *)
Lemma adr_lines3 (a : Address) (g : N) :
  Forall clean (adr_components a) -> clean (adr_label a) ->
  exists l1 l2,
    render_addresses 3 g [a] = [l1; l2]
    /\ tokenize_line (logical l1)
       = Return (MkToken ((js "item" ++ N_to_js (g + 1) ++ js ".") ++ js "ADR")
                   [] (List.filter truthy (adr_components a)))
    /\ tokenize_line (logical l2)
       = Return (MkToken
                   ((js "item" ++ N_to_js (g + 1) ++ js ".") ++ js "X-ABLabel")
                   [] (if truthy (adr_label a) then [adr_label a] else [])).
Proof.
  intros Hc Hl. eexists. eexists. split; [reflexivity|].
  pose proof (group_plain (g + 1)) as HG.
  set (G := js "item" ++ N_to_js (g + 1) ++ js ".") in *.
  assert (HG0 : G <> []) by discriminate.
  clearbody G.
  pose proof Hc as Hc'. unfold adr_components in Hc'.
  repeat match goal with
         | H : Forall clean (_ :: _) |- _ =>
             apply List.Forall_cons_iff in H as [[? _] H]
         end.
  unfold logical. rewrite !formatTextValue_unfold.
  change (3 =? 4)%Z with false. cbn [andb]. cbv iota.
  rewrite !if_truthy_app.
  change (js "%COL%%SEM%%SEM%") with (js "%COL%" ++ js "%SEM%" ++ js "%SEM%").
  change (js "X-ABLabel%COL%") with (js "X-ABLabel" ++ js "%COL%").
  rewrite <- !app_assoc.
  rewrite !(escape_text_plain G) by exact HG.
  rewrite !escape_text_name by plain_word.
  rewrite !escape_text_sem0.
  rewrite !escape_text_part by assumption.
  rewrite !escape_text_escape by (assumption || apply Hl).
  assert (Hfree : forall w, Forall (fun c => plain c = true) w ->
            Forall (fun c => c <> 58 /\ c <> 92) (G ++ w)).
  { intros w Hw. apply plain_free; auto. now apply Forall_app_2. }
  split.
  - match goal with
    | |- tokenize_line (G ++ js "ADR" ++ 58 :: ?R) = _ =>
        replace (G ++ js "ADR" ++ 58 :: R) with ((G ++ js "ADR") ++ 58 :: R)
          by (rewrite <- !app_assoc; reflexivity)
    end.
    rewrite tokenize_head.
    + assert (Hk : tokenize_line (G ++ js "ADR")
                   = Return (MkToken (G ++ js "ADR") [] [])).
      { assert (Hp : Forall (fun c => plain c = true) (G ++ js "ADR"))
          by (apply Forall_app_2; [exact HG | plain_word]).
        unfold tokenize_line, match_segments.
        rewrite (segments_name 58) by (auto; destruct G; discriminate).
        cbn [join]. change (segments 59 false [] []) with (@nil jstring).
        rewrite (segments_name 59) by (auto; destruct G; discriminate).
        cbn [map map_outcome obind].
        now rewrite unesc_plain by now apply plain_no_backslash. }
      rewrite Hk. cbn [obind key props].
      now rewrite (adr_values a Hc).
    + destruct G; discriminate.
    + apply Hfree. plain_word.
  - match goal with
    | |- tokenize_line (G ++ js "X-ABLabel" ++ 58 :: ?R) = _ =>
        replace (G ++ js "X-ABLabel" ++ 58 :: R)
          with ((G ++ js "X-ABLabel") ++ 58 :: R)
          by (rewrite <- !app_assoc; reflexivity)
    end.
    rewrite tokenize_head.
    + assert (Hk : tokenize_line (G ++ js "X-ABLabel")
                   = Return (MkToken (G ++ js "X-ABLabel") [] [])).
      { assert (Hp : Forall (fun c => plain c = true) (G ++ js "X-ABLabel"))
          by (apply Forall_app_2; [exact HG | plain_word]).
        unfold tokenize_line, match_segments.
        rewrite (segments_name 58) by (auto; destruct G; discriminate).
        cbn [join]. change (segments 59 false [] []) with (@nil jstring).
        rewrite (segments_name 59) by (auto; destruct G; discriminate).
        cbn [map map_outcome obind].
        now rewrite unesc_plain by now apply plain_no_backslash. }
      rewrite Hk. cbn [obind key props].
      now rewrite (label_values _ Hl).
    + destruct G; discriminate.
    + apply Hfree. plain_word.
Qed.

(** X23. Under version 3 [render] writes an address as the two lines of a
    group, the address and its label, which the tokenizer combines into one
    ADR token with a LABEL parameter; that token is read back as the
    [setAddress] call of the components that are not empty, in their
    order, followed by the label, and without any component [parseToken]
    throws. *)
Theorem adr_group_round_trip (a : Address) (g : N) (v : VCard.VCard) :
  Forall clean (adr_components a) -> clean (adr_label a) ->
  exists l1 l2 t1 t2 tok,
    render_addresses 3 g [a] = [l1; l2]
    /\ tokenize_line (logical l1) = Return t1
    /\ tokenize_line (logical l2) = Return t2
    /\ combine_groups [t1; t2] = Return [tok]
    /\ parseToken tok v
       = match List.filter truthy (adr_components a) with
         | [] => (Throw (js "Invalid vCard (Invalid token)"), v)
         | parts =>
             apply_setAddress (map Some parts ++ [Some (adr_label a)]) v
         end.
Proof.
  intros Hc Hl.
  destruct (adr_lines3 a g Hc Hl) as (l1 & l2 & Hr & H1 & H2).
  exists l1, l2. eexists. eexists. eexists.
  split; [exact Hr|]. split; [exact H1|]. split; [exact H2|].
  assert (Hcomb : combine_groups
            [MkToken ((js "item" ++ N_to_js (g + 1) ++ js ".") ++ js "ADR")
               [] (List.filter truthy (adr_components a));
             MkToken
               ((js "item" ++ N_to_js (g + 1) ++ js ".") ++ js "X-ABLabel")
               [] (if truthy (adr_label a) then [adr_label a] else [])]
          = Return
              [MkToken (js "ADR")
                 [MkParam (js "LABEL")
                    (if truthy (adr_label a) then [adr_label a] else [])]
                 (List.filter truthy (adr_components a))]).
  { rewrite combine_groups_ordinary.
    - cbn [merge_groups_spec key].
      rewrite !group_of_item by (vm_compute; intuition discriminate).
      cbn [includes existsb]. unfold attached. cbn [flat_map key].
      rewrite group_of_item by (vm_compute; intuition discriminate).
      rewrite jstr_eqb_refl. cbn [app props values].
      change (folded_name (js "X-ABLabel")) with (js "LABEL").
      reflexivity.
    - constructor; [|constructor; [|constructor]]; intros l bare; cbn [key];
        rewrite group_of_item by (vm_compute; intuition discriminate);
        intros [= <- _]; split; discriminate. }
  split; [exact Hcomb|].
  destruct (List.filter truthy (adr_components a))
    as [|p1 parts] eqn:E; [reflexivity|].
  change (parseToken ?k) with (parseAddressToken k).
  unfold parseAddressToken, apply_setAddress. cbn [values].
  change (props_named (js "LABEL") ?k)
    with [MkParam (js "LABEL")
            (if truthy (adr_label a) then [adr_label a] else [])].
  cbv iota. cbn [pvalues].
  destruct (adr_label a) as [|c l]; [|reflexivity].
  cbn [truthy]. cbv iota.
  destruct parts as [|p2 [|p3 [|p4 [|p5 [|p6 parts]]]]]; reflexivity.
Qed.

Lemma adr_group_round_trip_witness :
  exists l1 l2 t1 t2 tok,
    render_addresses 3 0
      [MkAddress (js "1 Main St") (js "Springfield") (js "IL") (js "62701")
         (js "USA") (js "Home")] = [l1; l2]
    /\ tokenize_line (logical l1) = Return t1
    /\ tokenize_line (logical l2) = Return t2
    /\ combine_groups [t1; t2] = Return [tok]
    /\ parseToken tok (set_specVersion 3 new_VCard)
       = match List.filter truthy
                 (adr_components
                    (MkAddress (js "1 Main St") (js "Springfield") (js "IL")
                       (js "62701") (js "USA") (js "Home"))) with
         | [] => (Throw (js "Invalid vCard (Invalid token)"),
                  set_specVersion 3 new_VCard)
         | parts =>
             apply_setAddress (map Some parts ++ [Some (js "Home")])
               (set_specVersion 3 new_VCard)
         end.
Proof.
  assert (Hs : forall s, safe_test s = true -> clean s).
  { intros s H. apply safe_test_ok in H as (_ & H1 & H2). now split. }
  apply (adr_group_round_trip
           (MkAddress (js "1 Main St") (js "Springfield") (js "IL")
              (js "62701") (js "USA") (js "Home"))
           0 (set_specVersion 3 new_VCard)).
  - repeat constructor; apply Hs; vm_compute; reflexivity.
  - apply Hs. vm_compute. reflexivity.
Defined.

(** ** The two tokenizers *)

(** On one line: the generator's tokenizer returns what the parser's
    returns when the token has a value, and throws when it has none. *)
Lemma legacy_line (line : jstring) :
  match tokenize_line line with
  | Return t =>
      legacy_tokenize_line line
      = if (length (values t) =? 0)%nat then Throw TypeError else Return t
  | Throw e => legacy_tokenize_line line = Throw TypeError
  end.
Proof.
  unfold tokenize_line, legacy_tokenize_line.
  destruct (match_segments 58 line) as [|kp vs]; [reflexivity|].
  destruct (match_segments 59 (join (js ":") vs)) as [|x xs] eqn:Ev.
  - destruct (match_segments 59 kp) as [|k ps]; [reflexivity|].
    cbn [obind]. destruct (map_outcome tokenize_prop ps); reflexivity.
  - destruct (match_segments 59 kp) as [|k ps]; [reflexivity|].
    cbv zeta. destruct (map_outcome tokenize_prop ps) as [qs|e] eqn:Ep.
    + reflexivity.
    + cbn [obind]. f_equal.
      exact (map_outcome_throws tokenize_prop ps TypeError e
               tokenize_prop_throws Ep).
Qed.

Lemma legacy_lines (ls : list jstring) :
  match map_outcome legacy_tokenize_line ls with
  | Return ts => map_outcome tokenize_line ls = Return ts
  | Throw e =>
      e = TypeError
      /\ (map_outcome tokenize_line ls = Throw TypeError
          \/ exists l t, In l ls /\ tokenize_line l = Return t
                         /\ values t = [])
  end.
Proof.
  induction ls as [|l ls IH]; [reflexivity|].
  cbn [map_outcome]. pose proof (legacy_line l) as Hl.
  destruct (tokenize_line l) as [t|e] eqn:Et.
  - rewrite Hl. destruct (values t) as [|x xs] eqn:Ev; cbn [length Nat.eqb].
    + cbn [obind]. split; [reflexivity|]. right. exists l, t.
      repeat split; auto. now left.
    + cbn [obind].
      destruct (map_outcome legacy_tokenize_line ls) as [ts|e'].
      * cbn [obind]. now rewrite IH.
      * cbn [obind]. destruct IH as [-> [IH | (l' & t' & Hin & Ht & Hv)]].
        -- split; [reflexivity|]. left. now rewrite IH.
        -- split; [reflexivity|]. right. exists l', t'.
           repeat split; auto. now right.
  - rewrite Hl. cbn [obind]. split; [reflexivity|]. left.
    now rewrite (tokenize_line_throws l e Et).
Qed.

(** The loop that combines the groups throws nothing but a TypeError. *)
Lemma combine_groups_throws (tokens : list Token) (e : jstring) :
  combine_groups tokens = Throw e -> e = TypeError.
Proof.
  unfold combine_groups.
  assert (H : forall idx st,
            (forall e, st = Throw e -> e = TypeError) ->
            forall e, fold_left combine_step idx st = Throw e ->
                      e = TypeError).
  { induction idx as [|i idx IH]; intros st Hst e0; cbn [fold_left];
      [apply Hst|].
    apply IH. intros e1. destruct st as [[lm ts]|e2]; cbn [combine_step obind].
    - destruct (ts !! i) as [t|]; [|discriminate].
      destruct (has_dot (key t)); [|discriminate]. cbv zeta.
      destruct (lm !! js "hasOwnProperty"); [now intros [= <-]|].
      destruct (lm !! nth 0 (split_on 46 (key t)) []); discriminate.
    - apply Hst. }
  destruct (fold_left combine_step _ _) as [[lm ts]|e0] eqn:E;
    cbn [obind]; [discriminate|].
  intros [= <-]. eapply H; [|exact E]. discriminate.
Qed.

(** X24. The tokenizer that the class [VCard] carries returns the tokens
    that the parser's tokenizer returns, whenever it returns; otherwise it
    throws a TypeError, either where the parser's does or because a line of
    the text has no value, for which the parser's returns a token without
    values. *)
Theorem legacy_tokenizer_agrees (str : jstring) :
  match legacy_tokenizeVcardString str with
  | Return toks => tokenizeVcardString str = Return toks
  | Throw e =>
      e = TypeError
      /\ (tokenizeVcardString str = Throw TypeError
          \/ exists l t,
               In l (split_runs (N.eqb NL) false (replace2 NL SP [] str))
               /\ tokenize_line l = Return t /\ values t = [])
  end.
Proof.
  unfold legacy_tokenizeVcardString, tokenizeVcardString.
  pose proof (legacy_lines
                (split_runs (N.eqb NL) false (replace2 NL SP [] str))) as H.
  destruct (map_outcome legacy_tokenize_line _) as [ts|e]; cbn [obind].
  - rewrite H. cbn [obind].
    destruct (combine_groups ts) as [toks|e] eqn:E; [reflexivity|].
    apply combine_groups_throws in E as ->. auto.
  - destruct H as [-> [H | H]]; (split; [reflexivity|]).
    + left. now rewrite H.
    + now right.
Qed.

(** The label line of an address without label, as [render] writes it under
    version 3, is such a line. *)
Example legacy_tokenizer_label_line :
  render_addresses 3 0 [MkAddress (js "1 Main St") [] [] [] [] []]
  = [js "item1.ADR:;;1 Main St;;;;"; js "item1.X-ABLabel:"]
  /\ legacy_tokenizeVcardString
       (js "item1.ADR:;;1 Main St;;;;" ++ [NL] ++ js "item1.X-ABLabel:")
     = Throw TypeError
  /\ tokenizeVcardString
       (js "item1.ADR:;;1 Main St;;;;" ++ [NL] ++ js "item1.X-ABLabel:")
     = Return [MkToken (js "ADR") [MkParam (js "LABEL") []]
                 [js "1 Main St"]].
Proof. repeat split; vm_compute; reflexivity. Qed.

(** ** The round trip of a contact of version 4 *)

Lemma reads_at_reads (ver : Z) (part : jstring) (m : M unit) :
  reads part m -> reads_at ver part m.
Proof.
  intros (H1 & H2 & H3 & tok & H4 & H5 & H6).
  repeat split; auto. exists tok. repeat split; auto.
Qed.

Lemma for_each_at (ver : Z) (fs gs : list (M unit)) (v : VCard.VCard) :
  Forall2 (fun f g => forall v, specVersion v = ver -> f v = g v) fs gs ->
  Forall keeps_version gs -> specVersion v = ver ->
  for_each (fun m => m) fs v = for_each (fun m => m) gs v.
Proof.
  intros H. revert v.
  induction H as [|f g fs gs E _ IH]; intros v Hk Hv; [reflexivity|].
  apply List.Forall_cons_iff in Hk as [Hg Hk].
  cbn [for_each]. unfold bind. rewrite (E v Hv).
  pose proof (Hg v) as Hg'.
  destruct (g v) as [[[]|e] v']; [|reflexivity].
  apply IH; [exact Hk|]. simpl in Hg'. congruence.
Qed.

(** The text of the lines [rest] between its first two lines and its last
    is parsed as the calls the lines are read as, after [setVersion]. *)
Lemma parse_lines_at (ver : Z) (rest : list jstring) (ms : list (M unit))
    (v : VCard.VCard) :
  ver = 3%Z \/ ver = 4%Z ->
  Forall2 (reads_at ver) rest ms -> Forall keeps_version ms ->
  parse (join [NL] ([js "BEGIN:VCARD"; js "VERSION:" ++ Z_to_js ver ++ js ".0"]
                    ++ rest ++ [js "END:VCARD"])) v
  = (setVersion ver ;;; for_each (fun m => m) ms) v.
Proof.
  intros Hver Hreads Hkeep.
  assert (Htoks : exists toks,
            Forall2 reads rest (map parseToken toks)
            /\ Forall2 (fun f g => forall v, specVersion v = ver -> f v = g v)
                 (map parseToken toks) ms).
  { clear Hkeep. induction Hreads
      as [|part m rest ms (H1 & H2 & H3 & tok & H4 & H5 & H6) _
            (toks & Ha & Hb)].
    - exists []. split; constructor.
    - exists (tok :: toks). split; constructor; auto.
      repeat split; auto. exists tok. repeat split; auto. }
  destruct Htoks as (toks & Ha & Hb).
  rewrite (parse_lines ver rest (map parseToken toks) v Hver Ha).
  assert (Hsv : setVersion ver v = (Return tt, set_specVersion ver v))
    by (destruct Hver as [-> | ->]; reflexivity).
  rewrite !(run_seq _ _ _ _ Hsv).
  apply for_each_at with (ver := ver); auto.
Qed.

Lemma reads_at_format (ver : Z) (c : N) (s : jstring) (tok : Token)
    (m : M unit) :
  plain c = true -> c <> SP ->
  tokenize_line (logical (formatTextValue (c :: s))) = Return tok ->
  has_dot (key tok) = false ->
  (forall v, specVersion v = ver -> parseToken tok v = m v) ->
  reads_at ver (formatTextValue (c :: s)) m.
Proof.
  intros Hc Hsp Ht Hd Hp. unfold reads_at.
  split; [now apply formatTextValue_head_not|].
  split; [intros E; rewrite E in Ht; discriminate|].
  split; [unfold logical; rewrite formatTextValue_unfold;
          apply escape_text_line|].
  exists tok. auto.
Qed.

Lemma Forall2_map_both {A B C} (R : B -> C -> Prop) (f : A -> B) (g : A -> C)
    (xs : list A) :
  Forall (fun x => R (f x) (g x)) xs -> Forall2 R (map f xs) (map g xs).
Proof. induction 1; cbn [map]; constructor; auto. Qed.

(** *** Images *)

Lemma reads_image (prop : jstring) (c0 : N) (p' : jstring)
    (set : jstring -> M unit) (u : jstring) :
  prop = c0 :: p' -> plain c0 = true -> c0 <> SP ->
  Forall (fun c => plain c = true) prop -> has_dot prop = false ->
  tokenize_line prop = Return (MkToken prop [] []) ->
  tokenize_line (prop ++ js ";ENCODING=b")
  = Return (MkToken prop [MkParam (js "ENCODING") [js "b"]] []) ->
  (forall ps x xs,
     parseToken (MkToken prop ps (x :: xs))
     = parseImageToken set (MkToken prop ps (x :: xs))) ->
  image_back u ->
  exists line,
    render_image 4 prop u = Return line /\ reads_at 4 line (set u).
Proof.
  intros Ep Hc Hsp Hp Hd Hk4 Hk3 Hparse (type & data & -> & Hty & Hda).
  destruct (image_line 4 prop type data set) as (line & ps & vs & H1 & H2 & H3);
    auto; [rewrite Ep; discriminate|].
  exists line. split; [exact H1|].
  unfold render_image in H1. change (4 =? 4)%Z with true in H1.
  cbv iota in H1. injection H1 as <-. rewrite Ep in *.
  eapply reads_at_format; eauto.
Qed.

Lemma reads_images (prop : jstring) (c0 : N) (p' : jstring)
    (set : jstring -> M unit) (us : list jstring) :
  prop = c0 :: p' -> plain c0 = true -> c0 <> SP ->
  Forall (fun c => plain c = true) prop -> has_dot prop = false ->
  tokenize_line prop = Return (MkToken prop [] []) ->
  tokenize_line (prop ++ js ";ENCODING=b")
  = Return (MkToken prop [MkParam (js "ENCODING") [js "b"]] []) ->
  (forall ps x xs,
     parseToken (MkToken prop ps (x :: xs))
     = parseImageToken set (MkToken prop ps (x :: xs))) ->
  Forall image_back us ->
  exists lines,
    map_outcome (render_image 4 prop) us = Return lines
    /\ Forall2 (reads_at 4) lines (map set us).
Proof.
  intros Ep Hc Hsp Hp Hd Hk4 Hk3 Hparse.
  induction 1 as [|u us Hu _ (lines & Hl & Hr)].
  - exists []. split; [reflexivity | constructor].
  - destruct (reads_image prop c0 p' set u) as (line & H1 & H2); auto.
    exists (line :: lines). cbn [map_outcome map]. rewrite H1, Hl.
    split; [reflexivity | now constructor].
Qed.

(** *** Dates *)

Lemma tokenize_plain_value (p f : jstring) :
  p <> [] -> Forall (fun c => plain c = true) p ->
  f <> [] -> Forall (fun c => plain c = true) f ->
  logical (p ++ js ":" ++ f) = p ++ js ":" ++ f
  /\ ~ In NL (p ++ js ":" ++ f)
  /\ tokenize_line (p ++ js ":" ++ f) = Return (MkToken p [] [f]).
Proof.
  intros Hp0 Hp Hf0 Hf.
  assert (Hnl : ~ In NL (p ++ js ":" ++ f)).
  { intros H. apply in_app_or in H as [H|H].
    - rewrite List.Forall_forall in Hp. apply Hp in H. discriminate.
    - destruct H as [H|H]; [discriminate|].
      rewrite List.Forall_forall in Hf. apply Hf in H. discriminate. }
  split; [unfold logical; now apply replace2_absent|].
  split; [exact Hnl|].
  assert (Hb : ~ In 92 f) by now apply plain_no_backslash.
  assert (E : escape f = f).
  { rewrite <- escape_text_escape.
    - now apply escape_text_word.
    - intros H. rewrite List.Forall_forall in Hf. apply Hf in H.
      discriminate. }
  change (p ++ js ":" ++ f) with (p ++ 58 :: f). rewrite <- E at 1.
  apply tokenize_escaped; auto.
  intros l1 l2 El. apply Hb. rewrite El. apply in_or_app. right. now left.
Qed.

Lemma forallb_digits_plain (B : jstring) :
  forallb is_digit B = true -> Forall (fun c => plain c = true) B.
Proof.
  intros H. apply digits_plain. apply List.Forall_forall.
  intros c Hc. rewrite forallb_forall in H. now apply H.
Qed.

Lemma reads_date (prop : jstring) (c0 : N) (p' : jstring)
    (setd : date_arg -> M unit) (d : option Date) :
  prop = c0 :: p' -> c0 <> SP ->
  Forall (fun c => plain c = true) prop -> has_dot prop = false ->
  (forall f v,
     parseToken (MkToken prop [] [f]) v
     = match parse_date f with
       | None => (Throw TypeError, v)
       | Some date => setd (IsDate date) v
       end) ->
  date_back d ->
  exists lines,
    render_date 4 prop d = Return lines
    /\ Forall2 (reads_at 4) lines
         (match d with
          | Some date => [setd (IsDate date)]
          | None => []
          end).
Proof.
  intros Ep Hsp Hp Hd Hparse Hback. destruct d as [[[t|]]|]; cbn in Hback.
  - destruct Hback as [Hyr Hms].
    destruct (date_text 4 t Hyr) as (f & Hf & Hpd & Hshape).
    destruct (Hshape eq_refl) as (B1 & B2 & -> & HB0 & HB1 & HB2).
    assert (Hfp : Forall (fun c => plain c = true) (B1 ++ 84 :: B2 ++ [90])).
    { apply Forall_app_2; [now apply forallb_digits_plain|].
      constructor; [reflexivity|].
      apply Forall_app_2; [now apply forallb_digits_plain | plain_word]. }
    destruct (tokenize_plain_value prop (B1 ++ 84 :: B2 ++ [90]))
      as (Hlog & Hnl & Htok); auto;
      [rewrite Ep; discriminate | destruct B1; [congruence|discriminate]|].
    unfold render_date. rewrite Hf. cbn [obind]. eexists.
    split; [reflexivity|]. constructor; [|constructor].
    unfold reads_at. rewrite Hlog.
    split; [rewrite Ep; exact Hsp|].
    split; [rewrite Ep; discriminate|].
    split; [exact Hnl|].
    eexists. split; [exact Htok|]. split; [exact Hd|].
    intros v _. rewrite Hparse, Hpd.
    replace (t - t mod 1000)%Z with t by lia. reflexivity.
  - contradiction.
  - exists []. split; [reflexivity | constructor].
Qed.

(** *** The gender *)

Lemma reads_gender (c : VCard.VCard) :
  gender_back (gender c) (gender_ident c) ->
  Forall2 (reads_at 4) (render_gender c)
    (match gender c with
     | Some g => [setGender g (gender_ident c)]
     | None => []
     end).
Proof.
  unfold gender_back. destruct (gender c) as [g|] eqn:Eg.
  - intros [Hin Hi].
    destruct (gender_line c g Eg Hin) as (s & Hr & Ht).
    { intros i Ei. rewrite Ei in Hi. right. apply Hi. }
    rewrite Hr. constructor; [|constructor].
    change (js "GENDER%COL%" ++ s) with (71 :: js "ENDER%COL%" ++ s) in *.
    eapply reads_at_format; eauto; try reflexivity; try discriminate.
    intros v _. destruct (gender_ident c) as [i|]; [|reflexivity].
    destruct Hi as [(Hi0 & _) _].
    destruct i; [congruence | reflexivity].
  - intros _. unfold render_gender. rewrite Eg. constructor.
Qed.

(** *** Addresses *)

Lemma render_addresses_cons4 (g : N) (a : Address) (rest : list Address) :
  render_addresses 4 g (a :: rest)
  = render_addresses 4 g [a] ++ render_addresses 4 g rest.
Proof.
  cbn [render_addresses]. change (4 =? 3)%Z with false. cbv iota.
  reflexivity.
Qed.

Lemma adr_head (g : N) (a : Address) :
  exists s, render_addresses 4 g [a] = [formatTextValue (65 :: s)].
Proof.
  cbn [render_addresses]. change (4 =? 3)%Z with false.
  change (4 =? 4)%Z with true. cbv iota beta zeta. cbn [andb app].
  rewrite !if_truthy_app.
  destruct (truthy (adr_label a)); rewrite <- !app_assoc;
    eexists; reflexivity.
Qed.

Lemma filter_all (cs : list jstring) :
  Forall safe cs -> List.filter truthy cs = cs.
Proof.
  induction 1 as [|c cs (Hc & _) _ IH]; [reflexivity|].
  cbn [List.filter]. destruct c; [congruence|]. cbn [truthy].
  now rewrite IH.
Qed.

Lemma safe_clean (s : jstring) : safe s -> clean s.
Proof. intros (_ & H1 & H2). now split. Qed.

Lemma reads_address (g : N) (a : Address) :
  address_back a ->
  exists line,
    render_addresses 4 g [a] = [line]
    /\ reads_at 4 line (assign (fun v => set_address (address v ++ [a]) v)).
Proof.
  intros (Hc & Hl & Heq).
  assert (Hc' : Forall clean (adr_components a)).
  { eapply List.Forall_impl; [|exact Hc]. apply safe_clean. }
  destruct (adr_line4 a g Hc' Hl Heq) as (line & Hr & Ht).
  destruct (adr_head g a) as (s & Hs).
  exists line. split; [exact Hr|].
  rewrite Hs in Hr. injection Hr as <-.
  eapply reads_at_format; eauto; try reflexivity; try discriminate.
  intros v _. rewrite (filter_all _ Hc).
  unfold adr_components in *.
  apply List.Forall_inv in Hc as Hs1. destruct Hs1 as (Hs1 & _).
  change (parseToken ?k) with (parseAddressToken k).
  unfold parseAddressToken. cbn [values].
  destruct a as [street city state zip country label].
  cbn [adr_street adr_city adr_state adr_zip adr_country adr_label] in *.
  destruct label as [|c l]; reflexivity.
Qed.

Lemma reads_addresses (g : N) (adrs : list Address) :
  Forall address_back adrs ->
  Forall2 (reads_at 4) (render_addresses 4 g adrs)
    (map (fun a => assign (fun v => set_address (address v ++ [a]) v)) adrs).
Proof.
  induction 1 as [|a adrs Ha _ IH]; [constructor|].
  rewrite render_addresses_cons4.
  destruct (reads_address g a Ha) as (line & Hr & H). rewrite Hr.
  cbn [app map]. now constructor.
Qed.

(** *** Phones, emails and instant messaging *)

Lemma tel_head (t : Tel) :
  exists s, render_tel 4 t = formatTextValue (84 :: s).
Proof.
  unfold render_tel, ph_parts. change (4 =? 4)%Z with true.
  change (4 =? 3)%Z with false. cbv beta iota zeta. cbn [andb].
  destruct (tel_pref t), (negb (length (tel_type t) =? 0)%nat),
    (truthy (tel_ext t)); rewrite <- !app_assoc; eexists; reflexivity.
Qed.

Lemma digits_safe (s : jstring) :
  Forall (fun c => is_digit c = true) s -> s = [] \/ safe s.
Proof.
  intros H. destruct s as [|c s]; [now left|]. right.
  pose proof (digits_plain _ H) as Hp.
  split; [discriminate|]. split.
  - intros Hin. rewrite List.Forall_forall in Hp. apply Hp in Hin.
    discriminate.
  - intros l1 l2 E. apply (plain_no_backslash _ Hp). rewrite E.
    apply in_or_app. right. now left.
Qed.

Lemma reads_tel (t : Tel) :
  tel_back t ->
  reads_at 4 (render_tel 4 t)
    (setPhone (tel_phone t) (Some (tel_ext t)) (Some (TypeArray (tel_type t)))
       (tel_pref t)).
Proof.
  intros (Hl & Hd & He & Hty).
  pose proof (tel_line4 t Hty (digits_safe _ He)) as Ht.
  destruct (tel_head t) as (s & Hs). rewrite Hs in *.
  eapply reads_at_format; eauto; try reflexivity; try discriminate.
  intros v Hv.
  change (parseToken ?k) with (parsePhoneToken k).
  unfold parsePhoneToken, bind, this. cbn [values props]. rewrite Hv.
  change (4 =? 3)%Z with false. cbv iota zeta.
  change (tmpl (?l !! 0%nat)) with (js "tel:" ++ ph_number (tel_phone t)).
  pose proof (ph_back_spec (js "tel:") (tel_phone t) eq_refl) as Hb.
  cbv zeta in Hb. rewrite Hb.
  transitivity (setPhone (ph_back (tel_phone t))
                  (Some (digits_of (tel_ext t)))
                  (Some (TypeArray (tel_type t))) (tel_pref t) v).
  - destruct (tel_pref t); destruct (tel_type t) as [|ty tys];
      destruct (tel_ext t) as [|c e]; reflexivity.
  - now rewrite (ph_back_whole _ Hl Hd), (digits_of_digits _ He).
Qed.

Lemma email_head (e : Email) :
  exists s, render_email 4 e = formatTextValue (69 :: s).
Proof.
  unfold render_email. change (4 =? 4)%Z with true. cbv iota zeta.
  destruct (em_pref e); rewrite <- ?app_assoc; eexists; reflexivity.
Qed.

Lemma reads_email (e : Email) :
  email_back e ->
  reads_at 4 (render_email 4 e) (setEmail (em_email e) (em_pref e)).
Proof.
  intros (Hs & _).
  pose proof (email_line 4 e (or_intror eq_refl) Hs) as Ht.
  destruct (email_head e) as (s & Hh). rewrite Hh in *.
  eapply reads_at_format; eauto; try reflexivity; try discriminate.
  intros v Hv.
  change (parseToken ?t) with (parseEmailToken t).
  unfold parseEmailToken, bind, this. cbn [values props]. rewrite Hv.
  destruct (em_pref e); reflexivity.
Qed.

Lemma impp_head (i : Impp) :
  exists s, render_impp i = formatTextValue (73 :: s).
Proof.
  unfold render_impp. cbv zeta.
  destruct (im_pref i); rewrite <- ?app_assoc; eexists; reflexivity.
Qed.

Lemma reads_impp (i : Impp) :
  impp_back i ->
  reads_at 4 (render_impp i)
    (setIM (im_imurl i) (im_protocol i) (im_pref i)).
Proof.
  intros (Hp & u & Eu & Hs & Hc).
  pose proof (impp_line i u Hp Eu Hs) as Ht.
  destruct (impp_head i) as (s & Hh). rewrite Hh in *.
  eapply reads_at_format; eauto; try reflexivity; try discriminate.
  intros v _.
  change (parseToken ?t) with (parseIMToken t).
  unfold parseIMToken. cbn [values props].
  assert (Hcp : ~ In 58 (im_protocol i)).
  { apply im_protocols_plain in Hp as [_ Hp]. intros Hin.
    rewrite List.Forall_forall in Hp. apply Hp in Hin. discriminate. }
  change (tmpl (?l !! 0%nat)) with (im_protocol i ++ 58 :: u).
  rewrite (split_on_prefix 58 (im_protocol i) u Hcp).
  rewrite (split_on_single 58 u Hc). cbn [nth]. rewrite Eu.
  destruct (im_pref i); reflexivity.
Qed.

(** *** Organizations and URLs *)

Lemma reads_org (o : list jstring) :
  org_back o ->
  reads_at 4 (formatTextValue (js "ORG%COL%" ++ join (js "%SEM%") o))
    (assign (fun v => set_org (org v ++ [o]) v)).
Proof.
  intros (Ho0 & Hlen & Ho).
  pose proof (org_line o Ho) as Ht.
  change (js "ORG%COL%" ++ ?r) with (79 :: js "RG%COL%" ++ r) in *.
  eapply reads_at_format; eauto; try reflexivity; try discriminate.
  intros v _.
  destruct o as [|x o]; [congruence|].
  change (parseToken ?k) with (parseOrgToken k).
  unfold parseOrgToken, setOrg, assign. cbn [values].
  repeat match goal with
         | H : Forall safe (_ :: _) |- _ =>
             apply List.Forall_cons_iff in H as [(? & _) H]
         end.
  destruct x as [|c x]; [congruence|].
  destruct o as [|y o]; [reflexivity|].
  repeat match goal with
         | H : Forall safe (_ :: _) |- _ =>
             apply List.Forall_cons_iff in H as [(? & _) H]
         end.
  destruct y as [|d y]; [congruence|].
  destruct o as [|z o]; [reflexivity|].
  repeat match goal with
         | H : Forall safe (_ :: _) |- _ =>
             apply List.Forall_cons_iff in H as [(? & _) H]
         end.
  destruct z as [|e z]; [congruence|].
  destruct o as [|w o]; [reflexivity|]. simpl in Hlen. lia.
Qed.

Lemma reads_url (u : jstring) :
  url_back u ->
  reads_at 4 (js "URL:" ++ u) (assign (fun v => set_url (url v ++ [u]) v)).
Proof.
  intros (Hb & Hs & Hn & Hp).
  destruct (url_line u Hb Hs Hn Hp) as [Hl Ht].
  unfold reads_at. rewrite Hl.
  split; [discriminate|]. split; [discriminate|]. split.
  - intros H. apply in_app_or in H as [H|H]; [|auto].
    vm_compute in H. intuition discriminate.
  - eexists. split; [exact Ht|]. split; [reflexivity|].
    intros v _. reflexivity.
Qed.

(** *** The lines of a contact and the calls they are read as *)

Lemma Forall2_reads_at (ver : Z) (parts : list jstring) (ms : list (M unit)) :
  Forall2 reads parts ms -> Forall2 (reads_at ver) parts ms.
Proof.
  induction 1; constructor; auto using reads_at_reads.
Qed.

Lemma render_replay (c : VCard.VCard) :
  comes_back c ->
  exists rest,
    render_parts c
    = Return ([js "BEGIN:VCARD"; js "VERSION:" ++ Z_to_js 4 ++ js ".0"]
              ++ rest ++ [js "END:VCARD"])
    /\ Forall2 (reads_at 4) rest (replay c).
Proof.
  intros [Hver (k & Ek & Hk) [Hn0 Hnames] Hnick Hphoto Hbday Hann Hgender
            Hadr [Htel _] [Hemail _] [Himpp _] Htitle Hrole Hlogo Horg Hnote
            Hurl].
  destruct (reads_images (js "PHOTO") 80 (js "HOTO") setPhoto (photo c))
    as (photos & Ephotos & Rphotos);
    try reflexivity; try discriminate; try plain_word; auto.
  destruct (reads_images (js "LOGO") 76 (js "OGO") setLogo (logo c))
    as (logos & Elogos & Rlogos);
    try reflexivity; try discriminate; try plain_word; auto.
  assert (Pbd : forall f v,
            parseToken (MkToken (js "BDAY") [] [f]) v
            = match parse_date f with
              | None => (Throw TypeError, v)
              | Some date => setBday (IsDate date) v
              end).
  { intros f v. change (parseToken ?t) with (parseBDayToken t).
    unfold parseBDayToken. cbn [values].
    change (tmpl (?l !! 0%nat)) with f. now destruct (parse_date f). }
  assert (Pan : forall f v,
            parseToken (MkToken (js "ANNIVERSARY") [] [f]) v
            = match parse_date f with
              | None => (Throw TypeError, v)
              | Some date => setAnniversary (IsDate date) v
              end).
  { intros f v. change (parseToken ?t) with (parseAnniversaryToken t).
    unfold parseAnniversaryToken. cbn [values].
    change (tmpl (?l !! 0%nat)) with f. now destruct (parse_date f). }
  destruct (reads_date (js "BDAY") 66 (js "DAY") setBday (bday c))
    as (bd & Ebd & Rbd);
    try reflexivity; try discriminate; try plain_word; auto.
  destruct (reads_date (js "ANNIVERSARY") 65 (js "NNIVERSARY")
              setAnniversary (anniversary c))
    as (an & Ean & Ran);
    try reflexivity; try discriminate; try plain_word; auto.
  destruct (reads_names (name c) Hn0 Hnames) as (n0 & ns & En & Rnames).
  exists ([js "KIND:" ++ k]
          ++ render_names 0 (name c)
          ++ map (fun n => js "NICKNAME:" ++ formatTextValue n) (nickname c)
          ++ photos ++ bd ++ an
          ++ render_gender c
          ++ render_addresses 4 0 (address c)
          ++ map (render_tel 4) (tel c)
          ++ map (render_email 4) (email c)
          ++ map render_impp (impp c)
          ++ map (fun t => formatTextValue (js "TITLE%COL%" ++ t)) (title c)
          ++ map (fun r => formatTextValue (js "ROLE%COL%" ++ r)) (role c)
          ++ logos
          ++ map (fun o => formatTextValue
                             (js "ORG%COL%" ++ join (js "%SEM%") o)) (org c)
          ++ map (fun n => formatTextValue (js "NOTE%COL%" ++ n)) (note c)
          ++ map (fun u => js "URL:" ++ u) (url c)).
  split.
  - unfold render_parts. cbv zeta. rewrite Hver, Ek.
    change (4 =? 4)%Z with true.
    change (truthy_opt (Some k)) with (truthy k).
    rewrite (kinds_truthy k Hk). cbn [andb negb]. cbv iota.
    rewrite En at 1. change (length (n0 :: ns) =? 0)%nat with false.
    cbv iota. rewrite Ephotos, Ebd, Ean, Elogos. cbn [obind tmpl].
    rewrite render_nicknames_all by exact Hnick.
    rewrite <- !app_assoc. reflexivity.
  - unfold replay. rewrite Ek, En.
    repeat (apply Forall2_app; [|]).
    + constructor; [|constructor]. apply reads_at_reads. now apply reads_kind.
    + rewrite <- En. now apply Forall2_reads_at.
    + apply Forall2_map_both. eapply List.Forall_impl; [|exact Hnick].
      intros n [Hs _]. apply reads_at_reads. now apply reads_nickname.
    + exact Rphotos.
    + exact Rbd.
    + exact Ran.
    + now apply reads_gender.
    + now apply reads_addresses.
    + apply Forall2_map_both. eapply List.Forall_impl; [|exact Htel].
      apply reads_tel.
    + apply Forall2_map_both. eapply List.Forall_impl; [|exact Hemail].
      apply reads_email.
    + apply Forall2_map_both. eapply List.Forall_impl; [|exact Himpp].
      apply reads_impp.
    + apply Forall2_reads_at.
      apply (reads_values (js "TITLE") 84 (js "ITLE") setTitle);
        [reflexivity | reflexivity | discriminate | repeat constructor
         | reflexivity | reflexivity | exact Htitle].
    + apply Forall2_reads_at.
      apply (reads_values (js "ROLE") 82 (js "OLE") setRole);
        [reflexivity | reflexivity | discriminate | repeat constructor
         | reflexivity | reflexivity | exact Hrole].
    + exact Rlogos.
    + apply Forall2_map_both. eapply List.Forall_impl; [|exact Horg].
      apply reads_org.
    + apply Forall2_reads_at.
      apply (reads_values (js "NOTE") 78 (js "OTE") setNote);
        [reflexivity | reflexivity | discriminate | repeat constructor
         | reflexivity | reflexivity | exact Hnote].
    + apply Forall2_map_both. eapply List.Forall_impl; [|exact Hurl].
      apply reads_url.
Qed.

(** *** The calls leave the version as it is *)

Lemma keeps_assign (f : VCard.VCard -> VCard.VCard) :
  (forall v, specVersion (f v) = specVersion v) -> keeps_version (assign f).
Proof. intros H v. apply H. Qed.

Lemma keeps_guard (b : bool) (e : jstring) (m : M unit) :
  keeps_version m -> keeps_version (if b then throw e else m).
Proof. intros H v. destruct b; [reflexivity|apply H]. Qed.

Lemma keeps_seq (m1 m2 : M unit) :
  keeps_version m1 -> keeps_version m2 -> keeps_version (m1 ;;; m2).
Proof.
  intros H1 H2 v. unfold bind. pose proof (H1 v) as E.
  destruct (m1 v) as [[[]|e] v1]; [|exact E].
  rewrite H2. exact E.
Qed.

Lemma keeps_map {A} (set : A -> M unit) (xs : list A) :
  (forall x, keeps_version (set x)) -> Forall keeps_version (map set xs).
Proof. intros H. induction xs; constructor; auto. Qed.

Lemma keeps_setPhone (phone : jstring) (ext : option jstring)
    (type : option type_arg) (pref : bool) :
  keeps_version (setPhone phone ext type pref).
Proof.
  intros v.
  destruct (setPhone_cases phone ext type pref v) as [-> | ->]; reflexivity.
Qed.

Lemma replay_keeps (c : VCard.VCard) : Forall keeps_version (replay c).
Proof.
  unfold replay.
  repeat (apply Forall_app; split);
    try (apply keeps_map; intros x);
    try solve [intros v; reflexivity].
  - destruct (kind c); repeat constructor.
  - destruct (name c); repeat constructor. now apply keeps_map.
  - unfold setPhoto. apply keeps_guard. now apply keeps_assign.
  - destruct (bday c); repeat constructor.
  - destruct (anniversary c); repeat constructor.
  - destruct (gender c); repeat constructor.
    unfold setGender. apply keeps_guard.
    apply keeps_seq; now apply keeps_assign.
  - apply keeps_setPhone.
  - unfold setEmail. apply keeps_guard.
    apply keeps_seq; [destruct (em_pref x)|]; now intros v.
  - unfold setIM. apply keeps_guard.
    apply keeps_seq; [destruct (im_pref x)|]; now intros v.
  - unfold setLogo. apply keeps_guard. now apply keeps_assign.
Qed.

(** *** The calls build the contact again *)

(** Calls that push their entry, the preferred one after the preference of
    the earlier entries is cleared, build the list of the entries when at
    most one of them is preferred. *)
Lemma for_each_push_pref {A} (set : A -> M unit)
    (get : VCard.VCard -> list A)
    (upd : list A -> VCard.VCard -> VCard.VCard)
    (pref : A -> bool) (clear : A -> A) (P : A -> Prop) :
  (forall x v, P x ->
     set x v = (Return tt,
                upd ((if pref x then map clear (get v) else get v) ++ [x]) v)) ->
  (forall l v, get (upd l v) = l) ->
  (forall l l' v, upd l (upd l' v) = upd l v) ->
  (forall v, upd (get v) v = v) ->
  (forall x, pref x = false -> clear x = x) ->
  forall xs v,
    Forall P xs -> at_most_one pref (get v ++ xs) ->
    for_each (fun m => m) (map set xs) v
    = (Return tt, upd (get v ++ xs) v).
Proof.
  intros Hset Hget Hupd Hid Hclear xs.
  induction xs as [|x xs IH]; intros v HP Hone.
  - simpl. now rewrite app_nil_r, Hid.
  - apply List.Forall_cons_iff in HP as [Hx HP].
    cbn [map for_each]. erewrite run_seq by (apply Hset; exact Hx).
    assert (E : (if pref x then map clear (get v) else get v) = get v).
    { destruct (pref x) eqn:Ex; [|reflexivity].
      unfold at_most_one in Hone.
      rewrite List.filter_app in Hone. cbn [List.filter] in Hone.
      rewrite Ex, length_app in Hone. cbn [length] in Hone.
      assert (Hnil : List.filter pref (get v) = [])
        by (destruct (List.filter pref (get v)); [reflexivity|simpl in Hone; lia]).
      clear - Hnil Hclear.
      induction (get v) as [|y l IHl]; [reflexivity|].
      cbn [List.filter] in Hnil. destruct (pref y) eqn:Ey; [discriminate|].
      cbn [map]. now rewrite Hclear, IHl. }
    rewrite E. rewrite IH.
    + now rewrite Hget, Hupd, <- app_assoc.
    + exact HP.
    + now rewrite Hget, <- app_assoc.
Qed.

(** Calls that push their entry build the list of the entries. *)
Lemma for_each_push_if {A} (set : A -> M unit) (get : VCard.VCard -> list A)
    (upd : list A -> VCard.VCard -> VCard.VCard) (P : A -> Prop) :
  (forall x v, P x -> set x v = (Return tt, upd (get v ++ [x]) v)) ->
  (forall l v, get (upd l v) = l) ->
  (forall l l' v, upd l (upd l' v) = upd l v) ->
  (forall v, upd (get v) v = v) ->
  forall xs v,
    Forall P xs ->
    for_each (fun m => m) (map set xs) v
    = (Return tt, upd (get v ++ xs) v).
Proof.
  intros Hset Hget Hupd Hid xs v HP.
  apply (for_each_push_pref set get upd (fun _ => false) (fun x => x) P);
    auto.
  unfold at_most_one.
  assert (E : forall l : list A, List.filter (fun _ => false) l = [])
    by (induction l; auto).
  rewrite E. simpl. lia.
Qed.

Lemma check_types_pass (allowed types : list jstring) (v : VCard.VCard) :
  Forall (fun x => In x allowed) types ->
  for_each (fun t => if negb (includes allowed t)
                     then throw (js "Invalid Type value.") else ret tt)
    types v = (Return tt, v).
Proof.
  induction 1 as [|t types Ht _ IH]; [reflexivity|].
  cbn [for_each]. apply includes_In in Ht.
  erewrite run_seq by (rewrite Ht; reflexivity). exact IH.
Qed.

Lemma setImage_accepts (u : jstring) :
  image_back u -> dataUriRegex_test u = true.
Proof.
  intros (type & data & -> & Ht & Hd). unfold dataUriRegex_test.
  now rewrite dataUriRegex_image.
Qed.

Ltac one_preferred c H :=
  match goal with
  | |- at_most_one _ (?l ++ _) =>
      replace l with (@nil ltac:(let t := type of l in
                                 match t with list ?a => exact a end))
        by (destruct (bday c), (anniversary c), (gender c); reflexivity);
      exact H
  end.

Lemma replay_run (c : VCard.VCard) :
  comes_back c ->
  for_each (fun m => m) (replay c) (set_specVersion 4 new_VCard)
  = (Return tt, c).
Proof.
  intros [Hver (k & Ek & Hk) [Hn0 Hnames] Hnick Hphoto Hbday Hann Hgender
            Hadr [Htel Htel1] [Hemail Hemail1] [Himpp Himpp1] Htitle Hrole
            Hlogo Horg Hnote Hurl].
  unfold replay. rewrite Ek.
  rewrite for_each_app. erewrite run_seq by reflexivity.
  (* names *)
  rewrite for_each_app.
  assert (Hname : forall v,
            for_each (fun m => m)
              match name c with
              | n0 :: ns => setName n0 :: ret tt :: map setName ns
              | [] => []
              end v
            = (Return tt, set_name (name v ++ name c) v)).
  { intros v. destruct (name c) as [|n0 ns]; [congruence|].
    inversion Hnames as [|? ? [_ H0] Hns]; subst.
    cbn [for_each].
    erewrite run_seq
      by (unfold setName, assign; now rewrite normalized_fixed).
    erewrite run_seq by reflexivity.
    rewrite for_each_setName by exact Hns. cbn. now rewrite <- app_assoc. }
  rewrite (run_seq _ _ _ _ (Hname _)).
  (* nicknames *)
  rewrite for_each_app.
  erewrite run_seq
    by (apply (for_each_push setNickname nickname set_nickname);
        try reflexivity; now intros []).
  (* photos *)
  rewrite for_each_app.
  erewrite run_seq
    by (apply (for_each_push_if setPhoto photo set_photo image_back);
        [intros x v Hx; unfold setPhoto;
         now rewrite (setImage_accepts x Hx)
        |reflexivity|reflexivity|now intros []|exact Hphoto]).
  (* dates *)
  rewrite for_each_app.
  assert (Hbd : forall v,
            for_each (fun m => m)
              match bday c with
              | Some d => [setBday (IsDate d)]
              | None => []
              end v
            = (Return tt,
               match bday c with
               | Some d => set_bday (Some d) v
               | None => v
               end)).
  { intros v. destruct (bday c); reflexivity. }
  rewrite (run_seq _ _ _ _ (Hbd _)).
  rewrite for_each_app.
  assert (Han : forall v,
            for_each (fun m => m)
              match anniversary c with
              | Some d => [setAnniversary (IsDate d)]
              | None => []
              end v
            = (Return tt,
               match anniversary c with
               | Some d => set_anniversary (Some d) v
               | None => v
               end)).
  { intros v. destruct (anniversary c); reflexivity. }
  rewrite (run_seq _ _ _ _ (Han _)).
  (* gender *)
  rewrite for_each_app.
  assert (Hge : forall v,
            for_each (fun m => m)
              match gender c with
              | Some g => [setGender g (gender_ident c)]
              | None => []
              end v
            = (Return tt,
               match gender c with
               | Some g => set_gender_ident (gender_ident c)
                             (set_gender (Some g) v)
               | None => v
               end)).
  { intros v. unfold gender_back in Hgender.
    destruct (gender c) as [g|]; [|reflexivity].
    destruct Hgender as [Hg Hi]. cbn [for_each].
    unfold setGender.
    change [GENDER_MAL; GENDER_FEM; GENDER_OTH; GENDER_NON; GENDER_UNK]
      with gender_codes.
    apply includes_In in Hg. rewrite Hg. cbn [negb].
    destruct (gender_ident c) as [s|]; [|reflexivity].
    destruct Hi as [[Hs _] Hl]. cbn [truthy_opt option_map].
    destruct s as [|x s]; [congruence|].
    cbn [truthy]. rewrite Hl. reflexivity. }
  rewrite (run_seq _ _ _ _ (Hge _)).
  (* addresses *)
  rewrite for_each_app.
  erewrite run_seq
    by (apply (for_each_push
                 (fun a => assign (fun v => set_address (address v ++ [a]) v))
                 address set_address);
        try reflexivity; now intros []).
  (* phones *)
  rewrite for_each_app.
  erewrite run_seq
    by (apply (for_each_push_pref
                 (fun t => setPhone (tel_phone t) (Some (tel_ext t))
                             (Some (TypeArray (tel_type t))) (tel_pref t))
                 tel set_tel tel_pref clear_tel_pref tel_back);
        [intros x v (_ & _ & _ & Hx); unfold setPhone;
         cbn [default_arg];
         erewrite run_seq by (apply check_types_pass; exact Hx);
         destruct x as [p e t []]; reflexivity
        |reflexivity|reflexivity|now intros []
        |intros [p e t []]; [discriminate|reflexivity]
        |exact Htel|one_preferred c Htel1]).
  (* emails *)
  rewrite for_each_app.
  erewrite run_seq
    by (apply (for_each_push_pref
                 (fun e => setEmail (em_email e) (em_pref e))
                 email set_email em_pref clear_email_pref email_back);
        [intros x v (_ & Hx); unfold setEmail; rewrite Hx;
         destruct x as [e []]; reflexivity
        |reflexivity|reflexivity|now intros []
        |intros [e []]; [discriminate|reflexivity]
        |exact Hemail|one_preferred c Hemail1]).
  (* instant messaging *)
  rewrite for_each_app.
  erewrite run_seq
    by (apply (for_each_push_pref
                 (fun i => setIM (im_imurl i) (im_protocol i) (im_pref i))
                 impp set_impp im_pref clear_impp_pref impp_back);
        [intros x v (Hx & _); unfold setIM;
         change [IM_PROTOCOL_SIP; IM_PROTOCOL_XMP; IM_PROTOCOL_IRC;
                 IM_PROTOCOL_YMS; IM_PROTOCOL_MSN; IM_PROTOCOL_AIM;
                 IM_PROTOCOL_IM] with im_protocols;
         apply includes_In in Hx; rewrite Hx;
         destruct x as [u p []]; reflexivity
        |reflexivity|reflexivity|now intros []
        |intros [u p []]; [discriminate|reflexivity]
        |exact Himpp|one_preferred c Himpp1]).
  (* titles, roles, logos, organisations, notes, addresses of the web *)
  rewrite for_each_app.
  erewrite run_seq
    by (apply (for_each_push setTitle title set_title);
        try reflexivity; now intros []).
  rewrite for_each_app.
  erewrite run_seq
    by (apply (for_each_push setRole role set_role);
        try reflexivity; now intros []).
  rewrite for_each_app.
  erewrite run_seq
    by (apply (for_each_push_if setLogo logo set_logo image_back);
        [intros x v Hx; unfold setLogo;
         now rewrite (setImage_accepts x Hx)
        |reflexivity|reflexivity|now intros []|exact Hlogo]).
  rewrite for_each_app.
  erewrite run_seq
    by (apply (for_each_push
                 (fun o => assign (fun v => set_org (org v ++ [o]) v))
                 org set_org);
        try reflexivity; now intros []).
  rewrite for_each_app.
  erewrite run_seq
    by (apply (for_each_push setNote note set_note);
        try reflexivity; now intros []).
  etransitivity;
    [apply (for_each_push
              (fun u => assign (fun v => set_url (url v ++ [u]) v))
              url set_url);
     try reflexivity; now intros []|].
  f_equal. clear - Hver Ek Hgender.
  unfold gender_back in Hgender.
  destruct c as [sv ki na ni ph bd an ge gi ad te em im ti ro lo og no ur].
  cbn in *. subst sv ki.
  destruct bd, an, ge; cbn; try subst gi; reflexivity.
Qed.

(** X25. A contact of version 4 comes back from its text as it is: when the
    kind is one of the four kinds, there is a name and every name is a safe
    value that [setName] leaves as it is, the nicknames are safe and not
    blank, the photos and logos are data URIs of an image, the dates have a
    year from 100 to 9999 and no milliseconds, the gender is one of the five
    codes with a safe identity in lower case without spaces around it, the
    address components are safe and the labels hold no percent sign, no
    equals sign and no backslash followed by the letter n, the phone numbers
    are ten digits with an extension of digits and accepted types, the
    emails are safe and accepted by [setEmail], the IM entries have an
    accepted protocol and a safe address without colon, at most one phone,
    one email and one IM entry is preferred, the titles, roles and notes are
    safe, the organisations have one to three safe parts and the URLs hold
    no backslash, semicolon or line feed and no empty part between colons,
    then [render] returns a text and the parser decodes that text to the
    same contact. *)
Theorem contact_round_trip (c : VCard.VCard) :
  comes_back c ->
  exists text, render c = Return text /\ decode text = (Return tt, c).
Proof.
  intros Hc. destruct (render_replay c Hc) as (rest & Er & Hr).
  unfold render. rewrite Er. cbn [obind].
  eexists. split; [reflexivity|].
  unfold decode.
  rewrite (parse_lines_at 4 rest (replay c) new_VCard (or_intror eq_refl) Hr
             (replay_keeps c)).
  erewrite run_seq by reflexivity.
  now apply replay_run.
Qed.

Lemma contact_round_trip_witness :
  exists text,
    render contact_example = Return text
    /\ decode text = (Return tt, contact_example).
Proof.
  assert (Hs : forall s, safe_test s = true -> clean s).
  { intros s H. apply safe_test_ok in H as (_ & H1 & H2). now split. }
  apply (contact_round_trip contact_example).
  unfold contact_example. constructor; cbn [specVersion kind name nickname
    photo bday anniversary gender gender_ident address tel email impp title
    role logo org note url].
  - reflexivity.
  - eexists. split; [reflexivity|]. vm_compute. tauto.
  - split; [discriminate|]. constructor; [|constructor; [|constructor]].
    + split; [apply safe_test_ok; vm_compute; reflexivity|].
      exact (normalized_stored (js "Pamela Mishaw")).
    + split; [apply safe_test_ok; vm_compute; reflexivity|].
      exact (normalized_stored (js "P. Mishaw, PhD")).
  - constructor; [|constructor].
    split; [apply safe_test_ok|]; vm_compute; reflexivity.
  - constructor; [|constructor].
    exists (js "png"), (js "iVBORw0KGgo="). split; [reflexivity|].
    split; (split; [discriminate|]).
    + repeat constructor; discriminate.
    + repeat constructor.
  - vm_compute. repeat split; discriminate.
  - vm_compute. repeat split; discriminate.
  - split; [vm_compute; tauto|].
    split; [apply safe_test_ok|]; vm_compute; reflexivity.
  - constructor; [|constructor]. split; [|split].
    + repeat constructor; apply safe_test_ok; vm_compute; reflexivity.
    + apply Hs. vm_compute. reflexivity.
    + vm_compute. intuition discriminate.
  - split; [|vm_compute; lia].
    constructor; [|constructor; [|constructor]].
    + split; [reflexivity|]. repeat split; repeat constructor;
        vm_compute; tauto.
    + split; [reflexivity|]. repeat split; repeat constructor.
  - split; [|vm_compute; lia].
    constructor; [|constructor; [|constructor]];
      (split; [apply safe_test_ok|]; vm_compute; reflexivity).
  - split; [|vm_compute; lia].
    constructor; [|constructor]. split; [vm_compute; tauto|].
    eexists. split; [reflexivity|].
    split; [apply safe_test_ok; vm_compute; reflexivity|].
    vm_compute. intuition discriminate.
  - constructor; [|constructor]. apply safe_test_ok. vm_compute. reflexivity.
  - constructor; [|constructor]. apply safe_test_ok. vm_compute. reflexivity.
  - constructor; [|constructor].
    exists (js "svg+xml"), (js "PHN2Zz4="). split; [reflexivity|].
    split; (split; [discriminate|]).
    + repeat constructor; discriminate.
    + repeat constructor.
  - constructor; [|constructor]. split; [discriminate|].
    split; [simpl; lia|].
    repeat constructor; apply safe_test_ok; vm_compute; reflexivity.
  - constructor; [|constructor; [|constructor]];
      apply safe_test_ok; vm_compute; reflexivity.
  - constructor; [|constructor].
    repeat split; try (vm_compute; intuition discriminate).
    vm_compute. repeat constructor; discriminate.
Defined.
